(* ===== verification/_CoqProject ===== *)
-Q . S2P
Prelude.v
ListHead.v
ListIter.v
JHash.v
MemPool.v
BlockPool.v
HashTable.v
HashRep.v
HashSpec.v
MsgQueue.v
RbTree.v
RbRep.v
RbInsert.v
RbWalk.v
RbErase.v
RbSpec.v
Timers.v
TimerFormat.v
TimerTree.v
TimerKeep.v
TimerInv.v
TimerPass.v
TimerFire.v
TimerSpec.v
TimerLive.v
TimerPending.v
Task.v
Signal.v
Sched.v
SchedInv.v
SchedProps.v
ThreadLib.v
SchedFrame.v
SchedSpec.v
ThreadSpec.v
SchedSafe.v
RoundRobin.v
TaskLib.v
TaskLibSpec.v
OsThreads.v
Kernel.v
LoopUses.v
KernelInv.v
KernelSpec.v
KernelSafe.v
KernelRuns.v
Dump.v
Host.v
HostSpec.v
PthHost.v
PthTimers.v
PthLocks.v
PthSpec.v
PthRuns.v
