(* ===== verification/Prelude.v ===== *)
(** * TmULThreads: a user-level thread library and its data structures

    ** The program

    TmULThreads (src/) runs many tasks on one thread of the host.  A 20 ms tick
    signal drives it: the handler advances the clock, wakes the soft-interrupt
    daemon when timers may be due, accounts the time slice and calls [schedule],
    which picks the best ready task and switches to it.  Its parts are

    - src/cmn: intrusive lists (list.h), red-black trees (rbtree.c, rbtree.h), hash
      functions (jhash.h), hash tables (hashlib.c);
    - src/mem/mem_main.c: pools of fixed-size blocks, used by the hash tables and by the
      message queues (src/core/msg_queue.c);
    - src/core: the scheduler (sched.c), tasks, events and signals (thread_lib.c,
      interrupt.c), locks (lock.c), waiting for descriptors (iostream.c), soft
      interrupts (soft_irq.c), start-up (tmlibinit.c), threads of the host (switch_to_os.c);
    - src/TASK: a task library over this scheduler or over pthreads;
    - src/TIMERS: timers in four wheels (ticks, seconds, minutes, hours).

    There are two builds.  With SFS_WANTED the tasks run on one kernel thread, at 50 ticks a
    second.  Without it each task is a pthread, there are 100 ticks a second, and the scheduler
    is not used.  Both are modelled: the first by Task.v to HostSpec.v below, the second by
    PthHost.v to PthRuns.v, MsgQueue.v and the pthread half of TaskLib.v; lists, trees, pools,
    hash tables and the timer wheels are shared.

    ** How the code is modelled

    A C function over the state [S] is a computation in [M S] (this file): a function
    that returns a result and a new state, or [None] for undefined behaviour (an
    access to memory that is not there, a use after free, an index out of range).
    Structures are records in finite maps from addresses; intrusive links are kept
    as links, so that aliasing, dangling nodes and use after free are visible.
    Integers are [Z], with the wrap-around of their C type written out ([u32], [s32],
    [slong], [ulong]).  Loops that are not structural take fuel; the functions of the
    code choose it themselves as the size of the store they walk through, and the
    theorems show that it is never exhausted: [wp m Q s] states that [m] runs to
    completion from [s] and ends in [Q].

    What the library asks of its host is a parameter: [Env] of Task.v (the clock
    [times], memory, [backtrace]), [MemEnv] of MemPool.v (memory), [TmEnv] of Timers.v
    (memory and the time-out handlers), [HashEnv] of HashTable.v (memory and what it
    holds when it is handed out), [KEnv] of Kernel.v (the handlers of applications),
    [OsEnv] of OsThreads.v (the threads of the host), [TlEnv] and [PthEnv] of TaskLib.v (memory
    and pthreads for the task library), [HostEnv] of Host.v (the answers of all other calls
    of the host), [PtEnv] of PthTimers.v (memory and handlers of the pthread build).  The
    ticks of a second are the class [TickRate] of Timers.v, with an instance for each build;
    the lemmas on the wheels hold for every rate from 1 to 1024 ([RateOk]).

    ** The files

    - Prelude.v: the monad, its triples [wp], machine integers, automation.
    - ListHead.v: list.h.  [dll m h xs]: the ring at [h] holds [xs].  Every operation
      implements its counterpart on sequences.  ListIter.v: the iteration macros of list.h, with
      any body.  LoopUses.v: the loops of the code are these macros.
    - JHash.v: jhash.h on 32-bit words.
    - MemPool.v: mem_main.c.  [pools]: the invariant of the pools; allocation takes the
      lowest free block, and a block is given back exactly once.
    - RbTree.v: rbtree.c and rbtree.h over a store of nodes with packed parent and
      colour.  RbRep.v: [is_tree], the tree a store holds, with a zipper for the place
      where the code works.  RbInsert.v, RbErase.v: the rebalancing loops.  RbWalk.v:
      traversal and replacement.  RbSpec.v: the promises: insertion and removal act on
      the in-order sequence as they should and keep the red-black conditions.
    - Timers.v: src/TIMERS.  TimerFormat.v: the packed time format.  TimerTree.v: one
      wheel.  TimerInv.v: the invariant of all wheels, [pass] (what one call of
      [process_timers] does to one timer).  TimerPass.v: a tick processes every timer as
      the passes say.  TimerFire.v: when a timer fires.  TimerSpec.v: the promises.
      TimerKeep.v: processing a tick leaves the handlers of the timers alone.  TimerLive.v: the
      timers that are running, and their count.  TimerPending.v: whether a service is due.
    - Task.v: the task structures and the global state.  Signal.v: signals.  Sched.v:
      sched.c and the queues of iostream.c.  SchedFrame.v: what the operations leave alone.
      SchedInv.v: the abstract queues and the
      invariant.  SchedProps.v: lookup, time slices, usage.  SchedSpec.v: the promises of
      the scheduler.
    - ThreadLib.v: thread_lib.c, lock.c, the start-up.  ThreadSpec.v: their promises.
    - SchedSafe.v: runs of these operations in any order.  [safe]: the invariant of all of
      them, [step]: one operation its guard admits.
    - RoundRobin.v: who runs when nothing happens between calls of [schedule].
    - TaskLib.v: src/TASK, tsk_main.c and tsk_util.c over the class [TaskPort], which
      tsk_sched.c (this scheduler) and tsk_lnx.c (pthreads) implement.  TaskLibSpec.v: its
      promises.
    - OsThreads.v: leaving the scheduler for threads of the host and coming back
      (sched.c, switch_to_os.c), and one turn of the idle loop.
    - BlockPool.v: the interface [BlockPool], what a client expects of a memory pool;
      the pools of MemPool.v are an instance.  The hash tables and the message queues
      are proved against the interface.
    - HashTable.v: hashlib.c.  HashRep.v: [table], the abstract map a table holds, and [chained],
      the map with the chains of the buckets.
      HashSpec.v: lookup, insertion, deletion, walk, flush and creation on that map.
    - MsgQueue.v: the queues of msg_queue.c (pthread build) as sequences of messages.
    - Kernel.v: soft_irq.c, the tick handler of interrupt.c, [update_times], the sleeps and
      the loops of iostream.c around a system call: timers and scheduler in one state,
      with [wakeup_task] as the time-out handler.  KernelInv.v: the run of the tick handler
      and of the daemon.  KernelSpec.v: their promises.  KernelSafe.v: [machine], the invariant
      of timers, soft interrupts and tasks together, kept by every operation.  KernelRuns.v: runs
      of the whole machine.
    - Dump.v: the listings and stack traces of sched.c, [seg_fault], [show_uptime].
    - Host.v: the calls of the host (interrupt.c, iostream.c, the SFS half of msg_queue.c and the
      locks of the wheels), and [tmlib_init].  HostSpec.v: [tm_select], and the start of the library
      up to the first sleep of [main].
    - PthHost.v: common.c.  PthTimers.v: the two timer threads of thr_spec.c and the semaphores of
      lock.c, which implement the interface [WheelLocks] that Timers.v takes and gives back the locks of the
      wheels through (in the SFS build they do nothing).  PthLocks.v: every operation on timers gives back the
      semaphores it takes and then does what it does without them.  PthSpec.v: one turn of each
      thread.  PthRuns.v: runs of them.

    ** What the theorems show

    - Lists, trees, pools: each operation refines the operation on sequences (or sets of
      blocks) and keeps the representation invariant.
    - Timers: the wheels stay sorted red-black trees; a tick moves each timer as a
      reference function of that timer alone says; a timer of [n] ticks expires at
      the tick that the reference function [fire_time] gives; the bottom half calls each
      handler once.
    - Scheduler: the queue invariant is kept by sleeping, waking and switching; the
      choice is the cached task of the last wake-up, and the first task of the best queue when there is none; a woken task of a better priority
      runs next; the tasks of one priority take turns, except that a woken task keeps the
      processor from the others until it sleeps.
    - Tasks: creation, events, locks, delivery of signals.
    - Runs: from a safe state every sequence of operations that their guards admit runs to
      completion, and each task stays on exactly one queue.  The guards say what the code does
      not survive: the idle task that waits, a lock that is held, cancelling a task.
    - The task library: creation on both builds, lookup, deletion, events.
    - Hash tables refine finite maps; message queues are first in, first out.
    - Tick: a tick at which a timer is due switches to the daemon if the daemon beats the current and the cached
      task; after its turn every
      task whose sleep is over is ready; [sleep] leaves the task waiting with the timer
      that wakes it.
    - The whole machine: after [tmlib_init] and the first [sleep] of [main], on any host with memory for six
      tasks' blocks, any sequence of ticks, turns of the daemon, sleeps and operations of tasks that their guards admit
      runs to completion.  A task that sleeps is made ready by the turn of the daemon of exactly its
      tick as long as the daemon has its turn before the next one ([prompt]); a timer whose tick
      went by before that is lost.  A turn of the daemon is atomic with respect to ticks.
    - Pthread build: any sequence of ticks, turns of the service thread and new timers runs to
      completion, with every semaphore free again, and no timer is lost, however late the service thread is.
      The time-out handlers are any computations on timers and tasks; these theorems assume that they leave the
      timers alone ([handlers_ok]).  A turn of a thread
      is atomic here: what the missing locks around [expd_tmrs] allow inside a turn is not
      modelled.
    - Iteration, listings: the safe loops visit every entry and end; a listing shows every task
      but those that wait for a lock.
    - Theorems named [_crashes], [_leaks], [_dangles], [_never_] and the like state
      defects of the code.

    ** What is not modelled

    - tsk_stub.c and tsk_win.c (they do not link), multi_core.c and debug.c (they do not build),
      the empty functions of idx.c, the demo program t.c.
    - The context save in assembly (setjmp.S), the attributes of the host's threads, and
      [sys_fork] and [tm_exit], which do nothing.
    - Interleavings inside a turn of a thread of the pthread build.
    - A function that blocks is modelled up to the switch ([lock_turn] and the like): what
      runs after the switch is a later turn of the same task. *)

From stdpp Require Export ssreflect gmap numbers.
From stdpp Require Export list.

(** ** The state-and-undefined-behaviour monad

    A C function that reads and writes the state [S] and returns an [A].
    [None] is undefined behaviour: a dereference of an invalid pointer, an
    out-of-range array access, or a use of freed memory. *)
Definition M (S A : Type) : Type := S → option (A * S).

#[global] Instance M_ret S : MRet (M S) := λ A a s, Some (a, s).
#[global] Instance M_bind S : MBind (M S) := λ A B k m s,
  match m s with Some (a, s') => k a s' | None => None end.

(** Undefined behaviour. *)
Definition ub {S A} : M S A := λ _, None.
(** Read a projection of the state. *)
Definition gets {S A} (f : S → A) : M S A := λ s, Some (f s, s).
(** Update the state. *)
Definition modify {S} (f : S → S) : M S unit := λ s, Some (tt, f s).
(** A partial read: the value, or undefined behaviour. *)
Definition liftO {S A} (o : option A) : M S A := λ s,
  match o with Some a => Some (a, s) | None => None end.
(** Run a computation on a part of the state. *)
Definition zoom {S T A} (g : S → T) (p : T → S → S) (m : M T A) : M S A := λ s,
  match m (g s) with Some (a, t) => Some (a, p t s) | None => None end.
(** C's [if (c) m] without an else branch. *)
Definition when {S} (c : bool) (m : M S unit) : M S unit :=
  if c then m else mret tt.

(** ** Total-correctness triples

    [wp m Φ s]: started in [s], [m] runs to completion without undefined
    behaviour, and its result and final state satisfy [Φ]. *)
Definition wp {S A} (m : M S A) (Φ : A → S → Prop) (s : S) : Prop :=
  match m s with Some (a, s') => Φ a s' | None => False end.

Section wp.
Context {S : Type}.

Lemma wp_ret {A} (a : A) Φ (s : S) : Φ a s → wp (mret a) Φ s.
Proof. done. Qed.
Lemma wp_bind {A B} (m : M S A) (k : A → M S B) Φ s :
  wp m (λ a, wp (k a) Φ) s → wp (m ≫= k) Φ s.
Proof. rewrite /wp /mbind /M_bind. by destruct (m s) as [[]|]. Qed.
Lemma wp_gets {A} (f : S → A) Φ s : Φ (f s) s → wp (gets f) Φ s.
Proof. done. Qed.
Lemma wp_modify (f : S → S) Φ s : Φ tt (f s) → wp (modify f) Φ s.
Proof. done. Qed.
Lemma wp_liftO {A} (o : option A) a Φ (s : S) :
  o = Some a → Φ a s → wp (liftO o) Φ s.
Proof. by intros ->. Qed.
Lemma wp_mono {A} (m : M S A) (Φ Ψ : A → S → Prop) s :
  wp m Φ s → (∀ a s', Φ a s' → Ψ a s') → wp m Ψ s.
Proof. rewrite /wp. destruct (m s) as [[]|]; eauto. Qed.
Lemma wp_zoom {T A} (g : S → T) p (m : M T A) Φ s :
  wp m (λ a t, Φ a (p t s)) (g s) → wp (zoom g p m) Φ s.
Proof. rewrite /wp /zoom. by destruct (m (g s)) as [[]|]. Qed.
Lemma wp_when (c : bool) (m : M S unit) Φ s :
  (c = true → wp m Φ s) → (c = false → Φ tt s) → wp (when c m) Φ s.
Proof. destruct c; cbn; auto. Qed.
Lemma wp_inv {A} (m : M S A) Φ s :
  wp m Φ s → ∃ a s', m s = Some (a, s') ∧ Φ a s'.
Proof. rewrite /wp. destruct (m s) as [[a s']|]; naive_solver. Qed.
Lemma wp_unit_inv (m : M S unit) (Φ : S → Prop) s :
  wp m (λ _, Φ) s → ∃ s', m s = Some (tt, s') ∧ Φ s'.
Proof. intros ([]&s'&?&?)%wp_inv. eauto. Qed.
Lemma wp_intro {A} (m : M S A) (Φ : A → S → Prop) s a s' :
  m s = Some (a, s') → Φ a s' → wp m Φ s.
Proof. by rewrite /wp=> ->. Qed.

(** Running a sequence whose first part is known. *)
Lemma bind_run {A B} (m : M S A) (k : A → M S B) s a s' :
  m s = Some (a, s') → (m ≫= k) s = k a s'.
Proof. by rewrite /mbind /M_bind=> ->. Qed.
Lemma bind_inv {A B} (m : M S A) (k : A → M S B) s b s' :
  (m ≫= k) s = Some (b, s') → ∃ a s1, m s = Some (a, s1) ∧ k a s1 = Some (b, s').
Proof. rewrite /mbind /M_bind. destruct (m s) as [[a s1]|]; [|done]. eauto. Qed.
End wp.

(** Equal computations, from one state. *)
Lemma bind_assoc2 {S A B C} (m1 : M S A) (f : A → M S B) (k : B → M S C) (s : S) :
  (a ← m1; b ← f a; k b) s = (b ← (a ← m1; f a); k b) s.
Proof. rewrite /mbind /M_bind. by destruct (m1 s) as [[? s1]|]. Qed.
Lemma bind_ext {T X Y} (m m' : M T X) (k k' : X → M T Y) (s : T) :
  m s = m' s → (∀ x s', k x s' = k' x s') → (m ≫= k) s = (m' ≫= k') s.
Proof. rewrite /mbind /M_bind. intros -> Hk. by destruct (m' s) as [[x s']|]. Qed.
Lemma bind_ret_map {T X Y Z} (m : M T X) (f : X → Y) (k : Y → M T Z) (s : T) : ((x ← m; mret (f x)) ≫= k) s = (x ← m; k (f x)) s.
Proof. rewrite /mbind /M_bind. by destruct (m s) as [[x s']|]. Qed.

(** ** Partial correctness

    [wlp m Φ s]: if [m] runs to completion from [s], its result satisfies [Φ].
    Used for what holds wherever a computation completes, and to show that it cannot. *)
Definition wlp {S A} (m : M S A) (Φ : A → S → Prop) (s : S) : Prop :=
  ∀ a s', m s = Some (a, s') → Φ a s'.

Section wlp.
Context {S : Type}.

Lemma wlp_of_wp {A} (m : M S A) Φ s : wp m Φ s → wlp m Φ s.
Proof. rewrite /wp=> Hm a s' E. by rewrite E in Hm. Qed.
Lemma wlp_bind {A B} (m : M S A) (k : A → M S B) Φ s :
  wlp m (λ a, wlp (k a) Φ) s → wlp (m ≫= k) Φ s.
Proof.
  rewrite /wlp /mbind /M_bind=> Hm b s'. destruct (m s) as [[a s1]|]; [|done]. by apply Hm.
Qed.
Lemma wlp_ub {A} Φ (s : S) : wlp (ub : M S A) Φ s.
Proof. done. Qed.
Lemma wlp_fails {A} (m : M S A) s : wlp m (λ _ _, False) s → m s = None.
Proof. rewrite /wlp. destruct (m s) as [[a s']|]; [|done]. intros Hm. by destruct (Hm a s'). Qed.
End wlp.

(** ** Computations that respect a relation

    [respects R m]: wherever [m] completes, the state it ends in is related to the one it
    started in.  One rule for each construct of the monad; [respect] applies them and the
    facts of the hint database [respects]. *)
Definition respects {S A} (R : S → S → Prop) (m : M S A) : Prop := ∀ s, wlp m (λ _ s', R s s') s.

Section respects.
Context {S : Type} (R : S → S → Prop) `{HR : !PreOrder R}.
Implicit Types s : S.

Lemma respects_bind {A B} (m : M S A) (k : A → M S B) : respects R m → (∀ a, respects R (k a)) → respects R (m ≫= k).
Proof.
  intros Hm Hk s. apply wlp_bind. intros a s1 H1 b s2 H2. etrans; [exact (Hm s a s1 H1)|exact (Hk a s1 b s2 H2)].
Qed.
Lemma respects_same {A} (m : M S A) : (∀ s a s', m s = Some (a, s') → s' = s) → respects R m.
Proof. intros Hm s a s' ->%Hm. reflexivity. Qed.
Lemma respects_ret {A} (a : A) : respects R (mret a).
Proof. apply respects_same. by intros s b s' [= _ <-]. Qed.
Lemma respects_gets {A} (f : S → A) : respects R (gets f).
Proof. apply respects_same. by intros s b s' [= _ <-]. Qed.
Lemma respects_liftO {A} (o : option A) : respects R (liftO o).
Proof. apply respects_same. intros s b s'. destruct o; [|done]. by intros [= _ <-]. Qed.
Lemma respects_ub {A} : respects R (ub : M S A).
Proof. done. Qed.
Lemma respects_modify (f : S → S) : (∀ s, R s (f s)) → respects R (modify f).
Proof. intros Hf s a s' [= _ <-]. apply Hf. Qed.
Lemma respects_when b (m : M S unit) : respects R m → respects R (when b m).
Proof. destruct b; [done|]. intros _. apply respects_ret. Qed.
Lemma respects_zoom {T A} (g : S → T) (p : T → S → S) (m : M T A) : (∀ s t, R s (p t s)) → respects R (zoom g p m).
Proof. intros Hp s a s'. rewrite /zoom. destruct (m (g s)) as [[b t]|]; [|done]. intros [= _ <-]. apply Hp. Qed.
(** A value that may be absent. *)
Lemma respects_liftO_bind {A B} (o : option A) (k : A → M S B) :
  (∀ a, o = Some a → respects R (k a)) → respects R (liftO o ≫= k).
Proof. destruct o as [a|]; [|done]. intros Hk s b s' Hr. by apply (Hk a eq_refl s b). Qed.
End respects.
Lemma respects_wp {S A} (R : S → S → Prop) (m : M S A) (Φ : A → S → Prop) s :
  respects R m → wp m Φ s → wp m (λ a s', Φ a s' ∧ R s s') s.
Proof. intros Hm. rewrite /wp. destruct (m s) as [[a s']|] eqn:E; [|done]. intros HΦ. split; [done|by apply (Hm s a)]. Qed.

Create HintDb respects discriminated.
#[export] Hint Resolve respects_ret respects_gets respects_liftO respects_ub : respects.
#[export] Hint Extern 0 (PreOrder _) => apply _ : respects.
Ltac respects_seq :=
  lazymatch goal with |- respects ?R (?m ≫= ?k) => refine (respects_bind R m k _ _) end.
Ltac respects_cond :=
  lazymatch goal with |- respects ?R (when ?b ?m) => refine (respects_when R b m _) end.
Ltac respect_step :=
  first [ solve [auto with respects nocore]
        | apply respects_liftO_bind; intros ? ?
        | respects_seq; [|intros ?]
        | respects_cond
        | progress case_match
        | progress cbv zeta ].
Ltac respect := repeat respect_step.

(** One symbolic step of a triple. *)
Ltac wp_step :=
  lazymatch goal with
  | |- wp (_ ≫= _) _ _ => apply wp_bind
  | |- wp (mret _) _ _ => apply wp_ret
  | |- wp (gets _) _ _ => apply wp_gets
  | |- wp (modify _) _ _ => apply wp_modify
  | |- wp (zoom _ _ _) _ _ => apply wp_zoom
  | |- wp (liftO _) _ _ => eapply wp_liftO; [eassumption|]
  end.
Ltac wp_steps := repeat (wp_step; cbn beta).

(** ** Fixed-width integers *)

(** [unsigned int] and [int] of the i386 and x86-64 targets. *)
Definition u32 (z : Z) : Z := (z `mod` 2 ^ 32)%Z.
Definition s32 (z : Z) : Z := ((z + 2 ^ 31) `mod` 2 ^ 32 - 2 ^ 31)%Z.

Lemma u32_range z : (0 ≤ u32 z < 2 ^ 32)%Z.
Proof. apply Z.mod_pos_bound. lia. Qed.
Lemma u32_small z : (0 ≤ z < 2 ^ 32)%Z → u32 z = z.
Proof. intros. by apply Z.mod_small. Qed.
Lemma s32_range z : (- 2 ^ 31 ≤ s32 z < 2 ^ 31)%Z.
Proof. rewrite /s32. pose proof (Z.mod_pos_bound (z + 2 ^ 31) (2 ^ 32)). lia. Qed.
Lemma s32_small z : (- 2 ^ 31 ≤ z < 2 ^ 31)%Z → s32 z = z.
Proof. intros. rewrite /s32 Z.mod_small; lia. Qed.

(** C truth value of an integer. *)
Definition truthy (z : Z) : bool := negb (z =? 0)%Z.
(** C's [!e] and comparison results as integers. *)
Definition b2z (b : bool) : Z := if b then 1%Z else 0%Z.

Lemma truthy_true z : truthy z = true ↔ z ≠ 0%Z.
Proof. rewrite /truthy negb_true_iff Z.eqb_neq. done. Qed.
Lemma truthy_false z : truthy z = false ↔ z = 0%Z.
Proof. rewrite /truthy negb_false_iff Z.eqb_eq. done. Qed.

(** ** Lists *)
Lemma NoDup_snoc {A} (x : A) xs : NoDup (xs ++ [x]) ↔ x ∉ xs ∧ NoDup xs.
Proof. rewrite NoDup_app. pose proof (NoDup_singleton x). set_solver. Qed.

(** ** Automation shared by the components *)
Create HintDb tm discriminated.
#[export] Hint Resolve wp_ret u32_range s32_range : tm.
