(* ===== verification/ListHead.v ===== *)
(** * The intrusive doubly linked list (src/cmn/list.h)

    A [list_head] is a pair of pointers; every list is a ring through a head
    node that is not an element.  The store maps the address of every
    initialised [list_head] to its two pointers; an access outside the store is
    undefined behaviour.  Every function of list.h is a state transformer on
    this store.  [dll m h xs] says that the ring at [h] holds the elements [xs]
    in order, and each operation is shown to implement the list operation it
    is named after, leaving every node outside the rings it is given alone. *)

From S2P Require Import Prelude.

Record list_head (A : Type) := LH { next : A; prev : A }.
Arguments LH {A} _ _.
Arguments next {A} _.
Arguments prev {A} _.

Section ListHead.
Context {A : Type} `{Countable A}.

Abbreviation lmem := (gmap A (list_head A)).
Implicit Types (m : lmem) (a b h x y : A) (xs ys zs : list A).

(** ** Pointer accesses *)
Definition get_next a : M lmem A := λ m,
  match m !! a with Some n => Some (next n, m) | None => None end.
Definition get_prev a : M lmem A := λ m,
  match m !! a with Some n => Some (prev n, m) | None => None end.
Definition set_next a b : M lmem unit := λ m,
  match m !! a with Some n => Some (tt, <[a := LH b (prev n)]> m) | None => None end.
Definition set_prev a b : M lmem unit := λ m,
  match m !! a with Some n => Some (tt, <[a := LH (next n) b]> m) | None => None end.

(** ** The functions of list.h *)

(** Writes both pointers; also how a fresh node enters the store. *)
Definition INIT_LIST_HEAD a : M lmem unit := modify <[a := LH a a]>.

Definition __list_add (new prev next : A) : M lmem unit :=
  set_prev next new;;
  set_next new next;;
  set_prev new prev;;
  set_next prev new.

Definition list_add (new head : A) : M lmem unit :=
  n ← get_next head;
  __list_add new head n.

Definition list_add_tail (new head : A) : M lmem unit :=
  p ← get_prev head;
  __list_add new p head.

Definition __list_del (prev next : A) : M lmem unit :=
  set_prev next prev;;
  set_next prev next.

Definition list_del (entry : A) : M lmem unit :=
  p ← get_prev entry;
  n ← get_next entry;
  __list_del p n.

Definition list_replace (old new : A) : M lmem unit :=
  n ← get_next old;
  set_next new n;;
  n' ← get_next new;
  set_prev n' new;;
  p ← get_prev old;
  set_prev new p;;
  p' ← get_prev new;
  set_next p' new.

Definition list_replace_init (old new : A) : M lmem unit :=
  list_replace old new;;
  INIT_LIST_HEAD old.

Definition list_del_init (entry : A) : M lmem unit :=
  p ← get_prev entry;
  n ← get_next entry;
  __list_del p n;;
  INIT_LIST_HEAD entry.

Definition list_move (l head : A) : M lmem unit :=
  p ← get_prev l;
  n ← get_next l;
  __list_del p n;;
  list_add l head.

Definition list_move_tail (l head : A) : M lmem unit :=
  p ← get_prev l;
  n ← get_next l;
  __list_del p n;;
  list_add_tail l head.

Definition list_is_last (l head : A) : M lmem bool :=
  n ← get_next l;
  mret (bool_decide (n = head)).

Definition list_empty (head : A) : M lmem bool :=
  n ← get_next head;
  mret (bool_decide (n = head)).

Definition list_empty_careful (head : A) : M lmem bool :=
  n ← get_next head;
  if bool_decide (n = head)
  then p ← get_prev head; mret (bool_decide (n = p))
  else mret false.

Definition list_is_singular (head : A) : M lmem bool :=
  e ← list_empty head;
  if (e : bool) then mret false
  else n ← get_next head; p ← get_prev head; mret (bool_decide (n = p)).

Definition __list_cut_position (l head entry : A) : M lmem unit :=
  new_first ← get_next entry;
  n ← get_next head;
  set_next l n;;
  n' ← get_next l;
  set_prev n' l;;
  set_prev l entry;;
  set_next entry l;;
  set_next head new_first;;
  set_prev new_first head.

Definition list_cut_position (l head entry : A) : M lmem unit :=
  e ← list_empty head;
  if (e : bool) then mret tt else
  s ← list_is_singular head;
  n ← get_next head;
  if (s : bool) && (bool_decide (n ≠ entry) && bool_decide (head ≠ entry))
  then mret tt
  else if bool_decide (entry = head) then INIT_LIST_HEAD l
  else __list_cut_position l head entry.

Definition __list_splice (l prev next : A) : M lmem unit :=
  first ← get_next l;
  last ← get_prev l;
  set_prev first prev;;
  set_next prev first;;
  set_next last next;;
  set_prev next last.

Definition list_splice (l head : A) : M lmem unit :=
  e ← list_empty l;
  if (e : bool) then mret tt else
  n ← get_next head;
  __list_splice l head n.

Definition list_splice_tail (l head : A) : M lmem unit :=
  e ← list_empty l;
  if (e : bool) then mret tt else
  p ← get_prev head;
  __list_splice l p head.

Definition list_splice_init (l head : A) : M lmem unit :=
  e ← list_empty l;
  if (e : bool) then mret tt else
  n ← get_next head;
  __list_splice l head n;;
  INIT_LIST_HEAD l.

Definition list_splice_tail_init (l head : A) : M lmem unit :=
  e ← list_empty l;
  if (e : bool) then mret tt else
  p ← get_prev head;
  __list_splice l p head;;
  INIT_LIST_HEAD l.

(** [list_for_each (pos, head)]: the nodes the cursor [pos] visits, in order.
    The fuel bounds the number of nodes; [None] when it runs out. *)
Fixpoint list_walk (fuel : nat) (pos head : A) : M lmem (list A) :=
  if bool_decide (pos = head) then mret []
  else match fuel with
       | 0%nat => ub
       | S fuel =>
           n ← get_next pos;
           l ← list_walk fuel n head;
           mret (pos :: l)
       end.

(** The store bounds the number of distinct nodes, hence the fuel. *)
Definition list_for_each (head : A) : M lmem (list A) :=
  sz ← gets size;
  n ← get_next head;
  list_walk sz n head.

(** [list_for_each_prev]: the same, backwards. *)
Fixpoint list_walk_prev (fuel : nat) (pos head : A) : M lmem (list A) :=
  if bool_decide (pos = head) then mret []
  else match fuel with
       | 0%nat => ub
       | S fuel =>
           n ← get_prev pos;
           l ← list_walk_prev fuel n head;
           mret (pos :: l)
       end.

Definition list_for_each_prev (head : A) : M lmem (list A) :=
  sz ← gets size;
  p ← get_prev head;
  list_walk_prev sz p head.

(** ** Reading a store through its two pointer fields *)
Definition nxt m a : option A := next <$> m !! a.
Definition prv m a : option A := prev <$> m !! a.
Definition upd_next a b m : lmem := alter (λ n, LH b (prev n)) a m.
Definition upd_prev a b m : lmem := alter (λ n, LH (next n) b) a m.

(** [seg m a xs b]: following [next] from [a] visits [xs] and then [b], and
    [prev] undoes every step. *)
Fixpoint seg m a xs b : Prop :=
  match xs with
  | [] => nxt m a = Some b ∧ prv m b = Some a
  | x :: xs => nxt m a = Some x ∧ prv m x = Some a ∧ seg m x xs b
  end.

(** The ring at [h] holds exactly the elements [xs]. *)
Definition dll m h xs : Prop := NoDup (h :: xs) ∧ seg m h xs h.

(** ** Single writes *)
Lemma nxt_upd_next a b m x :
  nxt (upd_next a b m) x = if decide (a = x) then (λ _, b) <$> m !! x else nxt m x.
Proof.
  rewrite /nxt /upd_next lookup_alter. case_decide; [|done].
  subst. by destruct (m !! x).
Qed.
Lemma prv_upd_next a b m x : prv (upd_next a b m) x = prv m x.
Proof.
  rewrite /prv /upd_next lookup_alter. case_decide; [|done].
  subst. by destruct (m !! x).
Qed.
Lemma prv_upd_prev a b m x :
  prv (upd_prev a b m) x = if decide (a = x) then (λ _, b) <$> m !! x else prv m x.
Proof.
  rewrite /prv /upd_prev lookup_alter. case_decide; [|done].
  subst. by destruct (m !! x).
Qed.
Lemma nxt_upd_prev a b m x : nxt (upd_prev a b m) x = nxt m x.
Proof.
  rewrite /nxt /upd_prev lookup_alter. case_decide; [|done].
  subst. by destruct (m !! x).
Qed.
Lemma upd_next_valid a b m x : is_Some (upd_next a b m !! x) ↔ is_Some (m !! x).
Proof. by rewrite /upd_next lookup_alter_is_Some. Qed.
Lemma upd_prev_valid a b m x : is_Some (upd_prev a b m !! x) ↔ is_Some (m !! x).
Proof. by rewrite /upd_prev lookup_alter_is_Some. Qed.
Lemma upd_next_ne a b m x : x ≠ a → upd_next a b m !! x = m !! x.
Proof. intros. by rewrite /upd_next lookup_alter_ne. Qed.
Lemma upd_prev_ne a b m x : x ≠ a → upd_prev a b m !! x = m !! x.
Proof. intros. by rewrite /upd_prev lookup_alter_ne. Qed.

Lemma const_valid b m x : is_Some (m !! x) → (λ _, b) <$> m !! x = Some b.
Proof. by intros [? ->]. Qed.
Lemma nxt_valid m x y : nxt m x = Some y → is_Some (m !! x).
Proof. rewrite /nxt. destruct (m !! x); naive_solver. Qed.
Lemma prv_valid m x y : prv m x = Some y → is_Some (m !! x).
Proof. rewrite /prv. destruct (m !! x); naive_solver. Qed.

(** ** Triples of the single accesses *)
Lemma wp_get_next a b Φ m : nxt m a = Some b → Φ b m → wp (get_next a) Φ m.
Proof. rewrite /nxt /get_next /wp. destruct (m !! a); naive_solver. Qed.
Lemma wp_get_prev a b Φ m : prv m a = Some b → Φ b m → wp (get_prev a) Φ m.
Proof. rewrite /prv /get_prev /wp. destruct (m !! a); naive_solver. Qed.
Lemma set_next_eq a b m : is_Some (m !! a) → set_next a b m = Some (tt, upd_next a b m).
Proof.
  intros [n Hn]. rewrite /set_next /upd_next Hn.
  do 2 f_equal. apply map_eq=> i. rewrite lookup_alter lookup_insert.
  case_decide; [|done]. by subst; rewrite Hn.
Qed.
Lemma set_prev_eq a b m : is_Some (m !! a) → set_prev a b m = Some (tt, upd_prev a b m).
Proof.
  intros [n Hn]. rewrite /set_prev /upd_prev Hn.
  do 2 f_equal. apply map_eq=> i. rewrite lookup_alter lookup_insert.
  case_decide; [|done]. by subst; rewrite Hn.
Qed.
Lemma wp_set_next a b (Φ : unit → lmem → Prop) m :
  is_Some (m !! a) → Φ tt (upd_next a b m) → wp (set_next a b) Φ m.
Proof. intros Ha HΦ. by rewrite /wp set_next_eq. Qed.
Lemma wp_set_prev a b (Φ : unit → lmem → Prop) m :
  is_Some (m !! a) → Φ tt (upd_prev a b m) → wp (set_prev a b) Φ m.
Proof. intros Ha HΦ. by rewrite /wp set_prev_eq. Qed.

(** ** Segments *)
Lemma seg_app m a xs y ys b :
  seg m a (xs ++ y :: ys) b ↔ seg m a xs y ∧ seg m y ys b.
Proof.
  revert a. induction xs as [|x xs IH]; intros a; cbn; [tauto|]. rewrite IH. tauto.
Qed.
Lemma seg_frame m m' a xs b :
  (∀ x, x ∈ a :: xs → nxt m' x = nxt m x) →
  (∀ x, x ∈ xs ++ [b] → prv m' x = prv m x) →
  seg m a xs b → seg m' a xs b.
Proof.
  revert a. induction xs as [|x xs IH]; intros a Hn Hp; cbn.
  - rewrite Hn; [|set_solver]. rewrite Hp; [|set_solver]. done.
  - rewrite Hn; [|set_solver]. rewrite Hp; [|set_solver].
    intros (?&?&?). split_and!; [done..|]. apply IH; set_solver.
Qed.
Lemma seg_valid_l m a xs b x : seg m a xs b → x ∈ a :: xs → is_Some (m !! x).
Proof.
  revert a. induction xs as [|y xs IH]; intros a; cbn.
  - intros [Hn _] ->%list_elem_of_singleton. by eapply nxt_valid.
  - intros (Hn&_&Hs) [->|Hx]%elem_of_cons; [by eapply nxt_valid|]. eauto.
Qed.
Lemma seg_valid_r m a xs b : seg m a xs b → is_Some (m !! b).
Proof.
  revert a. induction xs as [|y xs IH]; intros a; cbn.
  - intros [_ Hp]. by eapply prv_valid.
  - intros (_&_&Hs). eauto.
Qed.
Lemma dll_valid m h xs x : dll m h xs → x ∈ h :: xs → is_Some (m !! x).
Proof. intros [_ Hs]. eauto using seg_valid_l. Qed.

(** A ring only depends on its own nodes. *)
Lemma dll_frame m m' h xs :
  (∀ x, x ∈ h :: xs → m' !! x = m !! x) → dll m h xs → dll m' h xs.
Proof.
  intros Hm [Hnd Hs]. split; [done|]. eapply seg_frame, Hs.
  - intros x Hx. by rewrite /nxt Hm.
  - intros x Hx. rewrite /prv Hm; [done|set_solver].
Qed.

(** ** Rings grow and shrink *)
Lemma wp_INIT_LIST_HEAD a m (Φ : unit → lmem → Prop) :
  (∀ m', dll m' a [] → (∀ x, x ≠ a → m' !! x = m !! x) →
     m' !! a = Some (LH a a) → Φ tt m') →
  wp (INIT_LIST_HEAD a) Φ m.
Proof.
  intros HΦ. apply HΦ.
  - split; [apply NoDup_singleton|]. by rewrite /seg /nxt /prv lookup_insert_eq.
  - intros x Hx. by rewrite lookup_insert_ne.
  - by rewrite lookup_insert_eq.
Qed.

(** What a call may have changed: nothing outside [ps], and no node was lost. *)
Definition only (ps : list A) m m' : Prop :=
  (∀ x, x ∉ ps → m' !! x = m !! x) ∧ (∀ x, is_Some (m' !! x) ↔ is_Some (m !! x)).

Lemma only_refl ps m : only ps m m.
Proof. by split. Qed.
Lemma only_trans ps m1 m2 m3 : only ps m1 m2 → only ps m2 m3 → only ps m1 m3.
Proof. intros [H1 H2] [H3 H4]. split=> x; [intros; rewrite H3; auto|by rewrite H4]. Qed.
Lemma only_mono ps qs m m' : ps ⊆ qs → only ps m m' → only qs m m'.
Proof. intros Hs [H1 H2]. split; [|done]. intros x Hx. apply H1. set_solver. Qed.
Lemma only_upd_next ps a b m : a ∈ ps → only ps m (upd_next a b m).
Proof.
  split=> x; [|apply upd_next_valid]. intros. apply upd_next_ne. set_solver.
Qed.
Lemma only_upd_prev ps a b m : a ∈ ps → only ps m (upd_prev a b m).
Proof.
  split=> x; [|apply upd_prev_valid]. intros. apply upd_prev_ne. set_solver.
Qed.
Lemma dll_only ps m m' h xs :
  only ps m m' → (∀ x, x ∈ h :: xs → x ∉ ps) → dll m h xs → dll m' h xs.
Proof. intros [Ho _] Hd. apply dll_frame. auto. Qed.
End ListHead.

#[export] Hint Resolve only_refl only_upd_next only_upd_prev : tm.

(** A node stays valid across writes. *)
Ltac lvalid :=
  repeat first [apply upd_next_valid | apply upd_prev_valid]; by eauto using nxt_valid, prv_valid.

(** Symbolic execution of pointer writes. *)
Ltac lwrite :=
  repeat first
    [ apply wp_bind
    | apply wp_set_next; [lvalid|]
    | apply wp_set_prev; [lvalid|] ]; cbn beta.

(** A chain of writes to listed nodes. *)
Ltac lonly :=
  repeat first
    [ apply only_refl
    | eapply only_trans; [|apply only_upd_next; set_solver]
    | eapply only_trans; [|apply only_upd_prev; set_solver] ].

(** Evaluate the reads of a store that was written several times. *)
Ltac lread :=
  repeat first
    [ rewrite nxt_upd_next | rewrite prv_upd_next
    | rewrite nxt_upd_prev | rewrite prv_upd_prev ];
  repeat case_decide; subst; try congruence; try done;
  try (rewrite const_valid; [done|lvalid]).

(** Decide which node of a ring is meant. *)
Ltac lclear :=
  repeat match goal with
  | H : ∀ _, nxt _ _ = _ |- _ => clear H
  | H : ∀ _, prv _ _ = _ |- _ => clear H
  | H : ∀ _, dll _ _ _ → _ |- _ => clear H
  | H : seg _ _ _ _ |- _ => clear H
  | H : only _ _ _ |- _ => clear H
  end.
Ltac lcase :=
  repeat case_decide; subst; try done; try (split_and!; done);
  exfalso; lclear; set_solver.

Section ListHeadSpec.
Context {A : Type} `{Countable A}.
Implicit Types (m : gmap A (list_head A)) (a b h x y : A) (xs ys zs : list A).
Implicit Types (Φ : unit → gmap A (list_head A) → Prop).

(** [__list_add] between two valid nodes: exactly four pointers change. *)
Lemma wp___list_add new p n m Φ :
  new ≠ p → new ≠ n →
  is_Some (m !! new) → is_Some (m !! p) → is_Some (m !! n) →
  (∀ m', only [new; p; n] m m' →
     (∀ x, nxt m' x = if decide (x = p) then Some new else
                      if decide (x = new) then Some n else nxt m x) →
     (∀ x, prv m' x = if decide (x = new) then Some p else
                      if decide (x = n) then Some new else prv m x) →
     Φ tt m') →
  wp (__list_add new p n) Φ m.
Proof.
  intros Hnp Hnn Hnew Hp Hn HΦ. rewrite /__list_add. lwrite.
  apply HΦ; [lonly | intros x; lread | intros x; lread].
Qed.

(** [__list_del] links two valid nodes to each other. *)
Lemma wp___list_del p n m Φ :
  is_Some (m !! p) → is_Some (m !! n) →
  (∀ m', only [p; n] m m' →
     (∀ x, nxt m' x = if decide (x = p) then Some n else nxt m x) →
     (∀ x, prv m' x = if decide (x = n) then Some p else prv m x) →
     Φ tt m') →
  wp (__list_del p n) Φ m.
Proof.
  intros Hp Hn HΦ. rewrite /__list_del. lwrite.
  apply HΦ; [lonly | intros x; lread | intros x; lread].
Qed.

(** First and last node of a segment's continuation. *)
Lemma seg_nxt m a xs b : seg m a xs b → nxt m a = Some (hd b xs).
Proof. destruct xs; cbn; naive_solver. Qed.
Lemma last_cons_default a x xs : List.last (x :: xs) a = List.last xs x.
Proof.
  revert a x. induction xs as [|y xs IH]; intros a x; [done|].
  change (List.last (y :: xs) a = List.last (y :: xs) x). by rewrite !IH.
Qed.
Lemma seg_prv m a xs b : seg m a xs b → prv m b = Some (List.last xs a).
Proof.
  revert a. induction xs as [|x xs IH]; intros a; [cbn; naive_solver|].
  intros (_&_&Hs). by rewrite last_cons_default (IH _ Hs).
Qed.
Lemma hd_elem b xs : hd b xs ∈ b :: xs.
Proof. destruct xs; set_solver. Qed.
Lemma last_elem a xs : List.last xs a ∈ a :: xs.
Proof. induction xs as [|x xs _] using rev_ind; rewrite ?List.last_last; set_solver. Qed.

(** A segment whose last link is redirected. *)
Lemma seg_relink_r m m' a xs e b :
  NoDup (a :: xs) → seg m a xs e →
  (∀ x, x ∈ a :: xs → x ≠ List.last xs a → nxt m' x = nxt m x) →
  (∀ x, x ∈ xs → prv m' x = prv m x) →
  nxt m' (List.last xs a) = Some b → prv m' b = Some (List.last xs a) →
  seg m' a xs b.
Proof.
  revert a. induction xs as [|x xs IH]; intros a Hnd Hs Hn Hp; [done|].
  rewrite last_cons_default in Hn |- *. intros Hl Hb.
  apply NoDup_cons in Hnd as [Ha Hnd]. destruct Hs as (Hn1&Hp1&Hs). cbn [seg].
  rewrite Hn; [|set_solver|intros ->; apply Ha, last_elem].
  rewrite Hp; [|set_solver]. split_and!; [done..|].
  apply IH; [done..| | |done|done]; intros; [apply Hn|apply Hp]; set_solver.
Qed.
(** A segment whose first link is redirected. *)
Lemma seg_relink_l m m' a a' xs b :
  NoDup (xs ++ [b]) → seg m a xs b →
  (∀ x, x ∈ xs → nxt m' x = nxt m x) →
  (∀ x, x ∈ xs ++ [b] → x ≠ hd b xs → prv m' x = prv m x) →
  nxt m' a' = Some (hd b xs) → prv m' (hd b xs) = Some a' →
  seg m' a' xs b.
Proof.
  destruct xs as [|x xs]; [done|]. intros Hnd (_&_&Hs) Hn Hp Ha Hx.
  cbn [seg hd] in *. split_and!; [done..|].
  apply NoDup_cons in Hnd as [Hxs _].
  eapply seg_frame, Hs; intros y Hy; [by apply Hn|].
  apply Hp; [set_solver|]. set_solver.
Qed.

(** Reads outside the written nodes, and the facts about a ring's nodes. *)
Lemma dll_NoDup m h xs : dll m h xs → h ∉ xs ∧ NoDup xs.
Proof. intros [[??]%NoDup_cons _]. done. Qed.

(** The ways to enter or leave a ring.  The element that is linked may
    have arbitrary pointers before; only the ring and it are written. *)
Lemma wp_list_add new h xs m Φ :
  dll m h xs → new ∉ h :: xs → is_Some (m !! new) →
  (∀ m', dll m' h (new :: xs) → only (new :: h :: xs) m m' → Φ tt m') →
  wp (list_add new h) Φ m.
Proof.
  intros [Hnd Hs] Hnew Hv HΦ. pose proof (seg_nxt _ _ _ _ Hs) as Hn.
  pose proof (hd_elem h xs). rewrite /list_add. apply wp_bind.
  apply: (wp_get_next _ _ _ _ Hn). apply wp___list_add; [set_solver..|done| | |].
  1,2: by eapply seg_valid_l; [done|set_solver].
  intros m' Ho Hn' Hp'. apply HΦ; [|eapply only_mono, Ho; set_solver].
  apply NoDup_cons in Hnd as [Hh Hnd].
  split; [rewrite !NoDup_cons; set_solver|]. cbn [seg].
  rewrite Hn' Hp' !decide_True //. split_and!; [done..|].
  eapply seg_relink_l; [|exact Hs|..].
  - rewrite NoDup_snoc. set_solver.
  - intros x Hx. rewrite Hn'. lcase.
  - intros x Hx Hne. rewrite Hp'. lcase.
  - rewrite Hn'. lcase.
  - rewrite Hp'. lcase.
Qed.

Lemma wp_list_add_tail new h xs m Φ :
  dll m h xs → new ∉ h :: xs → is_Some (m !! new) →
  (∀ m', dll m' h (xs ++ [new]) → only (new :: h :: xs) m m' → Φ tt m') →
  wp (list_add_tail new h) Φ m.
Proof.
  intros [Hnd Hs] Hnew Hv HΦ. pose proof (seg_prv _ _ _ _ Hs) as Hp.
  pose proof (last_elem h xs). rewrite /list_add_tail. apply wp_bind.
  apply: (wp_get_prev _ _ _ _ Hp). apply wp___list_add; [set_solver..|done| | |].
  1,2: by eapply seg_valid_l; [done|set_solver].
  intros m' Ho Hn' Hp'. apply HΦ; [|eapply only_mono, Ho; set_solver].
  pose proof Hnd as [Hh Hnd']%NoDup_cons. split.
  { rewrite NoDup_cons NoDup_snoc. set_solver. }
  apply seg_app. cbn [seg]. rewrite (Hn' new) (Hp' h).
  split; [|lcase]. eapply seg_relink_r; [done|exact Hs|..].
  - intros x Hx Hne. rewrite Hn'. lcase.
  - intros x Hx. rewrite Hp'. lcase.
  - rewrite Hn'. lcase.
  - rewrite Hp'. lcase.
Qed.

(** Unlinking an element; its own pointers are left as they were. *)
Lemma wp_list_del e h xs ys m Φ :
  dll m h (xs ++ e :: ys) →
  (∀ m', dll m' h (xs ++ ys) → only (h :: xs ++ ys) m m' → Φ tt m') →
  wp (list_del e) Φ m.
Proof.
  intros [Hnd Hs] HΦ. pose proof Hs as [Hs1 Hs2]%seg_app.
  pose proof (seg_prv _ _ _ _ Hs1) as Hp. pose proof (seg_nxt _ _ _ _ Hs2) as Hn.
  pose proof (last_elem h xs) as Hlast. pose proof (hd_elem h ys).
  rewrite /list_del. apply wp_bind. apply: (wp_get_prev _ _ _ _ Hp).
  apply wp_bind. apply: (wp_get_next _ _ _ _ Hn).
  apply wp___list_del; [eapply seg_valid_l; [exact Hs|set_solver]..|].
  intros m' Ho Hn' Hp'. apply HΦ; [|eapply only_mono, Ho; set_solver].
  apply NoDup_cons in Hnd as [Hh Hnd].
  apply NoDup_app in Hnd as (Hnd1&Hd&[He Hnd2]%NoDup_cons).
  assert (NoDup (h :: xs)) by (apply NoDup_cons; set_solver).
  clear Hs Hp Hn. split; [rewrite NoDup_cons NoDup_app; set_solver|].
  assert (seg m' h xs (hd h ys)).
  { eapply seg_relink_r; [done|exact Hs1|..].
    - intros x Hx Hne. rewrite Hn'. lcase.
    - intros x Hx. rewrite Hp'. case_decide; [subst; exfalso|done].
      destruct ys; set_solver.
    - rewrite Hn'. by rewrite decide_True.
    - rewrite Hp'. by rewrite decide_True. }
  destruct ys as [|y ys]; cbn [hd] in *; [by rewrite app_nil_r|].
  apply NoDup_cons in Hnd2 as [Hy Hnd2]. destruct Hs2 as (_&_&Hs2).
  apply seg_app. split; [done|].
  eapply seg_frame, Hs2; intros z Hz; rewrite ?Hn' ?Hp';
    case_decide; try done; exfalso; subst; lclear.
  - apply elem_of_cons in Hlast as [Heq|Hin]; [rewrite Heq in Hz; set_solver|].
    apply (Hd _ Hin). set_solver.
  - clear Hd. set_solver.
Qed.

(** ** Queries and traversals *)
Lemma hd_ring_nil h xs : h ∉ xs → (hd h xs = h ↔ xs = []).
Proof. destruct xs; cbn; set_solver. Qed.

Lemma get_next_eq a b m : nxt m a = Some b → get_next a m = Some (b, m).
Proof. rewrite /nxt /get_next. destruct (m !! a); naive_solver. Qed.
Lemma get_prev_eq a b m : prv m a = Some b → get_prev a m = Some (b, m).
Proof. rewrite /prv /get_prev. destruct (m !! a); naive_solver. Qed.

Lemma list_empty_spec h xs m :
  dll m h xs → list_empty h m = Some (bool_decide (xs = []), m).
Proof.
  intros [[Hh Hnd]%NoDup_cons Hs]. pose proof (seg_nxt _ _ _ _ Hs) as Hn.
  rewrite /list_empty /mbind /M_bind (get_next_eq _ _ _ Hn).
  rewrite (bool_decide_ext _ (xs = [])); [done|by apply hd_ring_nil].
Qed.
Lemma wp_list_empty h xs m (Φ : bool → gmap A (list_head A) → Prop) :
  dll m h xs → Φ (bool_decide (xs = [])) m → wp (list_empty h) Φ m.
Proof. intros Hd HΦ. by rewrite /wp (list_empty_spec _ _ _ Hd). Qed.

Lemma list_walk_spec m h xs a fuel :
  seg m a xs h → h ∉ xs → length xs ≤ fuel →
  list_walk fuel (hd h xs) h m = Some (xs, m).
Proof.
  revert a fuel. induction xs as [|x xs IH]; intros a fuel Hs Hh Hf; cbn [hd].
  - destruct fuel; cbn; by rewrite bool_decide_eq_true_2.
  - destruct fuel as [|fuel]; cbn in Hf; [lia|]. cbn [list_walk].
    rewrite bool_decide_eq_false_2; [|set_solver].
    destruct Hs as (_&_&Hs). rewrite /mbind /M_bind.
    rewrite (get_next_eq _ _ _ (seg_nxt _ _ _ _ Hs)).
    by rewrite (IH x fuel Hs) //; [set_solver|lia].
Qed.
Lemma list_walk_prev_spec m h xs b fuel :
  seg m h xs b → h ∉ xs → length xs ≤ fuel →
  list_walk_prev fuel (List.last xs h) h m = Some (reverse xs, m).
Proof.
  revert b fuel. induction xs as [|x xs IH] using rev_ind; intros b fuel Hs Hh Hf.
  - destruct fuel; cbn; by rewrite bool_decide_eq_true_2.
  - rewrite length_app /= in Hf. destruct fuel as [|fuel]; [lia|].
    rewrite List.last_last. cbn [list_walk_prev].
    rewrite bool_decide_eq_false_2; [|set_solver].
    apply seg_app in Hs as [Hs _]. rewrite /mbind /M_bind.
    rewrite (get_prev_eq _ _ _ (seg_prv _ _ _ _ Hs)).
    rewrite (IH x fuel Hs) //; [|set_solver|lia]. by rewrite reverse_snoc.
Qed.
Lemma dll_length m h xs : dll m h xs → length xs ≤ size m.
Proof.
  intros Hd. rewrite -size_dom. pose proof (dll_NoDup _ _ _ Hd) as [_ Hnd].
  rewrite -(size_list_to_set (C:=gset A) xs) //. apply subseteq_size.
  intros x Hx%elem_of_list_to_set. apply elem_of_dom. eapply dll_valid; [done|set_solver].
Qed.

(** Iterating over a ring visits its elements, in either direction. *)
Lemma list_for_each_spec m h xs :
  dll m h xs → list_for_each h m = Some (xs, m).
Proof.
  intros Hd. pose proof Hd as [[Hh _]%NoDup_cons Hs].
  rewrite /list_for_each /mbind /M_bind /=.
  rewrite (get_next_eq _ _ _ (seg_nxt _ _ _ _ Hs)).
  by eapply list_walk_spec; [..|eapply dll_length].
Qed.
Lemma list_for_each_prev_spec m h xs :
  dll m h xs → list_for_each_prev h m = Some (reverse xs, m).
Proof.
  intros Hd. pose proof Hd as [[Hh _]%NoDup_cons Hs].
  rewrite /list_for_each_prev /mbind /M_bind /=.
  rewrite (get_prev_eq _ _ _ (seg_prv _ _ _ _ Hs)).
  by eapply list_walk_prev_spec; [..|eapply dll_length].
Qed.

(** ** Moves *)
(** Unlinking a node that is its own neighbour changes nothing. *)
Lemma list_del_self e m : m !! e = Some (LH e e) → list_del e m = Some (tt, m).
Proof.
  intros He. rewrite /list_del /mbind /M_bind /get_prev /get_next /=.
  rewrite !He /= /__list_del /mbind /M_bind /set_prev /set_next He /=.
  by rewrite !lookup_insert_eq /= insert_insert_eq insert_id.
Qed.

(** Unlinking twice in a row is unlinking once. *)
Lemma list_del_twice e h xs ys m m' :
  dll m h (xs ++ e :: ys) → list_del e m = Some (tt, m') → list_del e m' = Some (tt, m').
Proof.
  intros [Hnd Hs]. pose proof Hs as [Hs1 Hs2]%seg_app.
  pose proof (seg_prv _ _ _ _ Hs1) as Hp. pose proof (seg_nxt _ _ _ _ Hs2) as Hn.
  pose proof (last_elem h xs) as Hl. pose proof (hd_elem h ys) as Hh.
  assert (is_Some (m !! List.last xs h)) by (eapply seg_valid_l; [exact Hs|set_solver]).
  assert (is_Some (m !! hd h ys)) by (eapply seg_valid_l; [exact Hs|set_solver]).
  apply NoDup_cons in Hnd as [Hhe Hnd].
  apply NoDup_app in Hnd as (_&Hd&[He _]%NoDup_cons).
  generalize dependent (List.last xs h). intros p Hp Hl Hvp.
  generalize dependent (hd h ys). intros n Hn Hh Hvn.
  assert (p ≠ e) by set_solver. assert (n ≠ e) by set_solver.
  rewrite /list_del /mbind /M_bind.
  rewrite (get_prev_eq _ _ _ Hp) (get_next_eq _ _ _ Hn).
  rewrite /__list_del /mbind /M_bind set_prev_eq // set_next_eq; [|lvalid].
  intros [= <-].
  rewrite (get_prev_eq _ p); [|by lread]. rewrite (get_next_eq _ n); [|by lread].
  rewrite set_prev_eq; [|lvalid]. rewrite set_next_eq; [|lvalid].
  do 2 f_equal. apply map_eq=> i. rewrite /upd_next /upd_prev !lookup_alter.
  repeat case_decide; subst; try done;
    match goal with |- context [m !! ?x] => by destruct (m !! x) end.
Qed.

(** [list_del_init], [list_move] and [list_move_tail] unlink inline. *)
Lemma bind_del_assoc {B} e (k : M (gmap A (list_head A)) B) m :
  (p ← get_prev e; n ← get_next e; __list_del p n;; k) m = (list_del e;; k) m.
Proof.
  rewrite /list_del /mbind /M_bind. destruct (get_prev e m) as [[p m1]|]; [|done].
  by destruct (get_next e m1) as [[n m2]|].
Qed.
Lemma wp_unlink_inline {B} e (k : M (gmap A (list_head A)) B) Ψ m :
  wp (list_del e;; k) Ψ m → wp (p ← get_prev e; n ← get_next e; __list_del p n;; k) Ψ m.
Proof. by rewrite /wp bind_del_assoc. Qed.

Lemma dll_not_elem m h xs e ys : dll m h (xs ++ e :: ys) → e ∉ h :: xs ++ ys.
Proof.
  intros [[Hh (_&Hx&[Hy _]%NoDup_cons)%NoDup_app]%NoDup_cons _].
  rewrite elem_of_cons elem_of_app. intros [->|[?|?]]; [set_solver| |done].
  eapply Hx; [done|set_solver].
Qed.

Lemma wp_list_del_init e h xs ys m Φ :
  dll m h (xs ++ e :: ys) →
  (∀ m', dll m' h (xs ++ ys) → dll m' e [] → only (e :: h :: xs ++ ys) m m' → Φ tt m') →
  wp (list_del_init e) Φ m.
Proof.
  intros Hd HΦ. apply wp_unlink_inline, wp_bind.
  pose proof (dll_not_elem _ _ _ _ _ Hd) as Hne.
  assert (is_Some (m !! e)) by (eapply dll_valid; [done|set_solver]).
  eapply wp_list_del; [done|]. intros m1 Hd1 [Ho1 Hv1].
  apply wp_INIT_LIST_HEAD. intros m2 Hd2 Ho2 He2. apply HΦ; [|done|split].
  - eapply dll_frame, Hd1. intros x Hx. apply Ho2. set_solver.
  - intros x Hx. rewrite Ho2; [apply Ho1; set_solver|set_solver].
  - intros x. destruct (decide (x = e)) as [->|]; [by rewrite He2|].
    by rewrite Ho2 // Hv1.
Qed.

(** Two rings that share no node. *)
Definition rings_disjoint h xs h' ys : Prop := ∀ x, x ∈ h :: xs → x ∈ h' :: ys → False.

Lemma remove_mid_incl h xs e ys x : x ∈ h :: xs ++ ys → x ∈ h :: xs ++ e :: ys.
Proof. rewrite !elem_of_cons !elem_of_app elem_of_cons. tauto. Qed.

(** Unlinking leaves a disjoint ring alone, and the node free to join it. *)
Lemma wp_list_del_from e h xs ys h' zs m Φ :
  dll m h (xs ++ e :: ys) → dll m h' zs → rings_disjoint h (xs ++ e :: ys) h' zs →
  (∀ m', dll m' h (xs ++ ys) → dll m' h' zs → only (h :: xs ++ ys) m m' →
     is_Some (m' !! e) → e ∉ h' :: zs → Φ tt m') →
  wp (list_del e) Φ m.
Proof.
  intros Hd Hd' Hdisj HΦ. eapply wp_list_del; [done|]. intros m1 Hd1 Ho1.
  assert (He : e ∈ h :: xs ++ e :: ys) by (rewrite elem_of_cons elem_of_app; set_solver).
  apply HΦ; [done| |done| |].
  - eapply dll_only; [done| |done]. intros x Hx Hx'.
    apply (Hdisj x); [by apply remove_mid_incl|done].
  - apply Ho1. by eapply dll_valid; [exact Hd|].
  - intros ?. by apply (Hdisj e).
Qed.
Lemma only_moved e h xs ys h' zs m m1 m2 :
  only (h :: xs ++ ys) m m1 → only (e :: h' :: zs) m1 m2 →
  only (e :: (h :: xs ++ ys) ++ h' :: zs) m m2.
Proof.
  intros H1 H2. eapply only_trans; (eapply only_mono; [|done]);
    intros x; rewrite !elem_of_cons !elem_of_app ?elem_of_cons; tauto.
Qed.
Lemma dll_after_move e h xs ys h' zs m m' :
  e ∉ h :: xs ++ ys → rings_disjoint h (xs ++ e :: ys) h' zs →
  only (e :: h' :: zs) m m' → dll m h (xs ++ ys) → dll m' h (xs ++ ys).
Proof.
  intros He Hdisj Ho Hd. eapply dll_only; [done| |done].
  intros x Hx [->|Hx']%elem_of_cons; [done|].
  apply (Hdisj x); [by apply remove_mid_incl|done].
Qed.

Lemma wp_list_move_tail e h xs ys h' zs m Φ :
  dll m h (xs ++ e :: ys) → dll m h' zs → rings_disjoint h (xs ++ e :: ys) h' zs →
  (∀ m', dll m' h (xs ++ ys) → dll m' h' (zs ++ [e]) →
     only (e :: (h :: xs ++ ys) ++ h' :: zs) m m' → Φ tt m') →
  wp (list_move_tail e h') Φ m.
Proof.
  intros Hd Hd' Hdisj HΦ. pose proof (dll_not_elem _ _ _ _ _ Hd).
  apply wp_unlink_inline, wp_bind. eapply wp_list_del_from; [done..|].
  intros m1 Hd1 Hd1' Ho1 ??. eapply wp_list_add_tail; [done..|].
  intros m2 Hd2 Ho2. apply HΦ; eauto using only_moved, dll_after_move.
Qed.
Lemma wp_list_move e h xs ys h' zs m Φ :
  dll m h (xs ++ e :: ys) → dll m h' zs → rings_disjoint h (xs ++ e :: ys) h' zs →
  (∀ m', dll m' h (xs ++ ys) → dll m' h' (e :: zs) →
     only (e :: (h :: xs ++ ys) ++ h' :: zs) m m' → Φ tt m') →
  wp (list_move e h') Φ m.
Proof.
  intros Hd Hd' Hdisj HΦ. pose proof (dll_not_elem _ _ _ _ _ Hd).
  apply wp_unlink_inline, wp_bind. eapply wp_list_del_from; [done..|].
  intros m1 Hd1 Hd1' Ho1 ??. eapply wp_list_add; [done..|].
  intros m2 Hd2 Ho2. apply HΦ; eauto using only_moved, dll_after_move.
Qed.


(** ** Splicing and cutting *)
Lemma wp___list_splice_raw l p n first last m Φ :
  nxt m l = Some first → prv m l = Some last → p ≠ last → first ≠ n →
  is_Some (m !! first) → is_Some (m !! last) → is_Some (m !! p) → is_Some (m !! n) →
  (∀ m', only [first; last; p; n] m m' →
     (∀ x, nxt m' x = if decide (x = last) then Some n else
                      if decide (x = p) then Some first else nxt m x) →
     (∀ x, prv m' x = if decide (x = n) then Some last else
                      if decide (x = first) then Some p else prv m x) →
     Φ tt m') →
  wp (__list_splice l p n) Φ m.
Proof.
  intros Hf Hl ?? Hvf Hvl Hvp Hvn HΦ. rewrite /__list_splice.
  apply wp_bind, (wp_get_next _ _ _ _ Hf), wp_bind, (wp_get_prev _ _ _ _ Hl). lwrite.
  apply HΦ; [lonly | intros x; lread | intros x; lread].
Qed.

Lemma seg_split m a xs ys b :
  seg m a (xs ++ ys) b → seg m a xs (hd b ys) ∧ (ys = [] ∨ seg m (hd b ys) (tl ys) b).
Proof.
  destruct ys as [|y ys]; cbn [hd tl]; [rewrite app_nil_r; auto|].
  intros [??]%seg_app. auto.
Qed.
Lemma seg_join m a xs ys b :
  seg m a xs (hd b ys) → (ys = [] ∨ seg m (hd b ys) (tl ys) b) → seg m a (xs ++ ys) b.
Proof.
  destruct ys as [|y ys]; cbn [hd tl]; [by rewrite app_nil_r|].
  intros ? [?|?]; [done|]. by apply seg_app.
Qed.

(** Inserting the elements of ring [l] at any position of ring [h]. *)
Lemma wp___list_splice l ys h xs1 xs2 m Φ :
  dll m l ys → ys ≠ [] → dll m h (xs1 ++ xs2) → rings_disjoint h (xs1 ++ xs2) l ys →
  (∀ m', dll m' h (xs1 ++ ys ++ xs2) → only (ys ++ h :: xs1 ++ xs2) m m' → Φ tt m') →
  wp (__list_splice l (List.last xs1 h) (hd h xs2)) Φ m.
Proof.
  intros [[Hl Hndy]%NoDup_cons Hsy] Hne [[Hh Hndx]%NoDup_cons Hsx] Hdisj HΦ.
  destruct ys as [|y ys]; [done|]. clear Hne.
  pose proof (seg_prv _ _ _ _ Hsy) as Hpy. rewrite last_cons_default in Hpy.
  pose proof (last_elem y ys) as Hlast. pose proof (last_elem h xs1) as Hp.
  pose proof (hd_elem h xs2) as Hn.
  assert (Hin : ∀ z, z ∈ h :: xs1 ∨ z ∈ h :: xs2 → z ∈ h :: xs1 ++ xs2)
    by (intros z; rewrite !elem_of_cons elem_of_app; tauto).
  assert (Hdx : ∀ z, z ∈ h :: xs1 ∨ z ∈ h :: xs2 → z ∉ y :: ys)
    by (intros z Hz%Hin Hz'; apply (Hdisj z Hz), elem_of_cons; auto).
  pose proof Hndx as (Hnd1&Hd12&Hnd2)%NoDup_app.
  pose proof Hndy as [Hy Hndy']%NoDup_cons.
  apply not_elem_of_app in Hh as [Hh1 Hh2].
  destruct (seg_split _ _ _ _ _ Hsx) as [Hs1 Hs2]. destruct Hsy as (Hny&_&Hsy).
  apply (wp___list_splice_raw _ _ _ _ _ _ _ Hny Hpy).
  { intros E. rewrite -E in Hlast. by apply (Hdx (List.last xs1 h)); auto. }
  { intros ->. apply (Hdx (hd h xs2)); [auto|set_solver]. }
  1,2: eapply seg_valid_l; [exact Hsy|set_solver].
  1,2: eapply seg_valid_l; [exact Hsx|auto].
  intros m' Ho Hn' Hp'. apply HΦ; last first.
  { eapply only_mono, Ho. clear -Hlast Hp Hn. intros z.
    rewrite !elem_of_cons elem_of_app !elem_of_cons elem_of_app elem_of_nil.
    intros [->|[->|[->|[->|[]]]]]; set_solver. }
  split.
  { apply NoDup_cons. rewrite !NoDup_app !elem_of_app. split_and!; try done.
    - intros [?|[?|?]]; [done| |done]. apply (Hdx h); [set_solver|done].
    - intros z Hz [?|?]%elem_of_app; [|by apply (Hd12 z)].
      apply (Hdx z); [set_solver|done].
    - intros z Hz ?. apply (Hdx z); [set_solver|done]. }
  apply (seg_join _ _ _ ((y :: ys) ++ xs2)); cbn [hd app tl].
  - eapply seg_relink_r; [by apply NoDup_cons|exact Hs1|..].
    + intros z Hz Hne. rewrite Hn' decide_False ?decide_False //.
      intros ->. apply (Hdx (List.last ys y)); auto.
    + intros z Hz. rewrite Hp' !decide_False //.
      * intros ->. apply (Hdx y); [set_solver|set_solver].
      * intros ->. destruct xs2; cbn in Hz; [done|]. apply (Hd12 _ Hz). set_solver.
    + rewrite Hn' decide_False ?decide_True //.
      intros E. rewrite -E in Hlast. by apply (Hdx (List.last xs1 h)); auto.
    + rewrite Hp' decide_False ?decide_True //.
      intros ->. apply (Hdx (hd h xs2)); [auto|set_solver].
  - right. apply seg_join.
    + eapply seg_relink_r; [done|exact Hsy|..].
      * intros z Hz Hne. rewrite Hn' !decide_False //.
        intros ->. by apply (Hdx (List.last xs1 h)); auto.
      * intros z Hz. rewrite Hp' !decide_False //; [by intros ->|].
        intros ->. apply (Hdx (hd h xs2)); [auto|set_solver].
      * by rewrite Hn' decide_True.
      * by rewrite Hp' decide_True.
    + destruct xs2 as [|x2 xs2]; [by left|right; cbn [hd tl] in *].
      destruct Hs2 as [?|Hs2]; [done|].
      apply NoDup_cons in Hnd2 as [Hx2 _].
      eapply seg_frame, Hs2; intros z Hz; rewrite ?Hn' ?Hp' !decide_False //.
      * intros ->. apply elem_of_cons in Hp as [E|E].
        { rewrite E in Hz. set_solver. } by apply (Hd12 _ E).
      * intros ->. by apply (Hdx (List.last ys y)); [set_solver|].
      * intros ->. apply (Hdx y); set_solver.
      * intros ->. set_solver.
Qed.

Lemma wp_list_splice_init l ys h xs m Φ :
  dll m l ys → dll m h xs → rings_disjoint h xs l ys →
  (∀ m', dll m' h (ys ++ xs) → dll m' l [] → only (l :: ys ++ h :: xs) m m' → Φ tt m') →
  wp (list_splice_init l h) Φ m.
Proof.
  intros Hdl Hdh Hdisj HΦ. rewrite /list_splice_init. apply wp_bind.
  eapply wp_list_empty; [done|]. case_bool_decide as Hy.
  { subst. apply wp_ret, HΦ; auto with tm. }
  pose proof (seg_nxt _ _ _ _ (proj2 Hdh)) as Hn.
  apply wp_bind, (wp_get_next _ _ _ _ Hn), wp_bind.
  apply (wp___list_splice l ys h [] xs); [done..|]. intros m1 Hd1 [Ho1 Hv1].
  assert (Hle : l ∉ h :: ys ++ xs).
  { rewrite elem_of_cons elem_of_app. intros [->|[?|?]].
    - apply (Hdisj h); set_solver.
    - destruct Hdl as [[? _]%NoDup_cons _]. done.
    - apply (Hdisj l); set_solver. }
  apply wp_INIT_LIST_HEAD. intros m2 Hd2 Ho2 Hl2. apply HΦ; [|done|split].
  - eapply dll_frame, Hd1. intros x Hx. apply Ho2. by intros ->.
  - intros x [? Hx]%not_elem_of_cons. rewrite Ho2 //. by apply Ho1.
  - intros x. destruct (decide (x = l)) as [->|?]; [|by rewrite Ho2].
    rewrite Hl2. split; [|done]. intros _. by eapply dll_valid; [exact Hdl|set_solver].
Qed.
End ListHeadSpec.

(** ** The promises of list.h *)
Section Promises.
Context {A : Type} `{Countable A}.
Implicit Types (m : gmap A (list_head A)) (h e new : A) (xs ys zs : list A).

(** linking a node that is not on the ring is defined whatever the node's
    old pointers are; [list_add] puts it in front of the elements,
    [list_add_tail] behind them, and no node outside the ring changes. *)
Theorem list_insert_correct m h xs new :
  dll m h xs → new ∉ h :: xs → is_Some (m !! new) →
  (∃ m1, list_add new h m = Some (tt, m1) ∧
     dll m1 h (new :: xs) ∧ only (new :: h :: xs) m m1) ∧
  (∃ m2, list_add_tail new h m = Some (tt, m2) ∧
     dll m2 h (xs ++ [new]) ∧ only (new :: h :: xs) m m2).
Proof.
  intros Hd Hn Hv. split; apply wp_unit_inv.
  - eapply wp_list_add; eauto.
  - eapply wp_list_add_tail; eauto.
Qed.

(** unlinking an element keeps the other elements in order and touches
    only them and the head; a second [list_del] of the same element, before
    anything else happens, changes nothing. *)
Theorem list_del_correct m h xs e ys :
  dll m h (xs ++ e :: ys) →
  ∃ m', list_del e m = Some (tt, m') ∧ dll m' h (xs ++ ys) ∧
    only (h :: xs ++ ys) m m' ∧ list_del e m' = Some (tt, m').
Proof.
  intros Hd.
  assert (wp (list_del e) (λ _ m', dll m' h (xs ++ ys) ∧ only (h :: xs ++ ys) m m') m)
    as (m'&?&?&?)%wp_unit_inv by (eapply wp_list_del; eauto).
  exists m'. eauto using list_del_twice.
Qed.

(** moving an element to another ring, to its front or its back, takes
    it out of the ring it was on; the order of everything else is kept. *)
Theorem list_move_correct m h xs e ys h' zs :
  dll m h (xs ++ e :: ys) → dll m h' zs → rings_disjoint h (xs ++ e :: ys) h' zs →
  (∃ m1, list_move e h' m = Some (tt, m1) ∧ dll m1 h (xs ++ ys) ∧ dll m1 h' (e :: zs)) ∧
  (∃ m2, list_move_tail e h' m = Some (tt, m2) ∧ dll m2 h (xs ++ ys) ∧ dll m2 h' (zs ++ [e])).
Proof.
  intros Hd Hd' Hr. split.
  - apply wp_unit_inv. eapply wp_list_move; eauto.
  - apply wp_unit_inv. eapply wp_list_move_tail; eauto.
Qed.

(** [list_splice_init] puts the elements of one ring in front of those of
    another and leaves the first ring empty, also when it was empty before. *)
Theorem list_splice_init_correct m l ys h xs :
  dll m l ys → dll m h xs → rings_disjoint h xs l ys →
  ∃ m', list_splice_init l h m = Some (tt, m') ∧ dll m' h (ys ++ xs) ∧ dll m' l [] ∧
    only (l :: ys ++ h :: xs) m m'.
Proof. intros. apply wp_unit_inv. eapply wp_list_splice_init; eauto. Qed.

(** iterating forwards visits exactly the elements of the ring, in order,
    backwards in reverse order; both terminate and change nothing. *)
Theorem list_traversals_correct m h xs :
  dll m h xs →
  list_for_each h m = Some (xs, m) ∧ list_for_each_prev h m = Some (reverse xs, m).
Proof. intros. by split; [apply list_for_each_spec|apply list_for_each_prev_spec]. Qed.
End Promises.

(** ** A store with two rings, at 1 with the elements 2, 3, 4 and at 5 with 6 *)
Module Rings.
#[local] Open Scope positive_scope.
Definition m : gmap positive (list_head positive) :=
  list_to_map [(1, LH 2 4); (2, LH 3 1); (3, LH 4 2); (4, LH 1 3);
               (5, LH 6 6); (6, LH 5 5); (7, LH 7 7)].

Ltac ring_tac := split; [by apply (bool_decide_unpack _); vm_compute|by vm_compute].
Lemma m_1 : dll m 1 [2; 3; 4].
Proof. ring_tac. Defined.
Lemma m_5 : dll m 5 [6].
Proof. ring_tac. Defined.
Lemma m_disjoint : rings_disjoint 1 [2; 3; 4] 5 [6].
Proof. intros x. set_solver. Defined.

Lemma list_insert_witness : ∃ m', list_add 7 1 m = Some (tt, m') ∧ dll m' 1 [7; 2; 3; 4].
Proof.
  destruct (list_insert_correct m 1 [2; 3; 4] 7 m_1)
    as [(m'&?&?&_) _]; [set_solver|by eexists|by exists m'].
Defined.
Lemma list_del_witness : ∃ m', list_del 3 m = Some (tt, m') ∧ dll m' 1 [2; 4].
Proof.
  destruct (list_del_correct m 1 [2] 3 [4] m_1) as (m'&?&?&_).
  by exists m'.
Defined.
Lemma list_move_witness : ∃ m', list_move_tail 3 5 m = Some (tt, m') ∧ dll m' 5 [6; 3].
Proof.
  destruct (list_move_correct m 1 [2] 3 [4] 5
    [6] m_1 m_5 m_disjoint) as [_ (m'&?&_&?)].
  by exists m'.
Defined.
Lemma list_splice_init_witness :
  ∃ m', list_splice_init 5 1 m = Some (tt, m') ∧ dll m' 1 [6; 2; 3; 4].
Proof.
  destruct (list_splice_init_correct m 5 [6] 1 [2; 3; 4]
    m_5 m_1 m_disjoint) as (m'&?&?&_).
  by exists m'.
Defined.
Lemma list_traversals_witness :
  list_for_each 1 m = Some ([2; 3; 4], m) ∧
  list_for_each_prev 1 m = Some ([4; 3; 2], m).
Proof. exact (list_traversals_correct m 1 [2; 3; 4] m_1). Defined.
End Rings.
