(* ===== verification/ListIter.v ===== *)
(** * The iteration macros of src/cmn/list.h

    Each macro is the head of a C [for] loop; the loop's body is a parameter here, a
    computation on a state [T] that has the links of ListHead.v in it ([mem]).  [for_loop]
    is the [for] statement, with fuel.  A body that leaves the loop early is not an
    instance.

    [list_entry] and [member] take the address of a list node to the structure around it and
    back; both only add a constant.  [prefetch] is defined to nothing: what is left of
    [prefetch (p->next), c] is a read of [p->next], then [c]. *)

From S2P Require Import Prelude ListHead.

Section Iter.
Context {A : Type} `{Countable A} {T : Type} (mem : T → gmap A (list_head A)).
Context {B : Type} (list_entry : A → B) (member : B → A).

(** [for (; test; step) body], from the cursor [x]. *)
Fixpoint for_loop {X} (n : nat) (test : X → M T bool) (step : X → M T X) (body : X → M T unit) (x : X) : M T unit :=
  b ← test x;
  if (b : bool) then
    match n with
    | 0 => ub
    | S n => body x;; x' ← step x; for_loop n test step body x'
    end
  else mret tt.

Definition rd_next (p : A) : M T A := m ← gets mem; l ← liftO (m !! p); mret (next l).
Definition rd_prev (p : A) : M T A := m ← gets mem; l ← liftO (m !! p); mret (prev l).
(** The tests: [pos != head] and [&pos->member != head]. *)
Definition not_head (head pos : A) : M T bool := mret (bool_decide (pos ≠ head)).

(** ** Over nodes *)
Definition list_for_each (n : nat) (head : A) (body : A → M T unit) : M T unit :=
  pos ← rd_next head;
  for_loop n (not_head head) rd_next body pos.
Definition __list_for_each (n : nat) (head : A) (body : A → M T unit) : M T unit :=
  pos ← rd_next head;
  for_loop n (not_head head) rd_next body pos.
Definition list_for_each_prev (n : nat) (head : A) (body : A → M T unit) : M T unit :=
  pos ← rd_prev head;
  for_loop n (λ pos, rd_prev pos;; not_head head pos) rd_prev body pos.
Definition list_for_each_safe (k : nat) (head : A) (body : A → M T unit) : M T unit :=
  pos ← rd_next head;
  n ← rd_next pos;
  for_loop k (λ '(pos, n), not_head head pos) (λ '(pos, n), n' ← rd_next n; mret (n, n'))
    (λ '(pos, n), body pos) (pos, n).
Definition list_for_each_prev_safe (k : nat) (head : A) (body : A → M T unit) : M T unit :=
  pos ← rd_prev head;
  n ← rd_prev pos;
  for_loop k (λ '(pos, n), rd_prev pos;; not_head head pos) (λ '(pos, n), n' ← rd_prev n; mret (n, n'))
    (λ '(pos, n), body pos) (pos, n).

(** ** Over the structures around the nodes *)
Definition entry_next (pos : B) : M T B := p ← rd_next (member pos); mret (list_entry p).
Definition entry_prev (pos : B) : M T B := p ← rd_prev (member pos); mret (list_entry p).
Definition list_first_entry (ptr : A) : M T B := p ← rd_next ptr; mret (list_entry p).

Definition list_for_each_entry_from (n : nat) (head : A) (pos : B) (body : B → M T unit) : M T unit :=
  for_loop n (λ pos, rd_next (member pos);; not_head head (member pos)) entry_next body pos.
Definition list_for_each_entry (n : nat) (head : A) (body : B → M T unit) : M T unit :=
  p ← rd_next head;
  for_loop n (λ pos, rd_next (member pos);; not_head head (member pos)) entry_next body (list_entry p).
Definition list_for_each_entry_reverse (n : nat) (head : A) (body : B → M T unit) : M T unit :=
  p ← rd_prev head;
  for_loop n (λ pos, rd_prev (member pos);; not_head head (member pos)) entry_prev body (list_entry p).
Definition list_prepare_entry (pos : option B) (head : A) : B :=
  match pos with Some pos => pos | None => list_entry head end.
Definition list_for_each_entry_continue (n : nat) (head : A) (pos : B) (body : B → M T unit) : M T unit :=
  pos ← entry_next pos;
  for_loop n (λ pos, rd_next (member pos);; not_head head (member pos)) entry_next body pos.
Definition list_for_each_entry_continue_reverse (n : nat) (head : A) (pos : B) (body : B → M T unit) : M T unit :=
  pos ← entry_prev pos;
  for_loop n (λ pos, rd_prev (member pos);; not_head head (member pos)) entry_prev body pos.

Definition list_for_each_entry_safe (k : nat) (head : A) (body : B → M T unit) : M T unit :=
  p ← rd_next head;
  let pos := list_entry p in
  n ← entry_next pos;
  for_loop k (λ '(pos, n), not_head head (member pos)) (λ '(pos, n), n' ← entry_next n; mret (n, n'))
    (λ '(pos, n), body pos) (pos, n).
Definition list_for_each_entry_safe_continue (k : nat) (head : A) (pos : B) (body : B → M T unit) : M T unit :=
  pos ← entry_next pos;
  n ← entry_next pos;
  for_loop k (λ '(pos, n), not_head head (member pos)) (λ '(pos, n), n' ← entry_next n; mret (n, n'))
    (λ '(pos, n), body pos) (pos, n).
Definition list_for_each_entry_safe_from (k : nat) (head : A) (pos : B) (body : B → M T unit) : M T unit :=
  n ← entry_next pos;
  for_loop k (λ '(pos, n), not_head head (member pos)) (λ '(pos, n), n' ← entry_next n; mret (n, n'))
    (λ '(pos, n), body pos) (pos, n).
Definition list_for_each_entry_safe_reverse (k : nat) (head : A) (body : B → M T unit) : M T unit :=
  p ← rd_prev head;
  let pos := list_entry p in
  n ← entry_prev pos;
  for_loop k (λ '(pos, n), not_head head (member pos)) (λ '(pos, n), n' ← entry_prev n; mret (n, n'))
    (λ '(pos, n), body pos) (pos, n).
End Iter.

(** ** Rules *)
Inductive dir := Fwd | Bwd.
Section rules.
Context {A : Type} `{Countable A} {T : Type} (mem : T → gmap A (list_head A)).
Implicit Types (d : dir) (h x y : A) (xs ks vis rest : list A) (s : T) (m : gmap A (list_head A)).

(** The elements of a ring in the order in which they are visited. *)
Definition ring d m h xs : Prop := dll m h (match d with Fwd => xs | Bwd => rev xs end).
Definition rd d : A → M T A := match d with Fwd => rd_next mem | Bwd => rd_prev mem end.

Lemma rd_next_run s x y : nxt (mem s) x = Some y → rd_next mem x s = Some (y, s).
Proof. rewrite /nxt /rd_next. intros Hx. rewrite (bind_run (gets mem) _ s (mem s) s) //. destruct (mem s !! x); [|done]. by injection Hx as <-. Qed.
Lemma rd_prev_run s x y : prv (mem s) x = Some y → rd_prev mem x s = Some (y, s).
Proof. rewrite /prv /rd_prev. intros Hx. rewrite (bind_run (gets mem) _ s (mem s) s) //. destruct (mem s !! x); [|done]. by injection Hx as <-. Qed.
Lemma last_rev_hd h xs : List.last (rev xs) h = hd h xs.
Proof. destruct xs; [done|]. cbn. by rewrite List.last_last. Qed.
Lemma rd_first d s h xs : ring d (mem s) h xs → rd d h s = Some (hd h xs, s).
Proof.
  destruct d; intros [_ Hs]; [apply rd_next_run; by eapply seg_nxt|]. rewrite -last_rev_hd. apply rd_prev_run. by eapply seg_prv.
Qed.
Lemma rd_step d s h ks y rest : ring d (mem s) h (ks ++ y :: rest) → rd d y s = Some (hd h rest, s).
Proof.
  destruct d; intros [_ Hs].
  - apply seg_app in Hs as [_ Hs]. apply rd_next_run. by eapply seg_nxt.
  - rewrite rev_app_distr /= -app_assoc in Hs. cbn in Hs. apply seg_app in Hs as [Hs _].
    rewrite -last_rev_hd. apply rd_prev_run. by eapply seg_prv.
Qed.
Lemma rd_at d s h ks rest : ring d (mem s) h (ks ++ rest) → ∃ z, rd d (hd h rest) s = Some (z, s).
Proof.
  destruct rest as [|y rest]; [rewrite app_nil_r|]; intros Hr; eexists; [by eapply rd_first|by eapply rd_step].
Qed.

Section for_loop.
Context {X : Type} (test : X → M T bool) (step : X → M T X) (body : X → M T unit).
Context (J : list A → list A → T → Prop) (stands : list A → X → Prop).
Context (Htest : ∀ vis rest (x : X) s, J vis rest s → stands rest x → test x s = Some (bool_decide (rest ≠ []), s)).
Context (Hbody : ∀ vis y rest (x : X) s, J vis (y :: rest) s → stands (y :: rest) x →
  wp (body x) (λ _ s', J (vis ++ [y]) rest s' ∧ ∃ x' : X, step x s' = Some (x', s') ∧ stands rest x') s).
Lemma for_loop_run n vis rest (x : X) s :
  J vis rest s → stands rest x → length rest ≤ n →
  wp (for_loop n test step body x) (λ _, J (vis ++ rest) []) s.
Proof using Htest Hbody.
  revert vis rest x s. induction n as [|n IH]; intros vis rest x s HJ Hx Hn; cbn [for_loop];
    rewrite /wp (bind_run _ _ _ _ _ (Htest vis rest x s HJ Hx)); destruct rest as [|y rest];
    rewrite ?(bool_decide_eq_true_2 (_ :: _ ≠ [])) // ?(bool_decide_eq_false_2 ([] ≠ [])) ?app_nil_r //; try by intros [].
  { cbn in Hn. lia. }
  apply wp_bind. eapply wp_mono; [by apply (Hbody vis y rest x s)|]. intros [] s1 (HJ1&x'&Hs&Hx').
  rewrite /wp (bind_run _ _ _ _ _ Hs). rewrite cons_middle app_assoc. apply IH; [done|done|]. cbn in Hn. lia.
Qed.
End for_loop.

(** What is visited and what is left; the nodes that are left are linked. *)
Section traversal.
Context (J : list A → list A → T → Prop) (h : A) (d : dir).
Context (HJ : ∀ vis rest s, J vis rest s → ∃ ks, ring d (mem s) h (ks ++ rest)).

Lemma hd_not_head vis rest s : J vis rest s → not_head h (hd h rest) s = Some (bool_decide (rest ≠ []), s).
Proof using HJ.
  intros Hs. destruct (HJ _ _ _ Hs) as [ks Hr]. change (Some (bool_decide (hd h rest ≠ h), s) = Some (bool_decide (rest ≠ []), s)). do 2 f_equal. apply bool_decide_ext.
  destruct rest as [|y rest]; cbn [hd]; [done|]. split; [done|]. intros _ ->.
  destruct Hr as [[Hn _]%NoDup_cons _]. apply Hn.
  assert (Hin : h ∈ ks ++ h :: rest) by (apply elem_of_app; right; left).
  destruct d; [done|]. by apply list_elem_of_In, in_rev; rewrite rev_involutive; apply list_elem_of_In.
Qed.
Lemma hd_not_head_read vis rest s (k : A → M T bool) :
  J vis rest s → (∀ z, k z s = not_head h (hd h rest) s) →
  (z ← rd d (hd h rest); k z) s = Some (bool_decide (rest ≠ []), s).
Proof using HJ.
  intros Hs Hk. destruct (HJ _ _ _ Hs) as [ks Hr]. destruct (rd_at _ _ _ _ _ Hr) as [z Hz].
  rewrite (bind_run _ _ _ _ _ Hz) Hk. by eapply hd_not_head.
Qed.

(** The cursor of the safe loops: the node, and the next one unless the loop ends. *)
Definition two_ahead (rest : list A) (x : A * A) : Prop :=
  x.1 = hd h rest ∧ (rest ≠ [] → x.2 = hd h (tl rest)).
Lemma two_ahead_start vis rest s : J vis rest s →
  ∃ ks n, rd d (hd h rest) s = Some (n, s) ∧ two_ahead rest (hd h rest, n) ∧ ring d (mem s) h (ks ++ rest).
Proof using HJ.
  intros Hs. destruct (HJ _ _ _ Hs) as [ks Hr]. exists ks. destruct rest as [|y rest].
  - destruct (rd_at _ _ _ _ _ Hr) as [z Hz]. exists z. split; [exact Hz|]. by split.
  - exists (hd h rest). split; [by eapply rd_step|]. by split.
Qed.
Lemma two_ahead_step vis y rest (x : A * A) s :
  J vis rest s → two_ahead (y :: rest) x →
  ∃ x' : A * A, (n' ← rd d x.2; mret (x.2, n')) s = Some (x', s) ∧ two_ahead rest x'.
Proof using HJ.
  intros Hs [_ Hx]. specialize (Hx ltac:(done)). cbn [tl] in Hx.
  destruct (two_ahead_start _ _ _ Hs) as (ks&n&Hrd&Hst&_). exists (hd h rest, n). split; [|done].
  by rewrite Hx (bind_run _ _ _ _ _ Hrd).
Qed.
End traversal.
End rules.

Section for_loop_map.
Context {T : Type}.
(** A loop over other cursors. *)
Lemma for_loop_map {X Y} (f : X → Y) n (test : X → M T bool) test' (step : X → M T X) step' (body : X → M T unit) body' x s :
  (∀ x s, test' (f x) s = test x s) → (∀ x s, step' (f x) s = (x' ← step x; mret (f x')) s) → (∀ x s, body' (f x) s = body x s) →
  for_loop n test' step' body' (f x) s = for_loop n test step body x s.
Proof.
  intros Ht Hst Hb. revert x s. induction n as [|n IH]; intros x s; cbn [for_loop]; apply bind_ext; [by intros; apply Ht| |by intros; apply Ht|].
  - by intros [] s'.
  - intros [] s'; [|done]. apply bind_ext; [apply Hb|]. intros [] s2. rewrite /mbind /M_bind Hst /mbind /M_bind.
    destruct (step x s2) as [[x' s3]|]; [|done]. apply IH.
Qed.
End for_loop_map.

Ltac cursors_at := rewrite /entry_next /entry_prev /mbind /M_bind; cbn; by repeat (case_match; simplify_eq).
Ltac cursors := intros [??] ?; cursors_at.

(** ** What the macros do *)
Section loops.
Context {A : Type} `{Countable A} {T : Type} (mem : T → gmap A (list_head A)).
Context {B : Type} (list_entry : A → B) (member : B → A) (Hmem : ∀ p, member (list_entry p) = p).
Context (J : list A → list A → T → Prop) (h : A).
Implicit Types (xs ks vis rest : list A) (y : A) (s : T) (d : dir) (n : nat).

Definition linked d : Prop := ∀ vis rest s, J vis rest s → ∃ ks, ring d (mem s) h (ks ++ rest).
(** The body takes the invariant from one node to the next.  In [keeps_links] the node it is called with
    stays linked; [may_unlink] leaves it free to unlink that node. *)
Definition keeps_links d (body : A → M T unit) : Prop := ∀ vis y rest s,
  J vis (y :: rest) s → wp (body y) (λ _ s', J (vis ++ [y]) rest s' ∧ ∃ ks, ring d (mem s') h (ks ++ y :: rest)) s.
Definition may_unlink (body : A → M T unit) : Prop := ∀ vis y rest s,
  J vis (y :: rest) s → wp (body y) (λ _, J (vis ++ [y]) rest) s.

Lemma plain_loop_run d (test : A → M T bool) body n vis rest s :
  linked d → keeps_links d body →
  (∀ vis rest s, J vis rest s → test (hd h rest) s = Some (bool_decide (rest ≠ []), s)) →
  J vis rest s → length rest ≤ n →
  wp (for_loop n test (rd mem d) body (hd h rest)) (λ _, J (vis ++ rest) []) s.
Proof.
  intros HJ Hb Ht Hs Hn.
  apply (for_loop_run test (rd mem d) body J (λ rest x, x = hd h rest)); [|..|done|done|done].
  - intros vis' rest' x s' Hs' ->. by apply (Ht vis').
  - intros vis' y rest' x s' Hs' ->. eapply wp_mono; [by apply Hb|]. intros [] s1 (H1&ks&Hr).
    split; [done|]. exists (hd h rest'). split; [by eapply rd_step|done].
Qed.
Lemma safe_loop_run d (test : A * A → M T bool) body n vis rest x s :
  linked d → may_unlink body →
  (∀ vis rest x s, J vis rest s → two_ahead h rest x → test x s = Some (bool_decide (rest ≠ []), s)) →
  J vis rest s → two_ahead h rest x → length rest ≤ n →
  wp (for_loop n test (λ x, n' ← rd mem d x.2; mret (x.2, n')) (λ x, body x.1) x) (λ _, J (vis ++ rest) []) s.
Proof.
  intros HJ Hb Ht Hs Hx Hn.
  apply (for_loop_run test _ (λ x, body x.1) J (two_ahead h)); [|..|done|done|done].
  - intros vis' rest' x' s' Hs' Hx'. by apply (Ht vis').
  - intros vis' y rest' x' s' Hs' Hx'. eapply wp_mono; [rewrite (proj1 Hx'); by apply Hb|]. intros [] s1 H1.
    split; [done|]. by eapply (two_ahead_step mem J h d HJ).
Qed.

Lemma start_head d xs s : ring d (mem s) h xs → rd mem d h s = Some (hd h xs, s).
Proof. apply rd_first. Qed.
Lemma not_head_test d vis rest s : linked d → J vis rest s → not_head h (hd h rest) s = Some (bool_decide (rest ≠ []), s).
Proof. intros HJ. by apply (hd_not_head mem J h d HJ). Qed.
Lemma not_head_read_test d vis rest s (k : A → M T bool) :
  linked d → J vis rest s → (∀ z, k z s = not_head h (hd h rest) s) →
  (z ← rd mem d (hd h rest); k z) s = Some (bool_decide (rest ≠ []), s).
Proof. intros HJ. by apply (hd_not_head_read mem J h d HJ). Qed.

Lemma list_for_each_run body n xs s :
  linked Fwd → keeps_links Fwd body → J [] xs s → dll (mem s) h xs → length xs ≤ n →
  wp (list_for_each mem n h body) (λ _, J xs []) s.
Proof.
  intros HJ Hb Hs Hr Hn. rewrite /list_for_each /wp (bind_run _ _ _ _ _ (start_head Fwd xs s Hr)).
  apply (plain_loop_run Fwd _ body n [] xs s HJ Hb); [|done..]. intros vis rest s'. by apply (not_head_test Fwd).
Qed.
Lemma list_for_each_prev_run body n xs s :
  linked Bwd → keeps_links Bwd body → J [] xs s → dll (mem s) h (rev xs) → length xs ≤ n →
  wp (list_for_each_prev mem n h body) (λ _, J xs []) s.
Proof.
  intros HJ Hb Hs Hr Hn. rewrite /list_for_each_prev /wp (bind_run _ _ _ _ _ (start_head Bwd xs s Hr)).
  apply (plain_loop_run Bwd _ body n [] xs s HJ Hb); [|done..]. intros vis rest s' H'. by apply (not_head_read_test Bwd vis).
Qed.

Lemma list_for_each_safe_run body n xs s :
  linked Fwd → may_unlink body → J [] xs s → dll (mem s) h xs → length xs ≤ n →
  wp (list_for_each_safe mem n h body) (λ _, J xs []) s.
Proof.
  intros HJ Hb Hs Hr Hn. rewrite /list_for_each_safe /wp (bind_run _ _ _ _ _ (start_head Fwd xs s Hr)).
  destruct (two_ahead_start mem J h Fwd HJ [] xs s Hs) as (ks&z&Hz&Hx&_). rewrite (bind_run _ _ _ _ _ Hz).
  rewrite (for_loop_map id n (λ x, not_head h x.1) _ (λ x, n' ← rd mem Fwd x.2; mret (x.2, n')) _ (λ x, body x.1) _ (hd h xs, z)).
  - apply (safe_loop_run Fwd _ body n [] xs (hd h xs, z) s HJ Hb); [|done..].
    intros vis rest x s' H' [-> _]. by apply (not_head_test Fwd vis).
  - by intros [].
  - cursors.
  - by intros [].
Qed.
Lemma list_for_each_prev_safe_run body n xs s :
  linked Bwd → may_unlink body → J [] xs s → dll (mem s) h (rev xs) → length xs ≤ n →
  wp (list_for_each_prev_safe mem n h body) (λ _, J xs []) s.
Proof.
  intros HJ Hb Hs Hr Hn. rewrite /list_for_each_prev_safe /wp (bind_run _ _ _ _ _ (start_head Bwd xs s Hr)).
  destruct (two_ahead_start mem J h Bwd HJ [] xs s Hs) as (ks&z&Hz&Hx&_). rewrite (bind_run _ _ _ _ _ Hz).
  rewrite (for_loop_map id n (λ x, rd_prev mem x.1;; not_head h x.1) _ (λ x, n' ← rd mem Bwd x.2; mret (x.2, n')) _ (λ x, body x.1) _ (hd h xs, z)).
  - apply (safe_loop_run Bwd _ body n [] xs (hd h xs, z) s HJ Hb); [|done..].
    intros vis rest x s' H' [-> _]. by apply (not_head_read_test Bwd vis).
  - by intros [].
  - cursors.
  - by intros [].
Qed.

(** The loops over structures, as loops over nodes. *)
Context (body : B → M T unit).
Definition on_node (p : A) : M T unit := body (list_entry p).
Definition entry_rd d (pos : B) : M T B := p ← rd mem d (member pos); mret (list_entry p).
Definition plain_test d (p : A) : M T bool := rd mem d p;; not_head h p.
Lemma entry_loop_eq d n p s :
  for_loop n (λ pos, rd mem d (member pos);; not_head h (member pos)) (entry_rd d) body (list_entry p) s =
  for_loop n (plain_test d) (rd mem d) on_node p s.
Proof using Hmem.
  apply (for_loop_map list_entry).
  - intros x s'. by rewrite /plain_test Hmem.
  - intros x s'. by rewrite /entry_rd Hmem.
  - done.
Qed.
Definition safe_step d (x : A * A) : M T (A * A) := n' ← rd mem d x.2; mret (x.2, n').
Lemma entry_safe_loop_eq d n p q s :
  for_loop n (λ '(pos, n), not_head h (member pos)) (λ '(pos, n), n' ← entry_rd d n; mret (n, n')) (λ '(pos, n), body pos)
    (list_entry p, list_entry q) s =
  for_loop n (λ x, not_head h x.1) (safe_step d) (λ x, on_node x.1) (p, q) s.
Proof using Hmem.
  apply (for_loop_map (λ x, (list_entry x.1, list_entry x.2)) n _ _ _ _ _ _ (p, q)).
  - intros [] ?. by rewrite /= Hmem.
  - intros [x y] s'. cbn. by rewrite /entry_rd /safe_step Hmem /= !bind_ret_map.
  - by intros [].
Qed.

Lemma entry_loop_run d n vis rest s :
  linked d → keeps_links d on_node → J vis rest s → length rest ≤ n →
  wp (for_loop n (λ pos, rd mem d (member pos);; not_head h (member pos)) (entry_rd d) body (list_entry (hd h rest)))
    (λ _, J (vis ++ rest) []) s.
Proof using Hmem.
  intros HJ Hb Hs Hn. rewrite /wp entry_loop_eq. apply (plain_loop_run d (plain_test d) on_node n vis rest s HJ Hb); [|done..].
  intros vis' rest' s' H'. by apply (not_head_read_test d vis').
Qed.
Lemma entry_safe_loop_run d n vis rest z s :
  linked d → may_unlink on_node → J vis rest s → two_ahead h rest (hd h rest, z) → length rest ≤ n →
  wp (for_loop n (λ '(pos, n), not_head h (member pos)) (λ '(pos, n), n' ← entry_rd d n; mret (n, n')) (λ '(pos, n), body pos)
    (list_entry (hd h rest), list_entry z)) (λ _, J (vis ++ rest) []) s.
Proof using Hmem.
  intros HJ Hb Hs Hx Hn. rewrite /wp entry_safe_loop_eq.
  apply (safe_loop_run d (λ x, not_head h x.1) on_node n vis rest (hd h rest, z) s HJ Hb); [|done..].
  intros vis' rest' x s' H' [-> _]. by apply (not_head_test d vis').
Qed.

Lemma list_for_each_entry_run n xs s :
  linked Fwd → keeps_links Fwd on_node → J [] xs s → dll (mem s) h xs → length xs ≤ n →
  wp (list_for_each_entry mem list_entry member n h body) (λ _, J xs []) s.
Proof using Hmem.
  intros HJ Hb Hs Hr Hn. rewrite /list_for_each_entry /wp (bind_run _ _ _ _ _ (start_head Fwd xs s Hr)).
  by apply (entry_loop_run Fwd n [] xs s).
Qed.
Lemma list_for_each_entry_reverse_run n xs s :
  linked Bwd → keeps_links Bwd on_node → J [] xs s → dll (mem s) h (rev xs) → length xs ≤ n →
  wp (list_for_each_entry_reverse mem list_entry member n h body) (λ _, J xs []) s.
Proof using Hmem.
  intros HJ Hb Hs Hr Hn. rewrite /list_for_each_entry_reverse /wp (bind_run _ _ _ _ _ (start_head Bwd xs s Hr)).
  by apply (entry_loop_run Bwd n [] xs s).
Qed.
(** From a node of the ring, and from the node after it. *)
Lemma list_for_each_entry_from_run n vis rest s :
  linked Fwd → keeps_links Fwd on_node → J vis rest s → length rest ≤ n →
  wp (list_for_each_entry_from mem list_entry member n h (list_entry (hd h rest)) body) (λ _, J (vis ++ rest) []) s.
Proof using Hmem. apply (entry_loop_run Fwd). Qed.
Lemma list_for_each_entry_continue_run n vis ks y rest s :
  linked Fwd → keeps_links Fwd on_node → J vis rest s → dll (mem s) h (ks ++ y :: rest) → length rest ≤ n →
  wp (list_for_each_entry_continue mem list_entry member n h (list_entry y) body) (λ _, J (vis ++ rest) []) s.
Proof using Hmem.
  intros HJ Hb Hs Hr Hn. rewrite /list_for_each_entry_continue /entry_next Hmem /wp bind_ret_map.
  rewrite (bind_run _ _ _ _ _ (rd_step mem Fwd s h ks y rest Hr)). by apply (entry_loop_run Fwd).
Qed.
Lemma list_for_each_entry_continue_reverse_run n vis ks y rest s :
  linked Bwd → keeps_links Bwd on_node → J vis rest s → ring Bwd (mem s) h (ks ++ y :: rest) → length rest ≤ n →
  wp (list_for_each_entry_continue_reverse mem list_entry member n h (list_entry y) body) (λ _, J (vis ++ rest) []) s.
Proof using Hmem.
  intros HJ Hb Hs Hr Hn. rewrite /list_for_each_entry_continue_reverse /entry_prev Hmem /wp bind_ret_map.
  rewrite (bind_run _ _ _ _ _ (rd_step mem Bwd s h ks y rest Hr)). by apply (entry_loop_run Bwd).
Qed.

Lemma list_for_each_entry_safe_from_run n vis rest s :
  linked Fwd → may_unlink on_node → J vis rest s → length rest ≤ n →
  wp (list_for_each_entry_safe_from mem list_entry member n h (list_entry (hd h rest)) body) (λ _, J (vis ++ rest) []) s.
Proof using Hmem.
  intros HJ Hb Hs Hn. destruct (two_ahead_start mem J h Fwd HJ vis rest s Hs) as (ks&z&Hz&Hx&_).
  rewrite /list_for_each_entry_safe_from /entry_next Hmem /wp bind_ret_map (bind_run _ _ _ _ _ Hz).
  by apply (entry_safe_loop_run Fwd).
Qed.
Lemma list_for_each_entry_safe_continue_run n vis ks y rest s :
  linked Fwd → may_unlink on_node → J vis rest s → dll (mem s) h (ks ++ y :: rest) → length rest ≤ n →
  wp (list_for_each_entry_safe_continue mem list_entry member n h (list_entry y) body) (λ _, J (vis ++ rest) []) s.
Proof using Hmem.
  intros HJ Hb Hs Hr Hn. rewrite /list_for_each_entry_safe_continue /wp.
  rewrite (bind_run (entry_next mem list_entry member (list_entry y)) _ s (list_entry (hd h rest)) s).
  - by apply list_for_each_entry_safe_from_run.
  - by rewrite /entry_next Hmem (bind_run _ _ _ _ _ (rd_step mem Fwd s h ks y rest Hr)).
Qed.
Lemma list_for_each_entry_safe_run n xs s :
  linked Fwd → may_unlink on_node → J [] xs s → dll (mem s) h xs → length xs ≤ n →
  wp (list_for_each_entry_safe mem list_entry member n h body) (λ _, J xs []) s.
Proof using Hmem.
  intros HJ Hb Hs Hr Hn. rewrite /list_for_each_entry_safe /wp (bind_run _ _ _ _ _ (start_head Fwd xs s Hr)).
  by apply (list_for_each_entry_safe_from_run n [] xs s).
Qed.
Lemma list_for_each_entry_safe_reverse_run n xs s :
  linked Bwd → may_unlink on_node → J [] xs s → dll (mem s) h (rev xs) → length xs ≤ n →
  wp (list_for_each_entry_safe_reverse mem list_entry member n h body) (λ _, J xs []) s.
Proof using Hmem.
  intros HJ Hb Hs Hr Hn. rewrite /list_for_each_entry_safe_reverse /wp (bind_run _ _ _ _ _ (start_head Bwd xs s Hr)).
  destruct (two_ahead_start mem J h Bwd HJ [] xs s Hs) as (ks&z&Hz&Hx&_).
  rewrite /entry_prev Hmem bind_ret_map (bind_run _ _ _ _ _ Hz). by apply (entry_safe_loop_run Bwd n [] xs).
Qed.

(** C27: a loop that is safe against removal visits every element of the ring once, in order (from
    the end for the two backward loops), and runs to completion, whatever its body does with the nodes that were
    visited, the current one included, as long as the nodes to come stay linked. *)
Theorem safe_loops_visit_all d n xs s :
  linked d → may_unlink on_node → J [] xs s → ring d (mem s) h xs → length xs ≤ n →
  wp (match d with Fwd => list_for_each_safe mem n h on_node | Bwd => list_for_each_prev_safe mem n h on_node end) (λ _, J xs []) s ∧
  wp (match d with Fwd => list_for_each_entry_safe mem list_entry member n h body | Bwd => list_for_each_entry_safe_reverse mem list_entry member n h body end)
    (λ _, J xs []) s.
Proof using Hmem.
  destruct d; intros; split; [by apply list_for_each_safe_run|by apply list_for_each_entry_safe_run|
    by apply list_for_each_prev_safe_run|by apply list_for_each_entry_safe_reverse_run].
Qed.
End loops.

(** Taking every element off its ring, in either direction. *)
Section empty_ring.
Context {A : Type} `{Countable A}.
Implicit Types (h y : A) (vis rest : list A) (m : gmap A (list_head A)) (d : dir).

Definition left_over d h (vis rest : list A) m : Prop := ring d m h rest.
Lemma left_over_linked d h : linked id (left_over d h) h d.
Proof. intros vis rest m Hr. by exists []. Qed.
Lemma list_del_unlinks d h : may_unlink (left_over d h) list_del.
Proof.
  intros vis y rest m Hr. rewrite /left_over /ring in Hr |- *. destruct d.
  - apply (wp_list_del y h [] rest); [done|]. by intros m' Hm' _.
  - cbn in Hr. apply (wp_list_del y h (rev rest) []); [done|]. intros m' Hm' _. by rewrite app_nil_r in Hm'.
Qed.
End empty_ring.

Module IterWitness.
Import Rings.
#[local] Open Scope positive_scope.

(** Structures that start 8 bytes before their node. *)
Definition entry (p : positive) : Z := (Z.pos p - 8)%Z.
Definition node (z : Z) : positive := Z.to_pos (z + 8).
Lemma node_entry p : node (entry p) = p.
Proof. rewrite /node /entry. by rewrite Z.sub_add. Qed.
Definition unlink (z : Z) : M (gmap positive (list_head positive)) unit := list_del (node z).
Lemma unlink_ok d : may_unlink (left_over d 1) (on_node entry unlink).
Proof.
  intros vis y rest m' Hm'. rewrite /on_node /unlink node_entry. by apply (list_del_unlinks d 1 vis).
Qed.
Lemma safe_loops_witness :
  wp (list_for_each_prev_safe id 3 1 (on_node entry unlink)) (λ _ m', dll m' 1 []) m ∧
  wp (list_for_each_entry_safe_reverse id entry node 3 1 unlink) (λ _ m', dll m' 1 []) m.
Proof.
  apply (safe_loops_visit_all id entry node node_entry (left_over Bwd 1) 1 unlink Bwd 3 [4; 3; 2] m
    (left_over_linked Bwd 1) (unlink_ok Bwd)); [exact m_1|exact m_1|cbn; clear; lia].
Defined.
(** The visits, in order. *)
Definition visit (p : positive) : M (gmap positive (list_head positive) * list positive) unit :=
  modify (λ '(m, l), (m, (l ++ [p])%list)).
Example visits_forward : snd <$> list_for_each fst 3 1 visit (m, []) = Some (m, [2; 3; 4]).
Proof. vm_compute. reflexivity. Qed.
Example visits_continued :
  snd <$> list_for_each_entry_continue_reverse fst entry node 3 1 (entry 4) (λ z, visit (node z)) (m, []) = Some (m, [3; 2]).
Proof. vm_compute. reflexivity. Qed.
Example prepared : list_prepare_entry entry None 1 = (-7)%Z ∧ list_prepare_entry entry (Some 3%Z) 1 = 3%Z.
Proof. split; reflexivity. Qed.
End IterWitness.
