(* ===== verification/JHash.v ===== *)
(** * The Jenkins hash (src/cmn/jhash.h)

    [uint32_t] values are integers in [0, 2^32) and every operation wraps.  A key
    is the list of its bytes or words; a read behind its end is [None]. *)

From S2P Require Import Prelude.
#[local] Open Scope Z_scope.

Definition JHASH_GOLDEN_RATIO : Z := 0x9e3779b9.

(** [a -= b; a -= c; a ^= (c >> n)] and the same with a left shift. *)
Definition mixr (a b c n : Z) : Z := Z.lxor (u32 (u32 (a - b) - c)) (Z.shiftr c n).
Definition mixl (a b c n : Z) : Z := Z.lxor (u32 (u32 (a - b) - c)) (u32 (Z.shiftl c n)).

Definition jhash_mix (a b c : Z) : Z * Z * Z :=
  let a := mixr a b c 13 in
  let b := mixl b c a 8 in
  let c := mixr c a b 13 in
  let a := mixr a b c 12 in
  let b := mixl b c a 16 in
  let c := mixr c a b 5 in
  let a := mixr a b c 3 in
  let b := mixl b c a 10 in
  let c := mixr c a b 15 in
  (a, b, c).

(** [k[i] + ((uint32_t)k[i+1]<<8) + ((uint32_t)k[i+2]<<16) + ((uint32_t)k[i+3]<<24)]. *)
Definition word_at (k : list Z) (i : nat) : option Z :=
  b0 ← k !! i; b1 ← k !! (1 + i)%nat; b2 ← k !! (2 + i)%nat; b3 ← k !! (3 + i)%nat;
  Some (u32 (b0 + Z.shiftl b1 8 + Z.shiftl b2 16 + Z.shiftl b3 24)).

(** The [while (len >= 12)] loop; every round consumes twelve bytes of the key, so
    the length of the key is enough fuel. *)
Fixpoint jhash_loop (fuel : nat) (k : list Z) (len a b c : Z) : option (list Z * Z * (Z * Z * Z)) :=
  if len <? 12 then Some (k, len, (a, b, c)) else
  match fuel with
  | 0%nat => None
  | S fuel =>
      wa ← word_at k 0; wb ← word_at k 4; wc ← word_at k 8;
      let '(a, b, c) := jhash_mix (u32 (a + wa)) (u32 (b + wb)) (u32 (c + wc)) in
      jhash_loop fuel (drop 12 k) (len - 12) a b c
  end.

(** [case n: x += k[n - 1] << sh], reached by falling through from every longer
    remainder. *)
Definition add_byte (k : list Z) (len n sh x : Z) : option Z :=
  if n <=? len then b ← k !! Z.to_nat (n - 1); Some (u32 (x + Z.shiftl b sh)) else Some x.

Definition jhash (key : list Z) (length_ initval : Z) : option Z :=
  r ← jhash_loop (length key) key length_ JHASH_GOLDEN_RATIO JHASH_GOLDEN_RATIO initval;
  let '(k, len, (a, b, c)) := r in
  let c := u32 (c + length_) in
  c ← add_byte k len 11 24 c;
  c ← add_byte k len 10 16 c;
  c ← add_byte k len 9 8 c;
  b ← add_byte k len 8 24 b;
  b ← add_byte k len 7 16 b;
  b ← add_byte k len 6 8 b;
  b ← add_byte k len 5 0 b;
  a ← add_byte k len 4 24 a;
  a ← add_byte k len 3 16 a;
  a ← add_byte k len 2 8 a;
  a ← add_byte k len 1 0 a;
  let '(a, b, c) := jhash_mix a b c in
  Some c.

Fixpoint jhash2_loop (fuel : nat) (k : list Z) (len a b c : Z) : option (list Z * Z * (Z * Z * Z)) :=
  if len <? 3 then Some (k, len, (a, b, c)) else
  match fuel with
  | 0%nat => None
  | S fuel =>
      wa ← k !! 0%nat; wb ← k !! 1%nat; wc ← k !! 2%nat;
      let '(a, b, c) := jhash_mix (u32 (a + wa)) (u32 (b + wb)) (u32 (c + wc)) in
      jhash2_loop fuel (drop 3 k) (len - 3) a b c
  end.

Definition jhash2 (k : list Z) (length_ initval : Z) : option Z :=
  r ← jhash2_loop (length k) k length_ JHASH_GOLDEN_RATIO JHASH_GOLDEN_RATIO initval;
  let '(k, len, (a, b, c)) := r in
  let c := u32 (c + u32 (length_ * 4)) in
  b ← (if 2 <=? len then w ← k !! 1%nat; Some (u32 (b + w)) else Some b);
  a ← (if 1 <=? len then w ← k !! 0%nat; Some (u32 (a + w)) else Some a);
  let '(a, b, c) := jhash_mix a b c in
  Some c.

Definition jhash_3words (a b c initval : Z) : Z :=
  let a := u32 (a + JHASH_GOLDEN_RATIO) in
  let b := u32 (b + JHASH_GOLDEN_RATIO) in
  let c := u32 (c + initval) in
  let '(a, b, c) := jhash_mix a b c in
  c.
Definition jhash_2words (a b initval : Z) : Z := jhash_3words a b 0 initval.
Definition jhash_1word (a initval : Z) : Z := jhash_3words a 0 0 initval.

(** ** Words and bytes *)
Definition is_u32 (x : Z) : Prop := 0 ≤ x < 2 ^ 32.
Definition is_byte (x : Z) : Prop := 0 ≤ x < 2 ^ 8.

(** Four bytes, and the little-endian word they are. *)
Record quad := Quad { q0 : Z; q1 : Z; q2 : Z; q3 : Z }.
Definition quad_ok (q : quad) : Prop := is_byte (q0 q) ∧ is_byte (q1 q) ∧ is_byte (q2 q) ∧ is_byte (q3 q).
Definition bytes_of (q : quad) : list Z := [q0 q; q1 q; q2 q; q3 q].
Definition word_of (q : quad) : Z := q0 q + q1 q * 2 ^ 8 + q2 q * 2 ^ 16 + q3 q * 2 ^ 24.

Section words.
Lemma word_of_range q : quad_ok q → is_u32 (word_of q).
Proof. rewrite /quad_ok /is_byte /is_u32 /word_of. lia. Qed.
Lemma word_of_shifts q :
  u32 (q0 q + Z.shiftl (q1 q) 8 + Z.shiftl (q2 q) 16 + Z.shiftl (q3 q) 24) = u32 (word_of q).
Proof. by rewrite !Z.shiftl_mul_pow2. Qed.

Lemma u32_add_l x y : u32 (u32 x + y) = u32 (x + y).
Proof. by rewrite /u32 Zplus_mod_idemp_l. Qed.
Lemma u32_add_r x y : u32 (x + u32 y) = u32 (x + y).
Proof. by rewrite /u32 Zplus_mod_idemp_r. Qed.
Lemma u32_sub_l x y : u32 (u32 x - y) = u32 (x - y).
Proof. by rewrite /u32 Zminus_mod_idemp_l. Qed.
Lemma u32_is_u32 x : is_u32 (u32 x).
Proof. apply u32_range. Qed.
Lemma lxor_is_u32 x y : is_u32 x → is_u32 y → is_u32 (Z.lxor x y).
Proof.
  rewrite /is_u32. intros Hx Hy. split; [apply Z.lxor_nonneg; lia|].
  destruct (Z.eq_dec (Z.lxor x y) 0) as [->|Hne]; [lia|].
  apply Z.log2_lt_pow2.
  { pose proof (proj2 (Z.lxor_nonneg x y) ltac:(lia)). lia. }
  eapply Z.le_lt_trans; [apply Z.log2_lxor; lia|].
  apply Z.max_lub_lt.
  - destruct (Z.eq_dec x 0) as [->|]; [done|]. apply Z.log2_lt_pow2; lia.
  - destruct (Z.eq_dec y 0) as [->|]; [done|]. apply Z.log2_lt_pow2; lia.
Qed.
Lemma shiftr_is_u32 x n : is_u32 x → 0 ≤ n → is_u32 (Z.shiftr x n).
Proof.
  rewrite /is_u32. intros Hx Hn. split; [apply Z.shiftr_nonneg; lia|].
  rewrite Z.shiftr_div_pow2 //. apply Z.div_lt_upper_bound; [lia|].
  pose proof (Z.pow_pos_nonneg 2 n ltac:(lia) Hn). nia.
Qed.

Lemma mixr_is_u32 a b c n : is_u32 c → 0 ≤ n → is_u32 (mixr a b c n).
Proof. intros. apply lxor_is_u32; [apply u32_is_u32|by apply shiftr_is_u32]. Qed.
Lemma mixl_is_u32 a b c n : is_u32 (mixl a b c n).
Proof. apply lxor_is_u32; apply u32_is_u32. Qed.

(** Each step of the mix can be undone. *)
Lemma mixr_inj a a' b c n :
  is_u32 a → is_u32 a' → mixr a b c n = mixr a' b c n → a = a'.
Proof.
  rewrite /mixr /is_u32. intros Ha Ha' Heq.
  apply (f_equal (λ z, Z.lxor z (Z.shiftr c n))) in Heq.
  rewrite !Z.lxor_assoc !Z.lxor_nilpotent !Z.lxor_0_r !u32_sub_l in Heq.
  apply (f_equal (λ z, u32 (z + (b + c)))) in Heq. rewrite !u32_add_l in Heq.
  replace (a - b - c + (b + c)) with a in Heq by lia.
  replace (a' - b - c + (b + c)) with a' in Heq by lia.
  rewrite !u32_small in Heq; lia.
Qed.
Lemma mixl_inj a a' b c n :
  is_u32 a → is_u32 a' → mixl a b c n = mixl a' b c n → a = a'.
Proof.
  rewrite /mixl /is_u32. intros Ha Ha' Heq.
  apply (f_equal (λ z, Z.lxor z (u32 (Z.shiftl c n)))) in Heq.
  rewrite !Z.lxor_assoc !Z.lxor_nilpotent !Z.lxor_0_r !u32_sub_l in Heq.
  apply (f_equal (λ z, u32 (z + (b + c)))) in Heq. rewrite !u32_add_l in Heq.
  replace (a - b - c + (b + c)) with a in Heq by lia.
  replace (a' - b - c + (b + c)) with a' in Heq by lia.
  rewrite !u32_small in Heq; lia.
Qed.
End words.

(** ** The byte version and the word version *)
Section agree.
Implicit Types (qs : list quad).

Definition bytes qs : list Z := qs ≫= bytes_of.
Definition words qs : list Z := word_of <$> qs.

(** The two loops run in step and stop with the same remainder. *)
Lemma loops_agree f g qs a b c :
  (length qs ≤ f)%nat → (length qs ≤ g)%nat →
  ∃ qs' t, jhash_loop f (bytes qs) (4 * Z.of_nat (length qs)) a b c =
      Some (bytes qs', 4 * Z.of_nat (length qs'), t) ∧
    jhash2_loop g (words qs) (Z.of_nat (length qs)) a b c =
      Some (words qs', Z.of_nat (length qs'), t) ∧ (length qs' < 3)%nat.
Proof.
  revert g qs a b c. induction f as [|f IH]; intros g qs a b c Hf Hg.
  { destruct qs; simpl in Hf; [|lia]. exists [], (a, b, c). destruct g; simpl; split_and!; auto; lia. }
  destruct (decide (length qs < 3)%nat) as [Hlt|Hge].
  { exists qs, (a, b, c).
    assert (E1 : (4 * Z.of_nat (length qs) <? 12) = true) by (apply Z.ltb_lt; lia).
    assert (E2 : (Z.of_nat (length qs) <? 3) = true) by (apply Z.ltb_lt; lia).
    cbn [jhash_loop]. rewrite E1. destruct g; cbn [jhash2_loop]; rewrite E2; done. }
  destruct qs as [|q [|r [|t qs]]]; cbn [length] in *; try lia.
  destruct g as [|g]; [lia|]. cbn [jhash_loop jhash2_loop].
  assert (E1 : (4 * Z.of_nat (S (S (S (length qs)))) <? 12) = false) by (apply Z.ltb_ge; lia).
  assert (E2 : (Z.of_nat (S (S (S (length qs)))) <? 3) = false) by (apply Z.ltb_ge; lia).
  rewrite E1 E2.
  assert (word_at (bytes (q :: r :: t :: qs)) 0 = Some (u32 (word_of q)) ∧
    word_at (bytes (q :: r :: t :: qs)) 4 = Some (u32 (word_of r)) ∧
    word_at (bytes (q :: r :: t :: qs)) 8 = Some (u32 (word_of t))) as (->&->&->)
    by by rewrite -!word_of_shifts.
  cbn [mbind option_bind]. rewrite !u32_add_r.
  change (drop 12 (bytes (q :: r :: t :: qs))) with (bytes qs).
  cbn [words fmap list_fmap lookup list_lookup mbind option_bind drop]. fold (words qs).
  destruct (jhash_mix _ _ _) as [[a' b'] c'].
  replace (4 * Z.of_nat (S (S (S (length qs)))) - 12) with (4 * Z.of_nat (length qs)) by lia.
  replace (Z.of_nat (S (S (S (length qs)))) - 3) with (Z.of_nat (length qs)) by lia.
  apply IH; lia.
Qed.

Lemma bytes_length qs : length (bytes qs) = (4 * length qs)%nat.
Proof.
  induction qs as [|q qs IH]; [done|].
  change (bytes (q :: qs)) with (bytes_of q ++ bytes qs). rewrite length_app IH /=. lia.
Qed.
Lemma add_word x q :
  u32 (u32 (u32 (u32 (x + Z.shiftl (q3 q) 24) + Z.shiftl (q2 q) 16) + Z.shiftl (q1 q) 8) +
       Z.shiftl (q0 q) 0) = u32 (x + word_of q).
Proof.
  rewrite !Z.shiftl_mul_pow2 //. repeat (rewrite u32_add_l -?Z.add_assoc).
  rewrite /word_of. f_equal. lia.
Qed.

Lemma jhash_agree qs iv :
  jhash (bytes qs) (4 * Z.of_nat (length qs)) iv = jhash2 (words qs) (Z.of_nat (length qs)) iv.
Proof.
  rewrite /jhash /jhash2 bytes_length.
  destruct (loops_agree (4 * length qs) (length (words qs)) qs JHASH_GOLDEN_RATIO
    JHASH_GOLDEN_RATIO iv) as (qs'&[[a b] c]&->&->&Hlt); [lia|by rewrite /words length_fmap|].
  cbn [mbind option_bind]. rewrite (Z.mul_comm (Z.of_nat _) 4) u32_add_r.
  destruct qs' as [|q [|r [|]]]; cbn [length] in Hlt; try lia; [done|..].
  - by rewrite /add_byte /= (add_word a q).
  - by rewrite /add_byte /= (add_word b r) (add_word a q).
Qed.
End agree.

(** ** Theorems *)

(** C40: the version for words computes the same hash as the generic version on
    the little-endian bytes of the words, for every key length that is a multiple
    of four and every initial value, and both terminate on it. *)
Theorem jhash2_equals_jhash (qs : list quad) (initval : Z) :
  ∃ h, jhash (bytes qs) (4 * Z.of_nat (length qs)) initval = Some h ∧
    jhash2 (words qs) (Z.of_nat (length qs)) initval = Some h.
Proof.
  rewrite jhash_agree /jhash2.
  destruct (loops_agree (4 * length qs) (length (words qs)) qs JHASH_GOLDEN_RATIO
    JHASH_GOLDEN_RATIO initval) as (qs'&[[a b] c]&_&->&Hlt); [lia|by rewrite /words length_fmap|].
  destruct qs' as [|q [|r [|]]]; cbn [length] in Hlt; try lia;
    by (eexists; split; reflexivity).
Qed.

(** the mixing step loses nothing: on 32-bit values it is injective, and
    its results are 32-bit values. *)
Theorem jhash_mix_bijective a b c a' b' c' :
  is_u32 a → is_u32 b → is_u32 c → is_u32 a' → is_u32 b' → is_u32 c' →
  (jhash_mix a b c = jhash_mix a' b' c' → (a, b, c) = (a', b', c')) ∧
  (let '(x, y, z) := jhash_mix a b c in is_u32 x ∧ is_u32 y ∧ is_u32 z).
Proof.
  intros Ha Hb Hc Ha' Hb' Hc'. split; last first.
  { rewrite /jhash_mix. cbv zeta. split_and!; auto using mixr_is_u32, mixl_is_u32 with lia.
    all: repeat first [apply mixl_is_u32 | apply mixr_is_u32; [|lia] | done]. }
  rewrite /jhash_mix. cbv zeta. intros Heq.
  set (a1 := mixr a b c 13) in *. set (b1 := mixl b c a1 8) in *. set (c1 := mixr c a1 b1 13) in *.
  set (a2 := mixr a1 b1 c1 12) in *. set (b2 := mixl b1 c1 a2 16) in *. set (c2 := mixr c1 a2 b2 5) in *.
  set (a3 := mixr a2 b2 c2 3) in *. set (b3 := mixl b2 c2 a3 10) in *.
  set (d1 := mixr a' b' c' 13) in *. set (e1 := mixl b' c' d1 8) in *. set (f1 := mixr c' d1 e1 13) in *.
  set (d2 := mixr d1 e1 f1 12) in *. set (e2 := mixl e1 f1 d2 16) in *. set (f2 := mixr f1 d2 e2 5) in *.
  set (d3 := mixr d2 e2 f2 3) in *. set (e3 := mixl e2 f2 d3 10) in *.
  injection Heq as E3 E2 E1.
  assert (Hu : ∀ x y z n, is_u32 (mixl x y z n)) by apply mixl_is_u32.
  assert (is_u32 a1 ∧ is_u32 d1) as [??] by (split; apply mixr_is_u32; first [done|apply Hu]).
  assert (is_u32 c1 ∧ is_u32 f1) as [??] by (split; apply mixr_is_u32; first [done|apply Hu]).
  assert (is_u32 a2 ∧ is_u32 d2) as [??] by (split; apply mixr_is_u32; first [done|apply Hu]).
  assert (is_u32 c2 ∧ is_u32 f2) as [??] by (split; apply mixr_is_u32; first [done|apply Hu]).
  rewrite E3 E2 in E1. apply mixr_inj in E1; [|done..].
  unfold b3, e3 in E2. rewrite E1 E3 in E2. apply mixl_inj in E2; [|apply Hu..].
  unfold a3, d3 in E3. rewrite E1 E2 in E3. apply mixr_inj in E3; [|done..].
  unfold c2, f2 in E1. rewrite E3 E2 in E1. apply mixr_inj in E1; [|done..].
  unfold b2, e2 in E2. rewrite E1 E3 in E2. apply mixl_inj in E2; [|apply Hu..].
  unfold a2, d2 in E3. rewrite E1 E2 in E3. apply mixr_inj in E3; [|done..].
  unfold c1, f1 in E1. rewrite E3 E2 in E1. apply mixr_inj in E1; [|done..].
  unfold b1, e1 in E2. rewrite E1 E3 in E2. apply mixl_inj in E2; [|done..].
  unfold a1, d1 in E3. rewrite E1 E2 in E3. apply mixr_inj in E3; [|done..]. congruence.
Qed.

Lemma jhash_mix_witness : jhash_mix 1 2 3 ≠ jhash_mix 1 2 4.
Proof.
  intros Heq.
  assert ((1, 2, 3) = (1, 2, 4)) as [=].
  apply (jhash_mix_bijective 1 2 3 1 2 4); [by split..|done].
Defined.
