(* ===== verification/MemPool.v ===== *)
(** * Memory pools (src/mem/mem_main.c)

    A pool is a region of equal blocks and an array with one entry per block:
    the address of the block while it is free, null while it is in use.  The
    control blocks are linked in [hd_mcb].

    Addresses are integers, 0 is the null pointer.  The control blocks, the arrays
    of block addresses and the list nodes are separate stores; an access to an
    address that is not allocated, or to an array out of its range, is
    undefined behaviour.  The addresses the allocator returns are the interface
    [MemEnv].  Messages on the terminal are left out. *)

From S2P Require Import Prelude ListHead.

(** [sizeof (unsigned long)] of the i386 target. *)
Definition MACHINE_ALIGNEMENT : Z := 4.
Definition MEM_ALIGNED (bytes : Z) : Z := (bytes `mod` MACHINE_ALIGNEMENT)%Z.
Definition in_range (start end_ size value : Z) : bool :=
  ((start <=? value) && (u32 (value + size) <=? end_))%Z.
Definition COMPUTE_ADDR_BLOCK (saddr cnt size : Z) : Z := u32 (saddr + u32 (cnt * size)).

Record mem_info := MkMem {
  saddr : Z; eaddr : Z; addr_blks : Z; memid : Z;
  nblks : Z; useblks : Z; fblks : Z; msize : Z
}.
Definition mem_zero : mem_info := MkMem 0 0 0 0 0 0 0 0.

(** The list nodes: [hd_mcb] and [mcb->n]. *)
Inductive mnode := MN_head | MN_info (a : Z).
#[global] Instance mnode_eq_dec : EqDecision mnode.
Proof. solve_decision. Defined.
#[global] Program Instance mnode_countable : Countable mnode :=
  inj_countable' (λ n, match n with MN_head => None | MN_info a => Some a end)
                 (λ o, match o with None => MN_head | Some a => MN_info a end) _.
Next Obligation. by intros []. Qed.

Record mem_sys := MkMemSys {
  infos : gmap Z mem_info;
  arrs : gmap Z (list Z);
  mlst : gmap mnode (list_head mnode);
  mcb_count : Z;
  mem_alloc_size : Z;
  n_alloc : nat
}.
Definition mem_sys_zero : mem_sys := MkMemSys ∅ ∅ ∅ 0 0 0.

(** [mem_calloc k]: what the [k]-th call of [calloc] returns, 0 for null. *)
Class MemEnv := { mem_calloc : nat → Z; sizeof_mem_info : Z }.

Section MemPool.
Context `{E : MemEnv}.

(** ** Stores *)
Definition set_infos v s := MkMemSys v (arrs s) (mlst s) (mcb_count s) (mem_alloc_size s) (n_alloc s).
Definition set_arrs v s := MkMemSys (infos s) v (mlst s) (mcb_count s) (mem_alloc_size s) (n_alloc s).
Definition set_mlst v s := MkMemSys (infos s) (arrs s) v (mcb_count s) (mem_alloc_size s) (n_alloc s).
Definition set_mcb_count v s :=
  MkMemSys (infos s) (arrs s) (mlst s) v (mem_alloc_size s) (n_alloc s).

Definition onml {A} (m : M (gmap mnode (list_head mnode)) A) : M mem_sys A := zoom mlst set_mlst m.
Definition info_ld (a : Z) : M mem_sys mem_info := λ s,
  match infos s !! a with Some i => Some (i, s) | None => None end.
Definition info_mod (f : mem_info → mem_info) (a : Z) : M mem_sys unit := λ s,
  match infos s !! a with
  | Some i => Some (tt, set_infos (<[a := f i]> (infos s)) s)
  | None => None
  end.
(** [a[i]] and [a[i] = v] for an array of pointers. *)
Definition arr_get (a i : Z) : M mem_sys Z := λ s,
  match arrs s !! a with
  | Some l => if decide (0 ≤ i)%Z then
      match l !! Z.to_nat i with Some v => Some (v, s) | None => None end else None
  | None => None
  end.
Definition arr_set (a i v : Z) : M mem_sys unit := λ s,
  match arrs s !! a with
  | Some l => if decide (0 ≤ i < Z.of_nat (length l))%Z
      then Some (tt, set_arrs (<[a := <[Z.to_nat i := v]> l]> (arrs s)) s) else None
  | None => None
  end.

(** ** Functions *)
Definition mem_init : M mem_sys Z :=
  onml (INIT_LIST_HEAD MN_head);;
  mret 0%Z.

(** [tm_calloc (1, size)]. *)
Definition alloc_mem (size : Z) : M mem_sys Z := λ s,
  Some (mem_calloc (n_alloc s),
    MkMemSys (infos s) (arrs s) (mlst s) (mcb_count s) (u32 (mem_alloc_size s + size)) (S (n_alloc s))).

(** The new block is a zeroed [struct mem_info] with its list node. *)
Definition get_next_free_mcb : M mem_sys (option (Z * Z)) :=
  p ← alloc_mem sizeof_mem_info;
  if (p =? 0)%Z then mret None else
  modify (λ s, set_infos (<[p := mem_zero]> (infos s)) s);;
  modify (λ s, set_mcb_count (s32 (mcb_count s + 1)) s);;
  memid ← gets mcb_count;
  mret (Some (p, memid)).

Definition list_entry_mem (n : mnode) : option Z :=
  match n with MN_info a => Some a | MN_head => None end.

(** [list_for_each (p, head)]: the store bounds the number of nodes. *)
Fixpoint find_mem (fuel : nat) (pos : mnode) (id : Z) : M mem_sys (option Z) :=
  if bool_decide (pos = MN_head) then mret None else
  match fuel with
  | 0%nat => ub
  | S fuel =>
      p ← liftO (list_entry_mem pos);
      m ← info_ld p;
      if (memid m =? id)%Z then mret (Some p) else
      n ← onml (get_next pos);
      find_mem fuel n id
  end.
Definition get_mem_info (id : Z) : M mem_sys (option Z) :=
  sz ← gets (λ s, size (mlst s));
  n ← onml (get_next MN_head);
  find_mem sz n id.

(** [while (i < m->nblks)]; [n] counts the blocks left. *)
Fixpoint build_loop (n : nat) (mblk : Z) (m : mem_info) (i : Z) : M mem_sys unit :=
  match n with
  | 0%nat => mret tt
  | S n =>
      arr_set mblk i (COMPUTE_ADDR_BLOCK (saddr m) i (msize m));;
      build_loop n mblk m (i + 1)
  end.

Definition build_free_mem_blk_list (p : Z) : M mem_sys Z :=
  m ← info_ld p;
  mblk ← alloc_mem (u32 (4 * nblks m));
  if (mblk =? 0)%Z then mret (-1)%Z else
  modify (λ s, set_arrs (<[mblk := replicate (Z.to_nat (nblks m)) 0%Z]> (arrs s)) s);;
  build_loop (Z.to_nat (nblks m)) mblk m 0;;
  info_mod (λ m, MkMem (saddr m) (eaddr m) mblk (memid m) (nblks m) (useblks m) (fblks m) (msize m)) p;;
  mret 0%Z.

Definition add_to_mcb (p : Z) : M mem_sys Z :=
  onml (list_add_tail (MN_info p) MN_head);;
  mret 0%Z.

(** The size of the region: [align] becomes a whole [MACHINE_ALIGNEMENT]. *)
Definition pool_bytes (size n_blks : Z) : Z :=
  let bytes := u32 (size * n_blks) in
  let align := MEM_ALIGNED bytes in
  if truthy align then
    let align := (align + (MACHINE_ALIGNEMENT - align))%Z in
    u32 (bytes + align)
  else bytes.

Definition mem_pool_create (size n_blks : Z) : M mem_sys Z :=
  let bytes := pool_bytes size n_blks in
  mcb ← get_next_free_mcb;
  match mcb with
  | None => mret (-1)%Z
  | Some (p, id) =>
      info_mod (λ m, MkMem (saddr m) (eaddr m) (addr_blks m) id n_blks 0 n_blks size) p;;
      onml (INIT_LIST_HEAD (MN_info p));;
      a ← alloc_mem bytes;
      info_mod (λ m, MkMem a (eaddr m) (addr_blks m) (memid m) (nblks m) (useblks m) (fblks m) (msize m)) p;;
      if (a =? 0)%Z then mret (-1)%Z else
      info_mod (λ m, MkMem (saddr m) (u32 (saddr m + bytes)) (addr_blks m) (memid m) (nblks m)
                       (useblks m) (fblks m) (msize m)) p;;
      build_free_mem_blk_list p;;
      add_to_mcb p;;
      m ← info_ld p;
      mret (memid m)
  end.

(** [free (p->addr_blks); free (p->saddr); free (p)]. *)
Definition mem_pool_delete (pool_id : Z) : M mem_sys Z :=
  p ← get_mem_info pool_id;
  match p with
  | None => mret (-1)%Z
  | Some p =>
      m ← info_ld p;
      modify (λ s, set_arrs (delete (addr_blks m) (arrs s)) s);;
      modify (λ s, set_infos (delete p (infos s)) s);;
      modify (λ s, set_mlst (delete (MN_info p) (mlst s)) s);;
      mret 0%Z
  end.

(** [while (i < p->nblks)] of [alloc_block]. *)
Fixpoint alloc_loop (n : nat) (p i : Z) : M mem_sys Z :=
  match n with
  | 0%nat => mret 0%Z
  | S n =>
      m ← info_ld p;
      b ← arr_get (addr_blks m) i;
      if (b =? 0)%Z then alloc_loop n p (i + 1) else
      arr_set (addr_blks m) i 0;;
      info_mod (λ m, MkMem (saddr m) (eaddr m) (addr_blks m) (memid m) (nblks m)
                       (s32 (useblks m + 1)) (s32 (fblks m - 1)) (msize m)) p;;
      mret b
  end.

(** The result of [get_mem_info] is used without a check. *)
Definition alloc_block (id : Z) : M mem_sys Z :=
  p ← get_mem_info id;
  p ← liftO p;
  m ← info_ld p;
  if (fblks m =? 0)%Z then mret 0%Z else
  alloc_loop (Z.to_nat (nblks m)) p 0.

(** [offset] is an [int], [size] a [size_t]: the division is unsigned; a
    division by zero is undefined. *)
Definition free_blk (id addr : Z) : M mem_sys Z :=
  p ← get_mem_info id;
  match p with
  | None => mret (-1)%Z
  | Some p =>
      m ← info_ld p;
      if negb (in_range (saddr m) (eaddr m) (msize m) addr) then mret (-1)%Z else
      let offset := s32 (u32 (addr - saddr m)) in
      if (msize m =? 0)%Z then ub else
      if truthy (u32 offset `mod` msize m) then mret (-1)%Z else
      let idx := s32 (u32 offset / msize m) in
      b ← arr_get (addr_blks m) idx;
      if (b =? 0)%Z then
        arr_set (addr_blks m) idx addr;;
        info_mod (λ m, MkMem (saddr m) (eaddr m) (addr_blks m) (memid m) (nblks m)
                         (s32 (useblks m - 1)) (s32 (fblks m + 1)) (msize m)) p;;
        mret 0%Z
      else mret (-1)%Z
  end.
End MemPool.

(** ** Triples of the accesses *)
Section access.
Context `{E : MemEnv}.

Lemma wp_info_ld a i (Φ : mem_info → mem_sys → Prop) s :
  infos s !! a = Some i → Φ i s → wp (info_ld a) Φ s.
Proof. intros Ha HΦ. by rewrite /wp /info_ld Ha. Qed.
Lemma wp_info_mod f a i (Φ : unit → mem_sys → Prop) s :
  infos s !! a = Some i → Φ tt (set_infos (<[a := f i]> (infos s)) s) → wp (info_mod f a) Φ s.
Proof. intros Ha HΦ. by rewrite /wp /info_mod Ha. Qed.
Lemma wp_arr_get a i l v (Φ : Z → mem_sys → Prop) s :
  arrs s !! a = Some l → (0 ≤ i)%Z → l !! Z.to_nat i = Some v → Φ v s → wp (arr_get a i) Φ s.
Proof. intros Ha Hi Hv HΦ. by rewrite /wp /arr_get Ha decide_True // Hv. Qed.
Lemma wp_arr_set a i v l (Φ : unit → mem_sys → Prop) s :
  arrs s !! a = Some l → (0 ≤ i < Z.of_nat (length l))%Z →
  Φ tt (set_arrs (<[a := <[Z.to_nat i := v]> l]> (arrs s)) s) → wp (arr_set a i v) Φ s.
Proof. intros Ha Hi HΦ. by rewrite /wp /arr_set Ha decide_True. Qed.
Lemma wp_onml {A} (m : M _ A) a l (Φ : A → mem_sys → Prop) s :
  m (mlst s) = Some (a, l) → Φ a (set_mlst l s) → wp (onml m) Φ s.
Proof. intros Hm HΦ. by rewrite /wp /onml /zoom Hm. Qed.
Lemma set_mlst_id s : set_mlst (mlst s) s = s.
Proof. by destruct s. Qed.
End access.

(** ** The invariant of the pools *)

(** Number of free blocks: the entries that are not null. *)
Definition nfree (bl : list Z) : nat := length (filter (λ v, v ≠ 0%Z) bl).

(** The control block [m] with its array [bl]: the blocks lie inside a region of the 32-bit address space, and the
    [int] that counts them does not overflow. *)
Record pool_ok (m : mem_info) (bl : list Z) : Prop := {
  po_len : Z.of_nat (length bl) = nblks m;
  po_size : (0 < msize m)%Z;
  po_addr : (0 < saddr m)%Z ∧ (saddr m + nblks m * msize m ≤ eaddr m)%Z ∧ (eaddr m < 2 ^ 32)%Z;
  po_int : (nblks m < 2 ^ 31)%Z;
  po_blk i v : bl !! i = Some v → v = 0%Z ∨ v = (saddr m + Z.of_nat i * msize m)%Z;
  po_free : fblks m = Z.of_nat (nfree bl);
  po_use : useblks m = (nblks m - fblks m)%Z
}.

(** The pools [ps], in the order of [hd_mcb]. *)
Record pools (s : mem_sys) (ps : list Z) : Prop := {
  pl_list : dll (mlst s) MN_head (MN_info <$> ps);
  pl_pool p : p ∈ ps → ∃ m bl, infos s !! p = Some m ∧ arrs s !! addr_blks m = Some bl ∧ pool_ok m bl;
  pl_ids p q m n : p ∈ ps → q ∈ ps → infos s !! p = Some m → infos s !! q = Some n →
    memid m = memid n → p = q;
  pl_arrs p q m n : p ∈ ps → q ∈ ps → infos s !! p = Some m → infos s !! q = Some n →
    addr_blks m = addr_blks n → p = q
}.

Section pools.
Context `{E : MemEnv}.
Implicit Types (s : mem_sys) (ps : list Z) (m : mem_info) (bl : list Z).

(** ** Finding a pool *)
Lemma mem_next_run s a ns :
  seg (mlst s) a ns MN_head → onml (get_next a) s = Some (hd MN_head ns, s).
Proof.
  intros Hs. rewrite /onml /zoom (get_next_eq _ _ _ (seg_nxt _ _ _ _ Hs)). by rewrite set_mlst_id.
Qed.
(** The search stops at the first control block with the id. *)
Lemma find_mem_run s id a ps fuel :
  seg (mlst s) a (MN_info <$> ps) MN_head → length ps ≤ fuel →
  (∀ q, q ∈ ps → is_Some (infos s !! q)) →
  find_mem fuel (hd MN_head (MN_info <$> ps)) id s =
    Some (head (filter (λ q, memid <$> infos s !! q = Some id) ps), s).
Proof.
  revert a fuel. induction ps as [|q ps IH]; intros a fuel Hs Hf Hv; [by destruct fuel|].
  destruct fuel as [|fuel]; cbn [length] in Hf; [lia|]. destruct Hs as (_&_&Hs).
  cbn [fmap list_fmap hd find_mem]. rewrite bool_decide_eq_false_2 //.
  destruct (Hv q ltac:(set_solver)) as [m Hm].
  rewrite (bind_run _ _ _ q s) // (bind_run _ _ _ m s); [|by rewrite /info_ld Hm].
  rewrite filter_cons Hm /=. destruct (Z.eqb_spec (memid m) id) as [->|Hne].
  { by rewrite decide_True. }
  rewrite (bind_run _ _ _ _ _ (mem_next_run _ _ _ Hs)) decide_False; [|congruence].
  apply (IH (MN_info q)); [done|lia|set_solver].
Qed.
Lemma get_mem_info_first s ps id :
  pools s ps →
  get_mem_info id s = Some (head (filter (λ q, memid <$> infos s !! q = Some id) ps), s).
Proof.
  intros Hs. pose proof (pl_list _ _ Hs) as Hd. pose proof (dll_length _ _ _ Hd) as Hl.
  rewrite length_fmap in Hl. destruct Hd as [_ Hsg].
  rewrite /get_mem_info (bind_run _ _ _ (size (mlst s)) s) //.
  rewrite (bind_run _ _ _ _ _ (mem_next_run _ _ _ Hsg)). apply (find_mem_run s id MN_head); [done..|].
  intros q Hq. destruct (pl_pool _ _ Hs q Hq) as (n&bl&->&_). done.
Qed.

Lemma get_mem_info_run s ps p m :
  pools s ps → p ∈ ps → infos s !! p = Some m → get_mem_info (memid m) s = Some (Some p, s).
Proof.
  intros Hs Hp Hm. rewrite (get_mem_info_first s ps) //.
  assert (p ∈ filter (λ q, memid <$> infos s !! q = Some (memid m)) ps) as Hin.
  { apply list_elem_of_filter. by rewrite Hm. }
  destruct (filter _ ps) as [|q l] eqn:Hf; [set_solver|]. cbn [head]. do 3 f_equal.
  assert (q ∈ filter (λ q, memid <$> infos s !! q = Some (memid m)) ps)
    as [Hq Hq']%list_elem_of_filter by (rewrite Hf; set_solver).
  destruct (infos s !! q) as [n|] eqn:Hn; [|done]. injection Hq as Hid.
  by apply (pl_ids _ _ Hs q p n m).
Qed.
Lemma get_mem_info_none s ps id :
  pools s ps → (∀ p m, p ∈ ps → infos s !! p = Some m → memid m ≠ id) →
  get_mem_info id s = Some (None, s).
Proof.
  intros Hs Hid. rewrite (get_mem_info_first s ps) //.
  destruct (filter _ ps) as [|q l] eqn:Hf; [done|]. exfalso.
  assert (q ∈ filter (λ q, memid <$> infos s !! q = Some id) ps)
    as [Hq Hq']%list_elem_of_filter by (rewrite Hf; set_solver).
  destruct (infos s !! q) as [n|] eqn:Hn; [|done]. injection Hq as Hq. by eapply Hid.
Qed.

(** A search that reaches a freed control block. *)
Lemma find_mem_freed s s' id a xs p ys fuel :
  seg (mlst s) a (MN_info <$> xs ++ p :: ys) MN_head →
  mlst s' = delete (MN_info p) (mlst s) → infos s' = delete p (infos s) →
  (∀ q, q ∈ xs → q ≠ p ∧ ∃ n, infos s !! q = Some n ∧ memid n ≠ id) →
  find_mem fuel (hd MN_head (MN_info <$> xs ++ p :: ys)) id s' = None.
Proof.
  intros Hs Hl Hi. revert a fuel Hs. induction xs as [|q xs IH]; intros a fuel Hs Hx.
  - destruct fuel; [done|]. cbn. by rewrite /mbind /M_bind /info_ld /= Hi lookup_delete_eq.
  - destruct fuel as [|fuel]; [done|]. destruct Hs as (_&_&Hs).
    destruct (Hx q ltac:(set_solver)) as (Hqp&n&Hn&Hid).
    cbn [fmap list_fmap hd find_mem app]. rewrite bool_decide_eq_false_2 //.
    rewrite (bind_run _ _ _ q s') // (bind_run _ _ _ n s').
    2:{ by rewrite /info_ld Hi lookup_delete_ne // Hn. }
    rewrite (proj2 (Z.eqb_neq _ _) Hid).
    rewrite (bind_run _ _ _ (hd MN_head (MN_info <$> xs ++ p :: ys)) s').
    + apply (IH (MN_info q)); [done|]. intros r Hr. apply Hx. set_solver.
    + pose proof (seg_nxt _ _ _ _ Hs) as Hn'. rewrite /onml /zoom (get_next_eq _ (hd MN_head
        (MN_info <$> xs ++ p :: ys))); [by rewrite set_mlst_id|].
      rewrite /nxt Hl lookup_delete_ne; [done|congruence].
Qed.
Lemma search_dangles s ps p m s' :
  pools s ps → p ∈ ps → infos s !! p = Some m →
  mlst s' = delete (MN_info p) (mlst s) → infos s' = delete p (infos s) →
  get_mem_info (memid m) s' = None.
Proof.
  intros Hs Hp Hm Hl Hi. pose proof (pl_list _ _ Hs) as [Hnd Hsg].
  apply list_elem_of_split in Hp as (xs&ys&->).
  assert (Hpx : ∀ q, q ∈ xs → q ≠ p).
  { intros q Hq ->. apply NoDup_cons in Hnd as [_ Hnd]. apply NoDup_fmap_1, NoDup_app in Hnd as (_&Hd&_).
    apply (Hd p Hq). set_solver. }
  rewrite /get_mem_info (bind_run _ _ _ (size (mlst s')) s') //.
  rewrite (bind_run _ _ _ (hd MN_head (MN_info <$> xs ++ p :: ys)) s').
  - apply (find_mem_freed s s' (memid m) MN_head); [done..|]. intros q Hq. split; [by apply Hpx|].
    destruct (pl_pool _ _ Hs q) as (n&bl&Hn&_); [set_solver|]. exists n. split; [done|].
    intros Hid. apply (Hpx q Hq). apply (pl_ids _ _ Hs q p n m); set_solver.
  - pose proof (seg_nxt _ _ _ _ Hsg) as Hn'. rewrite /onml /zoom (get_next_eq _ (hd MN_head
        (MN_info <$> xs ++ p :: ys))); [by rewrite set_mlst_id|].
    by rewrite /nxt Hl lookup_delete_ne.
Qed.

(** ** Changing one pool *)
Lemma pools_update s ps p m bl m' bl' :
  pools s ps → p ∈ ps → infos s !! p = Some m → addr_blks m' = addr_blks m →
  memid m' = memid m → pool_ok m' bl' →
  pools (set_infos (<[p := m']> (infos s)) (set_arrs (<[addr_blks m := bl']> (arrs s)) s)) ps.
Proof.
  intros Hs Hp Hm Ha Hid Hok.
  assert (Hold : ∀ q n, q ∈ ps → <[p := m']> (infos s) !! q = Some n →
    ∃ n0, infos s !! q = Some n0 ∧ memid n = memid n0 ∧ addr_blks n = addr_blks n0).
  { intros q n Hq. rewrite lookup_insert. case_decide; [subst; intros [= <-]; eauto|eauto]. }
  split; simpl; [apply Hs|..].
  - intros q Hq. destruct (decide (q = p)) as [->|Hne].
    { exists m', bl'. by rewrite lookup_insert_eq Ha lookup_insert_eq. }
    destruct (pl_pool _ _ Hs q Hq) as (n&bln&Hn&Har&Hokn). exists n, bln.
    rewrite !lookup_insert_ne //. intros Heq. apply Hne. by apply (pl_arrs _ _ Hs q p n m).
  - intros q r n n' Hq Hr Hn Hn' Heq.
    destruct (Hold _ _ Hq Hn) as (n0&?&?&_), (Hold _ _ Hr Hn') as (n0'&?&?&_).
    apply (pl_ids _ _ Hs q r n0 n0'); congruence.
  - intros q r n n' Hq Hr Hn Hn' Heq.
    destruct (Hold _ _ Hq Hn) as (n0&?&_&?), (Hold _ _ Hr Hn') as (n0'&?&_&?).
    apply (pl_arrs _ _ Hs q r n0 n0'); congruence.
Qed.

(** ** Counting *)
Lemma nfree_insert bl i v w :
  bl !! i = Some v →
  Z.of_nat (nfree (<[i := w]> bl)) =
    (Z.of_nat (nfree bl) - b2z (bool_decide (v ≠ 0%Z)) + b2z (bool_decide (w ≠ 0%Z)))%Z.
Proof.
  intros Hi. rewrite /nfree -{2}(take_drop_middle bl i v Hi).
  rewrite insert_take_drop; [|by eapply lookup_lt_Some].
  rewrite !filter_app !length_app !filter_cons /b2z.
  repeat case_decide; repeat case_bool_decide; simpl; try done; lia.
Qed.
Lemma nfree_le bl : nfree bl ≤ length bl.
Proof. apply length_filter. Qed.
Lemma nfree_pos bl : nfree bl ≠ 0 ↔ is_Some (list_find (λ v, v ≠ 0%Z) bl).
Proof.
  rewrite /nfree. induction bl as [|v bl IH]; [by split; [|intros [? ?]]|].
  rewrite filter_cons /=. case_decide; simpl; [by split; [eauto|]|].
  rewrite IH. by rewrite fmap_is_Some.
Qed.

(** A pool after block [i] was taken or given back. *)
Definition took (m : mem_info) : mem_info :=
  MkMem (saddr m) (eaddr m) (addr_blks m) (memid m) (nblks m)
    (s32 (useblks m + 1)) (s32 (fblks m - 1)) (msize m).
Definition gave (m : mem_info) : mem_info :=
  MkMem (saddr m) (eaddr m) (addr_blks m) (memid m) (nblks m)
    (s32 (useblks m - 1)) (s32 (fblks m + 1)) (msize m).
Definition with_pool (p : Z) (m m' : mem_info) (bl' : list Z) (s : mem_sys) : mem_sys :=
  set_infos (<[p := m']> (infos s)) (set_arrs (<[addr_blks m := bl']> (arrs s)) s).

Lemma pool_nblks m bl : pool_ok m bl → (0 ≤ nblks m < 2 ^ 31)%Z.
Proof.
  intros [Hl _ _ Hn _ _ _]. lia.
Qed.
Lemma took_ok m bl i v :
  pool_ok m bl → bl !! i = Some v → v ≠ 0%Z → pool_ok (took m) (<[i := 0%Z]> bl).
Proof.
  intros Hok Hi Hv. pose proof (pool_nblks _ _ Hok) as Hn. pose proof (nfree_le bl) as Hle.
  pose proof (nfree_insert bl i v 0 Hi) as Hf.
  rewrite bool_decide_eq_true_2 // bool_decide_eq_false_2 /= in Hf; [|naive_solver].
  destruct Hok as [Hl Hs Ha Hni Hb Hfr Hu].
  split; cbn [took saddr eaddr addr_blks memid nblks useblks fblks msize]; try done.
  - by rewrite length_insert.
  - intros j w. rewrite list_lookup_insert. case_decide; [|eauto].
    intros [= <-]. auto.
  - rewrite s32_small; lia.
  - rewrite !s32_small; lia.
Qed.
Lemma gave_ok m bl i :
  pool_ok m bl → bl !! i = Some 0%Z →
  pool_ok (gave m) (<[i := (saddr m + Z.of_nat i * msize m)%Z]> bl).
Proof.
  intros Hok Hi. pose proof (pool_nblks _ _ Hok) as Hn.
  pose proof (nfree_insert bl i 0 (saddr m + Z.of_nat i * msize m) Hi) as Hf.
  destruct Hok as [Hl Hs Ha Hni Hb Hfr Hu].
  assert (saddr m + Z.of_nat i * msize m ≠ 0)%Z by lia.
  rewrite bool_decide_eq_false_2 /= in Hf; [|naive_solver].
  rewrite bool_decide_eq_true_2 //= in Hf.
  pose proof (nfree_le (<[i := (saddr m + Z.of_nat i * msize m)%Z]> bl)) as Hle.
  rewrite length_insert in Hle.
  split; cbn [gave saddr eaddr addr_blks memid nblks useblks fblks msize]; try done.
  - by rewrite length_insert.
  - intros j w. rewrite list_lookup_insert. case_decide; [|eauto].
    intros [= <-]. right. naive_solver.
  - rewrite s32_small; lia.
  - rewrite !s32_small; lia.
Qed.

(** ** Taking a block *)
Lemma alloc_loop_run n s p m bl i :
  infos s !! p = Some m → arrs s !! addr_blks m = Some bl → i + n = length bl →
  alloc_loop n p (Z.of_nat i) s =
    match list_find (λ v, v ≠ 0%Z) (drop i bl) with
    | None => Some (0%Z, s)
    | Some (j, b) => Some (b, with_pool p m (took m) (<[i + j := 0%Z]> bl) s)
    end.
Proof.
  intros Hm Ha. revert i. induction n as [|n IH]; intros i Hi.
  { rewrite drop_ge; [done|lia]. }
  assert (∃ b, bl !! i = Some b) as [b Hb] by (apply lookup_lt_is_Some; lia).
  rewrite (drop_S _ b) //. cbn [alloc_loop list_find].
  rewrite (bind_run _ _ _ m s); [|by rewrite /info_ld Hm].
  rewrite (bind_run _ _ _ b s).
  2:{ rewrite /arr_get Ha decide_True; [|lia]. by rewrite Nat2Z.id Hb. }
  destruct (Z.eqb_spec b 0) as [->|Hne].
  - case_decide; [done|].
    replace (Z.of_nat i + 1)%Z with (Z.of_nat (S i)) by lia. rewrite IH; [|lia].
    destruct (list_find _ (drop (S i) bl)) as [[j c]|]; simpl; [|done].
    by replace (i + S j) with (S i + j) by lia.
  - case_decide; [|naive_solver]. cbn.
    rewrite (bind_run _ _ _ tt (set_arrs (<[addr_blks m := <[i := 0%Z]> bl]> (arrs s)) s)).
    2:{ rewrite /arr_set Ha decide_True; [by rewrite Nat2Z.id|lia]. }
    rewrite /mbind /M_bind /info_mod /= Hm. by rewrite Nat.add_0_r.
Qed.

Lemma alloc_block_run s ps p m bl :
  pools s ps → p ∈ ps → infos s !! p = Some m → arrs s !! addr_blks m = Some bl →
  pool_ok m bl →
  alloc_block (memid m) s =
    match list_find (λ v, v ≠ 0%Z) bl with
    | None => Some (0%Z, s)
    | Some (j, b) => Some (b, with_pool p m (took m) (<[j := 0%Z]> bl) s)
    end.
Proof.
  intros Hs Hp Hm Ha Hok. rewrite /alloc_block.
  rewrite (bind_run _ _ _ _ _ (get_mem_info_run _ _ _ _ Hs Hp Hm)).
  rewrite (bind_run _ _ _ p s) // (bind_run _ _ _ m s); [|by rewrite /info_ld Hm].
  pose proof (po_len _ _ Hok). destruct (Z.eqb_spec (fblks m) 0) as [Hf|Hf].
  - rewrite (po_free _ _ Hok) in Hf.
    destruct (list_find _ bl) as [[j b]|] eqn:Hl; [|done].
    exfalso. assert (nfree bl ≠ 0) by (apply nfree_pos; by rewrite Hl). lia.
  - rewrite (alloc_loop_run _ s p m bl 0) //. lia.
Qed.

(** ** Giving a block back *)

(** An address behind the last block at which a further one would start and end inside the region: [mem_pool_create]
    pads the region. *)
Definition in_padding (m : mem_info) (addr : Z) : Prop :=
  ∃ i, addr = (saddr m + i * msize m)%Z ∧ (nblks m ≤ i)%Z ∧ (addr + msize m ≤ eaddr m)%Z.

#[global] Instance in_padding_dec m addr : Decision (in_padding m addr).
Proof.
  destruct (decide (msize m ≠ 0 ∧ addr = saddr m + (addr - saddr m) / msize m * msize m ∧
    nblks m ≤ (addr - saddr m) / msize m ∧ addr + msize m ≤ eaddr m)%Z) as [(Hz&He&Hn&Hl)|Hno].
  - left. by eexists.
  - destruct (decide (msize m = 0 ∧ addr = saddr m ∧ addr ≤ eaddr m)%Z) as [(Hz&He&Hl)|Hno0].
    + left. exists (nblks m). rewrite Hz. split_and!; lia.
    + right. intros (i&->&Hi&Hl). destruct (decide (msize m = 0)%Z) as [Hz|Hz].
      * apply Hno0. rewrite Hz in Hl |- *. split_and!; lia.
      * apply Hno. replace (saddr m + i * msize m - saddr m)%Z with (i * msize m)%Z by lia.
        rewrite Z.div_mul; [|done]. split_and!; [done|lia|lia|lia].
Defined.

(** The index [free_blk] computes. *)
Lemma free_blk_cases s ps p m bl addr :
  pools s ps → p ∈ ps → infos s !! p = Some m → arrs s !! addr_blks m = Some bl →
  pool_ok m bl → (0 ≤ addr)%Z → (addr + msize m < 2 ^ 32)%Z →
  let idx := s32 ((addr - saddr m) / msize m) in
  free_blk (memid m) addr s =
    if ((saddr m <=? addr) && (addr + msize m <=? eaddr m) &&
        ((addr - saddr m) `mod` msize m =? 0))%Z
    then (b ← arr_get (addr_blks m) idx;
          if (b =? 0)%Z then
            arr_set (addr_blks m) idx addr;;
            info_mod gave p;;
            mret 0%Z
          else mret (-1)%Z) s
    else Some ((-1)%Z, s).
Proof.
  intros Hs Hp Hm Ha Hok H0 Hw. cbn zeta. destruct (po_addr _ _ Hok) as (Ha1&Ha2&Ha3).
  pose proof (po_size _ _ Hok). rewrite /free_blk.
  rewrite (bind_run _ _ _ _ _ (get_mem_info_run _ _ _ _ Hs Hp Hm)).
  rewrite (bind_run _ _ _ m s); [|by rewrite /info_ld Hm].
  rewrite /in_range (u32_small (addr + msize m)); [|lia].
  destruct (Z.leb_spec (saddr m) addr); [|done].
  destruct (Z.leb_spec (addr + msize m) (eaddr m)); [|done]. cbn [andb negb].
  assert (Hoff : u32 (s32 (u32 (addr - saddr m))) = (addr - saddr m)%Z).
  { rewrite (u32_small (addr - saddr m)); [|lia].
    rewrite /u32 /s32 Zminus_mod Zmod_mod -Zminus_mod. rewrite Z.mod_small; lia. }
  rewrite Hoff. destruct (Z.eqb_spec (msize m) 0); [lia|]. rewrite /truthy.
  by destruct (Z.eqb_spec ((addr - saddr m) `mod` msize m) 0).
Qed.

Lemma free_blk_used s ps p m bl i :
  pools s ps → p ∈ ps → infos s !! p = Some m → arrs s !! addr_blks m = Some bl →
  pool_ok m bl → bl !! i = Some 0%Z →
  let addr := (saddr m + Z.of_nat i * msize m)%Z in
  free_blk (memid m) addr s = Some (0%Z, with_pool p m (gave m) (<[i := addr]> bl) s).
Proof.
  intros Hs Hp Hm Ha Hok Hi addr. destruct (po_addr _ _ Hok) as (Ha1&Ha2&Ha3).
  pose proof (po_size _ _ Hok). pose proof (po_len _ _ Hok).
  pose proof (lookup_lt_Some _ _ _ Hi) as Hlt.
  assert (Z.of_nat i * msize m + msize m ≤ nblks m * msize m)%Z by nia.
  rewrite (free_blk_cases s ps p m bl) //; [|unfold addr; nia|lia].
  replace (addr - saddr m)%Z with (Z.of_nat i * msize m)%Z by lia.
  rewrite Z.mod_mul; [|lia]. rewrite Z.div_mul; [|lia]. rewrite (s32_small (Z.of_nat i)); [|pose proof (po_int _ _ Hok); lia].
  rewrite (proj2 (Z.leb_le (saddr m) addr)); [|unfold addr; nia].
  rewrite (proj2 (Z.leb_le (addr + msize m) (eaddr m))); [|lia]. cbn [andb Z.eqb].
  rewrite (bind_run _ _ _ 0%Z s).
  2:{ rewrite /arr_get Ha decide_True; [|lia]. by rewrite Nat2Z.id Hi. }
  cbn [Z.eqb]. rewrite (bind_run _ _ _ tt (set_arrs (<[addr_blks m := <[i := addr]> bl]> (arrs s)) s)).
  2:{ rewrite /arr_set Ha decide_True; [by rewrite Nat2Z.id|lia]. }
  by rewrite /mbind /M_bind /info_mod /= Hm.
Qed.

Lemma free_blk_refused s ps p m bl addr :
  pools s ps → p ∈ ps → infos s !! p = Some m → arrs s !! addr_blks m = Some bl →
  pool_ok m bl → (0 ≤ addr)%Z → (addr + msize m < 2 ^ 32)%Z → ¬ in_padding m addr →
  (∀ i, addr = (saddr m + Z.of_nat i * msize m)%Z → bl !! i ≠ Some 0%Z) →
  free_blk (memid m) addr s = Some ((-1)%Z, s).
Proof.
  intros Hs Hp Hm Ha Hok H0 Hw Hpad Hno. rewrite (free_blk_cases s ps p m bl) //.
  pose proof (po_size _ _ Hok). pose proof (po_len _ _ Hok). pose proof (po_int _ _ Hok).
  destruct (Z.leb_spec (saddr m) addr); [|done].
  destruct (Z.leb_spec (addr + msize m) (eaddr m)); [|done].
  destruct (Z.eqb_spec ((addr - saddr m) `mod` msize m) 0) as [Hmod|]; [|done]. cbn [andb].
  set (i := ((addr - saddr m) / msize m)%Z).
  assert (Hi : (addr - saddr m)%Z = (i * msize m)%Z).
  { rewrite /i. rewrite {1}(Z.div_mod (addr - saddr m) (msize m)); lia. }
  assert (0 ≤ i)%Z by (apply Z.div_pos; lia).
  assert (i < nblks m)%Z by (apply Z.nle_gt; intros ?; apply Hpad; exists i; split_and!; lia).
  rewrite (s32_small i); [|lia].
  assert (∃ b, bl !! Z.to_nat i = Some b) as [b Hb] by (apply lookup_lt_is_Some; lia).
  rewrite (bind_run _ _ _ b s); [|by rewrite /arr_get Ha decide_True // Hb].
  destruct (Z.eqb_spec b 0) as [->|]; [|done].
  exfalso. apply (Hno (Z.to_nat i)); [|done]. rewrite Z2Nat.id; lia.
Qed.
(** The index of an address in the padding is out of range, or negative. *)
Lemma free_blk_padding s ps p m bl addr :
  pools s ps → p ∈ ps → infos s !! p = Some m → arrs s !! addr_blks m = Some bl →
  pool_ok m bl → (0 ≤ addr)%Z → (addr + msize m < 2 ^ 32)%Z → in_padding m addr → free_blk (memid m) addr s = None.
Proof.
  intros Hs Hp Hm Ha Hok H0 Hw (i&->&Hi&He). rewrite (free_blk_cases s ps p m bl) //.
  pose proof (po_size _ _ Hok). pose proof (po_len _ _ Hok). destruct (po_addr _ _ Hok) as (?&_&?).
  replace (saddr m + i * msize m - saddr m)%Z with (i * msize m)%Z by lia. rewrite Z.mod_mul; [|lia]. rewrite Z.div_mul; [|lia].
  rewrite (proj2 (Z.leb_le (saddr m) _)); [|nia]. rewrite (proj2 (Z.leb_le _ (eaddr m)) He). cbn [andb Z.eqb].
  rewrite /mbind /M_bind /arr_get Ha. case_decide as Hd; [|done].
  assert (Hs32 : s32 i = i ∨ (s32 i < 0)%Z).
  { assert (i < 2 ^ 32)%Z by nia. destruct (Z.lt_ge_cases i (2 ^ 31)); [left; apply s32_small; lia|right].
    rewrite /s32. replace (i + 2 ^ 31)%Z with (i - 2 ^ 31 + 1 * 2 ^ 32)%Z by lia. rewrite Z.mod_add; [|done].
    rewrite Z.mod_small; lia. }
  rewrite lookup_ge_None_2; [done|]. lia.
Qed.
End pools.

(** ** Creating a pool *)
Section create.
Context `{E : MemEnv}.
Implicit Types (s : mem_sys) (ps : list Z) (m : mem_info) (bl : list Z).

(** The addresses of the blocks [i], ..., [i + n - 1]. *)
Definition block_addrs (a size : Z) (i n : nat) : list Z :=
  (λ j, (a + Z.of_nat j * size)%Z) <$> seq i n.

Lemma build_loop_run n s mblk m l i :
  arrs s !! mblk = Some l → i + n = length l → (0 ≤ saddr m)%Z → (0 < msize m)%Z →
  (saddr m + Z.of_nat (length l) * msize m < 2 ^ 32)%Z →
  build_loop n mblk m (Z.of_nat i) s =
    Some (tt, set_arrs (<[mblk := take i l ++ block_addrs (saddr m) (msize m) i n]> (arrs s)) s).
Proof.
  intros Hl Hi Hsa Hsz Hb. revert s l i Hl Hi Hb.
  induction n as [|n IH]; intros s l i Hl Hi Hb.
  { rewrite /block_addrs /= app_nil_r take_ge; [|lia]. rewrite insert_id //. by destruct s. }
  cbn [build_loop]. set (v := (saddr m + Z.of_nat i * msize m)%Z).
  assert (Hv : COMPUTE_ADDR_BLOCK (saddr m) (Z.of_nat i) (msize m) = v).
  { assert (Z.of_nat i * msize m < Z.of_nat (length l) * msize m)%Z by nia.
    rewrite /COMPUTE_ADDR_BLOCK (u32_small (Z.of_nat i * msize m)) ?u32_small //; nia. }
  rewrite Hv (bind_run _ _ _ tt (set_arrs (<[mblk := <[i := v]> l]> (arrs s)) s)).
  2:{ rewrite /arr_set Hl decide_True; [by rewrite Nat2Z.id|lia]. }
  replace (Z.of_nat i + 1)%Z with (Z.of_nat (S i)) by lia.
  rewrite (IH _ (<[i := v]> l) (S i)).
  - rewrite /set_arrs /= insert_insert_eq. do 4 f_equal.
    rewrite (take_S_r _ _ v); [|by rewrite list_lookup_insert_eq; [|lia]].
    rewrite take_insert_ge // -app_assoc. done.
  - by simpl; rewrite lookup_insert_eq.
  - rewrite length_insert. lia.
  - by rewrite length_insert.
Qed.

Lemma nfree_all bl : Forall (λ v, v ≠ 0%Z) bl → nfree bl = length bl.
Proof.
  rewrite /nfree. induction 1 as [|v bl Hv _ IH]; [done|]. rewrite filter_cons_True //=. by rewrite IH.
Qed.

(** A new control block over the region at [a]. *)
Lemma fresh_pool_ok a size n id mblk bytes :
  (0 < a)%Z → (0 < size)%Z → (0 ≤ n)%Z → (size * n ≤ bytes)%Z → (a + bytes < 2 ^ 32)%Z → (n < 2 ^ 31)%Z →
  pool_ok (MkMem a (a + bytes) mblk id n 0 n size) (block_addrs a size 0 (Z.to_nat n)).
Proof.
  intros Ha Hs Hn Hb Hlt Hni. split; cbn [saddr eaddr nblks useblks fblks msize].
  - rewrite /block_addrs length_fmap length_seq. lia.
  - done.
  - split_and!; lia.
  - done.
  - intros i v. rewrite /block_addrs list_lookup_fmap.
    destruct (seq 0 (Z.to_nat n) !! i) as [j|] eqn:Hj; [|done].
    apply lookup_seq in Hj as [-> _]. intros [= <-]. by right.
  - rewrite nfree_all.
    + rewrite /block_addrs length_fmap length_seq. lia.
    + apply Forall_fmap, Forall_forall. intros j _. simpl. nia.
  - lia.
Qed.

Lemma pools_add s ps p m bl s' :
  pools s ps → p ∉ ps →
  dll (mlst s') MN_head (MN_info <$> ps ++ [p]) →
  infos s' = <[p := m]> (infos s) → arrs s' = <[addr_blks m := bl]> (arrs s) → pool_ok m bl →
  (∀ q n, q ∈ ps → infos s !! q = Some n → memid n ≠ memid m ∧ addr_blks n ≠ addr_blks m) →
  pools s' (ps ++ [p]).
Proof.
  intros Hs Hp Hd Hi Ha Hok Hfr.
  assert (Hq : ∀ q, q ∈ ps ++ [p] → (q ∈ ps ∧ q ≠ p) ∨ q = p).
  { intros q [?| ->%list_elem_of_singleton]%elem_of_app; [left|by right]. split; [done|]. by intros ->. }
  split; [done|..].
  - intros q [[Hin Hne]| ->]%Hq.
    + destruct (pl_pool _ _ Hs q Hin) as (n&bln&Hn&Har&Hokn). exists n, bln.
      destruct (Hfr q n Hin Hn). by rewrite Hi Ha !lookup_insert_ne.
    + exists m, bl. by rewrite Hi Ha !lookup_insert_eq.
  - intros q r n n' [[Hin Hne]| ->]%Hq [[Hin' Hne']| ->]%Hq;
      rewrite Hi ?lookup_insert_eq ?lookup_insert_ne //.
    + by apply (pl_ids _ _ Hs).
    + intros Hn [= <-] Heq. by destruct (Hfr q n Hin Hn).
    + intros [= <-] Hn Heq. by destruct (Hfr r n' Hin' Hn).
  - intros q r n n' [[Hin Hne]| ->]%Hq [[Hin' Hne']| ->]%Hq;
      rewrite Hi ?lookup_insert_eq ?lookup_insert_ne //.
    + by apply (pl_arrs _ _ Hs).
    + intros Hn [= <-] Heq. by destruct (Hfr q n Hin Hn).
    + intros [= <-] Hn Heq. by destruct (Hfr r n' Hin' Hn).
Qed.

Lemma wp_alloc_mem size (Φ : Z → mem_sys → Prop) s :
  Φ (mem_calloc (n_alloc s)) (MkMemSys (infos s) (arrs s) (mlst s) (mcb_count s)
     (u32 (mem_alloc_size s + size)) (S (n_alloc s))) → wp (alloc_mem size) Φ s.
Proof. done. Qed.

(** The three allocations of [mem_pool_create] succeed with fresh memory. *)
Record fresh_pool (s : mem_sys) (ps : list Z) (bytes : Z) : Prop := {
  fp_mcb : mem_calloc (n_alloc s) ≠ 0%Z;
  fp_mcb_new : mem_calloc (n_alloc s) ∉ ps;
  fp_mem : (0 < mem_calloc (S (n_alloc s)))%Z ∧ (mem_calloc (S (n_alloc s)) + bytes < 2 ^ 32)%Z;
  fp_arr : mem_calloc (S (S (n_alloc s))) ≠ 0%Z;
  fp_arr_new q n : q ∈ ps → infos s !! q = Some n → addr_blks n ≠ mem_calloc (S (S (n_alloc s)));
  fp_id q n : q ∈ ps → infos s !! q = Some n → memid n ≠ s32 (mcb_count s + 1)
}.

Lemma pool_bytes_ge size n :
  (0 < size)%Z → (0 ≤ n)%Z → (size * n < 2 ^ 31)%Z →
  (size * n ≤ pool_bytes size n)%Z ∧ (0 ≤ pool_bytes size n)%Z ∧ (pool_bytes size n ≤ size * n + 4)%Z.
Proof.
  intros. assert (0 ≤ size * n)%Z by nia.
  rewrite /pool_bytes (u32_small (size * n)); [|lia].
  destruct (truthy _); [|lia].
  replace (MEM_ALIGNED (size * n) + (MACHINE_ALIGNEMENT - MEM_ALIGNED (size * n)))%Z
    with MACHINE_ALIGNEMENT by lia.
  rewrite /MACHINE_ALIGNEMENT u32_small; lia.
Qed.

Lemma mem_pool_create_run s ps size n :
  pools s ps → (0 < size)%Z → (0 ≤ n)%Z → (size * n < 2 ^ 31)%Z → (n < 2 ^ 29)%Z →
  fresh_pool s ps (pool_bytes size n) →
  let p := mem_calloc (n_alloc s) in
  let a := mem_calloc (S (n_alloc s)) in
  let id := s32 (mcb_count s + 1) in
  let m := MkMem a (a + pool_bytes size n) (mem_calloc (S (S (n_alloc s)))) id n 0 n size in
  wp (mem_pool_create size n) (λ r s', r = id ∧ pools s' (ps ++ [p]) ∧
    infos s' !! p = Some m ∧
    arrs s' !! addr_blks m = Some (block_addrs a size 0 (Z.to_nat n))) s.
Proof.
  intros Hs Hsz Hn Hmul Hn29 [Hp Hpn [Ha0 Ha1] Hb Hbn Hid] p a id m.
  destruct (pool_bytes_ge size n) as (Hb1&Hb2&Hb3); [done..|].
  rewrite /mem_pool_create /get_next_free_mcb. wp_step. wp_step. apply wp_alloc_mem.
  fold p. rewrite (proj2 (Z.eqb_neq _ _) Hp). wp_steps.
  eapply wp_info_mod; [by apply lookup_insert_eq|]. wp_step.
  eapply wp_onml; [done|]. wp_step. apply wp_alloc_mem. cbn [n_alloc set_mlst set_infos set_mcb_count].
  fold a. wp_step. eapply wp_info_mod; [by apply lookup_insert_eq|].
  destruct (Z.eqb_spec a 0); [lia|]. wp_step.
  eapply wp_info_mod; [by apply lookup_insert_eq|]. wp_step.
  rewrite /build_free_mem_blk_list. wp_step.
  eapply wp_info_ld; [by apply lookup_insert_eq|]. cbn [nblks].
  wp_step. apply wp_alloc_mem. cbn [n_alloc set_mlst set_infos set_mcb_count].
  rewrite (proj2 (Z.eqb_neq _ _) Hb). wp_steps.
  eapply wp_intro; [eapply (build_loop_run _ _ _ _ (replicate (Z.to_nat n) 0%Z) 0)|].
  { by simpl; rewrite lookup_insert_eq. }
  { by rewrite length_replicate. }
  { cbn [saddr]. lia. }
  { done. }
  { cbn [saddr msize]. rewrite length_replicate. nia. }
  wp_step. eapply wp_info_mod; [by apply lookup_insert_eq|]. wp_steps.
  assert (Hne : MN_info p ∉ MN_head :: (MN_info <$> ps)).
  { rewrite elem_of_cons list_elem_of_fmap. intros [?|(q&[= <-]&?)]; done. }
  assert (wp (list_add_tail (MN_info p) MN_head)
    (λ _ l, dll l MN_head (MN_info <$> ps ++ [p])) (<[MN_info p := LH (MN_info p) (MN_info p)]> (mlst s)))
    as (l&Hl&Hd)%wp_unit_inv.
  { eapply (wp_list_add_tail _ _ (MN_info <$> ps)); [|done|by rewrite lookup_insert_eq|].
    - eapply dll_frame; [|apply Hs]. intros x Hx. rewrite lookup_insert_ne //. by intros <-.
    - intros l Hd _. by rewrite fmap_app. }
  rewrite /add_to_mcb. wp_step. eapply wp_onml; [exact Hl|]. wp_steps.
  eapply wp_info_ld; [by apply lookup_insert_eq|]. apply wp_ret.
  cbn [take app]. cbn [memid saddr eaddr addr_blks nblks useblks fblks msize mcb_count set_infos
    set_mcb_count set_arrs set_mlst infos arrs mlst].
  rewrite !insert_insert_eq (u32_small (a + pool_bytes size n)); [|lia].
  split; [done|]. split; [|by rewrite !lookup_insert_eq].
  eapply (pools_add s ps p m); [done|done|done|done|done| |].
  - by apply fresh_pool_ok; lia.
  - intros q k Hq Hk. split; [by apply Hid with q|by apply Hbn with q].
Qed.
End create.

(** ** Theorems *)
Section Spec.
Context `{E : MemEnv}.
Implicit Types (s : mem_sys) (ps : list Z) (m : mem_info) (bl : list Z).

(** creating a pool on fresh memory returns a new id and adds a pool whose
    blocks are all free: block [i] starts at [saddr + i * size]; the other
    pools are unchanged. *)
Theorem mem_pool_create_correct s ps size n :
  pools s ps → (0 < size)%Z → (0 ≤ n)%Z → (size * n < 2 ^ 31)%Z → (n < 2 ^ 29)%Z →
  fresh_pool s ps (pool_bytes size n) →
  let p := mem_calloc (n_alloc s) in
  ∃ s' m, mem_pool_create size n s = Some (memid m, s') ∧ pools s' (ps ++ [p]) ∧
    infos s' !! p = Some m ∧ fblks m = n ∧ useblks m = 0%Z ∧ msize m = size ∧
    arrs s' !! addr_blks m = Some (block_addrs (saddr m) size 0 (Z.to_nat n)).
Proof.
  intros Hs Hsz Hn Hmul Hn29 Hf p.
  destruct (wp_inv _ _ _ (mem_pool_create_run s ps size n Hs Hsz Hn Hmul Hn29 Hf))
    as (r&s'&Hr&->&Hps&Hi&Ha).
  match type of Hi with _ = Some ?m => exists s', m end.
  split_and!; [exact Hr|exact Hps|exact Hi|done|done|done|exact Ha].
Qed.

(** [alloc_block] returns the free block with the lowest index and marks
    it used; it returns null, and changes nothing, exactly when no block is
    free.  The address lies inside the pool. *)
Theorem alloc_block_correct s ps p m bl :
  pools s ps → p ∈ ps → infos s !! p = Some m → arrs s !! addr_blks m = Some bl →
  (nfree bl = 0 ∧ alloc_block (memid m) s = Some (0%Z, s)) ∨
  (∃ i s', alloc_block (memid m) s = Some ((saddr m + Z.of_nat i * msize m)%Z, s') ∧
     bl !! i = Some (saddr m + Z.of_nat i * msize m)%Z ∧
     (∀ j, j < i → bl !! j = Some 0%Z) ∧
     (saddr m + Z.of_nat i * msize m + msize m ≤ eaddr m)%Z ∧
     pools s' ps ∧ infos s' !! p = Some (took m) ∧ fblks (took m) = (fblks m - 1)%Z ∧
     arrs s' !! addr_blks m = Some (<[i := 0%Z]> bl)).
Proof.
  intros Hs Hp Hm Ha. destruct (pl_pool _ _ Hs p Hp) as (m0&bl0&Hm0&Ha0&Hok).
  simplify_eq. rewrite (alloc_block_run s ps p m bl) //.
  destruct (list_find (λ v, v ≠ 0%Z) bl) as [[i b]|] eqn:Hl; [right|left].
  - apply list_find_Some in Hl as (Hi&Hb&Hj).
    destruct (po_blk _ _ Hok i b Hi) as [?| ->]; [done|]. exists i. eexists.
    pose proof (lookup_lt_Some _ _ _ Hi). pose proof (po_len _ _ Hok).
    destruct (po_addr _ _ Hok) as (?&?&?). pose proof (po_size _ _ Hok).
    pose proof (took_ok _ _ _ _ Hok Hi Hb) as Hok'.
    split_and!; [done|done| |nia| |by apply lookup_insert_eq| |by apply lookup_insert_eq].
    + intros j Hlt. assert (∃ w, bl !! j = Some w) as [w Hw] by (apply lookup_lt_is_Some; lia).
      rewrite Hw. specialize (Hj j w Hw Hlt). f_equal. by apply dec_stable.
    + by eapply pools_update.
    + rewrite (po_free _ _ Hok) (po_free _ _ Hok').
      rewrite (nfree_insert bl i _ 0 Hi) bool_decide_eq_true_2 // bool_decide_eq_false_2; [|naive_solver].
      simpl. lia.
  - split; [|done]. destruct (decide (nfree bl = 0)) as [|Hne]; [done|].
    apply nfree_pos in Hne as [? Hne]. by rewrite Hl in Hne.
Qed.


(** C32: giving back the block that was just taken restores the state. *)
Theorem alloc_free_roundtrip s ps p m bl a s1 :
  pools s ps → p ∈ ps → infos s !! p = Some m → arrs s !! addr_blks m = Some bl →
  alloc_block (memid m) s = Some (a, s1) → a ≠ 0%Z → free_blk (memid m) a s1 = Some (0%Z, s).
Proof.
  intros Hs Hp Hm Ha Hr Hne. destruct (pl_pool _ _ Hs p Hp) as (m0&bl0&Hm0&Ha0&Hok).
  simplify_eq. rewrite (alloc_block_run s ps p m bl) // in Hr.
  destruct (list_find (λ v, v ≠ 0%Z) bl) as [[i b]|] eqn:Hl; simplify_eq.
  apply list_find_Some in Hl as (Hi&Hb&_).
  pose proof (took_ok _ _ _ _ Hok Hi Hb) as Hok'.
  destruct (po_blk _ _ Hok i a Hi) as [?| ->]; [done|].
  pose proof (lookup_lt_Some _ _ _ Hi). pose proof (pool_nblks _ _ Hok).
  pose proof (po_len _ _ Hok). pose proof (nfree_le bl). pose proof (po_free _ _ Hok).
  pose proof (po_use _ _ Hok).
  assert (nfree bl ≠ 0) by (apply nfree_pos, list_find_elem_of with (x := (saddr m + Z.of_nat i * msize m)%Z);
    [by eapply list_elem_of_lookup_2|done]).
  rewrite (free_blk_used _ ps p (took m) (<[i := 0%Z]> bl) i (pools_update s ps p m bl (took m) _
    Hs Hp Hm eq_refl eq_refl Hok') Hp); simpl.
  - do 2 f_equal. rewrite /with_pool /=. rewrite !insert_insert_eq list_insert_insert_eq.
    rewrite (list_insert_id bl) // (insert_id (arrs s)) //.
    assert (gave (took m) = m) as ->.
    { destruct m as [? ? ? ? nb ub fb sz]. simpl in *. rewrite /gave /took /=. f_equal.
      - rewrite (s32_small (ub + 1)) ?s32_small; lia.
      - rewrite (s32_small (fb - 1)) ?s32_small; lia. }
    rewrite insert_id //. by destruct s.
  - by rewrite lookup_insert_eq.
  - by rewrite lookup_insert_eq.
  - done.
  - by rewrite list_lookup_insert_eq.
Qed.

(** the rounding of [mem_pool_create] never aligns: a size that is not a
    multiple of the machine word stays one after the correction, which always
    adds a whole word. *)
Theorem pool_bytes_never_aligns size n :
  (0 ≤ size * n < 2 ^ 31)%Z → MEM_ALIGNED (size * n) ≠ 0%Z →
  MEM_ALIGNED (pool_bytes size n) = MEM_ALIGNED (size * n) ∧
  pool_bytes size n = (size * n + MACHINE_ALIGNEMENT)%Z.
Proof.
  intros Hr Hne. rewrite /pool_bytes (u32_small (size * n)); [|lia].
  rewrite (proj2 (truthy_true _) Hne).
  replace (MEM_ALIGNED (size * n) + (MACHINE_ALIGNEMENT - MEM_ALIGNED (size * n)))%Z
    with MACHINE_ALIGNEMENT by lia.
  rewrite u32_small; [|rewrite /MACHINE_ALIGNEMENT; lia]. split; [|done].
  rewrite /MEM_ALIGNED /MACHINE_ALIGNEMENT. replace (size * n + 4)%Z with (size * n + 1 * 4)%Z by lia.
  by rewrite Z.mod_add.
Qed.

(** [mem_pool_delete] frees the control block but leaves it on the list of
    pools, so the next search for its id runs into freed memory. *)
Theorem mem_pool_delete_dangles s ps p m :
  pools s ps → p ∈ ps → infos s !! p = Some m →
  ∃ s', mem_pool_delete (memid m) s = Some (0%Z, s') ∧ get_mem_info (memid m) s' = None.
Proof.
  intros Hs Hp Hm. eexists. split.
  { rewrite /mem_pool_delete (bind_run _ _ _ _ _ (get_mem_info_run _ _ _ _ Hs Hp Hm)).
    by rewrite (bind_run _ _ _ m s); [|by rewrite /info_ld Hm]. }
  by apply (search_dangles s ps p m).
Qed.
End Spec.

(** ** Pools at work *)
Module PoolWitness.
#[local] Open Scope Z_scope.
(** An allocator that returns 1000, 2000, 3000, ... *)
#[local] Instance demo_mem : MemEnv :=
  {| mem_calloc := λ k, 1000 * (Z.of_nat k + 1); sizeof_mem_info := 48 |}.

Definition run {A} (m : M mem_sys A) (s : mem_sys) : mem_sys :=
  match m s with Some (_, s') => s' | None => mem_sys_zero end.
Definition empty : mem_sys := run mem_init mem_sys_zero.
(** Two blocks of 16 bytes. *)
Definition two : mem_sys := run (mem_pool_create 16 2) empty.
(** One of them taken. *)
Definition one : mem_sys := run (alloc_block 1) two.

Lemma empty_pools : pools empty [].
Proof.
  split; [|set_solver..]. split; [apply NoDup_singleton|]. by vm_compute.
Qed.
Lemma empty_fresh : fresh_pool empty [] 32.
Proof. split; try set_solver; done. Qed.

Lemma mem_pool_create_witness :
  ∃ s' m, mem_pool_create 16 2 empty = Some (memid m, s') ∧ fblks m = 2.
Proof.
  destruct (mem_pool_create_correct empty [] 16 2 empty_pools) as (s'&m&Hr&_&_&Hf&_);
    [done|done|done|done|exact empty_fresh|]. exists s', m. exact (conj Hr Hf).
Defined.

Definition info (s : mem_sys) : mem_info := default mem_zero (infos s !! 1000).
Lemma pool_ok_two : pool_ok (info two) [2000; 2016].
Proof.
  split; try by vm_compute. intros [|[|i]] v; [intros [= <-]; right; by vm_compute..|done].
Qed.
Lemma pool_ok_one : pool_ok (info one) [0; 2016].
Proof.
  split; try by vm_compute. intros [|[|i]] v; [intros [= <-]..|done]; [by left|right; by vm_compute].
Qed.
(** A state with the single pool at 1000. *)
Lemma single_pools s bl :
  dll (mlst s) MN_head [MN_info 1000] → infos s !! 1000 = Some (info s) →
  arrs s !! addr_blks (info s) = Some bl → pool_ok (info s) bl → pools s [1000].
Proof.
  intros Hd Hi Ha Hok. split; [done|..].
  - intros p ->%list_elem_of_singleton. eauto.
  - by intros p q m n ->%list_elem_of_singleton ->%list_elem_of_singleton.
  - by intros p q m n ->%list_elem_of_singleton ->%list_elem_of_singleton.
Qed.
Ltac dll_now := split; [by apply (bool_decide_unpack _); vm_compute|by vm_compute].
Lemma two_pools : pools two [1000].
Proof. eapply single_pools, pool_ok_two; [dll_now|by vm_compute..]. Qed.
Lemma one_pools : pools one [1000].
Proof. eapply single_pools, pool_ok_one; [dll_now|by vm_compute..]. Qed.

Lemma alloc_block_witness : ∃ a s', alloc_block 1 two = Some (a, s') ∧ pools s' [1000].
Proof.
  destruct (alloc_block_correct two [1000] 1000 (info two) [2000; 2016] two_pools)
    as [[Hn _]|(i&s'&Hr&Hi&_&_&Hp&_)]; [set_solver|by vm_compute|by vm_compute|done|].
  do 2 eexists. exact (conj Hr Hp).
Defined.
Lemma alloc_free_witness : free_blk 1 2000 one = Some (0, two).
Proof.
  apply (alloc_free_roundtrip two [1000] 1000 (info two) [2000; 2016] 2000 one two_pools);
    [set_solver|by vm_compute..].
Defined.
Lemma pool_bytes_witness : pool_bytes 3 1 = 7.
Proof. exact (proj2 (pool_bytes_never_aligns 3 1 ltac:(lia) ltac:(by vm_compute))). Defined.
Lemma mem_pool_delete_witness : ∃ s', mem_pool_delete 1 two = Some (0, s') ∧ get_mem_info 1 s' = None.
Proof.
  apply (mem_pool_delete_dangles two [1000] 1000 (info two) two_pools); [set_solver|by vm_compute].
Defined.

(** the padding makes [free_blk] accept an address behind the last block: for
    one block of three bytes it indexes the array out of range. *)
Theorem padding_out_of_range :
  ∃ s, mem_pool_create 3 1 empty = Some (1, s) ∧ free_blk 1 2003 s = None.
Proof. exists (run (mem_pool_create 3 1) empty). split; vm_compute; reflexivity. Qed.
End PoolWitness.
