(* ===== verification/BlockPool.v ===== *)
(** * What the users of a memory pool rely on

    The hash tables and the message queues take blocks from a pool of mem_main.c
    and give them back.  [BlockPool] is the interface they see: in the state [s] the
    pool [id] has handed out the blocks [U] and [n] more are free.  The memory pools
    of MemPool.v implement it ([mem_pool_blocks]). *)

From S2P Require Import Prelude ListHead MemPool.
#[local] Open Scope Z_scope.

Class BlockPool (P : Type) := {
  bp_create : Z → Z → M P Z;
  bp_delete : Z → M P Z;
  bp_alloc : Z → M P Z;
  bp_free : Z → Z → M P Z;
  bp_pool : P → Z → gset Z → nat → Prop;
  bp_block s id U n a : bp_pool s id U n → a ∈ U → a ≠ 0;
  (** An allocation hands out a new block, or null when none is free. *)
  bp_alloc_ok s id U n : bp_pool s id U n →
    wp (bp_alloc id) (λ a s',
      match n with
      | 0%nat => a = 0 ∧ s' = s
      | S n' => a ≠ 0 ∧ a ∉ U ∧ bp_pool s' id ({[a]} ∪ U) n'
      end) s;
  (** A block that was handed out can be given back. *)
  bp_free_ok s id U n a : bp_pool s id U n → a ∈ U →
    wp (bp_free id a) (λ r s', r = 0 ∧ bp_pool s' id (U ∖ {[a]}) (S n)) s
}.

(** ** The memory pools *)
Section instance.
Context `{E : MemEnv}.
Implicit Types (s : mem_sys) (ps : list Z) (m : mem_info) (bl : list Z) (U : gset Z).

(** The block with index [i]. *)
Definition blk m (i : nat) : Z := saddr m + Z.of_nat i * msize m.
Record mem_pool s (id : Z) U (n : nat) (ps : list Z) (p : Z) m bl : Prop := {
  mp_pools : pools s ps;
  mp_in : p ∈ ps;
  mp_info : infos s !! p = Some m;
  mp_id : memid m = id;
  mp_arr : arrs s !! addr_blks m = Some bl;
  mp_used a : a ∈ U ↔ ∃ i, bl !! i = Some 0 ∧ a = blk m i;
  mp_free : n = nfree bl
}.
Definition mem_pool_has s id U n : Prop := ∃ ps p m bl, mem_pool s id U n ps p m bl.

Lemma blk_inj m bl i j : pool_ok m bl → blk m i = blk m j → i = j.
Proof. intros Hok. pose proof (po_size _ _ Hok). rewrite /blk. intros Heq. nia. Qed.
Lemma mp_ok s id U n ps p m bl : mem_pool s id U n ps p m bl → pool_ok m bl.
Proof.
  intros [Hs Hp Hm _ Ha _ _]. destruct (pl_pool _ _ Hs p Hp) as (m'&bl'&Hm'&Ha'&Hok). congruence.
Qed.
Lemma blk_nonzero s id U n a : mem_pool_has s id U n → a ∈ U → a ≠ 0.
Proof.
  intros (ps&p&m&bl&Hmp) Ha. pose proof (mp_ok _ _ _ _ _ _ _ _ Hmp) as Hok.
  apply (mp_used _ _ _ _ _ _ _ _ Hmp) in Ha as (i&_&->). destruct (po_addr _ _ Hok) as (?&_&_).
  pose proof (po_size _ _ Hok). rewrite /blk. nia.
Qed.
(** The pool after an entry of its array has changed. *)
Lemma mem_pool_with s id U n ps p m bl m' bl' U' :
  mem_pool s id U n ps p m bl → pool_ok m' bl' → saddr m' = saddr m → msize m' = msize m →
  addr_blks m' = addr_blks m → memid m' = memid m →
  (∀ a, a ∈ U' ↔ ∃ i, bl' !! i = Some 0 ∧ a = blk m i) →
  mem_pool (with_pool p m m' bl' s) id U' (nfree bl') ps p m' bl'.
Proof.
  intros [Hs Hp Hm Hid Ha Hu Hn] Hok' H1 H2 H3 H4 HU. split.
  - by eapply pools_update.
  - done.
  - apply lookup_insert_eq.
  - congruence.
  - rewrite H3. apply lookup_insert_eq.
  - intros a. rewrite HU /blk H1 H2. done.
  - done.
Qed.

Lemma mem_alloc_ok s id U n :
  mem_pool_has s id U n →
  wp (alloc_block id) (λ a s',
    match n with
    | 0%nat => a = 0 ∧ s' = s
    | S n' => a ≠ 0 ∧ a ∉ U ∧ mem_pool_has s' id ({[a]} ∪ U) n'
    end) s.
Proof.
  intros (ps&p&m&bl&Hmp). pose proof (mp_ok _ _ _ _ _ _ _ _ Hmp) as Hok.
  pose proof Hmp as [Hs Hp Hm <- Ha Hu ->]. rewrite /wp (alloc_block_run s ps p m bl) //.
  destruct (list_find _ bl) as [[j b]|] eqn:Hf.
  - apply list_find_Some in Hf as (Hj&Hb&_). destruct (po_blk _ _ Hok j b Hj) as [?|Hb']; [done|].
    pose proof (nfree_insert bl j b 0 Hj) as Hnf.
    rewrite (bool_decide_eq_true_2 _ Hb) bool_decide_eq_false_2 /= in Hnf; [|by intros []].
    assert (Hn : nfree bl = S (nfree (<[j := 0]> bl))) by lia. rewrite Hn.
    pose proof (lookup_lt_Some _ _ _ Hj) as Hlt.
    split_and!; [done| |].
    + intros (i&Hi&Hbi)%Hu. rewrite Hb' in Hbi. apply (blk_inj m bl j i Hok) in Hbi as ->. congruence.
    + exists ps, p, (took m), (<[j := 0]> bl).
      apply (mem_pool_with s _ U (nfree bl) ps p m bl); [done|by eapply took_ok|done..|].
      intros a. rewrite elem_of_union elem_of_singleton Hu. split.
      * intros [->|(i&Hi&->)]; [exists j; by rewrite list_lookup_insert_eq|].
        exists i. split; [|done]. rewrite list_lookup_insert_ne //. congruence.
      * intros (i&Hi&->). rewrite list_lookup_insert in Hi. case_decide as Hij; [|by right; exists i].
        destruct Hij as [-> _]. left. by rewrite Hb'.
  - assert (Hn : nfree bl = 0%nat).
    { destruct (decide (nfree bl = 0%nat)) as [|Hne]; [done|]. apply nfree_pos in Hne. rewrite Hf in Hne.
      by destruct Hne. }
    by rewrite Hn.
Qed.

Lemma mem_free_ok s id U n a :
  mem_pool_has s id U n → a ∈ U →
  wp (free_blk id a) (λ r s', r = 0 ∧ mem_pool_has s' id (U ∖ {[a]}) (S n)) s.
Proof.
  intros (ps&p&m&bl&Hmp) HaU. pose proof (mp_ok _ _ _ _ _ _ _ _ Hmp) as Hok.
  pose proof (blk_nonzero _ _ _ _ a ltac:(by exists ps, p, m, bl) HaU) as Ha0.
  pose proof Hmp as [Hs Hp Hm <- Ha Hu ->]. apply Hu in HaU as (i&Hi&->).
  rewrite /wp (free_blk_used s ps p m bl i) //. split; [done|].
  pose proof (nfree_insert bl i 0 (blk m i) Hi) as Hnf.
  rewrite (bool_decide_eq_true_2 _ Ha0) bool_decide_eq_false_2 /= in Hnf; [|by intros []].
  assert (Hn : S (nfree bl) = nfree (<[i := blk m i]> bl)) by lia. rewrite Hn.
  exists ps, p, (gave m), (<[i := blk m i]> bl).
  apply (mem_pool_with s _ U (nfree bl) ps p m bl); [done|by apply gave_ok|done..|].
  pose proof (lookup_lt_Some _ _ _ Hi) as Hlt.
  intros a. rewrite elem_of_difference elem_of_singleton Hu. split.
  - intros [(j&Hj&->) Hne]. exists j. split; [|done]. rewrite list_lookup_insert_ne //. congruence.
  - intros (j&Hj&->). rewrite list_lookup_insert in Hj. case_decide as Hij.
    + destruct Hij as [-> _]. injection Hj as Hz. by rewrite Hz in Ha0.
    + split; [by exists j|]. intros Heq. apply (blk_inj m bl j i Hok) in Heq as ->. naive_solver.
Qed.

#[export] Instance mem_pool_blocks : BlockPool mem_sys := {|
  bp_create := mem_pool_create;
  bp_delete := mem_pool_delete;
  bp_alloc := alloc_block;
  bp_free := free_blk;
  bp_pool := mem_pool_has;
  bp_block := blk_nonzero;
  bp_alloc_ok := mem_alloc_ok;
  bp_free_ok := mem_free_ok
|}.

(** A pool that has just been created. *)
Lemma mem_pool_create_has s ps size n :
  pools s ps → 0 < size → 0 ≤ n → size * n < 2 ^ 31 → n < 2 ^ 29 →
  fresh_pool s ps (pool_bytes size n) →
  wp (mem_pool_create size n) (λ id s', id = s32 (mcb_count s + 1) ∧ bp_pool s' id ∅ (Z.to_nat n)) s.
Proof.
  intros Hs H1 H2 H3 H4 Hf. eapply wp_mono; [by apply (mem_pool_create_run s ps)|].
  intros id s' (->&Hs'&Hm&Ha). split; [done|]. do 4 eexists. split; [done| |done|done|done|..].
  - apply elem_of_app. right. left.
  - intros a. split; [set_solver|]. intros (i&Hi&_). rewrite list_lookup_fmap in Hi.
    apply fmap_Some in Hi as (j&_&Hj). destruct (fp_mem _ _ _ Hf). nia.
  - rewrite nfree_all.
    + by rewrite /block_addrs length_fmap length_seq.
    + apply Forall_fmap, Forall_forall. intros j _. cbn. destruct (fp_mem _ _ _ Hf). nia.
Qed.
End instance.
