(* ===== verification/HashTable.v ===== *)
(** * Hash tables (src/cmn/hashlib.c)

    A table is an array of buckets; a bucket is a chain of entries, each in a block
    of the table's memory pool, with its own copy of the key.

    - Addresses are [Z], 0 is null.  Tables, bucket arrays, entries and keys are
      separate stores; an access to an address that is not there is undefined
      behaviour, and so is an index outside of an array.
    - A key is the bytes that its pointer points to.  [cmp_func] and
      [hash_index_gen] are the functions of the user, stored in the table.
    - The pool is any implementation of [BlockPool].  The memory of a pool stays
      where it is when a block is given back, so an entry keeps its content.
    - [HashEnv]: what [malloc] returns, and what the memory it returns contains.
    - [free_data], [callback] and [free] of the user's data are recorded in [hlog]. *)

From stdpp Require Export strings.
From S2P Require Import Prelude ListHead MemPool BlockPool.
#[local] Open Scope Z_scope.

Definition MAX_NAME : nat := 8.
Definition DEFAULT_HASH_BUCKETS : Z := 52.
(** Sizes of the i386 target. *)
Definition sizeof_ptr : Z := 4.
Definition sizeof_hash_bucket : Z := 12.

Record hash_bucket := MkBkt { bkt_next : Z; bkt_key : Z; bkt_data : Z }.
Record hash_table := MkHt {
  bucket_array : Z;
  htname : string;
  hmem_pool_id : Z;
  key_len : Z;
  nbuckets : Z;
  nentries : Z;
  cmp_func : list Z → list Z → Z;
  hash_index_gen : list Z → Z
}.
Inductive hevent := HE_call (f d : Z) | HE_free (d : Z).

Record hst {P : Type} := MkHst {
  hpool : P;
  bkts : gmap Z hash_bucket;
  barrs : gmap Z (list Z);
  hkeys : gmap Z (list Z);
  tabs : gmap Z hash_table;
  h_alloc : nat;
  hlog : list hevent
}.
Arguments hst : clear implicits.

Class HashEnv := { env_malloc : nat → Z; env_garbage : nat → nat → Z }.

Section HashTable.
Context {P : Type} `{BP : BlockPool P} `{HE : HashEnv}.
Implicit Types s : hst P.

Definition set_hpool v s := MkHst P v (bkts s) (barrs s) (hkeys s) (tabs s) (h_alloc s) (hlog s).
Definition set_bkts v s := MkHst P (hpool s) v (barrs s) (hkeys s) (tabs s) (h_alloc s) (hlog s).
Definition set_barrs v s := MkHst P (hpool s) (bkts s) v (hkeys s) (tabs s) (h_alloc s) (hlog s).
Definition set_hkeys v s := MkHst P (hpool s) (bkts s) (barrs s) v (tabs s) (h_alloc s) (hlog s).
Definition set_tabs v s := MkHst P (hpool s) (bkts s) (barrs s) (hkeys s) v (h_alloc s) (hlog s).
Definition set_h_alloc v s := MkHst P (hpool s) (bkts s) (barrs s) (hkeys s) (tabs s) v (hlog s).
Definition set_hlog v s := MkHst P (hpool s) (bkts s) (barrs s) (hkeys s) (tabs s) (h_alloc s) v.

(** ** Accesses *)
Definition on_pool {A} (m : M P A) : M (hst P) A := zoom hpool set_hpool m.
Definition tab_ld (h : Z) : M (hst P) hash_table := x ← gets tabs; liftO (x !! h).
Definition tab_mod (f : hash_table → hash_table) (h : Z) : M (hst P) unit :=
  t ← tab_ld h; modify (λ s, set_tabs (<[h := f t]> (tabs s)) s).
Definition bkt_ld (b : Z) : M (hst P) hash_bucket := x ← gets bkts; liftO (x !! b).
Definition bkt_mod (f : hash_bucket → hash_bucket) (b : Z) : M (hst P) unit :=
  k ← bkt_ld b; modify (λ s, set_bkts (<[b := f k]> (bkts s)) s).
Definition key_ld (k : Z) : M (hst P) (list Z) := x ← gets hkeys; liftO (x !! k).
Definition barr_ld (a : Z) : M (hst P) (list Z) := x ← gets barrs; liftO (x !! a).
Definition barr_get (a i : Z) : M (hst P) Z :=
  l ← barr_ld a; if decide (0 ≤ i) then liftO (l !! Z.to_nat i) else ub.
Definition barr_set (a i v : Z) : M (hst P) unit :=
  l ← barr_ld a;
  if decide (0 ≤ i < Z.of_nat (length l))
  then modify (λ s, set_barrs (<[a := <[Z.to_nat i := v]> l]> (barrs s)) s) else ub.
Definition hemit (e : hevent) : M (hst P) unit := modify (λ s, set_hlog (hlog s ++ [e]) s).

Definition set_next v b := MkBkt v (bkt_key b) (bkt_data b).
Definition set_key v b := MkBkt (bkt_next b) v (bkt_data b).
Definition set_data v b := MkBkt (bkt_next b) (bkt_key b) v.
Definition set_bucket_array v t := MkHt v (htname t) (hmem_pool_id t) (key_len t) (nbuckets t) (nentries t) (cmp_func t) (hash_index_gen t).
Definition set_pool_id v t := MkHt (bucket_array t) (htname t) v (key_len t) (nbuckets t) (nentries t) (cmp_func t) (hash_index_gen t).
Definition set_nentries v t := MkHt (bucket_array t) (htname t) (hmem_pool_id t) (key_len t) (nbuckets t) v (cmp_func t) (hash_index_gen t).

(** ** Memory *)

(** The result of [malloc], and which call it was. *)
Definition h_malloc : M (hst P) (Z * nat) :=
  k ← gets h_alloc;
  modify (set_h_alloc (S k));;
  mret (env_malloc k, k).
(** The array that [malloc] returns is not cleared. *)
Definition malloc_buckets (n : Z) : M (hst P) Z :=
  '(a, k) ← h_malloc;
  when (truthy a)
    (modify (λ s, set_barrs (<[a := env_garbage k <$> seq 0 (Z.to_nat n)]> (barrs s)) s));;
  mret a.
(** [free] of a key. *)
Definition free_key (k : Z) : M (hst P) unit :=
  when (truthy k) (key_ld k;; modify (λ s, set_hkeys (delete k (hkeys s)) s)).
Definition free_htable (h : Z) : M (hst P) unit :=
  tab_ld h;; modify (λ s, set_tabs (delete h (tabs s)) s).
(** A block of the pool; it is zero when it is handed out for the first time. *)
Definition alloc_entry (id : Z) : M (hst P) Z :=
  a ← on_pool (bp_alloc id);
  when (truthy a)
    (modify (λ s, set_bkts (<[a := default (MkBkt 0 0 0) (bkts s !! a)]> (bkts s)) s));;
  mret a.
(** [free_data (data)] or [free (data)]. *)
Definition release_data (free_data d : Z) : M (hst P) unit :=
  hemit (if truthy free_data then HE_call free_data d else HE_free d).

(** ** Functions *)
Definition create_hash_table (hashname : string) (buckets : Z) (cmp : list Z → list Z → Z)
    (index_gen : list Z → Z) (klen : Z) : M (hst P) Z :=
  let buckets := if negb (truthy buckets) then DEFAULT_HASH_BUCKETS else buckets in
  let size := s32 (u32 (sizeof_ptr * buckets)) in
  '(h, k) ← h_malloc;
  if negb (truthy h) then mret 0 else
  (if decide (String.length hashname < MAX_NAME)%nat then mret tt else ub);;
  modify (λ s, set_tabs (<[h := MkHt (env_garbage k 0) hashname 0 klen buckets 0 cmp index_gen]> (tabs s)) s);;
  id ← on_pool (bp_create (u32 size) buckets);
  tab_mod (set_pool_id id) h;;
  if id <? 0 then free_htable h;; mret 0 else
  a ← malloc_buckets buckets;
  tab_mod (set_bucket_array a) h;;
  when (negb (truthy a)) (on_pool (bp_delete id);; free_htable h);;
  mret h.

(** [for (bkt = ...; bkt; bkt = bkt->next)] of [find_hash_entry]. *)
Fixpoint find_loop (fuel : nat) (cmp : list Z → list Z → Z) (key : list Z) (bkt : Z) : M (hst P) Z :=
  if negb (truthy bkt) then mret 0 else
  match fuel with
  | 0%nat => ub
  | S fuel =>
      b ← bkt_ld bkt;
      k ← key_ld (bkt_key b);
      if negb (truthy (cmp k key)) then mret bkt else find_loop fuel cmp key (bkt_next b)
  end.
Definition find_hash_entry (key : list Z) (htbl : Z) : M (hst P) Z :=
  if negb (truthy htbl) then mret 0 else
  t ← tab_ld htbl;
  let which_bucket := hash_index_gen t key in
  if nbuckets t <? which_bucket then mret 0 else
  bkt ← barr_get (bucket_array t) which_bucket;
  sz ← gets (λ s, size (bkts s));
  find_loop sz (cmp_func t) key bkt.

Definition hash_tbl_lookup (key : list Z) (htbl : Z) : M (hst P) Z :=
  pbkt ← find_hash_entry key htbl;
  if negb (truthy pbkt) then mret 0 else
  b ← bkt_ld pbkt; mret (bkt_data b).

(** The body of the loop of [hash_delete_entry] for the entry [temp] that matches. *)
Definition delete_at (htbl the_bucket free_data prev temp : Z) : M (hst P) unit :=
  b ← bkt_ld temp;
  t ← tab_ld htbl;
  (if truthy prev then bkt_mod (set_next (bkt_next b)) prev
   else barr_set (bucket_array t) the_bucket (bkt_next b));;
  tab_mod (λ t, set_nentries (s32 (nentries t - 1)) t) htbl;;
  release_data free_data (bkt_data b);;
  on_pool (bp_free (hmem_pool_id t) temp);;
  mret tt.
Fixpoint delete_loop (fuel : nat) (htbl the_bucket free_data : Z) (cmp : list Z → list Z → Z)
    (string : list Z) (prev temp : Z) : M (hst P) Z :=
  if negb (truthy temp) then mret (-1) else
  match fuel with
  | 0%nat => ub
  | S fuel =>
      b ← bkt_ld temp;
      k ← key_ld (bkt_key b);
      if negb (truthy (cmp k string)) then delete_at htbl the_bucket free_data prev temp;; mret 0
      else delete_loop fuel htbl the_bucket free_data cmp string temp (bkt_next b)
  end.
Definition hash_delete_entry (string : list Z) (htbl free_data : Z) : M (hst P) Z :=
  if negb (truthy htbl) then mret (-1) else
  t ← tab_ld htbl;
  let the_bucket := hash_index_gen t string in
  if nbuckets t <? the_bucket then mret (-1) else
  temp ← barr_get (bucket_array t) the_bucket;
  sz ← gets (λ s, size (bkts s));
  delete_loop sz htbl the_bucket free_data (cmp_func t) string 0 temp.

(** [while (hentry && hentry->next) hentry = hentry->next]. *)
Fixpoint tail_loop (fuel : nat) (hentry : Z) : M (hst P) Z :=
  if negb (truthy hentry) then mret hentry else
  b ← bkt_ld hentry;
  if negb (truthy (bkt_next b)) then mret hentry else
  match fuel with 0%nat => ub | S fuel => tail_loop fuel (bkt_next b) end.
(** A new entry at the end of the chain; null when the pool has no block left. *)
Definition link_entry (t : hash_table) (bucket hentry : Z) : M (hst P) Z :=
  if truthy hentry then
    a ← alloc_entry (hmem_pool_id t);
    bkt_mod (set_next a) hentry;;
    b ← bkt_ld hentry;
    mret (bkt_next b)
  else
    a ← alloc_entry (hmem_pool_id t);
    barr_set (bucket_array t) bucket a;;
    barr_get (bucket_array t) bucket.
(** [malloc (key_len)] and the loop that copies the key. *)
Definition copy_key (klen : Z) (string : list Z) : M (hst P) Z :=
  '(k, _) ← h_malloc;
  if 0 <? klen then
    if truthy k && (Z.to_nat klen <=? length string)%nat then
      modify (λ s, set_hkeys (<[k := take (Z.to_nat klen) string]> (hkeys s)) s);; mret k
    else ub
  else
    when (truthy k) (modify (λ s, set_hkeys (<[k := []]> (hkeys s)) s));; mret k.
(** A block is [sizeof (hash_bucket_t * )] times [nbuckets] bytes: an entry that
    does not fit is written outside of it. *)
Definition fill_entry (t : hash_table) (htbl hentry : Z) (string : list Z) (data : Z) : M (hst P) unit :=
  (if sizeof_ptr * nbuckets t <? sizeof_hash_bucket then ub else mret tt);;
  bkt_mod (set_data data) hentry;;
  bkt_mod (set_next 0) hentry;;
  k ← copy_key (key_len t) string;
  bkt_mod (set_key k) hentry;;
  tab_mod (λ t, set_nentries (s32 (nentries t + 1)) t) htbl.
Definition hash_add_entry (string : list Z) (htbl data : Z) : M (hst P) Z :=
  if negb (truthy htbl) then mret 0 else
  hentry ← find_hash_entry string htbl;
  if truthy hentry then mret 0 else
  t ← tab_ld htbl;
  let bucket := hash_index_gen t string in
  if nbuckets t <? bucket then mret (-1) else
  hentry ← barr_get (bucket_array t) bucket;
  sz ← gets (λ s, size (bkts s));
  hentry ← tail_loop sz hentry;
  hentry ← link_entry t bucket hentry;
  if negb (truthy hentry) then mret (-1) else
  fill_entry t htbl hentry string data;;
  mret 0.

Definition hash_tbl_add (key : list Z) (htbl data : Z) : M (hst P) Z :=
  r ← hash_add_entry key htbl data; mret (if r <? 0 then -1 else 0).
Definition hash_tbl_delete (string : list Z) (htbl free_data : Z) : M (hst P) Z :=
  r ← hash_delete_entry string htbl free_data; mret (if r <? 0 then -1 else 0).

(** [while (bucket)] of [flush_hash_table]. *)
Fixpoint flush_chain (fuel : nat) (id free_data bucket : Z) : M (hst P) unit :=
  if negb (truthy bucket) then mret tt else
  match fuel with
  | 0%nat => ub
  | S fuel =>
      b ← bkt_ld bucket;
      release_data free_data (bkt_data b);;
      free_key (bkt_key b);;
      on_pool (bp_free id bucket);;
      flush_chain fuel id free_data (bkt_next b)
  end.
(** [for (i = 0; i < htbl->nbuckets; i++)]; [n] counts the buckets left. *)
Fixpoint flush_loop (n : nat) (t : hash_table) (free_data i : Z) : M (hst P) unit :=
  match n with
  | 0%nat => mret tt
  | S n =>
      bucket ← barr_get (bucket_array t) i;
      sz ← gets (λ s, size (bkts s));
      flush_chain sz (hmem_pool_id t) free_data bucket;;
      barr_set (bucket_array t) i 0;;
      flush_loop n t free_data (i + 1)
  end.
Definition flush_hash_table (htbl free_data : Z) : M (hst P) unit :=
  if negb (truthy htbl) then mret tt else
  t ← tab_ld htbl;
  flush_loop (Z.to_nat (nbuckets t)) t free_data 0.

Definition destroy_hash_table (htbl free_data : Z) : M (hst P) unit :=
  flush_hash_table htbl free_data;;
  t ← tab_ld htbl;
  on_pool (bp_delete (hmem_pool_id t));;
  mret tt.

Definition get_hash_bucket (bucket table : Z) : M (hst P) Z :=
  if negb (truthy table) then mret 0 else
  t ← tab_ld table;
  if bucket <? nbuckets t then barr_get (bucket_array t) bucket else mret 0.
(** The loops of [hash_walk]: the number of entries visited so far is [count]. *)
Fixpoint walk_chain (fuel : nat) (callback bc count : Z) : M (hst P) Z :=
  if negb (truthy bc) then mret count else
  match fuel with
  | 0%nat => ub
  | S fuel =>
      b ← bkt_ld bc;
      hemit (HE_call callback (bkt_data b));;
      walk_chain fuel callback (bkt_next b) (s32 (count + 1))
  end.
Fixpoint walk_slots (n : nat) (htbl callback slot count : Z) : M (hst P) Z :=
  match n with
  | 0%nat => mret count
  | S n =>
      bc ← get_hash_bucket slot htbl;
      sz ← gets (λ s, size (bkts s));
      count ← walk_chain sz callback bc count;
      walk_slots n htbl callback (slot + 1) count
  end.
Definition hash_walk (htbl callback : Z) : M (hst P) Z :=
  t ← tab_ld htbl;
  walk_slots (Z.to_nat (nbuckets t)) htbl callback 0 0.
End HashTable.
