(* ===== verification/HashRep.v ===== *)
(** * Hash tables: a table is a finite map

    [table s h t m n]: the table [h] of [s] represents the finite map [m] from keys
    to data, and its pool has [n] free blocks; [chained s h t B m n] says in addition which keys and data the chains of the
    buckets hold, and in which order.  The operations of hashlib.c are the
    operations on the map, as long as the keys hash into the array and the user's
    comparison is equality of keys. *)

From S2P Require Import Prelude ListHead MemPool BlockPool HashTable.
#[local] Open Scope Z_scope.

(** ** Chains *)

(** An entry: its block, the address of its key, key and data. *)
Record ent := Ent { e_a : Z; e_kp : Z; e_k : list Z; e_d : Z }.
Implicit Types (e : ent) (es xs ys : list ent) (cs : list (list ent)).

(** The entries [es] lead from [b] to [c]. *)
Fixpoint path (m : gmap Z hash_bucket) (ks : gmap Z (list Z)) (b : Z) es (c : Z) : Prop :=
  match es with
  | [] => b = c
  | e :: es => b = e_a e ∧ e_a e ≠ 0 ∧ ks !! e_kp e = Some (e_k e) ∧
      ∃ nx, m !! e_a e = Some (MkBkt nx (e_kp e) (e_d e)) ∧ path m ks nx es c
  end.

Section paths.
Implicit Types (m : gmap Z hash_bucket) (ks : gmap Z (list Z)).

Lemma path_app m ks b xs ys c :
  path m ks b (xs ++ ys) c ↔ ∃ x, path m ks b xs x ∧ path m ks x ys c.
Proof.
  revert b. induction xs as [|e xs IH]; intros b; cbn; [naive_solver|].
  setoid_rewrite IH. naive_solver.
Qed.
Lemma path_frame m ks m' ks' b es c :
  path m ks b es c → (∀ e, e ∈ es → m' !! e_a e = m !! e_a e) →
  (∀ e, e ∈ es → ks' !! e_kp e = ks !! e_kp e) → path m' ks' b es c.
Proof.
  revert b. induction es as [|e es IH]; intros b; cbn; [done|].
  intros (->&H0&Hk&nx&Hm&Hp) Hm' Hk'. rewrite Hm'; [|left]. rewrite Hk'; [|left].
  split_and!; [done..|]. exists nx. split; [done|]. apply IH; [done|..]; intros e' He'.
  - apply Hm'. by right.
  - apply Hk'. by right.
Qed.
(** Redirecting the last entry. *)
Lemma path_redirect m ks b xs e c d :
  path m ks b (xs ++ [e]) c → e_a e ∉ (e_a <$> xs) →
  path (<[e_a e := MkBkt d (e_kp e) (e_d e)]> m) ks b (xs ++ [e]) d.
Proof.
  rewrite !path_app. intros (x&Hx&->&H0&Hk&nx&Hm&_) Hni. exists (e_a e). split.
  - eapply path_frame; [exact Hx| |done]. intros e' He'. rewrite lookup_insert_ne //.
    intros Heq. apply Hni. rewrite Heq. by apply list_elem_of_fmap_2.
  - cbn. rewrite lookup_insert_eq. split_and!; [done..|]. by exists d.
Qed.
Lemma path_size m ks b es c : path m ks b es c → NoDup (e_a <$> es) → (length es ≤ size m)%nat.
Proof.
  intros Hp Hnd. rewrite -(length_fmap e_a) -size_dom.
  assert (Hsub : list_to_set (e_a <$> es) ⊆ dom m).
  { intros a. rewrite elem_of_list_to_set. intros (e&->&He)%list_elem_of_fmap.
    apply list_elem_of_split in He as (l1&l2&->). apply path_app in Hp as (x&_&_&_&_&nx&Hm&_).
    by apply elem_of_dom. }
  apply subseteq_size in Hsub. rewrite size_list_to_set // in Hsub.
Qed.
Lemma path_start m ks b es : path m ks b es 0 → b = default 0 (e_a <$> head es).
Proof. destruct es; cbn; naive_solver. Qed.
End paths.

Section runs.
Context {P : Type} `{BP : BlockPool P} `{HE : HashEnv}.
Implicit Types s : hst P.

Lemma bkt_ld_run s b k : bkts s !! b = Some k → bkt_ld b s = Some (k, s).
Proof. intros Hb. by rewrite /bkt_ld (bind_run (gets bkts) _ s _ s eq_refl) /liftO Hb. Qed.
Lemma key_ld_run s p k : hkeys s !! p = Some k → key_ld p s = Some (k, s).
Proof. intros Hb. by rewrite /key_ld (bind_run (gets hkeys) _ s _ s eq_refl) /liftO Hb. Qed.
Lemma tab_ld_run s h t : tabs s !! h = Some t → tab_ld h s = Some (t, s).
Proof. intros Hb. by rewrite /tab_ld (bind_run (gets tabs) _ s _ s eq_refl) /liftO Hb. Qed.
Lemma bkt_mod_run s b k f :
  bkts s !! b = Some k → bkt_mod f b s = Some (tt, set_bkts (<[b := f k]> (bkts s)) s).
Proof. intros Hb. by rewrite /bkt_mod (bind_run _ _ _ _ _ (bkt_ld_run _ _ _ Hb)). Qed.
Lemma tab_mod_run s h t f :
  tabs s !! h = Some t → tab_mod f h s = Some (tt, set_tabs (<[h := f t]> (tabs s)) s).
Proof. intros Hb. by rewrite /tab_mod (bind_run _ _ _ _ _ (tab_ld_run _ _ _ Hb)). Qed.
Lemma barr_get_run s a l (i : nat) v :
  barrs s !! a = Some l → l !! i = Some v → barr_get a (Z.of_nat i) s = Some (v, s).
Proof.
  intros Ha Hv. rewrite /barr_get /barr_ld /mbind /M_bind /gets /liftO Ha decide_True; [|lia].
  by rewrite Nat2Z.id Hv.
Qed.
Lemma barr_set_run s a l (i : nat) v :
  barrs s !! a = Some l → (i < length l)%nat →
  barr_set a (Z.of_nat i) v s = Some (tt, set_barrs (<[a := <[i := v]> l]> (barrs s)) s).
Proof.
  intros Ha Hv. rewrite /barr_set /barr_ld /mbind /M_bind /gets /liftO Ha decide_True; [|lia].
  by rewrite Nat2Z.id.
Qed.

(** The comparison of the user, on keys of the table. *)
Definition cmp_eq (t : hash_table) : Prop :=
  ∀ a b, Z.of_nat (length a) = key_len t → Z.of_nat (length b) = key_len t →
    cmp_func t a b = 0 ↔ a = b.
Definition keys_ok (t : hash_table) es : Prop := ∀ e, e ∈ es → Z.of_nat (length (e_k e)) = key_len t.
Lemma cmp_truthy t a b :
  cmp_eq t → Z.of_nat (length a) = key_len t → Z.of_nat (length b) = key_len t →
  truthy (cmp_func t a b) = bool_decide (a ≠ b).
Proof.
  intros Hc Ha Hb. specialize (Hc a b Ha Hb). case_bool_decide as Hab.
  - apply truthy_true. naive_solver.
  - apply truthy_false. apply Hc. by destruct (decide (a = b)).
Qed.

(** The search for a key finds its entry. *)
Lemma find_loop_run t key s b es fuel :
  cmp_eq t → keys_ok t es → Z.of_nat (length key) = key_len t →
  path (bkts s) (hkeys s) b es 0 → (length es ≤ fuel)%nat →
  find_loop fuel (cmp_func t) key b s = Some (default 0 (e_a <$> head (filter (λ e, e_k e = key) es)), s).
Proof.
  intros Hc Hks Hk. revert b fuel. induction es as [|e es IH]; intros b fuel Hp Hf.
  { cbn in Hp. subst b. by destruct fuel. }
  destruct Hp as (->&H0&Hkp&nx&Hb&Hp). destruct fuel as [|fuel]; cbn in Hf; [lia|].
  cbn [find_loop]. rewrite (proj2 (truthy_true _) H0). cbn [negb].
  rewrite (bind_run _ _ _ _ _ (bkt_ld_run _ _ _ Hb)). cbn [bkt_key bkt_next].
  rewrite (bind_run _ _ _ _ _ (key_ld_run _ _ _ Hkp)).
  rewrite cmp_truthy; [|done|by apply Hks; left|done]. rewrite filter_cons. case_decide as He.
  - by rewrite bool_decide_eq_false_2; [|by intros []].
  - rewrite bool_decide_eq_true_2 //. cbn [negb]. apply IH; [|done|lia]. intros e' He'. apply Hks. by right.
Qed.
End runs.

(** ** Tables *)

(** Entries with different blocks, different memory for their keys, and different keys. *)
Definition distinct es : Prop := NoDup (e_a <$> es) ∧ NoDup (e_kp <$> es) ∧ NoDup (e_k <$> es).
#[global] Instance distinct_perm : Proper ((≡ₚ) ==> iff) distinct.
Proof. intros es es' Hp. rewrite /distinct. by rewrite Hp. Qed.
Lemma distinct_cons e es :
  distinct (e :: es) ↔
  (e_a e ∉ (e_a <$> es)) ∧ (e_kp e ∉ (e_kp <$> es)) ∧ (e_k e ∉ (e_k <$> es)) ∧ distinct es.
Proof. rewrite /distinct !fmap_cons !NoDup_cons. naive_solver. Qed.
Lemma distinct_app_r xs ys : distinct (xs ++ ys) → distinct ys.
Proof. rewrite /distinct !fmap_app !NoDup_app. naive_solver. Qed.
Definition blocks_of es : gset Z := list_to_set (e_a <$> es).
Lemma blocks_of_perm es es' : es ≡ₚ es' → blocks_of es = blocks_of es'.
Proof. intros Hp. apply list_to_set_perm_L. by rewrite Hp. Qed.
Lemma blocks_of_cons e es : blocks_of (e :: es) = {[e_a e]} ∪ blocks_of es.
Proof. done. Qed.

(** The entries of one bucket within the table. *)
Lemma bucket_perm (l1 : list (list ent)) xs e ys l2 :
  concat (l1 ++ (xs ++ e :: ys) :: l2) ≡ₚ e :: concat (l1 ++ (xs ++ ys) :: l2).
Proof.
  rewrite !concat_app. cbn [concat]. rewrite -!app_assoc. cbn [app].
  rewrite (app_assoc (concat l1) xs) (app_assoc (concat l1) xs). symmetry. apply Permutation_middle.
Qed.
Lemma list_insert_middle {A} (k1 : list A) b k2 v : <[length k1 := v]> (k1 ++ b :: k2) = k1 ++ v :: k2.
Proof. induction k1 as [|x k1 IH]; cbn; [done|]. by rewrite IH. Qed.

Lemma list_alter_middle {A} (f : A → A) (k1 : list A) b k2 : alter f (length k1) (k1 ++ b :: k2) = k1 ++ f b :: k2.
Proof. induction k1 as [|x k1 IH]; cbn; [done|]. by rewrite -IH. Qed.

Section tables.
Context {P : Type} `{BP : BlockPool P} `{HE : HashEnv}.
Implicit Types (s : hst P) (t : hash_table).

Record rep s (h : Z) t cs (n : nat) : Prop := {
  rp_null : h ≠ 0;
  rp_tab : tabs s !! h = Some t;
  rp_cmp : cmp_eq t;
  rp_len : Z.of_nat (length cs) = nbuckets t;
  rp_fit : sizeof_hash_bucket ≤ sizeof_ptr * nbuckets t;
  rp_arr : ∃ hs, barrs s !! bucket_array t = Some hs ∧
    Forall2 (λ b es, path (bkts s) (hkeys s) b es 0) hs cs;
  rp_hash i es e : cs !! i = Some es → e ∈ es →
    hash_index_gen t (e_k e) = Z.of_nat i ∧ Z.of_nat (length (e_k e)) = key_len t;
  rp_ents : distinct (concat cs);
  rp_pool : bp_pool (hpool s) (hmem_pool_id t) (blocks_of (concat cs)) n
}.
(** The map of a table. *)
Definition maps cs (m : gmap (list Z) Z) : Prop :=
  ∀ k d, m !! k = Some d ↔ ∃ e, e ∈ concat cs ∧ e_k e = k ∧ e_d e = d.
Definition table s (h : Z) t (m : gmap (list Z) Z) (n : nat) : Prop := ∃ cs, rep s h t cs n ∧ maps cs m.
(** The keys and data of the chains, bucket by bucket and each from its first entry on. *)
Definition binding e : list Z * Z := (e_k e, e_d e).
Definition bindings cs : list (list (list Z * Z)) := (λ es, binding <$> es) <$> cs.
Definition chained s (h : Z) t (B : list (list (list Z * Z))) (m : gmap (list Z) Z) (n : nat) : Prop :=
  ∃ cs, rep s h t cs n ∧ maps cs m ∧ B = bindings cs.
Lemma table_chained s h t m n : table s h t m n ↔ ∃ B, chained s h t B m n.
Proof. rewrite /table /chained. naive_solver. Qed.
(** A key that the table can hold. *)
Definition key_ok t (k : list Z) : Prop :=
  Z.of_nat (length k) = key_len t ∧ 0 ≤ hash_index_gen t k < nbuckets t.

(** One bucket: the array holds [b] for it. *)
Record bucket_of s t cs (l1 : list (list ent)) es l2 (k1 : list Z) (b : Z) (k2 : list Z) : Prop := {
  bo_cs : cs = l1 ++ es :: l2;
  bo_len : length k1 = length l1;
  bo_arr : barrs s !! bucket_array t = Some (k1 ++ b :: k2);
  bo_pre : Forall2 (λ b es, path (bkts s) (hkeys s) b es 0) k1 l1;
  bo_path : path (bkts s) (hkeys s) b es 0;
  bo_post : Forall2 (λ b es, path (bkts s) (hkeys s) b es 0) k2 l2
}.
Lemma rep_at s h t l1 es l2 n :
  rep s h t (l1 ++ es :: l2) n → ∃ k1 b k2, bucket_of s t (l1 ++ es :: l2) l1 es l2 k1 b k2.
Proof.
  intros Hr. destruct (rp_arr _ _ _ _ _ Hr) as (hs&Hhs&Hf).
  apply Forall2_app_inv_r in Hf as (k1&k2'&H1&(b&k2&Hb&H2&->)%Forall2_cons_inv_r&->).
  exists k1, b, k2. split; try done. by apply Forall2_length in H1.
Qed.
(** The bucket of a key. *)
Lemma rep_bucket s h t cs n k :
  rep s h t cs n → key_ok t k → ∃ l1 es l2 k1 b k2,
    hash_index_gen t k = Z.of_nat (length l1) ∧ bucket_of s t cs l1 es l2 k1 b k2.
Proof.
  intros Hr [Hk Hi]. set (i := Z.to_nat (hash_index_gen t k)).
  destruct (lookup_lt_is_Some_2 cs i) as [es Hes]; [pose proof (rp_len _ _ _ _ _ Hr); lia|].
  pose proof (take_drop_middle _ _ _ Hes) as Hcs.
  assert (Hl : length (take i cs) = i) by (apply length_take_le; apply lookup_lt_Some in Hes; lia).
  rewrite -Hcs in Hr. destruct (rep_at _ _ _ _ _ _ _ Hr) as (k1&b&k2&Hb).
  exists (take i cs), es, (drop (S i) cs), k1, b, k2. rewrite Hcs in Hb. split; [rewrite Hl; lia|done].
Qed.
Lemma bucket_path s h t cs n l1 es l2 k1 b k2 :
  rep s h t cs n → bucket_of s t cs l1 es l2 k1 b k2 →
  keys_ok t es ∧ (length es ≤ size (bkts s))%nat ∧ NoDup (e_a <$> es) ∧
  (∀ e, hash_index_gen t (e_k e) = Z.of_nat (length l1) → e ∈ concat cs → e ∈ es).
Proof.
  intros Hr [Hcs Hlen Harr Hpre Hp Hpost].
  assert (Hes : cs !! length l1 = Some es) by (rewrite Hcs; by apply list_lookup_middle).
  assert (Hnd : NoDup (e_a <$> es)).
  { destruct (rp_ents _ _ _ _ _ Hr) as [Hnd _]. rewrite Hcs concat_app in Hnd. cbn [concat] in Hnd.
    rewrite !fmap_app in Hnd. by apply NoDup_app in Hnd as (_&_&[? _]%NoDup_app). }
  split_and!; [|by eapply path_size|done|].
  - intros e He. by eapply (rp_hash _ _ _ _ _ Hr).
  - intros e Hi He. apply list_elem_of_In, in_concat in He as (es'&Hes'&He).
    apply list_elem_of_In in Hes', He. apply list_elem_of_lookup in Hes' as [j Hj].
    destruct (rp_hash _ _ _ _ _ Hr j es' e Hj He) as [Hj' _].
    assert (j = length l1) as -> by lia. congruence.
Qed.

(** Looking a key up. *)
Lemma find_run s h t cs n k :
  rep s h t cs n → key_ok t k → ∃ v, find_hash_entry k h s = Some (v, s) ∧
    ((v = 0 ∧ ∀ e, e ∈ concat cs → e_k e ≠ k) ∨
     ∃ e, e ∈ concat cs ∧ e_k e = k ∧ v = e_a e ∧ v ≠ 0 ∧ ∃ nx, bkts s !! v = Some (MkBkt nx (e_kp e) (e_d e))).
Proof.
  intros Hr Hk. destruct (rep_bucket _ _ _ _ _ _ Hr Hk) as (l1&es&l2&k1&b&k2&Hi&Hb).
  destruct (bucket_path _ _ _ _ _ _ _ _ _ _ _ Hr Hb) as (Hks&Hsz&_&Hin).
  destruct Hb as [Hcs Hlen Harr _ Hp _]. destruct Hk as [Hkl Hkb].
  eexists. split.
  - rewrite /find_hash_entry (proj2 (truthy_true h) (rp_null _ _ _ _ _ Hr)). cbn [negb].
    rewrite (bind_run _ _ _ _ _ (tab_ld_run _ _ _ (rp_tab _ _ _ _ _ Hr))).
    rewrite (proj2 (Z.ltb_ge _ _)); [|lia]. rewrite Hi -Hlen.
    rewrite (bind_run _ _ _ _ _ (barr_get_run _ _ _ (length k1) b Harr ltac:(by apply list_lookup_middle))).
    rewrite (bind_run (gets _) _ s _ s eq_refl).
    by apply (find_loop_run _ _ _ _ es); [apply (rp_cmp _ _ _ _ _ Hr)|..].
  - destruct (filter (λ e, e_k e = k) es) as [|e es'] eqn:Hf; cbn; [left|right].
    + split; [done|]. intros e He Hek. specialize (Hin e ltac:(by rewrite Hek) He).
      assert (Hfin : e ∈ filter (λ e, e_k e = k) es) by by apply list_elem_of_filter.
      rewrite Hf in Hfin. by apply elem_of_nil in Hfin.
    + assert (e ∈ filter (λ e, e_k e = k) es) as [Hek He]%list_elem_of_filter by (rewrite Hf; left).
      exists e. split; [rewrite Hcs concat_app; cbn; set_solver|]. split_and!; [done|done|..];
        apply list_elem_of_split in He as (x1&x2&->); apply path_app in Hp as (x&_&_&He0&_&nx&Hbk&_); [done|].
      by exists nx.
Qed.
End tables.

Section updates.
Context {P : Type} `{BP : BlockPool P} `{HE : HashEnv}.
Implicit Types (s : hst P) (t : hash_table).

(** What the operations keep of a table. *)
Definition same_shape t t' : Prop :=
  bucket_array t' = bucket_array t ∧ hmem_pool_id t' = hmem_pool_id t ∧ key_len t' = key_len t ∧
  nbuckets t' = nbuckets t ∧ cmp_func t' = cmp_func t ∧ hash_index_gen t' = hash_index_gen t.

(** A bucket is replaced by another one. *)
Lemma rep_change s h t l1 es l2 n k1 b k2 s' t' es' b' n' :
  rep s h t (l1 ++ es :: l2) n → bucket_of s t (l1 ++ es :: l2) l1 es l2 k1 b k2 →
  tabs s' !! h = Some t' → same_shape t t' →
  barrs s' !! bucket_array t = Some (k1 ++ b' :: k2) →
  (∀ e, e ∈ concat l1 ++ concat l2 →
     bkts s' !! e_a e = bkts s !! e_a e ∧ hkeys s' !! e_kp e = hkeys s !! e_kp e) →
  path (bkts s') (hkeys s') b' es' 0 →
  (∀ e, e ∈ es' → hash_index_gen t (e_k e) = Z.of_nat (length l1) ∧ Z.of_nat (length (e_k e)) = key_len t) →
  distinct (concat (l1 ++ es' :: l2)) →
  bp_pool (hpool s') (hmem_pool_id t) (blocks_of (concat (l1 ++ es' :: l2))) n' →
  rep s' h t' (l1 ++ es' :: l2) n'.
Proof.
  intros Hr [_ Hlen _ H1 _ H2] Ht (E1&E2&E3&E4&E5&E6) Ha Hfr Hp Hes Hd Hpl.
  assert (Hf : ∀ hs ls, Forall2 (λ b es, path (bkts s) (hkeys s) b es 0) hs ls →
    (∀ es, es ∈ ls → ∀ e, e ∈ es → e ∈ concat l1 ++ concat l2) →
    Forall2 (λ b es, path (bkts s') (hkeys s') b es 0) hs ls).
  { intros hs ls Hf Hin. apply Forall2_same_length_lookup in Hf as [Hl Hf].
    apply Forall2_same_length_lookup. split; [done|]. intros i c cs Hc Hcs.
    eapply path_frame; [by eapply Hf|..]; intros e He; apply Hfr; eapply Hin; try done;
      by eapply list_elem_of_lookup_2. }
  assert (Hc : ∀ ls es e, es ∈ ls → e ∈ es → e ∈ concat ls).
  { intros ls c e Hc He. apply list_elem_of_In, in_concat. exists c. by split; apply list_elem_of_In. }
  split.
  - apply Hr.
  - done.
  - intros x y. rewrite E5 E3. apply (rp_cmp _ _ _ _ _ Hr).
  - rewrite E4 -(rp_len _ _ _ _ _ Hr) !length_app. done.
  - rewrite E4. apply Hr.
  - exists (k1 ++ b' :: k2). rewrite E1. split; [done|]. apply Forall2_app; [|constructor; [done|]].
    + apply Hf; [done|]. intros c Hc1 e He. apply elem_of_app. left. by eapply Hc.
    + apply Hf; [done|]. intros c Hc1 e He. apply elem_of_app. right. by eapply Hc.
  - intros i c e Hi He. rewrite E6 E3. destruct (decide (i = length l1)) as [->|Hne].
    + rewrite list_lookup_middle // in Hi. injection Hi as <-. by apply Hes.
    + apply (rp_hash _ _ _ _ _ Hr i c e); [|done]. revert Hi.
      destruct (decide (i < length l1)%nat) as [Hlt|Hge].
      * by rewrite !lookup_app_l.
      * rewrite !lookup_app_r; [|lia..]. destruct (i - length l1)%nat eqn:Hi; [lia|done].
  - done.
  - by rewrite E2.
Qed.

Lemma tail_run s b xs e fuel :
  path (bkts s) (hkeys s) b (xs ++ [e]) 0 → (length xs ≤ fuel)%nat → tail_loop fuel b s = Some (e_a e, s).
Proof.
  revert b fuel. induction xs as [|x xs IH]; intros b fuel (->&H0&_&nx&Hb&Hp) Hf.
  - cbn in Hp. subst nx.
    destruct fuel as [|fuel]; cbn [tail_loop]; rewrite (proj2 (truthy_true _) H0); cbn [negb];
      by rewrite (bind_run _ _ _ _ _ (bkt_ld_run _ _ _ Hb)).
  - destruct fuel as [|fuel]; cbn in Hf; [lia|]. cbn [tail_loop].
    rewrite (proj2 (truthy_true _) H0). cbn [negb].
    rewrite (bind_run _ _ _ _ _ (bkt_ld_run _ _ _ Hb)). cbn [bkt_next].
    assert (nx ≠ 0) as Hnx by (destruct xs; cbn in Hp; naive_solver).
    rewrite (proj2 (truthy_true _) Hnx). cbn [negb]. apply IH; [done|lia].
Qed.

(** A block from the pool. *)
Lemma alloc_entry_run s t U n :
  bp_pool (hpool s) (hmem_pool_id t) U n →
  wp (alloc_entry (hmem_pool_id t)) (λ a s1, match n with
    | 0%nat => a = 0 ∧ s1 = s
    | S n' => a ≠ 0 ∧ a ∉ U ∧ ∃ pl bk, bp_pool pl (hmem_pool_id t) ({[a]} ∪ U) n' ∧
        s1 = set_bkts (<[a := bk]> (bkts s)) (set_hpool pl s)
    end) s.
Proof.
  intros Hpl. rewrite /alloc_entry. apply wp_bind. apply wp_zoom.
  eapply wp_mono; [by apply bp_alloc_ok|]. intros a pl. destruct n as [|n].
  - intros [-> ->]. apply wp_ret. split; [done|]. by destruct s.
  - intros (H0&Hni&Hpl'). rewrite (proj2 (truthy_true _) H0). apply wp_ret.
    split_and!; [done|done|]. by eexists _, _.
Qed.

(** The new entry is linked at the end of its bucket. *)
Lemma link_run s h t l1 es l2 n k1 b k2 :
  let cs := l1 ++ es :: l2 in
  rep s h t cs n → bucket_of s t cs l1 es l2 k1 b k2 →
  wp (hentry ← tail_loop (size (bkts s)) b; link_entry t (Z.of_nat (length l1)) hentry)
    (λ a s1, match n with
     | 0%nat => a = 0 ∧ s1 = s
     | S n' => a ≠ 0 ∧ a ∉ blocks_of (concat cs) ∧
         bp_pool (hpool s1) (hmem_pool_id t) ({[a]} ∪ blocks_of (concat cs)) n' ∧
         is_Some (bkts s1 !! a) ∧ (∃ b', barrs s1 !! bucket_array t = Some (k1 ++ b' :: k2) ∧
           path (bkts s1) (hkeys s1) b' es a) ∧
         (∀ e, e ∈ concat l1 ++ concat l2 → bkts s1 !! e_a e = bkts s !! e_a e) ∧
         hkeys s1 = hkeys s ∧ tabs s1 = tabs s ∧ h_alloc s1 = h_alloc s ∧ hlog s1 = hlog s
     end) s.
Proof.
  intros cs Hr Hb. destruct (bucket_path _ _ _ _ _ _ _ _ _ _ _ Hr Hb) as (_&Hsz&Hnd&_).
  destruct Hb as [_ Hlen Harr _ Hp _]. pose proof (rp_pool _ _ _ _ _ Hr) as Hpl.
  assert (Hcs : concat cs = concat l1 ++ es ++ concat l2) by by rewrite /cs concat_app.
  assert (Hin : ∀ e, e ∈ concat cs → e_a e ∈ blocks_of (concat cs)).
  { intros e He. apply elem_of_list_to_set. by apply list_elem_of_fmap_2. }
  destruct es as [|e xs _] using rev_ind.
  - cbn in Hp. subst b. rewrite /wp (bind_run _ _ _ 0 s); [|by destruct (size (bkts s))].
    rewrite /link_entry. cbn [truthy negb Z.eqb]. apply wp_bind.
    eapply wp_mono; [by apply alloc_entry_run|]. intros a s1. destruct n as [|n].
    + intros [-> ->]. rewrite -Hlen /wp. erewrite (bind_run _ _ s tt s).
      * by rewrite (barr_get_run s _ _ _ 0 Harr); [|apply list_lookup_middle].
      * rewrite (barr_set_run _ _ _ _ _ Harr); [|rewrite length_app /=; lia].
        rewrite list_insert_middle insert_id //. by destruct s.
    + intros (H0&Hni&pl&bk&Hpl'&->). rewrite -Hlen /wp.
      set (s1 := set_bkts _ _). assert (Hlt : (length k1 < length (k1 ++ 0%Z :: k2))%nat) by (rewrite length_app /=; lia).
      rewrite (bind_run _ _ _ _ _ (barr_set_run s1 _ _ _ a Harr Hlt)).
      rewrite list_insert_middle. erewrite barr_get_run; [|apply lookup_insert_eq|by apply list_lookup_middle].
      split_and!; [done|done|done|by exists bk; apply lookup_insert_eq| | |done..].
      * exists a. split; [apply lookup_insert_eq|done].
      * intros e He. cbn. rewrite lookup_insert_ne //. intros ->. apply Hni, Hin. by rewrite Hcs.
  - assert (Hlx : (length xs ≤ size (bkts s))%nat) by (rewrite length_app /= in Hsz; lia).
    rewrite /wp (bind_run _ _ _ _ _ (tail_run _ _ _ _ _ Hp Hlx)).
    rewrite fmap_app NoDup_snoc in Hnd. destruct Hnd as [Hne Hnd].
    pose proof Hp as Hp'. apply path_app in Hp' as (x&_&_&He0&_&nx&Hbe&->).
    rewrite /link_entry (proj2 (truthy_true _) He0). apply wp_bind.
    eapply wp_mono; [by apply alloc_entry_run|]. intros a s1. destruct n as [|n].
    + intros [-> ->]. rewrite /wp (bind_run _ _ s tt s).
      * by rewrite (bind_run _ _ _ _ _ (bkt_ld_run _ _ _ Hbe)).
      * rewrite (bkt_mod_run _ _ _ _ Hbe) insert_id //. by destruct s.
    + intros (H0&Hni&pl&bk&Hpl'&->).
      assert (Hae : a ≠ e_a e).
      { intros ->. apply Hni, Hin. rewrite Hcs. set_solver. }
      set (s1 := set_bkts _ _). assert (Hbe1 : bkts s1 !! e_a e = Some (MkBkt 0 (e_kp e) (e_d e))).
      { by cbn; rewrite lookup_insert_ne. }
      rewrite /wp (bind_run _ _ _ _ _ (bkt_mod_run _ _ _ _ Hbe1)). set (s2 := set_bkts _ s1).
      assert (Hbe2 : bkts s2 !! e_a e = Some (MkBkt a (e_kp e) (e_d e))) by apply lookup_insert_eq.
      rewrite (bind_run _ _ _ _ _ (bkt_ld_run _ _ _ Hbe2)). cbn [bkt_next].
      change (wp (mret a) (λ a s3, a ≠ 0 ∧ a ∉ blocks_of (concat cs) ∧
         bp_pool (hpool s3) (hmem_pool_id t) ({[a]} ∪ blocks_of (concat cs)) n ∧
         is_Some (bkts s3 !! a) ∧ (∃ b', barrs s3 !! bucket_array t = Some (k1 ++ b' :: k2) ∧
           path (bkts s3) (hkeys s3) b' (xs ++ [e]) a) ∧
         (∀ e, e ∈ concat l1 ++ concat l2 → bkts s3 !! e_a e = bkts s !! e_a e) ∧
         hkeys s3 = hkeys s ∧ tabs s3 = tabs s ∧ h_alloc s3 = h_alloc s ∧ hlog s3 = hlog s) s2).
      apply wp_ret. split_and!; [done|done|done| | | |done..].
      * exists bk. cbn. by rewrite lookup_insert_ne // lookup_insert_eq.
      * exists b. split; [done|]. eapply path_frame; [exact (path_redirect _ _ _ _ _ _ a Hp Hne)| |done].
        intros e' He'. cbn. destruct (decide (e_a e = e_a e')) as [Heq|Hne'].
        -- by rewrite -Heq !lookup_insert_eq.
        -- rewrite !(lookup_insert_ne _ (e_a e)) // lookup_insert_ne //.
           intros ->. apply Hni, Hin. rewrite Hcs. set_solver.
      * intros e' He'. cbn. assert (e_a e ≠ e_a e').
        { destruct (rp_ents _ _ _ _ _ Hr) as [Hnd' _]. rewrite (bucket_perm l1 xs e [] l2) in Hnd'.
          apply NoDup_cons in Hnd' as [Hnd' _]. intros Heq. apply Hnd'. rewrite Heq.
          apply list_elem_of_fmap_2. rewrite concat_app. cbn. set_solver. }
        rewrite !lookup_insert_ne //. intros ->. apply Hni, Hin. rewrite Hcs. set_solver.
Qed.
End updates.

(** ** Adding, deleting, flushing and walking *)
Section operations.
Context {P : Type} `{BP : BlockPool P} `{HE : HashEnv}.
Implicit Types (s : hst P) (t : hash_table).

(** The memory for the next key is new. *)
Definition fresh_key s cs : Prop :=
  env_malloc (h_alloc s) ≠ 0 ∧ ∀ e, e ∈ concat cs → e_kp e ≠ env_malloc (h_alloc s).
Definition inc_entries t : hash_table := set_nentries (s32 (nentries t + 1)) t.
Definition dec_entries t : hash_table := set_nentries (s32 (nentries t - 1)) t.

Lemma copy_key_run s klen k :
  Z.of_nat (length k) = klen → env_malloc (h_alloc s) ≠ 0 →
  copy_key klen k s = Some (env_malloc (h_alloc s),
    set_hkeys (<[env_malloc (h_alloc s) := k]> (hkeys s)) (set_h_alloc (S (h_alloc s)) s)).
Proof.
  intros Hl H0. rewrite /copy_key /h_malloc /mbind /M_bind /=. destruct (0 <? klen) eqn:Hk.
  - rewrite (proj2 (truthy_true _) H0) (proj2 (Nat.leb_le _ _)); [|lia]. cbn.
    rewrite take_ge; [done|lia].
  - assert (k = []) as -> by (apply Z.ltb_ge in Hk; destruct k; cbn in *; [done|lia]).
    by rewrite (proj2 (truthy_true _) H0).
Qed.
(** The fields of the new entry are filled. *)
Lemma fill_run s h t a bk k d :
  tabs s !! h = Some t → bkts s !! a = Some bk → sizeof_hash_bucket ≤ sizeof_ptr * nbuckets t →
  Z.of_nat (length k) = key_len t → env_malloc (h_alloc s) ≠ 0 →
  let kp := env_malloc (h_alloc s) in
  ∃ s', fill_entry t h a k d s = Some (tt, s') ∧ tabs s' = <[h := inc_entries t]> (tabs s) ∧
    bkts s' = <[a := MkBkt 0 kp d]> (bkts s) ∧ hkeys s' = <[kp := k]> (hkeys s) ∧
    barrs s' = barrs s ∧ hpool s' = hpool s ∧ hlog s' = hlog s.
Proof.
  intros Ht Hb Hfit Hk Hm kp. eexists. rewrite /fill_entry (proj2 (Z.ltb_ge _ _) Hfit). split.
  - rewrite (bind_run (mret tt) _ s tt s eq_refl) (bind_run _ _ _ _ _ (bkt_mod_run _ _ _ _ Hb)).
    set (s1 := set_bkts _ s). assert (H1 : bkts s1 !! a = Some (set_data d bk)) by apply lookup_insert_eq.
    rewrite (bind_run _ _ _ _ _ (bkt_mod_run _ _ _ _ H1)). set (s2 := set_bkts _ s1).
    rewrite (bind_run _ _ _ _ _ (copy_key_run s2 _ _ Hk Hm)). set (s3 := set_hkeys _ _).
    assert (H3 : bkts s3 !! a = Some (set_next 0 (set_data d bk))) by apply lookup_insert_eq.
    rewrite (bind_run _ _ _ _ _ (bkt_mod_run _ _ _ _ H3)). set (s4 := set_bkts _ s3).
    by rewrite (tab_mod_run s4 _ _ _ Ht).
  - split_and!; try done. cbn. by rewrite !insert_insert_eq.
Qed.

Lemma add_run s h t cs n k d :
  rep s h t cs n → key_ok t k → (∀ e, e ∈ concat cs → e_k e ≠ k) → fresh_key s cs →
  wp (hash_add_entry k h d) (λ r s', match n with
    | 0%nat => r = -1 ∧ s' = s
    | S n' => r = 0 ∧ ∃ cs' e, rep s' h (inc_entries t) cs' n' ∧ e_k e = k ∧ e_d e = d ∧
        concat cs' ≡ₚ e :: concat cs ∧ cs' = alter (λ es, es ++ [e]) (Z.to_nat (hash_index_gen t k)) cs ∧ hlog s' = hlog s
    end) s.
Proof.
  intros Hr Hk Hno [Hm Hkf]. destruct (find_run _ _ _ _ _ _ Hr Hk) as (v&Hf&[[-> _]|(e&He&Hek&_)]).
  2: { by destruct (Hno e He). }
  destruct (rep_bucket _ _ _ _ _ _ Hr Hk) as (l1&es&l2&k1&b&k2&Hi&Hb). pose proof Hb as [-> Hlen Harr _ Hp _].
  rewrite /hash_add_entry (proj2 (truthy_true h) (rp_null _ _ _ _ _ Hr)). cbn [negb].
  rewrite /wp (bind_run _ _ _ _ _ Hf). cbn [truthy negb Z.eqb].
  rewrite (bind_run _ _ _ _ _ (tab_ld_run _ _ _ (rp_tab _ _ _ _ _ Hr))).
  pose proof Hk as [Hkl Hkb]. rewrite (proj2 (Z.ltb_ge _ _)); [|lia]. rewrite Hi -Hlen.
  rewrite (bind_run _ _ _ _ _ (barr_get_run _ _ _ (length k1) b Harr ltac:(by apply list_lookup_middle))).
  rewrite (bind_run (gets _) _ s _ s eq_refl) Hlen.
  pose proof (link_run s h t l1 es l2 n k1 b k2 Hr Hb) as Hl. cbn zeta in Hl.
  apply wp_inv in Hl as (a&s1&Hrun&Hpost).
  assert (Hassoc : ∀ (K : Z → M (hst P) Z), (hentry ← tail_loop (size (bkts s)) b;
    hentry ← link_entry t (Z.of_nat (length l1)) hentry; K hentry) s = K a s1).
  { intros K. revert Hrun. rewrite /mbind /M_bind. destruct (tail_loop _ b s) as [[x s0]|]; [|done].
    by intros ->. }
  rewrite Hassoc. destruct n as [|n].
  { destruct Hpost as [-> ->]. done. }
  destruct Hpost as (H0&Hni&Hpl&[bk Hbk]&(b'&Ha1&Hp1)&Hfr&Hks&Htb&Hal&Hlog).
  rewrite (proj2 (truthy_true a) H0). cbn [negb].
  destruct (fill_run s1 h t a bk k d) as (s2&Hrun2&Ht2&Hb2&Hk2&Ha2&Hpl2&Hlog2);
    [by rewrite Htb (rp_tab _ _ _ _ _ Hr)|done|apply Hr|done|by rewrite Hal|].
  rewrite (bind_run _ _ _ _ _ Hrun2). set (kp := env_malloc (h_alloc s1)) in *.
  split; [done|]. set (e := Ent a kp k d). exists (l1 ++ (es ++ [e]) :: l2), e.
  assert (Hkp : kp = env_malloc (h_alloc s)) by by rewrite /kp Hal.
  assert (Hperm : concat (l1 ++ (es ++ [e]) :: l2) ≡ₚ e :: concat (l1 ++ es :: l2)).
  { by rewrite bucket_perm app_nil_r. }
  assert (Hcs : concat (l1 ++ es :: l2) = concat l1 ++ es ++ concat l2) by by rewrite concat_app.
  assert (Hne : ∀ e', e' ∈ concat (l1 ++ es :: l2) → e_a e' ≠ a ∧ e_kp e' ≠ kp).
  { intros e' He'. split; [|by rewrite Hkp; apply Hkf]. intros <-. apply Hni. apply elem_of_list_to_set.
    by apply list_elem_of_fmap_2. }
  split_and!; [|done|done|done|by rewrite Nat2Z.id list_alter_middle|congruence].
  eapply (rep_change s h t l1 es l2 (S n) k1 b k2 s2 _ _ b' n Hr Hb).
  - rewrite Ht2. apply lookup_insert_eq.
  - done.
  - by rewrite Ha2.
  - intros e' He'. destruct (Hne e') as [N1 N2]; [rewrite Hcs; set_solver|].
    rewrite Hb2 Hk2 !lookup_insert_ne; [|done..]. by rewrite Hfr // Hks.
  - apply path_app. exists a. split.
    + eapply path_frame; [exact Hp1|..]; intros e' He'; (destruct (Hne e') as [N1 N2]; [rewrite Hcs; set_solver|]).
      * by rewrite Hb2 lookup_insert_ne.
      * by rewrite Hk2 lookup_insert_ne.
    + cbn. rewrite Hb2 Hk2 !lookup_insert_eq. split_and!; [done..|]. by exists 0.
  - intros e' [He'| ->%list_elem_of_singleton]%elem_of_app; [|by cbn; split].
    eapply (rp_hash _ _ _ _ _ Hr); [by apply list_lookup_middle|done].
  - rewrite Hperm. apply distinct_cons. split_and!; [..|apply Hr]; cbn;
      intros (e'&Heq&He')%list_elem_of_fmap; destruct (Hne e' He'); [congruence..|].
    by destruct (Hno e' He').
  - rewrite (blocks_of_perm _ _ Hperm) blocks_of_cons Hpl2. done.
Qed.
End operations.

Section deletion.
Context {P : Type} `{BP : BlockPool P} `{HE : HashEnv}.
Implicit Types (s : hst P) (t : hash_table).

(** The loop stops at the entry of the key, or at the end. *)
Lemma delete_loop_run s t h i f k b zs rest c prev fuel :
  cmp_eq t → keys_ok t zs → Z.of_nat (length k) = key_len t → (∀ e, e ∈ zs → e_k e ≠ k) →
  path (bkts s) (hkeys s) b (zs ++ rest) 0 → (length zs ≤ fuel)%nat → path (bkts s) (hkeys s) b zs c →
  delete_loop fuel h i f (cmp_func t) k prev b s =
    delete_loop (fuel - length zs) h i f (cmp_func t) k (default prev (last (e_a <$> zs))) c s.
Proof.
  intros Hc Hks Hk. revert b prev fuel. induction zs as [|z zs IH]; intros b prev fuel Hno Hp Hf Hp'.
  { cbn in Hp'. subst c. by rewrite Nat.sub_0_r. }
  destruct Hp as (->&H0&Hkp&nx&Hb&Hp). destruct Hp' as (_&_&_&nx'&Hb'&Hp').
  rewrite Hb in Hb'. injection Hb' as <-. destruct fuel as [|fuel]; cbn in Hf; [lia|]. cbn [delete_loop].
  rewrite (proj2 (truthy_true _) H0). cbn [negb].
  rewrite (bind_run _ _ _ _ _ (bkt_ld_run _ _ _ Hb)). cbn [bkt_key bkt_next].
  rewrite (bind_run _ _ _ _ _ (key_ld_run _ _ _ Hkp)).
  rewrite cmp_truthy; [|done|by apply Hks; left|done].
  rewrite bool_decide_eq_true_2; [|by apply Hno; left]. cbn [negb].
  rewrite (IH (λ e He, Hks e (list_elem_of_further _ _ _ He)) _ (e_a z)); [|by intros e He; apply Hno; right|done|lia|done].
  rewrite fmap_cons last_cons. by destruct (last (e_a <$> zs)).
Qed.

(** Unlinking and releasing the entry [e]. *)
Lemma delete_at_run s h t l1 xs e ys l2 n k1 b k2 f :
  let cs := l1 ++ (xs ++ e :: ys) :: l2 in
  rep s h t cs n → bucket_of s t cs l1 (xs ++ e :: ys) l2 k1 b k2 →
  wp (delete_at h (Z.of_nat (length l1)) f (default 0 (last (e_a <$> xs))) (e_a e))
    (λ _ s', rep s' h (dec_entries t) (l1 ++ (xs ++ ys) :: l2) (S n) ∧ hkeys s' = hkeys s ∧
       hlog s' = hlog s ++ [if truthy f then HE_call f (e_d e) else HE_free (e_d e)]) s.
Proof.
  intros cs Hr Hbo. pose proof (rp_ents _ _ _ _ _ Hr) as Hd. rewrite bucket_perm in Hd.
  apply distinct_cons in Hd as (Hna&_&_&Hd). pose proof (rp_pool _ _ _ _ _ Hr) as Hpl.
  rewrite (blocks_of_perm _ _ (bucket_perm _ _ _ _ _)) blocks_of_cons in Hpl.
  destruct (bucket_path _ _ _ _ _ _ _ _ _ _ _ Hr Hbo) as (_&_&Hnd&_).
  pose proof Hbo as [_ Hlen Harr _ Hp _]. pose proof Hp as Hp'.
  apply path_app in Hp' as (x&Hx&->&He0&Hkp&nx&Hbe&Hys).
  rewrite /delete_at /wp (bind_run _ _ _ _ _ (bkt_ld_run _ _ _ Hbe)).
  rewrite (bind_run _ _ _ _ _ (tab_ld_run _ _ _ (rp_tab _ _ _ _ _ Hr))). cbn [bkt_next bkt_data].
  assert (Hcs' : concat (l1 ++ (xs ++ ys) :: l2) = concat l1 ++ (xs ++ ys) ++ concat l2) by by rewrite concat_app.
  assert (Hunlink : ∃ s1 b', (if truthy (default 0 (last (e_a <$> xs)))
      then bkt_mod (set_next nx) (default 0 (last (e_a <$> xs)))
      else barr_set (bucket_array t) (Z.of_nat (length l1)) nx) s = Some (tt, s1) ∧
    tabs s1 = tabs s ∧ hkeys s1 = hkeys s ∧ hpool s1 = hpool s ∧ hlog s1 = hlog s ∧
    barrs s1 !! bucket_array t = Some (k1 ++ b' :: k2) ∧
    path (bkts s1) (hkeys s1) b' (xs ++ ys) 0 ∧
    ∀ e', e' ∈ concat l1 ++ concat l2 → bkts s1 !! e_a e' = bkts s !! e_a e').
  { destruct xs as [|p xs _] using rev_ind.
    - eexists _, nx. cbn [last fmap list_fmap default truthy negb Z.eqb]. rewrite -Hlen.
      split; [by apply (barr_set_run _ _ _ _ _ Harr); rewrite length_app /=; lia|].
      rewrite list_insert_middle. cbn in Hx. subst b. split_and!; try done. apply lookup_insert_eq.
    - pose proof Hx as Hx'. apply path_app in Hx' as (y&_&->&Hp0&_&nx'&Hbp&->).
      rewrite fmap_app last_snoc. cbn [default]. rewrite (proj2 (truthy_true _) Hp0).
      eexists _, b. split; [exact (bkt_mod_run _ _ _ (set_next nx) Hbp)|]. split_and!; try done.
      + rewrite fmap_app in Hnd. apply NoDup_app in Hnd as (Hnd1&Hnd2&_).
        rewrite fmap_app in Hnd1. apply NoDup_app in Hnd1 as (_&Hnd1&_).
        apply path_app. exists nx. split.
        * eapply path_redirect; [exact Hx|]. intros Hin. apply (Hnd1 _ Hin). left.
        * eapply path_frame; [exact Hys| |done]. intros e' He'. cbn. rewrite lookup_insert_ne //.
          intros Heq. apply (Hnd2 (e_a p)).
          -- rewrite fmap_app. apply elem_of_app. right. left.
          -- right. rewrite Heq. by apply list_elem_of_fmap_2.
      + intros e' He'. cbn. rewrite lookup_insert_ne //. intros Heq.
        clear -Hd Heq He'. revert Hd. rewrite -app_assoc /=.
        rewrite bucket_perm distinct_cons. intros (Hd&_). apply Hd. rewrite Heq.
        apply list_elem_of_fmap_2. rewrite concat_app. cbn. set_solver. }
  destruct Hunlink as (s1&b'&Hrun1&Ht1&Hk1&Hpl1&Hlog1&Ha1&Hp1&Hfr1).
  rewrite (bind_run _ _ _ _ _ Hrun1).
  rewrite (bind_run _ _ _ _ _ (tab_mod_run s1 h t _ ltac:(by rewrite Ht1 (rp_tab _ _ _ _ _ Hr)))).
  set (s2 := set_tabs _ s1).
  set (ev := if truthy f then _ else _). set (s3 := set_hlog (hlog s2 ++ [ev]) s2).
  rewrite (bind_run (release_data f (e_d e)) _ s2 tt s3 eq_refl). apply wp_bind. apply wp_zoom.
  assert (Hpl3 : bp_pool (hpool s3) (hmem_pool_id t) ({[e_a e]} ∪ blocks_of (concat (l1 ++ (xs ++ ys) :: l2))) n).
  { change (hpool s3) with (hpool s1). by rewrite Hpl1. }
  eapply wp_mono; [by apply (bp_free_ok _ _ _ _ (e_a e) Hpl3), elem_of_union_l, elem_of_singleton|].
  intros r pl (->&Hpl'). apply wp_ret. split_and!; [|done|by cbn; rewrite Hlog1].
  eapply (rep_change s h t l1 (xs ++ e :: ys) l2 n k1 b k2 _ _ _ b' (S n) Hr Hbo).
  - apply lookup_insert_eq.
  - done.
  - done.
  - intros e' He'. cbn. by rewrite Hfr1 // Hk1.
  - done.
  - intros e' He'. eapply (rp_hash _ _ _ _ _ Hr); [by apply list_lookup_middle|].
    apply elem_of_app in He' as [?|?]; apply elem_of_app; [by left|right; by right].
  - done.
  - cbn. replace (blocks_of (concat (l1 ++ (xs ++ ys) :: l2)))
      with (({[e_a e]} ∪ blocks_of (concat (l1 ++ (xs ++ ys) :: l2))) ∖ {[e_a e]}); [done|].
    assert (e_a e ∉ blocks_of (concat (l1 ++ (xs ++ ys) :: l2))) by by rewrite elem_of_list_to_set.
    set_solver.
Qed.

Lemma delete_run s h t cs n k f :
  rep s h t cs n → key_ok t k →
  wp (hash_delete_entry k h f) (λ r s',
    (r = -1 ∧ s' = s ∧ ∀ e, e ∈ concat cs → e_k e ≠ k) ∨
    (r = 0 ∧ ∃ e cs', rep s' h (dec_entries t) cs' (S n) ∧ e_k e = k ∧ concat cs ≡ₚ e :: concat cs' ∧
       hkeys s' = hkeys s ∧
       hlog s' = hlog s ++ [if truthy f then HE_call f (e_d e) else HE_free (e_d e)])) s.
Proof.
  intros Hr Hk. destruct (rep_bucket _ _ _ _ _ _ Hr Hk) as (l1&es&l2&k1&b&k2&Hi&Hb).
  destruct (bucket_path _ _ _ _ _ _ _ _ _ _ _ Hr Hb) as (Hks&Hsz&_&Hin).
  pose proof Hb as [-> Hlen Harr _ Hp _]. pose proof Hk as [Hkl Hkb].
  rewrite /hash_delete_entry (proj2 (truthy_true h) (rp_null _ _ _ _ _ Hr)). cbn [negb].
  rewrite /wp (bind_run _ _ _ _ _ (tab_ld_run _ _ _ (rp_tab _ _ _ _ _ Hr))).
  rewrite (proj2 (Z.ltb_ge _ _)); [|lia]. rewrite Hi -Hlen.
  rewrite (bind_run _ _ _ _ _ (barr_get_run _ _ _ (length k1) b Harr ltac:(by apply list_lookup_middle))).
  rewrite (bind_run (gets _) _ s _ s eq_refl) Hlen.
  destruct (list_find (λ e, e_k e = k) es) as [[j e]|] eqn:Hf.
  - apply list_find_Some in Hf as (Hj&Hek&Hbefore). pose proof (take_drop_middle _ _ _ Hj) as Hes.
    assert (Hpre : ∀ z, z ∈ take j es → e_k z ≠ k).
    { intros z (i&Hz)%list_elem_of_lookup. apply lookup_take_Some in Hz as [Hz Hlt]. by eapply Hbefore. }
    set (xs := take j es) in *. set (ys := drop (S j) es) in *. rewrite -Hes in Hr Hb Hp Hks Hsz |- *.
    clearbody xs ys. clear Hj. pose proof Hp as Hp'. apply path_app in Hp' as (x&Hx&->&He0&Hkp&nx&Hbe&_).
    rewrite length_app /= in Hsz.
    rewrite (delete_loop_run s t h _ f k b xs (e :: ys) (e_a e)); [|apply Hr|..]; try done; try lia.
    2: { intros z Hz. apply Hks. apply elem_of_app. by left. }
    destruct (size (bkts s) - length xs)%nat as [|fuel] eqn:Hfu; [lia|]. cbn [delete_loop].
    rewrite (proj2 (truthy_true _) He0). cbn [negb].
    rewrite (bind_run _ _ _ _ _ (bkt_ld_run _ _ _ Hbe)). cbn [bkt_key bkt_next].
    rewrite (bind_run _ _ _ _ _ (key_ld_run _ _ _ Hkp)).
    rewrite cmp_truthy; [|apply Hr|by apply Hks, elem_of_app; right; left|done].
    rewrite bool_decide_eq_false_2; [|by intros []]. cbn [negb]. apply wp_bind.
    eapply wp_mono; [by eapply (delete_at_run s h t l1 xs e ys l2)|]. intros _ s' (Hr'&Hk'&Hl'). apply wp_ret.
    right. split; [done|]. exists e, (l1 ++ (xs ++ ys) :: l2). split_and!; try done. apply bucket_perm.
  - assert (Hno : ∀ e, e ∈ es → e_k e ≠ k).
    { apply list_find_None in Hf. rewrite Forall_forall in Hf. done. }
    rewrite (delete_loop_run s t h _ f k b es [] 0); [|apply Hr|done|done|done|by rewrite app_nil_r|done|done].
    destruct (size (bkts s) - length es)%nat; cbn; left; (split_and!; [done|done|]); intros e He Hek;
      by apply (Hno e); [apply Hin; [by rewrite Hek|]|].
Qed.
End deletion.

Section traversal.
Context {P : Type} `{BP : BlockPool P} `{HE : HashEnv}.
Implicit Types (s : hst P) (t : hash_table).

Definition log_calls (f : Z) es s : hst P := set_hlog (hlog s ++ ((λ e, HE_call f (e_d e)) <$> es)) s.

Lemma walk_chain_run s f b es c fuel :
  path (bkts s) (hkeys s) b es 0 → (length es ≤ fuel)%nat → 0 ≤ c → c + Z.of_nat (length es) < 2 ^ 31 →
  walk_chain fuel f b c s = Some (c + Z.of_nat (length es), log_calls f es s).
Proof.
  revert s b c fuel. induction es as [|e es IH]; intros s b c fuel Hp Hf H0 Hc.
  { cbn in Hp. subst b. rewrite /log_calls Z.add_0_r app_nil_r. destruct fuel; by destruct s. }
  destruct Hp as (->&He0&_&nx&Hb&Hp). destruct fuel as [|fuel]; cbn [length] in Hf, Hc; [lia|].
  cbn [walk_chain]. rewrite (proj2 (truthy_true _) He0). cbn [negb].
  rewrite (bind_run _ _ _ _ _ (bkt_ld_run _ _ _ Hb)). cbn [bkt_data bkt_next].
  set (s1 := log_calls f [e] s). rewrite (bind_run (hemit _) _ s tt s1 eq_refl).
  rewrite s32_small; [|lia]. rewrite (IH s1); [|done|lia..]. rewrite /log_calls /s1. cbn.
  rewrite -app_assoc. do 2 f_equal. lia.
Qed.
Lemma walk_slots_run s h t l1 l2 n f c :
  rep s h t (l1 ++ l2) n → 0 ≤ c → c + Z.of_nat (length (concat l2)) < 2 ^ 31 →
  walk_slots (length l2) h f (Z.of_nat (length l1)) c s =
    Some (c + Z.of_nat (length (concat l2)), log_calls f (concat l2) s).
Proof.
  revert s l1 c. induction l2 as [|es l2 IH]; intros s l1 c Hr H0 Hc.
  { cbn. rewrite /log_calls Z.add_0_r app_nil_r. by destruct s. }
  destruct (rep_at _ _ _ _ _ _ _ Hr) as (k1&b&k2&Hb).
  destruct (bucket_path _ _ _ _ _ _ _ _ _ _ _ Hr Hb) as (_&Hsz&_&_). destruct Hb as [_ Hlen Harr _ Hp _].
  cbn [concat] in Hc |- *. rewrite length_app in Hc |- *. cbn [length walk_slots].
  rewrite (bind_run _ _ s b s).
  2: { rewrite /get_hash_bucket (proj2 (truthy_true h) (rp_null _ _ _ _ _ Hr)). cbn [negb].
    rewrite (bind_run _ _ _ _ _ (tab_ld_run _ _ _ (rp_tab _ _ _ _ _ Hr))).
    rewrite (proj2 (Z.ltb_lt _ _)); [|rewrite -(rp_len _ _ _ _ _ Hr) length_app /=; lia].
    rewrite -Hlen. apply (barr_get_run _ _ _ _ _ Harr). by apply list_lookup_middle. }
  rewrite (bind_run (gets _) _ s _ s eq_refl).
  rewrite (bind_run _ _ _ _ _ (walk_chain_run s f b es c _ Hp Hsz H0 ltac:(lia))).
  replace (Z.of_nat (length l1) + 1) with (Z.of_nat (length (l1 ++ [es]))) by (rewrite length_app /=; lia).
  rewrite IH; [| |lia|lia].
  - rewrite /log_calls /= fmap_app -app_assoc. do 2 f_equal. lia.
  - rewrite -app_assoc /=. destruct Hr. by split.
Qed.

(** The events of releasing the data of the entries. *)
Definition released (f : Z) es : list hevent :=
  (λ e, if truthy f then HE_call f (e_d e) else HE_free (e_d e)) <$> es.

Lemma flush_chain_run s id f b es zs n fuel :
  path (bkts s) (hkeys s) b es 0 → (length es ≤ fuel)%nat → distinct (es ++ zs) →
  bp_pool (hpool s) id (blocks_of (es ++ zs)) n →
  wp (flush_chain fuel id f b) (λ _ s', bkts s' = bkts s ∧ barrs s' = barrs s ∧ tabs s' = tabs s ∧
    hlog s' = hlog s ++ released f es ∧ bp_pool (hpool s') id (blocks_of zs) (n + length es) ∧
    ∀ p, p ∉ (e_kp <$> es) → hkeys s' !! p = hkeys s !! p) s.
Proof.
  revert s b n fuel. induction es as [|e es IH]; intros s b n fuel Hp Hf Hd Hpl.
  { cbn in Hp. subst b. rewrite /released /= app_nil_r Nat.add_0_r. by destruct fuel; apply wp_ret. }
  destruct Hp as (->&He0&Hkp&nx&Hb&Hp). destruct fuel as [|fuel]; cbn [length] in Hf; [lia|].
  cbn [flush_chain]. rewrite (proj2 (truthy_true _) He0). cbn [negb].
  rewrite /wp (bind_run _ _ _ _ _ (bkt_ld_run _ _ _ Hb)). cbn [bkt_data bkt_next bkt_key].
  set (s1 := set_hlog (hlog s ++ released f [e]) s).
  rewrite (bind_run (release_data f (e_d e)) _ s tt s1 eq_refl).
  cbn [app] in Hd, Hpl. apply distinct_cons in Hd as (Hna&Hnk&_&Hd). rewrite blocks_of_cons in Hpl.
  assert (Hkey : ∃ ks, free_key (e_kp e) s1 = Some (tt, set_hkeys ks s1) ∧
    ∀ p, p ≠ e_kp e → ks !! p = hkeys s !! p).
  { rewrite /free_key. destruct (truthy (e_kp e)); cbn [when].
    - exists (delete (e_kp e) (hkeys s)). split; [by rewrite (bind_run _ _ _ _ _ (key_ld_run s1 _ _ Hkp))|].
      intros p Hne. by rewrite lookup_delete_ne.
    - exists (hkeys s). split; [by destruct s|done]. }
  destruct Hkey as (ks&Hrun&Hks). rewrite (bind_run _ _ _ _ _ Hrun). set (s2 := set_hkeys ks s1).
  apply wp_bind. apply wp_zoom.
  eapply wp_mono; [by apply (bp_free_ok _ _ _ _ (e_a e) (Hpl : bp_pool (hpool s2) _ _ _)), elem_of_union_l, elem_of_singleton|].
  intros r pl (_&Hpl'). set (s3 := set_hpool pl s2).
  assert (HU : ({[e_a e]} ∪ blocks_of (es ++ zs)) ∖ {[e_a e]} = blocks_of (es ++ zs)).
  { assert (e_a e ∉ blocks_of (es ++ zs)) by by rewrite elem_of_list_to_set. set_solver. }
  rewrite HU in Hpl'.
  eapply wp_mono; [apply (IH s3 nx (S n)); [|lia|done|done]|].
  - eapply path_frame; [exact Hp|done|]. intros e' He'. apply Hks. intros Heq. apply Hnk. rewrite -Heq.
    apply list_elem_of_fmap_2, elem_of_app. by left.
  - intros [] s' (H1&H2&H3&H4&H5&H6). split_and!; [done|done|done| | |].
    + rewrite H4 /=. by rewrite -app_assoc.
    + cbn [length]. by rewrite Nat.add_succ_r.
    + intros p Hp'. rewrite fmap_cons not_elem_of_cons in Hp'. destruct Hp' as [Hp1 Hp2].
      rewrite H6 //. by apply Hks.
Qed.
Lemma flush_loop_run s h t l1 l2 n f :
  rep s h t (l1 ++ l2) n →
  wp (flush_loop (length l2) t f (Z.of_nat (length l1)))
    (λ _ s', rep s' h t (l1 ++ replicate (length l2) []) (n + length (concat l2)) ∧
       hlog s' = hlog s ++ released f (concat l2)) s.
Proof.
  revert s l1 n. induction l2 as [|es l2 IH]; intros s l1 n Hr.
  { cbn. apply wp_ret. by rewrite /released /= Nat.add_0_r (app_nil_r (hlog s)). }
  destruct (rep_at _ _ _ _ _ _ _ Hr) as (k1&b&k2&Hb).
  destruct (bucket_path _ _ _ _ _ _ _ _ _ _ _ Hr Hb) as (_&Hsz&_&_). pose proof Hb as [_ Hlen Harr _ Hp _].
  assert (Hperm : concat (l1 ++ es :: l2) ≡ₚ es ++ concat (l1 ++ [] :: l2)).
  { rewrite !concat_app /=. rewrite !app_assoc. by rewrite (Permutation_app_comm es). }
  pose proof (rp_ents _ _ _ _ _ Hr) as Hd. rewrite Hperm in Hd.
  pose proof (rp_pool _ _ _ _ _ Hr) as Hpl. rewrite (blocks_of_perm _ _ Hperm) in Hpl.
  cbn [length flush_loop]. rewrite /wp -Hlen.
  rewrite (bind_run _ _ _ _ _ (barr_get_run _ _ _ (length k1) b Harr ltac:(by apply list_lookup_middle))).
  rewrite (bind_run (gets _) _ s _ s eq_refl). apply wp_bind.
  eapply wp_mono; [by apply (flush_chain_run s _ f b es (concat (l1 ++ [] :: l2)) n)|].
  intros [] s1 (Hb1&Ha1&Ht1&Hl1&Hp1&Hk1).
  rewrite /wp (bind_run _ _ s1 tt (set_barrs (<[bucket_array t := k1 ++ 0 :: k2]> (barrs s1)) s1)).
  2: { rewrite (barr_set_run s1 _ (k1 ++ b :: k2)) ?Ha1 //; [|rewrite length_app /=; lia].
    by rewrite list_insert_middle. }
  set (s2 := set_barrs _ s1). rewrite Hlen.
  replace (Z.of_nat (length l1) + 1) with (Z.of_nat (length (l1 ++ [[]]))) by (rewrite length_app /=; lia).
  assert (Hr2 : rep s2 h t ((l1 ++ [[]]) ++ l2) (n + length es)).
  { rewrite -app_assoc /=. eapply (rep_change s h t l1 es l2 n k1 b k2 s2 t [] 0 _ Hr Hb); try done.
    - cbn. by rewrite Ht1 (rp_tab _ _ _ _ _ Hr).
    - apply lookup_insert_eq.
    - intros e He. cbn. rewrite Hb1. split; [done|]. apply Hk1. intros (e'&Heq&He')%list_elem_of_fmap.
      destruct Hd as (_&Hnd&_). rewrite fmap_app in Hnd. apply NoDup_app in Hnd as (_&Hnd&_).
      apply (Hnd (e_kp e)); rewrite ?Heq; [by apply list_elem_of_fmap_2|]. rewrite -Heq.
      apply list_elem_of_fmap_2. rewrite concat_app. cbn. done.
    - intros e He. by apply elem_of_nil in He.
    - by apply distinct_app_r in Hd. }
  eapply (wp_mono _ _ _ s2); [by apply IH|]. intros [] s3 (Hr3&Hl3). split.
  - rewrite -app_assoc /= in Hr3. cbn [replicate concat]. rewrite length_app Nat.add_assoc. done.
  - rewrite Hl3 /=. rewrite /released fmap_app in Hl1 |- *. rewrite app_assoc -Hl1. done.
Qed.
End traversal.
