(* ===== verification/HashSpec.v ===== *)
(** * Hash tables: what they promise

    The operations of hashlib.c on the map that a table represents ([table] of
    HashRep.v), the creation of a table, and two defects of the code.  The theorems
    hold for any pool of blocks ([BlockPool]); the witnesses run on the memory
    pools. *)

From S2P Require Import Prelude ListHead MemPool BlockPool HashTable HashRep.
#[local] Open Scope Z_scope.
Implicit Types (e : ent) (es : list ent) (cs : list (list ent)).

(** ** The map of a table *)
Lemma concat_keys cs m :
  distinct (concat cs) → maps cs m → map_to_list m ≡ₚ ((λ e, (e_k e, e_d e)) <$> concat cs).
Proof.
  intros (_&_&Hnd) Hm. apply NoDup_Permutation.
  - apply NoDup_map_to_list.
  - apply (NoDup_fmap_1 fst). rewrite -list_fmap_compose. done.
  - intros [k d]. rewrite elem_of_map_to_list Hm list_elem_of_fmap. naive_solver.
Qed.
Lemma concat_bindings cs : concat (bindings cs) = binding <$> concat cs.
Proof. induction cs as [|es cs IH]; cbn; [done|]. by rewrite fmap_app -IH. Qed.
Lemma maps_size cs m : distinct (concat cs) → maps cs m → length (concat cs) = size m.
Proof.
  intros Hd Hm. rewrite -length_map_to_list (concat_keys cs m Hd Hm). by rewrite length_fmap.
Qed.
Lemma maps_none cs m k : maps cs m → m !! k = None ↔ ∀ e, e ∈ concat cs → e_k e ≠ k.
Proof.
  intros Hm. rewrite eq_None_not_Some. split.
  - intros Hn e He Hk. apply Hn. exists (e_d e). apply Hm. eauto.
  - intros Hno [d Hd]. apply Hm in Hd as (e&He&Hk&_). by apply (Hno e).
Qed.
Lemma maps_insert cs cs' m e :
  maps cs m → m !! e_k e = None → concat cs' ≡ₚ e :: concat cs → maps cs' (<[e_k e := e_d e]> m).
Proof.
  intros Hm Hn Hp k d. setoid_rewrite Hp. rewrite lookup_insert_Some Hm. setoid_rewrite elem_of_cons. split.
  - naive_solver.
  - intros (e'&[->|He]&<-&<-); [by left|]. right. split; [|by exists e'].
    intros Heq. by apply (proj1 (maps_none _ _ _ Hm) Hn e').
Qed.
Lemma maps_delete cs cs' m e :
  maps cs m → distinct (concat cs) → concat cs ≡ₚ e :: concat cs' →
  m !! e_k e = Some (e_d e) ∧ maps cs' (delete (e_k e) m).
Proof.
  intros Hm Hd Hp. rewrite Hp in Hd. apply distinct_cons in Hd as (_&_&Hk&_). split.
  - apply Hm. exists e. rewrite Hp. split; [left|done].
  - intros k d. rewrite lookup_delete_Some Hm. setoid_rewrite Hp. setoid_rewrite elem_of_cons. split.
    + naive_solver.
    + intros (e'&He&<-&<-). split; [|by exists e'; auto]. intros Heq. apply Hk. rewrite Heq.
      by apply list_elem_of_fmap_2.
Qed.

Section Promises.
Context {P : Type} `{BP : BlockPool P} `{HE : HashEnv}.
Implicit Types (s : hst P) (t : hash_table) (m : gmap (list Z) Z).

(** The memory for the next key is new. *)
Definition new_key s : Prop := env_malloc (h_alloc s) ≠ 0 ∧ hkeys s !! env_malloc (h_alloc s) = None.
Lemma rep_keys s h t cs n e : rep s h t cs n → e ∈ concat cs → is_Some (hkeys s !! e_kp e).
Proof.
  intros Hr He. apply list_elem_of_In, in_concat in He as (es&Hes&He). apply list_elem_of_In in Hes, He.
  apply list_elem_of_split in Hes as (l1&l2&->). destruct (rep_at _ _ _ _ _ _ _ Hr) as (k1&b&k2&[_ _ _ _ Hp _]).
  apply list_elem_of_split in He as (x1&x2&->). apply path_app in Hp as (x&_&_&_&Hk&_). by eexists.
Qed.
Lemma new_key_fresh s h t cs n : rep s h t cs n → new_key s → fresh_key s cs.
Proof.
  intros Hr [H0 Hk]. split; [done|]. intros e He Heq.
  destruct (rep_keys _ _ _ _ _ _ Hr He). congruence.
Qed.

(** C22: a lookup returns the data that is stored under the key, null if there is none,
    and changes nothing. *)
Theorem hash_tbl_lookup_correct s h t m n k :
  table s h t m n → key_ok t k → hash_tbl_lookup k h s = Some (default 0 (m !! k), s).
Proof.
  intros (cs&Hr&Hm) Hk. destruct (find_run _ _ _ _ _ _ Hr Hk) as (v&Hf&Hc).
  rewrite /hash_tbl_lookup (bind_run _ _ _ _ _ Hf).
  destruct Hc as [[-> Hno]|(e&He&Hek&_&Hv&nx&Hb)].
  - by rewrite (proj2 (maps_none _ _ _ Hm) Hno).
  - rewrite (proj2 (truthy_true v) Hv). cbn [negb]. rewrite (bind_run _ _ _ _ _ (bkt_ld_run _ _ _ Hb)).
    by rewrite (proj2 (Hm k (e_d e))); [|by exists e].
Qed.

(** C13: adding a key that is not there stores it at the end of the chain of its bucket, as long as the pool has a
    block, and leaves the other chains as they are; a key that is there keeps its data, with a result of success; on
    failure nothing has changed. *)
Theorem hash_tbl_add_correct s h t B m n k d :
  chained s h t B m n → key_ok t k → new_key s →
  wp (hash_tbl_add k h d) (λ r s',
    match m !! k, n with
    | Some _, _ => r = 0 ∧ s' = s
    | None, 0%nat => r = -1 ∧ s' = s
    | None, S n' => r = 0 ∧
        chained s' h (inc_entries t) (alter (λ c, c ++ [(k, d)]) (Z.to_nat (hash_index_gen t k)) B) (<[k := d]> m) n'
    end) s.
Proof.
  intros (cs&Hr&Hm&->) Hk Hnew. apply wp_bind. destruct (m !! k) as [d0|] eqn:Hmk.
  - destruct (find_run _ _ _ _ _ _ Hr Hk) as (v&Hf&[[_ Hno]|(e&_&_&_&Hv&_)]).
    + apply (maps_none _ _ _ Hm) in Hno. congruence.
    + rewrite /wp /hash_add_entry (proj2 (truthy_true h) (rp_null _ _ _ _ _ Hr)). cbn [negb].
      by rewrite (bind_run _ _ _ _ _ Hf) (proj2 (truthy_true v) Hv).
  - eapply wp_mono; [apply (add_run s h t cs n k d Hr Hk); [by apply (maps_none _ _ _ Hm)|by eapply new_key_fresh]|].
    intros r s'. destruct n as [|n]; [intros [-> ->]; done|]. intros (->&cs'&e&Hr'&<-&<-&Hp&Hcs&_). apply wp_ret.
    split; [done|]. exists cs'. split; [done|]. split; [by eapply maps_insert|]. rewrite Hcs /bindings.
    symmetry. apply list_fmap_alter, Forall_forall. intros es _. by rewrite fmap_app.
Qed.

(** C23: deleting a key removes it, releases its data once and gives its block back; a
    key that is not there is reported.  The memory of the stored key is not
    released. *)
Theorem hash_tbl_delete_correct s h t m n k f :
  table s h t m n → key_ok t k →
  wp (hash_tbl_delete k h f) (λ r s',
    match m !! k with
    | None => r = -1 ∧ s' = s
    | Some d => r = 0 ∧ table s' h (dec_entries t) (delete k m) (S n) ∧
        hlog s' = hlog s ++ [if truthy f then HE_call f d else HE_free d] ∧ hkeys s' = hkeys s
    end) s.
Proof.
  intros (cs&Hr&Hm) Hk. apply wp_bind. eapply wp_mono; [by apply (delete_run s h t cs n k f)|].
  intros r s' [(->&->&Hno)|(->&e&cs'&Hr'&<-&Hp&Hks&Hl)]; apply wp_ret.
  - by rewrite (proj2 (maps_none _ _ _ Hm) Hno).
  - destruct (maps_delete cs cs' m e Hm (rp_ents _ _ _ _ _ Hr) Hp) as [Hmk Hm']. rewrite Hmk.
    split_and!; [done|by exists cs'|done|done].
Qed.

(** C24: a walk calls the callback on the data of every entry once, bucket by bucket and each chain from its first entry
    on, and returns their number. *)
Theorem hash_walk_correct s h t B m n f :
  chained s h t B m n → Z.of_nat (size m) < 2 ^ 31 →
  concat B ≡ₚ map_to_list m ∧
  hash_walk h f s = Some (Z.of_nat (size m), set_hlog (hlog s ++ (HE_call f <$> (concat B).*2)) s).
Proof.
  intros (cs&Hr&Hm&->) Hsz. pose proof (rp_ents _ _ _ _ _ Hr) as Hd. pose proof (maps_size _ _ Hd Hm) as Hl.
  rewrite concat_bindings. split.
  - by rewrite (concat_keys _ _ Hd Hm).
  - rewrite /hash_walk (bind_run _ _ _ _ _ (tab_ld_run _ _ _ (rp_tab _ _ _ _ _ Hr))).
    rewrite -(rp_len _ _ _ _ _ Hr) Nat2Z.id. rewrite (walk_slots_run s h t [] cs n f 0 Hr); [|lia|lia].
    rewrite Hl /log_calls -!list_fmap_compose. done.
Qed.

(** a flush empties the table, releases the data of every entry once and gives all
    blocks back; the table itself, with its count of entries, is not changed. *)
Theorem flush_hash_table_correct s h t m n f :
  table s h t m n →
  wp (flush_hash_table h f) (λ _ s', table s' h t ∅ (n + size m) ∧
    ∃ ds, ds ≡ₚ (map_to_list m).*2 ∧
      hlog s' = hlog s ++ ((λ d, if truthy f then HE_call f d else HE_free d) <$> ds)) s.
Proof.
  intros (cs&Hr&Hm). pose proof (rp_ents _ _ _ _ _ Hr) as Hd. pose proof (maps_size _ _ Hd Hm) as Hl.
  rewrite /flush_hash_table (proj2 (truthy_true h) (rp_null _ _ _ _ _ Hr)). cbn [negb].
  rewrite /wp (bind_run _ _ _ _ _ (tab_ld_run _ _ _ (rp_tab _ _ _ _ _ Hr))).
  rewrite -(rp_len _ _ _ _ _ Hr) Nat2Z.id.
  eapply (wp_mono _ _ _ s); [apply (flush_loop_run s h t [] cs n f Hr)|]. intros [] s' (Hr'&Hlog).
  rewrite Hl in Hr'. split.
  - eexists. split; [exact Hr'|]. intros k d. rewrite lookup_empty. split; [done|]. cbn [app].
    intros (e&He&_). apply list_elem_of_In, in_concat in He as (es&Hes&He).
    apply list_elem_of_In in Hes. apply elem_of_replicate in Hes as [-> _]. done.
  - exists (e_d <$> concat cs). split; [by rewrite (concat_keys _ _ Hd Hm) -list_fmap_compose|].
    by rewrite Hlog /released -list_fmap_compose.
Qed.
End Promises.

Section Creation.
Context {P : Type} `{BP : BlockPool P} `{HE : HashEnv}.
Implicit Types (s : hst P) (t : hash_table).

Definition bucket_count (buckets : Z) : Z := if negb (truthy buckets) then DEFAULT_HASH_BUCKETS else buckets.
(** The memory for the table and its array is there, and the pool can be created. *)
Record can_create s (name : string) (B : Z) : Prop := {
  cc_name : (String.length name < MAX_NAME)%nat;
  cc_size : 3 ≤ B < 2 ^ 29;
  cc_tab : env_malloc (h_alloc s) ≠ 0;
  cc_arr : env_malloc (S (h_alloc s)) ≠ 0;
  cc_pool : wp (bp_create (sizeof_ptr * B) B) (λ id p, 0 ≤ id ∧ bp_pool p id ∅ (Z.to_nat B)) (hpool s)
}.
(** The state after a creation. *)
Lemma create_run s name buckets cmp gen klen :
  can_create s name (bucket_count buckets) →
  let B := bucket_count buckets in
  ∃ id p t h, t = MkHt (env_malloc (S (h_alloc s))) name id klen B 0 cmp gen ∧ h = env_malloc (h_alloc s) ∧
    bp_pool p id ∅ (Z.to_nat B) ∧
    create_hash_table name buckets cmp gen klen s = Some (h,
      MkHst P p (bkts s) (<[bucket_array t := env_garbage (S (h_alloc s)) <$> seq 0 (Z.to_nat B)]> (barrs s))
        (hkeys s) (<[h := t]> (tabs s)) (S (S (h_alloc s))) (hlog s)).
Proof.
  intros [Hn Hs Ht Ha Hp] B. apply wp_inv in Hp as (id&p&Hrun&Hid&Hpl). fold B in Hs, Hrun, Hpl.
  exists id, p. do 2 eexists. do 2 (split; [done|]). split; [done|].
  rewrite /create_hash_table /h_malloc. fold (bucket_count buckets). fold B.
  assert (Hsz : u32 (s32 (u32 (sizeof_ptr * B))) = sizeof_ptr * B).
  { rewrite /sizeof_ptr (u32_small (4 * B)); [|lia]. rewrite s32_small; [|lia]. rewrite u32_small; lia. }
  rewrite Hsz. set (s1 := set_h_alloc (S (h_alloc s)) s).
  rewrite (bind_run h_malloc _ s (env_malloc (h_alloc s), h_alloc s) s1 eq_refl).
  rewrite (proj2 (truthy_true _) Ht) decide_True //. cbn [negb].
  rewrite (bind_run (mret tt) _ s1 tt s1 eq_refl).
  set (t0 := MkHt _ name 0 klen B 0 cmp gen). set (h := env_malloc (h_alloc s)).
  set (s2 := set_tabs (<[h := t0]> (tabs s1)) s1). rewrite (bind_run (modify (λ s, set_tabs (<[h := t0]> (tabs s)) s)) _ s1 tt s2 eq_refl).
  set (s3 := set_hpool p s2). rewrite (bind_run (on_pool _) _ s2 id s3); [|by rewrite /on_pool /zoom Hrun].
  rewrite (bind_run _ _ _ _ _ (tab_mod_run s3 h t0 _ (lookup_insert_eq _ _ _))) (proj2 (Z.ltb_ge _ _) Hid).
  set (s4 := set_tabs _ s3). rewrite /malloc_buckets /h_malloc.
  rewrite (bind_run _ _ s4 (env_malloc (S (h_alloc s))) (set_barrs
    (<[env_malloc (S (h_alloc s)) := env_garbage (S (h_alloc s)) <$> seq 0 (Z.to_nat B)]> (barrs s))
    (set_h_alloc (S (S (h_alloc s))) s4))).
  2: { rewrite /mbind /M_bind /=. by rewrite (proj2 (truthy_true _) Ha). }
  set (s5 := set_barrs _ _).
  rewrite (bind_run _ _ _ _ _ (tab_mod_run s5 h _ _ (lookup_insert_eq _ _ _))).
  rewrite (proj2 (truthy_true _) Ha). cbn. by rewrite !insert_insert_eq.
Qed.

Lemma concat_replicate_nil {A} n : concat (replicate n []) = ([] : list A).
Proof. by induction n. Qed.

(** a new table is empty and has room for as many entries as it has buckets,
    provided that the memory [malloc] returns for its array happens to be zero. *)
Theorem create_hash_table_correct s name buckets cmp gen klen :
  can_create s name (bucket_count buckets) → (∀ i, env_garbage (S (h_alloc s)) i = 0) →
  (∀ a b, Z.of_nat (length a) = klen → Z.of_nat (length b) = klen → cmp a b = 0 ↔ a = b) →
  wp (create_hash_table name buckets cmp gen klen) (λ h s', ∃ t,
    table s' h t ∅ (Z.to_nat (bucket_count buckets)) ∧ nbuckets t = bucket_count buckets ∧
    key_len t = klen ∧ hash_index_gen t = gen ∧ nentries t = 0) s.
Proof.
  intros Hcc Hg Hcmp. destruct (create_run s name buckets cmp gen klen Hcc) as (id&p&t&h&Ht0&->&Hpl&Hrun).
  rewrite /wp Hrun. exists t. split; [|by rewrite Ht0]. subst t. set (B := bucket_count buckets) in *.
  exists (replicate (Z.to_nat B) []). destruct Hcc as [_ Hs Ht _ _]. fold B in Hs. split; [split|].
  - done.
  - apply lookup_insert_eq.
  - done.
  - cbn. rewrite length_replicate. lia.
  - rewrite /sizeof_ptr /sizeof_hash_bucket. cbn. lia.
  - eexists. split; [apply lookup_insert_eq|]. cbn.
    assert (Hz : env_garbage (S (h_alloc s)) <$> seq 0 (Z.to_nat B) = replicate (Z.to_nat B) 0).
    { rewrite (const_fmap _ _ 0); [by rewrite length_seq|]. intros i x _. by apply Hg. }
    rewrite Hz. by apply Forall2_replicate.
  - intros i es e Hi He. apply lookup_replicate in Hi as [-> _]. by apply elem_of_nil in He.
  - rewrite concat_replicate_nil. by split_and!; apply NoDup_nil.
  - by rewrite concat_replicate_nil.
  - intros k d. rewrite lookup_empty concat_replicate_nil. split; [done|]. by intros (e&He%elem_of_nil&_).
Qed.

(** the array of a new table is not cleared: a lookup whose bucket holds something
    else follows it as a pointer. *)
Theorem new_table_not_cleared s name buckets cmp gen klen k (i : nat) :
  can_create s name (bucket_count buckets) → gen k = Z.of_nat i → Z.of_nat i < bucket_count buckets →
  env_garbage (S (h_alloc s)) i ≠ 0 → bkts s !! env_garbage (S (h_alloc s)) i = None →
  (h ← create_hash_table name buckets cmp gen klen; hash_tbl_lookup k h) s = None.
Proof.
  intros Hcc Hk Hi Hg Hb. destruct (create_run s name buckets cmp gen klen Hcc) as (id&p&t&h&Ht&Hh&_&Hrun).
  rewrite (bind_run _ _ _ _ _ Hrun). set (B := bucket_count buckets) in *. set (s1 := MkHst _ _ _ _ _ _ _ _).
  assert (Hidx : hash_index_gen t k = Z.of_nat i) by by rewrite Ht.
  assert (Hnb : nbuckets t = B) by by rewrite Ht.
  assert (Hv : (env_garbage (S (h_alloc s)) <$> seq 0 (Z.to_nat B)) !! i = Some (env_garbage (S (h_alloc s)) i)).
  { rewrite list_lookup_fmap lookup_seq_lt //. lia. }
  assert (Hf : find_hash_entry k h s1 = None); [|by rewrite /hash_tbl_lookup /mbind /M_bind Hf].
  rewrite /find_hash_entry (proj2 (truthy_true h)); [|rewrite Hh; apply Hcc]. cbn [negb].
  rewrite (bind_run _ _ _ _ _ (tab_ld_run s1 h t (lookup_insert_eq _ _ _))) Hidx Hnb.
  rewrite (proj2 (Z.ltb_ge _ _)); [|lia].
  rewrite (bind_run _ _ _ _ _ (barr_get_run s1 (bucket_array t) _ i _ (lookup_insert_eq _ _ _) Hv)).
  rewrite (bind_run (gets _) _ s1 _ s1 eq_refl). change (bkts s1) with (bkts s).
  destruct (size (bkts s)) as [|fuel]; cbn [find_loop]; rewrite (proj2 (truthy_true _) Hg); cbn [negb]; [done|].
  rewrite /bkt_ld /mbind /M_bind /gets /liftO. change (bkts s1) with (bkts s). by rewrite Hb.
Qed.

(** the test of the bucket index lets [nbuckets] pass: such a key is looked up
    outside of the array. *)
Theorem hash_index_off_by_one s h t l k :
  h ≠ 0 → tabs s !! h = Some t → barrs s !! bucket_array t = Some l → Z.of_nat (length l) = nbuckets t →
  hash_index_gen t k = nbuckets t → hash_tbl_lookup k h s = None.
Proof.
  intros Hh Ht Hl Hlen Hk.
  assert (Hf : find_hash_entry k h s = None); [|by rewrite /hash_tbl_lookup /mbind /M_bind Hf].
  rewrite /find_hash_entry (proj2 (truthy_true _) Hh). cbn [negb].
  rewrite (bind_run _ _ _ _ _ (tab_ld_run _ _ _ Ht)) Hk Z.ltb_irrefl -Hlen.
  rewrite /barr_get /barr_ld /mbind /M_bind /gets /liftO Hl decide_True; [|lia].
  by rewrite Nat2Z.id lookup_ge_None_2.
Qed.
End Creation.

(** ** A table on the memory pools *)
Module HashWitness.
Import MemPool.PoolWitness.
#[local] Existing Instance demo_mem.

(** An allocator that returns 8, 16, ...; [g] is what its memory contains. *)
Definition henv (g : Z) : HashEnv := {| env_malloc k := 8 * (Z.of_nat k + 1); env_garbage _ _ := g |}.
#[local] Instance zeros : HashEnv := henv 0.
Definition cmp (a b : list Z) : Z := if decide (a = b) then 0 else 1.
Definition gen (k : list Z) : Z := (hd 0 k) `mod` 4.

(** An empty table of four buckets with the pool [two], and the table with one entry. *)
Definition t0 : hash_table := MkHt 500 "demo" 1 2 4 0 cmp gen.
Definition t1 : hash_table := inc_entries t0.
Definition s0 : hst mem_sys := MkHst _ two ∅ {[500 := [0; 0; 0; 0]]} ∅ {[400 := t0]} 0 [].
Definition s1 : hst mem_sys :=
  MkHst _ one {[2000 := MkBkt 0 8 77]} {[500 := [0; 2000; 0; 0]]} {[8 := [5; 6]]} {[400 := t1]} 1 [].
Definition e1 : ent := Ent 2000 8 [5; 6] 77.

Lemma cmp_spec klen a b : Z.of_nat (length a) = klen → Z.of_nat (length b) = klen → cmp a b = 0 ↔ a = b.
Proof. intros _ _. rewrite /cmp. by case_decide. Qed.
Lemma two_has : bp_pool two 1 ∅ 2.
Proof.
  exists [1000], 1000, (info two), [2000; 2016]. split; try by vm_compute.
  - exact two_pools.
  - left.
  - intros a. split; [set_solver|]. intros ([|[|i]]&Hi&_); [by vm_compute in Hi..|done].
Qed.
Lemma one_has : bp_pool one 1 {[2000]} 1.
Proof.
  exists [1000], 1000, (info one), [0; 2016]. split; try by vm_compute.
  - exact one_pools.
  - left.
  - intros a. rewrite elem_of_singleton. split; [intros ->; by exists 0%nat|].
    intros ([|[|i]]&Hi&->); [done|by vm_compute in Hi|done].
Qed.

Lemma s0_chained : chained s0 400 t0 [[]; []; []; []] ∅ 2.
Proof.
  exists [[]; []; []; []]. split; [split|split]; try done.
  - intros a b. apply cmp_spec.
  - exists [0; 0; 0; 0]. split; [done|]. by repeat constructor.
  - intros i es e Hi He. do 4 (destruct i as [|i]; [injection Hi as <-; by apply elem_of_nil in He|]). done.
  - by split_and!; apply NoDup_nil.
  - exact two_has.
  - intros k d. rewrite lookup_empty. split; [done|]. by intros (e&He%elem_of_nil&_).
Qed.
Lemma s1_chained : chained s1 400 t1 [[]; [([5; 6], 77)]; []; []] {[ [5; 6] := 77 ]} 1.
Proof.
  exists [[]; [e1]; []; []]. split; [split|split]; try done.
  - intros a b. apply cmp_spec.
  - exists [0; 2000; 0; 0]. split; [done|]. repeat constructor; try done. by exists 0.
  - intros i es e Hi He. destruct i as [|[|[|[|i]]]]; cbn in Hi; [..|done]; injection Hi as <-;
      try by apply elem_of_nil in He. apply list_elem_of_singleton in He as ->. done.
  - by split_and!; apply NoDup_singleton.
  - replace (blocks_of _) with ({[2000]} : gset Z); [exact one_has|]. by vm_compute.
  - intros k d. rewrite lookup_singleton_Some. cbn. split.
    + intros [<- <-]. exists e1. split; [left|done].
    + by intros (e&->%list_elem_of_singleton&<-&<-).
Qed.
Lemma s1_table : table s1 400 t1 {[ [5; 6] := 77 ]} 1.
Proof. apply table_chained. eexists. exact s1_chained. Qed.

Lemma hash_tbl_lookup_witness : hash_tbl_lookup [5; 6] 400 s1 = Some (77, s1).
Proof. by apply (hash_tbl_lookup_correct s1 400 t1 _ 1 [5; 6] s1_table). Defined.
(** A second key of the same bucket goes behind the first. *)
Lemma hash_tbl_add_witness :
  wp (hash_tbl_add [5; 6] 400 77) (λ r s', r = 0 ∧ chained s' 400 t1 [[]; [([5; 6], 77)]; []; []] {[ [5; 6] := 77 ]} 1) s0 ∧
  wp (hash_tbl_add [9; 9] 400 78) (λ r s', r = 0 ∧
    chained s' 400 (inc_entries t1) [[]; [([5; 6], 77); ([9; 9], 78)]; []; []] (<[ [9; 9] := 78 ]> {[ [5; 6] := 77 ]}) 0) s1.
Proof.
  split.
  - by apply (hash_tbl_add_correct s0 400 t0 [[]; []; []; []] ∅ 2 [5; 6] 77 s0_chained).
  - by apply (hash_tbl_add_correct s1 400 t1 [[]; [([5; 6], 77)]; []; []] {[ [5; 6] := 77 ]} 1 [9; 9] 78 s1_chained).
Defined.
Lemma hash_tbl_delete_witness :
  wp (hash_tbl_delete [5; 6] 400 0) (λ r s', r = 0 ∧ hlog s' = [HE_free 77] ∧ hkeys s' !! 8 = Some [5; 6]) s1.
Proof.
  eapply wp_mono; [by apply (hash_tbl_delete_correct s1 400 t1 _ 1 [5; 6] 0 s1_table)|].
  intros r s' Hp. rewrite lookup_singleton_eq in Hp. destruct Hp as (->&_&->&->). done.
Defined.
Lemma hash_walk_witness : ∃ s', hash_walk 400 9 s1 = Some (1, s') ∧ hlog s' = [HE_call 9 77].
Proof.
  destruct (hash_walk_correct s1 400 t1 _ _ 1 9 s1_chained) as [_ Hr]; [by rewrite map_size_singleton|].
  rewrite map_size_singleton in Hr. eexists. split; [exact Hr|done].
Defined.
Lemma flush_witness : wp (flush_hash_table 400 0) (λ _ s', table s' 400 t1 ∅ 2) s1.
Proof.
  eapply wp_mono; [exact (flush_hash_table_correct s1 400 t1 _ 1 0 s1_table)|].
  intros [] s' [Ht _]. by rewrite map_size_singleton in Ht.
Defined.

(** A table of three buckets of the memory pools. *)
Definition blank : hst mem_sys := MkHst _ empty ∅ ∅ ∅ ∅ 0 [].
Lemma blank_create g : can_create (HE := henv g) blank "demo" 3.
Proof.
  split; [by apply (bool_decide_unpack _)|lia|done|done|].
  eapply wp_mono; [apply (mem_pool_create_has empty [] 12 3 empty_pools); [lia..|]|].
  - split; try set_solver; done.
  - intros id p [-> Hp]. split; [by vm_compute|exact Hp].
Qed.
Lemma create_hash_table_witness :
  wp (create_hash_table "demo" 3 cmp gen 2) (λ h s', ∃ t, table s' h t ∅ 3) blank.
Proof.
  eapply wp_mono; [apply (create_hash_table_correct blank "demo" 3 cmp gen 2 (blank_create 0))|].
  - done.
  - apply cmp_spec.
  - intros h s' (t&Ht&_). by exists t.
Defined.
Lemma new_table_witness :
  let HE := henv 12345 in (h ← create_hash_table "demo" 3 cmp gen 2; hash_tbl_lookup [5; 6] h) blank = None.
Proof. by apply (new_table_not_cleared (HE := henv 12345) blank "demo" 3 cmp gen 2 [5; 6] 1 (blank_create _)). Defined.
Lemma off_by_one_witness :
  let t := MkHt 500 "demo" 1 2 4 0 cmp (λ _, 4) in
  hash_tbl_lookup [5; 6] 400 (set_tabs {[400 := t]} s0) = None.
Proof. by eapply (hash_index_off_by_one (set_tabs {[400 := _]} s0) 400 _ [0; 0; 0; 0]). Defined.
End HashWitness.
