(* ===== verification/MsgQueue.v ===== *)
(** * Message queues (src/core/msg_queue.c, without SFS_WANTED)

    Ten queues; a message that is queued sits in a block of the queue's memory pool,
    linked into the list of the queue.  The functions run under the mutex of the
    queue, so each is one step; [msg_rcv] is a step up to the [pthread_cond_wait] and
    another one from there.  The calls of the pthread library are recorded in
    [mq_trace].  The pool is any implementation of [BlockPool]. *)

From S2P Require Import Prelude ListHead MemPool BlockPool.
#[local] Open Scope Z_scope.

Definition MAX_MSG_Q : nat := 10.
Definition MAX_Q_NAME : nat := 8.
Definition MQ_FREE : Z := 1.
Definition MQ_ACTIVE : Z := 2.
(** [sizeof (struct msg)] of the i386 target. *)
Definition sizeof_msg : Z := 12.

Record mqueue := MkQ { q_name : list Z; max_msg : Z; q_size : Z; mpool_id : Z; q_flags : Z }.
(** The nodes of the lists: [Queue[i].msg_list] and [p->next]. *)
Inductive qnode := QN_head (i : nat) | QN_msg (a : Z).
#[global] Instance qnode_eq_dec : EqDecision qnode.
Proof. solve_decision. Defined.
#[global] Program Instance qnode_countable : Countable qnode :=
  inj_countable' (λ n, match n with QN_head i => inl i | QN_msg a => inr a end)
                 (λ s, match s with inl i => QN_head i | inr a => QN_msg a end) _.
Next Obligation. by intros []. Qed.
Definition list_entry_msg (n : qnode) : option Z :=
  match n with QN_msg a => Some a | QN_head _ => None end.
Inductive mq_event := MQ_init (i : nat) | MQ_lock (i : nat) | MQ_unlock (i : nat) | MQ_signal (i : nat) | MQ_wait (i : nat).

Record mqs {P : Type} := MkMqs {
  mq_pool : P;
  Queue : list mqueue;
  qlst : gmap qnode (list_head qnode);
  msgs : gmap Z Z;
  mq_trace : list mq_event
}.
Arguments mqs : clear implicits.

Section MsgQueue.
Context {P : Type} `{BP : BlockPool P}.
Implicit Types s : mqs P.

Definition set_mq_pool v s := MkMqs P v (Queue s) (qlst s) (msgs s) (mq_trace s).
Definition set_Queue v s := MkMqs P (mq_pool s) v (qlst s) (msgs s) (mq_trace s).
Definition set_qlst v s := MkMqs P (mq_pool s) (Queue s) v (msgs s) (mq_trace s).
Definition set_msgs v s := MkMqs P (mq_pool s) (Queue s) (qlst s) v (mq_trace s).
Definition set_mq_trace v s := MkMqs P (mq_pool s) (Queue s) (qlst s) (msgs s) v.
Definition on_mpool {A} (m : M P A) : M (mqs P) A := zoom mq_pool set_mq_pool m.
Definition on_qlst {A} (m : M (gmap qnode (list_head qnode)) A) : M (mqs P) A := zoom qlst set_qlst m.
Definition mq_emit (e : mq_event) : M (mqs P) unit := modify (λ s, set_mq_trace (mq_trace s ++ [e]) s).
Definition q_ld (i : nat) : M (mqs P) mqueue := l ← gets Queue; liftO (l !! i).
Definition q_mod (f : mqueue → mqueue) (i : nat) : M (mqs P) unit :=
  q ← q_ld i; modify (λ s, set_Queue (<[i := f q]> (Queue s)) s).
(** [Queue[qid]]. *)
Definition qix (qid : Z) : M (mqs P) nat :=
  if decide (0 ≤ qid < Z.of_nat MAX_MSG_Q) then mret (Z.to_nat qid) else ub.

(** [while (--i >= 0)]. *)
Fixpoint get_qid_loop (n : nat) : M (mqs P) Z :=
  match n with
  | 0%nat => mret (-1)
  | S i => q ← q_ld i; if q_flags q =? MQ_FREE then mret (Z.of_nat i) else get_qid_loop i
  end.
Definition get_qid : M (mqs P) Z := get_qid_loop MAX_MSG_Q.

Definition q_free : mqueue := MkQ (replicate MAX_Q_NAME 0) 0 0 (-1) MQ_FREE.
Fixpoint msg_Q_init_loop (n : nat) : M (mqs P) unit :=
  match n with
  | 0%nat => mret tt
  | S i => q_mod (λ _, q_free) i;; on_qlst (INIT_LIST_HEAD (QN_head i));; msg_Q_init_loop i
  end.
Definition msg_Q_init : M (mqs P) Z := msg_Q_init_loop MAX_MSG_Q;; mret 0.

(** The pool gets [sizeof (struct msg)] blocks of [maxmsg * sizeof (struct msg)]
    bytes; [memcpy] reads [MAX_Q_NAME] bytes of the name. *)
Definition msg_create_Q (name : list Z) (maxmsg size : Z) : M (mqs P) Z :=
  qid ← get_qid;
  if qid <? 0 then mret (-1) else
  let i := Z.to_nat qid in
  id ← on_mpool (bp_create (u32 (maxmsg * sizeof_msg)) sizeof_msg);
  q_mod (λ q, MkQ (q_name q) (max_msg q) (q_size q) id (q_flags q)) i;;
  if id <? 0 then mret (-1) else
  (if decide (MAX_Q_NAME ≤ length name)%nat then mret tt else ub);;
  q_mod (λ q, MkQ (take MAX_Q_NAME name) maxmsg size (mpool_id q) MQ_ACTIVE) i;;
  mq_emit (MQ_init i);;
  mret qid.

(** A block that is too small for a [struct msg] is written out of bounds. *)
Definition link_msg (i : nat) (q : mqueue) (p msg : Z) : M (mqs P) unit :=
  (if u32 (max_msg q * sizeof_msg) <? sizeof_msg then ub else mret tt);;
  on_qlst (INIT_LIST_HEAD (QN_msg p));;
  modify (λ s, set_msgs (<[p := msg]> (msgs s)) s);;
  on_qlst (list_add_tail (QN_msg p) (QN_head i)).
Definition msg_send (qid msg : Z) : M (mqs P) Z :=
  i ← qix qid;
  mq_emit (MQ_lock i);;
  q ← q_ld i;
  p ← on_mpool (bp_alloc (mpool_id q));
  when (truthy p) (link_msg i q p msg);;
  mq_emit (MQ_signal i);;
  mq_emit (MQ_unlock i);;
  mret 0.

(** The body of the loop of [msg_rcv]: a message, or [None] for a wait. *)
Definition rcv_check (i : nat) : M (mqs P) (option Z) :=
  e ← on_qlst (list_empty (QN_head i));
  if negb e then
    f ← on_qlst (get_next (QN_head i));
    p ← liftO (list_entry_msg f);
    ms ← gets msgs;
    msg ← liftO (ms !! p);
    on_qlst (list_del (QN_msg p));;
    q ← q_ld i;
    on_mpool (bp_free (mpool_id q) p);;
    mq_emit (MQ_unlock i);;
    mret (Some msg)
  else mq_emit (MQ_wait i);; mret None.
Definition msg_rcv (qid : Z) : M (mqs P) (option Z) :=
  i ← qix qid;
  mq_emit (MQ_lock i);;
  rcv_check i.
End MsgQueue.

(** ** A queue is a sequence of messages *)
Section queue.
Context {P : Type} `{BP : BlockPool P}.
Implicit Types (s : mqs P) (q : mqueue) (ms : list (Z * Z)) (i : nat).

(** The blocks and the messages in them. *)
Record queue s i q ms (n : nat) : Prop := {
  qu_ix : (i < MAX_MSG_Q)%nat;
  qu_q : Queue s !! i = Some q;
  qu_fit : sizeof_msg ≤ u32 (max_msg q * sizeof_msg);
  qu_ring : dll (qlst s) (QN_head i) (QN_msg <$> ms.*1);
  qu_msgs a v : (a, v) ∈ ms → msgs s !! a = Some v;
  qu_pool : bp_pool (mq_pool s) (mpool_id q) (list_to_set ms.*1) n
}.
(** The queue [i] holds the messages [vs], and there is room for [n] more. *)
Definition holds s i q (vs : list Z) (n : nat) : Prop := ∃ ms, queue s i q ms n ∧ ms.*2 = vs.

Lemma queue_trace s i q ms n e : queue s i q ms n → queue (set_mq_trace e s) i q ms n.
Proof. intros [H1 H2 H3 H4 H5 H6]. by split. Qed.
Lemma qix_run s i : (i < MAX_MSG_Q)%nat → qix (Z.of_nat i) s = Some (i, s).
Proof. intros Hi. rewrite /qix decide_True; [|lia]. by rewrite Nat2Z.id. Qed.
Lemma q_ld_run s i q : Queue s !! i = Some q → q_ld i s = Some (q, s).
Proof. intros Hq. by rewrite /q_ld (bind_run (gets Queue) _ s _ s eq_refl) /liftO Hq. Qed.

Lemma link_msg_run s i q ms k n a v pl :
  queue s i q ms k → a ∉ ms.*1 → bp_pool pl (mpool_id q) ({[a]} ∪ list_to_set ms.*1) n →
  wp (link_msg i q a v) (λ _ s', queue s' i q (ms ++ [(a, v)]) n) (set_mq_pool pl s).
Proof.
  intros [Hi Hq Hf Hr Hm _] Hni Hpl. rewrite /link_msg (proj2 (Z.ltb_ge _ _) Hf).
  set (s1 := set_mq_pool pl s). rewrite /wp (bind_run (mret tt) _ s1 tt s1 eq_refl).
  set (s2 := set_qlst (<[QN_msg a := LH (QN_msg a) (QN_msg a)]> (qlst s)) s1).
  rewrite (bind_run (on_qlst (INIT_LIST_HEAD (QN_msg a))) _ s1 tt s2 eq_refl).
  set (s3 := set_msgs (<[a := v]> (msgs s)) s2).
  rewrite (bind_run (modify (λ s, set_msgs (<[a := v]> (msgs s)) s)) _ s2 tt s3 eq_refl).
  assert (Hnode : QN_msg a ∉ QN_head i :: (QN_msg <$> ms.*1)).
  { rewrite elem_of_cons list_elem_of_fmap. intros [?|(b&[= <-]&Hb)]; done. }
  apply wp_zoom. eapply (wp_list_add_tail _ _ (QN_msg <$> ms.*1)).
  - eapply dll_frame; [|exact Hr]. intros x Hx. cbn. rewrite lookup_insert_ne //. by intros <-.
  - done.
  - exists (LH (QN_msg a) (QN_msg a)). apply lookup_insert_eq.
  - intros l Hd _. split; [done|done|done|..].
    + by rewrite !fmap_app.
    + intros b w [Hb|[= -> ->]%list_elem_of_singleton]%elem_of_app; cbn; [|apply lookup_insert_eq].
      rewrite lookup_insert_ne; [by apply Hm|]. intros <-. apply Hni.
      by apply (list_elem_of_fmap_2 fst) in Hb.
    + cbn. rewrite fmap_app list_to_set_app_L /=. by rewrite union_empty_r_L union_comm_L.
Qed.

Lemma send_run s i q ms n v :
  queue s i q ms n →
  wp (msg_send (Z.of_nat i) v) (λ r s', r = 0 ∧ match n with
    | 0%nat => queue s' i q ms 0
    | S n' => ∃ a, queue s' i q (ms ++ [(a, v)]) n'
    end) s.
Proof.
  intros Hqu. pose proof Hqu as [Hi Hq Hf Hr Hm Hpl]. rewrite /msg_send /wp (bind_run _ _ _ _ _ (qix_run _ _ Hi)).
  set (s1 := set_mq_trace (mq_trace s ++ [MQ_lock i]) s). rewrite (bind_run (mq_emit _) _ s tt s1 eq_refl).
  rewrite (bind_run _ _ _ _ _ (q_ld_run s1 i q Hq)). apply wp_bind, wp_zoom.
  eapply wp_mono; [by apply (bp_alloc_ok _ _ _ _ (Hpl : bp_pool (mq_pool s1) _ _ _))|]. intros a pl Hp.
  assert (Hend : ∀ s2 ms' n', queue s2 i q ms' n' →
    wp (mq_emit (MQ_signal i);; mq_emit (MQ_unlock i);; mret 0) (λ r s', r = 0 ∧ queue s' i q ms' n') s2).
  { intros s2 ms' n' H2. wp_steps. split; [done|]. by do 2 apply queue_trace. }
  destruct n as [|n].
  - destruct Hp as [-> ->]. apply (Hend s1). by apply queue_trace.
  - destruct Hp as (H0&Hni&Hp). rewrite (proj2 (truthy_true _) H0). apply wp_bind.
    rewrite elem_of_list_to_set in Hni.
    eapply wp_mono; [apply (link_msg_run s1 i q ms (S n) n a v pl); [by apply queue_trace|done|done]|].
    intros [] s2 H2. eapply wp_mono; [by apply Hend|]. intros r s' [-> H']. split; [done|]. by exists a.
Qed.

Lemma rcv_run s i q ms n :
  queue s i q ms n →
  wp (msg_rcv (Z.of_nat i)) (λ r s', match ms with
    | [] => r = None ∧ queue s' i q [] n
    | (_, v) :: ms' => r = Some v ∧ queue s' i q ms' (S n)
    end) s.
Proof.
  intros Hqu. pose proof Hqu as [Hi Hq Hf Hr Hm Hpl]. rewrite /msg_rcv /wp (bind_run _ _ _ _ _ (qix_run _ _ Hi)).
  set (s1 := set_mq_trace (mq_trace s ++ [MQ_lock i]) s). rewrite (bind_run (mq_emit _) _ s tt s1 eq_refl).
  rewrite /rcv_check. assert (Hz : ∀ A (m : M _ A) v, m (qlst s) = Some (v, qlst s) → on_qlst m s1 = Some (v, s1)).
  { intros A m v Hv. by rewrite /on_qlst /zoom /s1 /= Hv. }
  rewrite (bind_run _ _ _ _ _ (Hz _ _ _ (list_empty_spec _ _ _ Hr))).
  destruct ms as [|[a v] ms]; cbn [fmap list_fmap fst].
  { split; [done|]. by do 2 apply queue_trace. }
  rewrite bool_decide_eq_false_2 //. cbn [negb].
  assert (Hnx : nxt (qlst s) (QN_head i) = Some (QN_msg a)) by (destruct Hr as [_ (?&_)]; done).
  rewrite (bind_run _ _ _ _ _ (Hz _ _ _ (get_next_eq _ _ _ Hnx))).
  rewrite (bind_run (liftO (list_entry_msg (QN_msg a))) _ s1 a s1 eq_refl) (bind_run (gets msgs) _ s1 _ s1 eq_refl).
  rewrite (bind_run (liftO _) _ s1 v s1); [|rewrite /liftO (Hm a v) //; left]. apply wp_bind, wp_zoom.
  eapply (wp_list_del _ (QN_head i) [] (QN_msg <$> ms.*1)); [exact Hr|]. intros l Hd _.
  set (s2 := set_qlst l s1). rewrite /wp (bind_run _ _ _ _ _ (q_ld_run s2 i q Hq)). apply wp_bind, wp_zoom.
  cbn [fmap list_fmap fst] in Hpl.
  assert (Hnd : a ∉ ms.*1).
  { destruct Hr as [[_ [Hnd _]%NoDup_cons]%NoDup_cons _]. intros Ha. apply Hnd. by apply list_elem_of_fmap_2. }
  eapply wp_mono; [apply (bp_free_ok _ _ _ _ a (Hpl : bp_pool (mq_pool s2) _ _ _)); set_solver|].
  intros r pl [_ Hp]. split; [done|]. apply queue_trace. split; [done|done|done|done|..].
  - intros b w Hb. apply Hm. by right.
  - cbn. replace (list_to_set ms.*1) with (({[a]} ∪ list_to_set ms.*1) ∖ {[a]} : gset Z); [done|].
    assert (a ∉ (list_to_set ms.*1 : gset Z)) by by rewrite elem_of_list_to_set. set_solver.
Qed.
End queue.

Section Promises.
Context {P : Type} `{BP : BlockPool P}.
Implicit Types (s : mqs P) (q : mqueue) (vs : list Z) (i : nat).

(** a message that is sent is put behind the messages of the queue; when the
    pool has no block left it is dropped, and the result is the same. *)
Theorem msg_send_correct s i q vs n v :
  holds s i q vs n →
  wp (msg_send (Z.of_nat i) v) (λ r s', r = 0 ∧
    match n with 0%nat => holds s' i q vs 0 | S n' => holds s' i q (vs ++ [v]) n' end) s.
Proof.
  intros (ms&Hqu&<-). eapply wp_mono; [by apply send_run|]. intros r s' [-> Hs]. split; [done|].
  destruct n as [|n].
  - by exists ms.
  - destruct Hs as [a Hs]. exists (ms ++ [(a, v)]). split; [done|]. by rewrite fmap_app.
Qed.
(** receiving takes the first message and gives its block back; on an empty queue
    it waits. *)
Theorem msg_rcv_correct s i q vs n :
  holds s i q vs n →
  wp (msg_rcv (Z.of_nat i)) (λ r s', r = head vs ∧
    holds s' i q (tail vs) (match vs with [] => n | _ => S n end)) s.
Proof.
  intros (ms&Hqu&<-). eapply wp_mono; [by apply rcv_run|]. intros r s'.
  destruct ms as [|[a v] ms]; intros [-> Hs]; (split; [done|]); [by exists []|by exists ms].
Qed.

Lemma send_all s i q vs ws n :
  holds s i q vs (length ws + n) →
  wp (mapM (msg_send (Z.of_nat i)) ws) (λ _ s', holds s' i q (vs ++ ws) n) s.
Proof.
  revert s vs. induction ws as [|w ws IH]; intros s vs Hh; cbn [mapM].
  { rewrite app_nil_r. by apply wp_ret. }
  destruct Hh as (ms&Hqu&<-). apply wp_bind. eapply wp_mono; [exact (send_run s i q ms _ w Hqu)|].
  intros r s1 [_ [a Hs1]]. apply wp_bind. eapply wp_mono.
  - apply (IH s1 (ms.*2 ++ [w])). exists (ms ++ [(a, w)]). split; [exact Hs1|]. by rewrite fmap_app.
  - intros rs s2 Hs2. apply wp_ret. by rewrite -app_assoc in Hs2.
Qed.
Lemma rcv_all s i q ws vs n :
  holds s i q (ws ++ vs) n →
  wp (mapM (λ _, msg_rcv (Z.of_nat i)) ws) (λ rs s', rs = Some <$> ws ∧ holds s' i q vs (length ws + n)) s.
Proof.
  revert s n. induction ws as [|w ws IH]; intros s n Hh; cbn [mapM].
  { by apply wp_ret. }
  destruct Hh as (ms&Hqu&Hms). destruct ms as [|[a v] ms]; [done|]. injection Hms as -> Hms.
  apply wp_bind. eapply wp_mono; [exact (rcv_run s i q _ n Hqu)|]. intros r s1 [-> Hs1].
  apply wp_bind. eapply wp_mono; [apply (IH s1 (S n)); by exists ms|].
  intros rs s2 [-> Hs2]. apply wp_ret. split; [done|]. cbn [length]. by rewrite Nat.add_succ_r in Hs2.
Qed.
(** C25: what is sent is received, in the order of sending, as long as the messages fit
    into the pool; afterwards the queue has the room it had. *)
Theorem msg_fifo s i q vs n :
  holds s i q [] (length vs + n) →
  wp (mapM (msg_send (Z.of_nat i)) vs;; mapM (λ _, msg_rcv (Z.of_nat i)) vs)
    (λ rs s', rs = Some <$> vs ∧ holds s' i q [] (length vs + n)) s.
Proof.
  intros Hh. apply wp_bind. eapply wp_mono; [by apply (send_all s i q [] vs n)|]. intros rs s1 Hs1. apply rcv_all.
  by rewrite app_nil_r.
Qed.

(** the arguments of [mem_pool_create] are exchanged: a new queue has room for 12
    messages, however many were asked for. *)
Theorem msg_create_Q_capacity s name maxmsg size (i : nat) :
  get_qid s = Some (Z.of_nat i, s) → (i < MAX_MSG_Q)%nat → is_Some (Queue s !! i) →
  (MAX_Q_NAME ≤ length name)%nat → 1 ≤ maxmsg < 2 ^ 20 → dll (qlst s) (QN_head i) [] →
  wp (bp_create (maxmsg * sizeof_msg) sizeof_msg) (λ id p, 0 ≤ id ∧ bp_pool p id ∅ (Z.to_nat sizeof_msg)) (mq_pool s) →
  wp (msg_create_Q name maxmsg size) (λ r s', r = Z.of_nat i ∧ ∃ q, max_msg q = maxmsg ∧ holds s' i q [] 12) s.
Proof.
  intros Hget Hi [q0 Hq0] Hn Hm Hr Hp. apply wp_inv in Hp as (id&p&Hrun&Hid&Hpl).
  rewrite /msg_create_Q /wp (bind_run _ _ _ _ _ Hget). rewrite (proj2 (Z.ltb_ge _ _)); [|lia].
  rewrite Nat2Z.id. rewrite (u32_small (maxmsg * sizeof_msg)); [|rewrite /sizeof_msg; lia].
  set (s1 := set_mq_pool p s). rewrite (bind_run (on_mpool _) _ s id s1); [|by rewrite /on_mpool /zoom Hrun].
  assert (Hmod : ∀ s f q, Queue s !! i = Some q → q_mod f i s = Some (tt, set_Queue (<[i := f q]> (Queue s)) s)).
  { intros s' f q Hq. by rewrite /q_mod (bind_run _ _ _ _ _ (q_ld_run s' i q Hq)). }
  rewrite (bind_run _ _ _ _ _ (Hmod s1 _ q0 Hq0)) (proj2 (Z.ltb_ge _ _) Hid). set (s2 := set_Queue _ s1).
  rewrite decide_True // (bind_run (mret tt) _ s2 tt s2 eq_refl).
  assert (Hlt : (i < length (Queue s))%nat) by by eapply lookup_lt_Some.
  rewrite (bind_run _ _ _ _ _ (Hmod s2 _ _ ltac:(cbn; by apply list_lookup_insert_eq))).
  split; [done|]. exists (MkQ (take MAX_Q_NAME name) maxmsg size id MQ_ACTIVE). split; [done|].
  exists []. split; [|done]. split; [done|..|exact Hr| |exact Hpl].
  - cbn. apply list_lookup_insert_eq. by rewrite length_insert.
  - cbn. rewrite u32_small; [|rewrite /sizeof_msg; lia]. rewrite /sizeof_msg. lia.
  - intros a v Hav. by apply elem_of_nil in Hav.
Qed.
End Promises.

(** ** A queue on the memory pools *)
Module MsgWitness.
Import MemPool.PoolWitness.
#[local] Existing Instance demo_mem.

Definition run_mq {A} (m : M (mqs mem_sys) A) (s : mqs mem_sys) : mqs mem_sys :=
  match m s with Some (_, s') => s' | None => s end.
(** The ten queues, free; and the last one with a pool of two blocks. *)
Definition init_mq : mqs mem_sys := run_mq msg_Q_init (MkMqs _ empty (replicate 10 q_free) ∅ ∅ []).
Definition q9 : mqueue := MkQ [] 1 4 1 MQ_ACTIVE.
Definition two_mq : mqs mem_sys := set_Queue (replicate 9 q_free ++ [q9]) (set_mq_pool two init_mq).

Lemma two_mq_holds : holds two_mq 9 q9 [] 2.
Proof.
  exists []. split; [|done]. split; [by apply (bool_decide_unpack _); vm_compute|done|by vm_compute|..].
  - split; [by apply NoDup_singleton|]. by vm_compute.
  - intros a v Hav. by apply elem_of_nil in Hav.
  - exists [1000], 1000, (info two), [2000; 2016]. split; try by vm_compute.
    + exact two_pools.
    + left.
    + intros a. split; [set_solver|]. intros ([|[|j]]&Hj&_); [by vm_compute in Hj..|done].
Qed.
Lemma msg_send_witness : wp (msg_send 9 77) (λ r s', r = 0 ∧ holds s' 9 q9 [77] 1) two_mq.
Proof. exact (msg_send_correct two_mq 9 q9 [] 2 77 two_mq_holds). Defined.
Lemma msg_rcv_witness : wp (msg_rcv 9) (λ r s', r = None ∧ holds s' 9 q9 [] 2) two_mq.
Proof. exact (msg_rcv_correct two_mq 9 q9 [] 2 two_mq_holds). Defined.
Lemma msg_fifo_witness :
  wp (mapM (msg_send 9) [77; 78];; mapM (λ _, msg_rcv 9) [77; 78]) (λ rs _, rs = [Some 77; Some 78]) two_mq.
Proof.
  eapply wp_mono; [exact (msg_fifo two_mq 9 q9 [77; 78] 0 two_mq_holds)|]. by intros rs s' [-> _].
Defined.
(** A queue for 3 messages takes 12. *)
Lemma msg_create_witness :
  wp (msg_create_Q [81; 0; 0; 0; 0; 0; 0; 0] 3 4) (λ r s', r = 9 ∧ ∃ q, max_msg q = 3 ∧ holds s' 9 q [] 12) init_mq.
Proof.
  apply (msg_create_Q_capacity init_mq [81; 0; 0; 0; 0; 0; 0; 0] 3 4 9).
  - by vm_compute.
  - apply (bool_decide_unpack _). by vm_compute.
  - by eexists.
  - apply (bool_decide_unpack _). by vm_compute.
  - lia.
  - split; [by apply NoDup_singleton|]. by vm_compute.
  - eapply wp_mono; [apply (mem_pool_create_has empty [] 36 12 empty_pools); [lia..|]|].
    + split; try set_solver; done.
    + intros id p [-> Hp]. split; [by vm_compute|exact Hp].
Defined.
End MsgWitness.
