(* ===== verification/RbTree.v ===== *)
(** * Red-black trees: the code (src/cmn/rbtree.c, src/cmn/rbtree.h)

    Pointers are addresses, 0 is the null pointer; a node packs the address of its
    parent and its colour into [rb_parent_color], as the macros of rbtree.h
    read and write it.  The state of a tree operation is the store of nodes and
    the root pointer; an access to an address without a node is undefined
    behaviour.  The loops are bounded by the number of nodes in the store, and
    running out of that bound counts as undefined behaviour as well, so every
    theorem that an operation completes also shows that its loops terminate.

    The lock of [struct rb_root], which rb_first takes, is not part of this state: the trees of the program are the wheels
    of the timers, and [Timers.wheel_first] is rb_first with the lock of its wheel. *)

From S2P Require Import Prelude.
#[local] Open Scope Z_scope.

Record rb_node := MkNode { rb_parent_color : Z; rb_right : Z; rb_left : Z }.
Record rb := MkRb { nodes : gmap Z rb_node; rb_root : Z }.

Definition RB_RED : Z := 0.
Definition RB_BLACK : Z := 1.

(** ** Accesses *)
Definition nd (a : Z) : M rb rb_node := λ s,
  match nodes s !! a with Some n => Some (n, s) | None => None end.
Definition nd_mod (f : rb_node → rb_node) (a : Z) : M rb unit := λ s,
  match nodes s !! a with
  | Some n => Some (tt, MkRb (<[a := f n]> (nodes s)) (rb_root s))
  | None => None
  end.
Definition get_left (a : Z) : M rb Z := n ← nd a; mret (rb_left n).
Definition get_right (a : Z) : M rb Z := n ← nd a; mret (rb_right n).
Definition set_left (a v : Z) : M rb unit :=
  nd_mod (λ n, MkNode (rb_parent_color n) (rb_right n) v) a.
Definition set_right (a v : Z) : M rb unit :=
  nd_mod (λ n, MkNode (rb_parent_color n) v (rb_left n)) a.
Definition set_root (v : Z) : M rb unit := modify (λ s, MkRb (nodes s) v).

(** ** The macros of rbtree.h *)
Definition pc_parent (pc : Z) : Z := Z.land pc (Z.lnot 3).
Definition pc_color (pc : Z) : Z := Z.land pc 1.
Definition pc_set_red (pc : Z) : Z := Z.land pc (Z.lnot 1).
Definition pc_set_black (pc : Z) : Z := Z.lor pc 1.
Definition pc_set_parent (pc p : Z) : Z := Z.lor (Z.land pc 3) p.
Definition pc_set_color (pc color : Z) : Z := Z.lor (Z.land pc (Z.lnot 1)) color.

Definition on_pc (f : Z → Z) (n : rb_node) : rb_node :=
  MkNode (f (rb_parent_color n)) (rb_right n) (rb_left n).
Definition rb_parent (a : Z) : M rb Z := n ← nd a; mret (pc_parent (rb_parent_color n)).
Definition rb_color (a : Z) : M rb Z := n ← nd a; mret (pc_color (rb_parent_color n)).
Definition rb_is_red (a : Z) : M rb bool := c ← rb_color a; mret (negb (truthy c)).
Definition rb_is_black (a : Z) : M rb bool := c ← rb_color a; mret (truthy c).
Definition rb_set_red (a : Z) : M rb unit := nd_mod (on_pc pc_set_red) a.
Definition rb_set_black (a : Z) : M rb unit := nd_mod (on_pc pc_set_black) a.
Definition rb_set_parent (a p : Z) : M rb unit := nd_mod (on_pc (λ pc, pc_set_parent pc p)) a.
Definition rb_set_color (a c : Z) : M rb unit := nd_mod (on_pc (λ pc, pc_set_color pc c)) a.
Definition RB_CLEAR_NODE (a : Z) : M rb unit := rb_set_parent a a.
Definition RB_EMPTY_NODE (a : Z) : M rb bool := p ← rb_parent a; mret (p =? a).
Definition RB_EMPTY_ROOT : M rb bool := r ← gets rb_root; mret (r =? 0).

(** [struct rb_node **]: the root pointer, or a child pointer of a node. *)
Inductive link_t := L_root | L_left (a : Z) | L_right (a : Z).
Definition link_set (l : link_t) (v : Z) : M rb unit :=
  match l with L_root => set_root v | L_left a => set_left a v | L_right a => set_right a v end.
Definition link_get (l : link_t) : M rb Z :=
  match l with L_root => gets rb_root | L_left a => get_left a | L_right a => get_right a end.

(** The node need not be in the store yet: every field is written. *)
Definition rb_link_node (node parent : Z) (l : link_t) : M rb unit :=
  modify (λ s, MkRb (<[node := MkNode parent 0 0]> (nodes s)) (rb_root s));;
  link_set l node.

(** ** Rotations *)
Definition rb_rotate_left (node : Z) : M rb unit :=
  right ← get_right node;
  parent ← rb_parent node;
  rl ← get_left right;
  set_right node rl;;
  when (truthy rl) (rl ← get_left right; rb_set_parent rl node);;
  set_left right node;;
  rb_set_parent right parent;;
  (if truthy parent then
     pl ← get_left parent;
     if node =? pl then set_left parent right else set_right parent right
   else set_root right);;
  rb_set_parent node right.

Definition rb_rotate_right (node : Z) : M rb unit :=
  left ← get_left node;
  parent ← rb_parent node;
  lr ← get_right left;
  set_left node lr;;
  when (truthy lr) (lr ← get_right left; rb_set_parent lr node);;
  set_right left node;;
  rb_set_parent left parent;;
  (if truthy parent then
     pr ← get_right parent;
     if node =? pr then set_right parent left else set_left parent left
   else set_root left);;
  rb_set_parent node left.

(** ** Rebalancing after an insertion *)

(** [p && rb_is_red (p)]. *)
Definition red_node (p : Z) : M rb bool := if truthy p then rb_is_red p else mret false.
(** [!p || rb_is_black (p)]. *)
Definition black_or_null (p : Z) : M rb bool := if truthy p then rb_is_black p else mret true.

(** The [while] loop of [rb_insert_color]. *)
Fixpoint insert_loop (fuel : nat) (node : Z) : M rb unit :=
  parent ← rb_parent node;
  go ← red_node parent;
  if negb go then mret tt else
  match fuel with
  | 0%nat => ub
  | S fuel =>
      gparent ← rb_parent parent;
      gl ← get_left gparent;
      if parent =? gl then
        uncle ← get_right gparent;
        ur ← red_node uncle;
        if (ur : bool) then
          rb_set_black uncle;;
          rb_set_black parent;;
          rb_set_red gparent;;
          insert_loop fuel gparent
        else
          pr ← get_right parent;
          '(parent, node) ← (if pr =? node
            then rb_rotate_left parent;; mret (node, parent) else mret (parent, node));
          rb_set_black parent;;
          rb_set_red gparent;;
          rb_rotate_right gparent;;
          insert_loop fuel node
      else
        uncle ← get_left gparent;
        ur ← red_node uncle;
        if (ur : bool) then
          rb_set_black uncle;;
          rb_set_black parent;;
          rb_set_red gparent;;
          insert_loop fuel gparent
        else
          pl ← get_left parent;
          '(parent, node) ← (if pl =? node
            then rb_rotate_right parent;; mret (node, parent) else mret (parent, node));
          rb_set_black parent;;
          rb_set_red gparent;;
          rb_rotate_left gparent;;
          insert_loop fuel node
  end.

Definition rb_insert_color (node : Z) : M rb unit :=
  sz ← gets (λ s, size (nodes s));
  insert_loop sz node;;
  r ← gets rb_root;
  rb_set_black r.

(** ** Rebalancing after a removal *)

(** The [while] loop of [__rb_erase_color]; the result is the final [node].
    A [break] returns the root. *)
Fixpoint erase_loop (fuel : nat) (node parent : Z) : M rb Z :=
  b ← black_or_null node;
  root ← gets rb_root;
  if negb (b && negb (node =? root)) then mret node else
  match fuel with
  | 0%nat => ub
  | S fuel =>
      pl ← get_left parent;
      if pl =? node then
        other ← get_right parent;
        r ← rb_is_red other;
        other ← (if (r : bool) then
            rb_set_black other;;
            rb_set_red parent;;
            rb_rotate_left parent;;
            get_right parent
          else mret other);
        ol ← get_left other; bl ← black_or_null ol;
        both ← (if (bl : bool) then orr ← get_right other; black_or_null orr else mret false);
        if (both : bool) then
          rb_set_red other;;
          parent' ← rb_parent parent;
          erase_loop fuel parent parent'
        else
          orr ← get_right other; br ← black_or_null orr;
          other ← (if (br : bool) then
              ol ← get_left other; rb_set_black ol;;
              rb_set_red other;;
              rb_rotate_right other;;
              get_right parent
            else mret other);
          c ← rb_color parent; rb_set_color other c;;
          rb_set_black parent;;
          orr ← get_right other; rb_set_black orr;;
          rb_rotate_left parent;;
          gets rb_root
      else
        other ← get_left parent;
        r ← rb_is_red other;
        other ← (if (r : bool) then
            rb_set_black other;;
            rb_set_red parent;;
            rb_rotate_right parent;;
            get_left parent
          else mret other);
        ol ← get_left other; bl ← black_or_null ol;
        both ← (if (bl : bool) then orr ← get_right other; black_or_null orr else mret false);
        if (both : bool) then
          rb_set_red other;;
          parent' ← rb_parent parent;
          erase_loop fuel parent parent'
        else
          ol ← get_left other; bl ← black_or_null ol;
          other ← (if (bl : bool) then
              orr ← get_right other; rb_set_black orr;;
              rb_set_red other;;
              rb_rotate_left other;;
              get_left parent
            else mret other);
          c ← rb_color parent; rb_set_color other c;;
          rb_set_black parent;;
          ol ← get_left other; rb_set_black ol;;
          rb_rotate_right parent;;
          gets rb_root
  end.

Definition rb_erase_color (node parent : Z) : M rb unit :=
  sz ← gets (λ s, size (nodes s));
  node ← erase_loop (S sz) node parent;
  when (truthy node) (rb_set_black node).

(** [while ((left = node->rb_left) != NULL) node = left]. *)
Fixpoint go_left (fuel : nat) (node : Z) : M rb Z :=
  l ← get_left node;
  if truthy l then match fuel with 0%nat => ub | S fuel => go_left fuel l end
  else mret node.
Fixpoint go_right (fuel : nat) (node : Z) : M rb Z :=
  r ← get_right node;
  if truthy r then match fuel with 0%nat => ub | S fuel => go_right fuel r end
  else mret node.

(** The part of [rb_erase] for a node [old] with two children: its successor takes
    its place.  Returns [child], [parent] and [color]. *)
Definition erase_two (old : Z) : M rb (Z * Z * Z) :=
  sz ← gets (λ s, size (nodes s));
  node ← get_right old;
  node ← go_left sz node;
  op ← rb_parent old;
  (if truthy op then
     opl ← get_left op;
     if opl =? old then op ← rb_parent old; set_left op node
     else op ← rb_parent old; set_right op node
   else set_root node);;
  child ← get_right node;
  parent ← rb_parent node;
  color ← rb_color node;
  parent ← (if parent =? old then mret node else
     when (truthy child) (rb_set_parent child parent);;
     set_left parent child;;
     orr ← get_right old;
     set_right node orr;;
     orr ← get_right old;
     rb_set_parent orr node;;
     mret parent);
  on ← nd old;
  nd_mod (λ n, MkNode (rb_parent_color on) (rb_right n) (rb_left n)) node;;
  ol ← get_left old;
  set_left node ol;;
  ol ← get_left old;
  rb_set_parent ol node;;
  mret (child, parent, color).

(** The part for a node with at most one child. *)
Definition erase_one (node child : Z) : M rb (Z * Z * Z) :=
  parent ← rb_parent node;
  color ← rb_color node;
  when (truthy child) (rb_set_parent child parent);;
  (if truthy parent then
     pl ← get_left parent;
     if pl =? node then set_left parent child else set_right parent child
   else set_root child);;
  mret (child, parent, color).

Definition rb_erase (node : Z) : M rb unit :=
  l ← get_left node;
  '(child, parent, color) ←
    (if negb (truthy l) then child ← get_right node; erase_one node child
     else r ← get_right node;
       if negb (truthy r) then child ← get_left node; erase_one node child
       else erase_two node);
  when (color =? RB_BLACK) (rb_erase_color child parent).

(** ** Traversal *)
Definition rb_first : M rb Z :=
  n ← gets rb_root;
  if negb (truthy n) then mret n else
  sz ← gets (λ s, size (nodes s)); go_left sz n.

Definition rb_last : M rb Z :=
  n ← gets rb_root;
  if negb (truthy n) then mret 0 else
  sz ← gets (λ s, size (nodes s)); go_right sz n.

(** [while ((parent = rb_parent (node)) && node == parent->rb_right) node = parent]. *)
Fixpoint up_right (fuel : nat) (node : Z) : M rb Z :=
  parent ← rb_parent node;
  if negb (truthy parent) then mret parent else
  r ← get_right parent;
  if node =? r then match fuel with 0%nat => ub | S fuel => up_right fuel parent end
  else mret parent.
Fixpoint up_left (fuel : nat) (node : Z) : M rb Z :=
  parent ← rb_parent node;
  if negb (truthy parent) then mret parent else
  l ← get_left parent;
  if node =? l then match fuel with 0%nat => ub | S fuel => up_left fuel parent end
  else mret parent.

Definition rb_next (node : Z) : M rb Z :=
  sz ← gets (λ s, size (nodes s));
  p ← rb_parent node;
  if p =? node then mret 0 else
  r ← get_right node;
  if truthy r then go_left sz r else up_right sz node.

Definition rb_prev (node : Z) : M rb Z :=
  sz ← gets (λ s, size (nodes s));
  p ← rb_parent node;
  if p =? node then mret 0 else
  l ← get_left node;
  if truthy l then go_right sz l else up_left sz node.

Definition rb_replace_node (victim new : Z) : M rb unit :=
  parent ← rb_parent victim;
  (if truthy parent then
     pl ← get_left parent;
     if victim =? pl then set_left parent new else set_right parent new
   else set_root new);;
  vl ← get_left victim;
  when (truthy vl) (vl ← get_left victim; rb_set_parent vl new);;
  vr ← get_right victim;
  when (truthy vr) (vr ← get_right victim; rb_set_parent vr new);;
  v ← nd victim;
  modify (λ s, MkRb (<[new := v]> (nodes s)) (rb_root s)).

(** ** Augmentation: the nodes the callback [func] is called on, in order *)
Fixpoint rb_augment_path (fuel : nat) (node : Z) : M rb (list Z) :=
  parent ← rb_parent node;
  if negb (truthy parent) then mret [node] else
  l ← get_left parent;
  r ← get_right parent;
  let calls := node ::
    (if (node =? l) && truthy r then [r] else if truthy l then [l] else []) in
  match fuel with
  | 0%nat => ub
  | S fuel => rest ← rb_augment_path fuel parent; mret (calls ++ rest)
  end.

Definition rb_augment_insert (node : Z) : M rb (list Z) :=
  sz ← gets (λ s, size (nodes s));
  l ← get_left node;
  r ← get_right node;
  rb_augment_path sz (if truthy l then l else if truthy r then r else node).

Definition rb_augment_erase_begin (node : Z) : M rb Z :=
  r ← get_right node;
  l ← get_left node;
  if negb (truthy r) && negb (truthy l) then rb_parent node
  else if negb (truthy r) then mret l
  else if negb (truthy l) then mret r
  else
    deepest ← rb_next node;
    dr ← get_right deepest;
    if truthy dr then mret dr else
    dp ← rb_parent deepest;
    if negb (dp =? node) then mret dp else mret deepest.

Definition rb_augment_erase_end (node : Z) : M rb (list Z) :=
  sz ← gets (λ s, size (nodes s));
  if truthy node then rb_augment_path sz node else mret [].
