(* ===== verification/RbRep.v ===== *)
(** * Red-black trees: shapes and the stores that represent them

    A shape is a coloured binary tree of addresses; a position in a tree is a
    subtree together with the path to the root (a zipper).  [rep] and [ctx] say
    that a store holds a subtree and the surrounding of a position.  The
    rotations of rbtree.c are shown to rotate at a position. *)

From S2P Require Import Prelude RbTree.
#[local] Open Scope Z_scope.

(** ** Packed parents and colours *)
Inductive color := Red | Black.
#[global] Instance color_eq_dec : EqDecision color.
Proof. solve_decision. Defined.
Definition cz (c : color) : Z := match c with Red => RB_RED | Black => RB_BLACK end.

(** An address of a node, or null: the two low bits are clear. *)
Definition aligned (p : Z) : Prop := Z.land p 3 = 0.
Definition valid (p : Z) : Prop := aligned p ∧ p ≠ 0.
(** The packed word. *)
Definition pack (par : Z) (c : color) : Z := Z.lor par (cz c).

Section pack.
Implicit Types (p q : Z) (c d : color).

Lemma testbit_3 n : 0 ≤ n → Z.testbit 3 n = (n <? 2).
Proof.
  intros Hn. destruct (Z.ltb_spec n 2).
  - assert (n = 0 ∨ n = 1) as [->| ->] by lia; done.
  - apply Z.bits_above_log2; [lia|]. change (Z.log2 3) with 1. lia.
Qed.
Lemma testbit_1 n : 0 ≤ n → Z.testbit 1 n = (n =? 0).
Proof.
  intros Hn. destruct (Z.eqb_spec n 0) as [->|]; [done|].
  apply Z.bits_above_log2; [lia|]. change (Z.log2 1) with 0. lia.
Qed.
Lemma testbit_cz c n : 0 ≤ n → Z.testbit (cz c) n = (n =? 0) && bool_decide (c = Black).
Proof.
  intros Hn. destruct c; simpl; [by rewrite /RB_RED Z.bits_0 andb_false_r|].
  rewrite /RB_BLACK testbit_1 // andb_true_r //.
Qed.
Lemma aligned_low p n : aligned p → 0 ≤ n < 2 → Z.testbit p n = false.
Proof.
  intros Hp Hn. pose proof (f_equal (λ z, Z.testbit z n) Hp) as Hb. simpl in Hb.
  rewrite Z.land_spec Z.bits_0 testbit_3 in Hb; [|lia].
  rewrite (proj2 (Z.ltb_lt n 2)) in Hb; [|lia]. by rewrite andb_true_r in Hb.
Qed.

(** Bitwise reasoning on packed words. *)
Ltac bits :=
  apply Z.bits_inj'; let n := fresh "n" in intros n ?;
  rewrite ?Z.land_spec ?Z.lor_spec ?Z.land_spec ?Z.lor_spec ?Z.lnot_spec //
    ?testbit_3 // ?testbit_1 // ?testbit_cz //;
  destruct (Z.eqb_spec n 0), (Z.ltb_spec n 2); try lia;
  repeat match goal with
  | H : aligned ?p |- context [Z.testbit ?p ?n] => rewrite (aligned_low p n H); [|lia]
  end;
  rewrite ?orb_false_r ?orb_false_l ?andb_true_r ?andb_false_r ?orb_true_r //.

Lemma pack_parent p c : aligned p → pc_parent (pack p c) = p.
Proof. intros Hp. rewrite /pc_parent /pack. bits. Qed.
Lemma pack_color p c : aligned p → pc_color (pack p c) = cz c.
Proof. intros Hp. rewrite /pc_color /pack. bits. Qed.
Lemma pack_set_red p c : aligned p → pc_set_red (pack p c) = pack p Red.
Proof. intros Hp. rewrite /pc_set_red /pack. bits. Qed.
Lemma pack_set_black p c : aligned p → pc_set_black (pack p c) = pack p Black.
Proof. intros Hp. rewrite /pc_set_black /pack. bits. Qed.
Lemma pack_set_parent p q c : aligned p → aligned q → pc_set_parent (pack p c) q = pack q c.
Proof. intros Hp Hq. rewrite /pc_set_parent /pack. bits. Qed.
Lemma pack_set_color p c d : aligned p → pc_set_color (pack p c) (cz d) = pack p d.
Proof. intros Hp. rewrite /pc_set_color /pack. bits. Qed.
Lemma aligned_0 : aligned 0.
Proof. done. Qed.
Lemma pack_red p : pack p Red = p.
Proof. by rewrite /pack Z.lor_0_r. Qed.
Lemma truthy_cz c : truthy (cz c) = bool_decide (c = Black).
Proof. by destruct c. Qed.
End pack.

(** ** Shapes *)
Inductive tree := E | T (c : color) (l : tree) (p : Z) (r : tree).
Definition ptr (t : tree) : Z := match t with E => 0 | T _ _ p _ => p end.
Fixpoint inorder (t : tree) : list Z :=
  match t with E => [] | T _ l p r => inorder l ++ p :: inorder r end.

(** One step of the path to the root: the colour and address of the parent, its
    other subtree, and on which side the position is. *)
Inductive side := SL | SR.
Record frame := Fr { f_c : color; f_side : side; f_p : Z; f_sib : tree }.
Definition zpar (z : list frame) : Z := match z with [] => 0 | f :: _ => f_p f end.
Definition plug1 (f : frame) (t : tree) : tree :=
  match f_side f with
  | SL => T (f_c f) t (f_p f) (f_sib f)
  | SR => T (f_c f) (f_sib f) (f_p f) t
  end.
Fixpoint plug (z : list frame) (t : tree) : tree :=
  match z with [] => t | f :: z => plug z (plug1 f t) end.

(** ** Stores *)

(** What the store must hold for a subtree below [par], for the frames around a
    position whose subtree is at [hp]. *)
Definition entry : Type := Z * rb_node.
Fixpoint tmap (par : Z) (t : tree) : list entry :=
  match t with
  | E => []
  | T c l p r => (p, MkNode (pack par c) (ptr r) (ptr l)) :: tmap p l ++ tmap p r
  end.
Definition frame_node (par : Z) (f : frame) (hp : Z) : rb_node :=
  match f_side f with
  | SL => MkNode (pack par (f_c f)) (ptr (f_sib f)) hp
  | SR => MkNode (pack par (f_c f)) hp (ptr (f_sib f))
  end.
Fixpoint zmap (z : list frame) (hp : Z) : list entry :=
  match z with
  | [] => []
  | f :: z => (f_p f, frame_node (zpar z) f hp) :: tmap (f_p f) (f_sib f) ++ zmap z (f_p f)
  end.
Fixpoint zroot (z : list frame) (hp : Z) : Z :=
  match z with [] => hp | f :: z => zroot z (f_p f) end.

(** The store [m] holds the entries [es], at valid and distinct addresses, and
    agrees with [m0] elsewhere. *)
Record heap (m0 : gmap Z rb_node) (es : list entry) (m : gmap Z rb_node) : Prop := {
  hp_nodup : NoDup es.*1;
  hp_valid : Forall valid es.*1;
  hp_in a n : (a, n) ∈ es → m !! a = Some n;
  hp_out a : a ∉ es.*1 → m !! a = m0 !! a
}.

(** The tree has the subtree [t] at the position [z]. *)
Definition at_pos (m0 : gmap Z rb_node) (s : rb) (z : list frame) (t : tree) : Prop :=
  heap m0 (tmap (zpar z) t ++ zmap z (ptr t)) (nodes s) ∧ rb_root s = zroot z (ptr t).
(** The tree is [t]. *)
Definition is_tree (m0 : gmap Z rb_node) (s : rb) (t : tree) : Prop := at_pos m0 s [] t.

Section heap.
Implicit Types (m : gmap Z rb_node) (es : list entry) (t l r : tree) (z : list frame).

Lemma heap_perm m0 es es' m : es ≡ₚ es' → heap m0 es m → heap m0 es' m.
Proof.
  intros Hp [H1 H2 H3 H4]. split.
  - by rewrite -Hp.
  - by rewrite -Hp.
  - intros a n. rewrite -Hp. apply H3.
  - intros a. rewrite -Hp. apply H4.
Qed.
Lemma heap_lookup m0 es m a n es' : heap m0 es m → es ≡ₚ (a, n) :: es' → m !! a = Some n.
Proof. intros Hh Hp. apply (hp_in _ _ _ Hh). rewrite Hp. set_solver. Qed.
Lemma heap_write m0 es m a n n' es' :
  heap m0 es m → es ≡ₚ (a, n) :: es' → heap m0 ((a, n') :: es') (<[a := n']> m).
Proof.
  intros Hh Hp. apply (heap_perm _ _ _ _ Hp) in Hh as [H1 H2 H3 H4].
  cbn [fmap list_fmap fst] in H1, H2, H4. pose proof H1 as [Ha H1']%NoDup_cons.
  split; cbn [fmap list_fmap fst]; [done|done|..].
  - intros b k [[= -> ->]|Hb]%elem_of_cons; [by rewrite lookup_insert_eq|].
    rewrite lookup_insert_ne; [apply H3; set_solver|].
    intros ->. apply Ha, list_elem_of_fmap. by exists (b, k).
  - intros b Hb. rewrite lookup_insert_ne; [by apply H4|set_solver].
Qed.
Lemma heap_ne m0 es m a n b k es' : heap m0 es m → es ≡ₚ (a, n) :: (b, k) :: es' → a ≠ b.
Proof.
  intros Hh Hp. apply (heap_perm _ _ _ _ Hp) in Hh. destruct Hh as [Hnd _ _ _].
  cbn in Hnd. apply NoDup_cons in Hnd as [Hnd _]. set_solver.
Qed.
Lemma heap_valid m0 es m a n es' : heap m0 es m → es ≡ₚ (a, n) :: es' → valid a.
Proof.
  intros Hh Hp. apply (heap_perm _ _ _ _ Hp) in Hh. destruct Hh as [_ Hv _ _].
  by apply Forall_cons in Hv as [? _].
Qed.

(** The root of a subtree is not another node of the store. *)
Lemma heap_ptr_ne m0 es m a n q t es' :
  heap m0 es m → es ≡ₚ (a, n) :: tmap q t ++ es' → ptr t ≠ a.
Proof.
  intros Hh Hp. destruct t as [|c l p r]; simpl in *.
  - pose proof (heap_valid _ _ _ _ _ _ Hh Hp) as [_ ?]. done.
  - intros ->. eapply heap_ne; [done| |reflexivity]. exact Hp.
Qed.

(** ** Moving in the zipper *)
Lemma zmap_move z f t :
  tmap (zpar (f :: z)) t ++ zmap (f :: z) (ptr t) ≡ₚ
  tmap (zpar z) (plug1 f t) ++ zmap z (ptr (plug1 f t)).
Proof.
  destruct f as [c [] p sib]; rewrite /plug1 /frame_node /=; solve_Permutation.
Qed.
Lemma at_pos_up m0 s f z t : at_pos m0 s (f :: z) t ↔ at_pos m0 s z (plug1 f t).
Proof.
  rewrite /at_pos. assert (ptr (plug1 f t) = f_p f) as Hp by by destruct f as [c [] p sib].
  split; intros [Hh Hr]; (split; [|by rewrite Hr /= Hp]).
  - eapply heap_perm, Hh. apply zmap_move.
  - eapply heap_perm, Hh. symmetry. apply zmap_move.
Qed.
Lemma at_pos_plug m0 s z t : at_pos m0 s z t ↔ is_tree m0 s (plug z t).
Proof.
  revert t. induction z as [|f z IH]; intros t; [done|]. by rewrite at_pos_up IH.
Qed.

Lemma zpar_aligned m0 es m z hp es' :
  heap m0 es m → es ≡ₚ zmap z hp ++ es' → aligned (zpar z).
Proof.
  intros Hh Hp. destruct z as [|f z]; [done|].
  eapply heap_valid; [done|exact Hp].
Qed.
End heap.

(** ** Symbolic execution over a heap of entries *)
Lemma pull_cons {A} (x y : A) l l' : l ≡ₚ x :: l' → y :: l ≡ₚ x :: y :: l'.
Proof. intros ->. apply perm_swap. Qed.
Lemma pull_app_l {A} (x : A) l1 l2 l' : l1 ≡ₚ x :: l' → l1 ++ l2 ≡ₚ x :: (l' ++ l2).
Proof. by intros ->. Qed.
Lemma pull_app_r {A} (x : A) l1 l2 l' : l2 ≡ₚ x :: l' → l1 ++ l2 ≡ₚ x :: (l1 ++ l').
Proof. intros ->. by rewrite Permutation_middle. Qed.

(** Bring the entry of an address to the front. *)
Ltac pull :=
  lazymatch goal with
  | |- (?a, _) :: _ ≡ₚ (?a, _) :: _ => reflexivity
  | |- _ :: _ ≡ₚ _ => eapply pull_cons; pull
  | |- _ ++ _ ≡ₚ _ => first [eapply pull_app_l; pull | eapply pull_app_r; pull]
  end.

(** The same for the entries of a subtree or of a context. *)
Lemma pullb_base {A} (b : list A) : b ≡ₚ b ++ [].
Proof. by rewrite app_nil_r. Qed.
Lemma pullb_cons {A} (y : A) b l l' : l ≡ₚ b ++ l' → y :: l ≡ₚ b ++ y :: l'.
Proof. intros ->. by rewrite Permutation_middle. Qed.
Lemma pullb_app_l {A} (b l1 l2 l' : list A) : l1 ≡ₚ b ++ l' → l1 ++ l2 ≡ₚ b ++ (l' ++ l2).
Proof. intros ->. by rewrite app_assoc. Qed.
Lemma pullb_app_r {A} (b l1 l2 l' : list A) : l2 ≡ₚ b ++ l' → l1 ++ l2 ≡ₚ b ++ (l1 ++ l').
Proof. intros ->. rewrite !app_assoc. by rewrite (Permutation_app_comm l1 b). Qed.
Ltac pullb :=
  lazymatch goal with
  | |- ?b ≡ₚ ?b ++ _ => apply pullb_base
  | |- ?b ++ _ ≡ₚ ?b ++ _ => reflexivity
  | |- _ :: _ ≡ₚ _ => eapply pullb_cons; pullb
  | |- _ ++ _ ≡ₚ _ => first [eapply pullb_app_l; pullb | eapply pullb_app_r; pullb]
  end.

Section steps.
Context (m0 : gmap Z rb_node).
Implicit Types (m : gmap Z rb_node) (es : list entry) (Φ : unit → rb → Prop).

Lemma wp_nd a n es es' m rt (Φ : rb_node → rb → Prop) :
  heap m0 es m → es ≡ₚ (a, n) :: es' → Φ n (MkRb m rt) → wp (nd a) Φ (MkRb m rt).
Proof. intros Hh Hp HΦ. by rewrite /wp /nd /= (heap_lookup _ _ _ _ _ _ Hh Hp). Qed.
Lemma wp_nd_mod f a n es es' m rt Φ :
  heap m0 es m → es ≡ₚ (a, n) :: es' →
  (∀ m', heap m0 ((a, f n) :: es') m' → Φ tt (MkRb m' rt)) → wp (nd_mod f a) Φ (MkRb m rt).
Proof.
  intros Hh Hp HΦ. rewrite /wp /nd_mod /= (heap_lookup _ _ _ _ _ _ Hh Hp).
  by apply HΦ, (heap_write _ es _ _ n).
Qed.

Lemma wp_get_left a n es es' m rt (Φ : Z → rb → Prop) :
  heap m0 es m → es ≡ₚ (a, n) :: es' → Φ (rb_left n) (MkRb m rt) → wp (get_left a) Φ (MkRb m rt).
Proof. intros. apply wp_bind. eapply wp_nd; [done..|]. by apply wp_ret. Qed.
Lemma wp_get_right a n es es' m rt (Φ : Z → rb → Prop) :
  heap m0 es m → es ≡ₚ (a, n) :: es' → Φ (rb_right n) (MkRb m rt) → wp (get_right a) Φ (MkRb m rt).
Proof. intros. apply wp_bind. eapply wp_nd; [done..|]. by apply wp_ret. Qed.
Lemma wp_rb_parent a par c r l es es' m rt (Φ : Z → rb → Prop) :
  heap m0 es m → es ≡ₚ (a, MkNode (pack par c) r l) :: es' → aligned par →
  Φ par (MkRb m rt) → wp (rb_parent a) Φ (MkRb m rt).
Proof.
  intros. apply wp_bind. eapply wp_nd; [done..|]. apply wp_ret. cbn. by rewrite pack_parent.
Qed.
Lemma wp_rb_color a par c r l es es' m rt (Φ : Z → rb → Prop) :
  heap m0 es m → es ≡ₚ (a, MkNode (pack par c) r l) :: es' → aligned par →
  Φ (cz c) (MkRb m rt) → wp (rb_color a) Φ (MkRb m rt).
Proof.
  intros. apply wp_bind. eapply wp_nd; [done..|]. apply wp_ret. cbn. by rewrite pack_color.
Qed.
Lemma wp_rb_is_red a par c r l es es' m rt (Φ : bool → rb → Prop) :
  heap m0 es m → es ≡ₚ (a, MkNode (pack par c) r l) :: es' → aligned par →
  Φ (bool_decide (c = Red)) (MkRb m rt) → wp (rb_is_red a) Φ (MkRb m rt).
Proof.
  intros. apply wp_bind. eapply wp_rb_color; [done..|]. apply wp_ret. by destruct c.
Qed.
Lemma wp_rb_is_black a par c r l es es' m rt (Φ : bool → rb → Prop) :
  heap m0 es m → es ≡ₚ (a, MkNode (pack par c) r l) :: es' → aligned par →
  Φ (bool_decide (c = Black)) (MkRb m rt) → wp (rb_is_black a) Φ (MkRb m rt).
Proof.
  intros. apply wp_bind. eapply wp_rb_color; [done..|]. apply wp_ret. by destruct c.
Qed.
Lemma wp_rb_set_parent a q par c r l es es' m rt Φ :
  heap m0 es m → es ≡ₚ (a, MkNode (pack par c) r l) :: es' → aligned par → aligned q →
  (∀ m', heap m0 ((a, MkNode (pack q c) r l) :: es') m' → Φ tt (MkRb m' rt)) →
  wp (rb_set_parent a q) Φ (MkRb m rt).
Proof.
  intros Hh Hp Ha Hq HΦ. eapply wp_nd_mod; [done..|]. rewrite /on_pc /=. by rewrite pack_set_parent.
Qed.
Lemma wp_rb_set_black a par c r l es es' m rt Φ :
  heap m0 es m → es ≡ₚ (a, MkNode (pack par c) r l) :: es' → aligned par →
  (∀ m', heap m0 ((a, MkNode (pack par Black) r l) :: es') m' → Φ tt (MkRb m' rt)) →
  wp (rb_set_black a) Φ (MkRb m rt).
Proof.
  intros Hh Hp Ha HΦ. eapply wp_nd_mod; [done..|]. rewrite /on_pc /=. by rewrite pack_set_black.
Qed.
Lemma wp_rb_set_red a par c r l es es' m rt Φ :
  heap m0 es m → es ≡ₚ (a, MkNode (pack par c) r l) :: es' → aligned par →
  (∀ m', heap m0 ((a, MkNode (pack par Red) r l) :: es') m' → Φ tt (MkRb m' rt)) →
  wp (rb_set_red a) Φ (MkRb m rt).
Proof.
  intros Hh Hp Ha HΦ. eapply wp_nd_mod; [done..|]. rewrite /on_pc /=. by rewrite pack_set_red.
Qed.
Lemma wp_rb_set_color a d par c r l es es' m rt Φ :
  heap m0 es m → es ≡ₚ (a, MkNode (pack par c) r l) :: es' → aligned par →
  (∀ m', heap m0 ((a, MkNode (pack par d) r l) :: es') m' → Φ tt (MkRb m' rt)) →
  wp (rb_set_color a (cz d)) Φ (MkRb m rt).
Proof.
  intros Hh Hp Ha HΦ. eapply wp_nd_mod; [done..|]. rewrite /on_pc /=. by rewrite pack_set_color.
Qed.
End steps.

(** Alignment of the parent pointers that occur. *)
Ltac al :=
  lazymatch goal with
  | |- aligned 0 => exact aligned_0
  | |- aligned ?p =>
      first [ eassumption
            | match goal with H : valid p |- _ => exact (proj1 H) end
            | match goal with H : heap _ _ _ |- _ =>
                exact (proj1 (heap_valid _ _ _ p _ _ H ltac:(pull))) end ]
  end.

(** One step; [Hh] is the heap hypothesis before and after it. *)
Ltac rb_write Hh tac :=
  tac; let m := fresh "m" in let H := fresh "Hh" in
  intros m H; clear Hh; rename H into Hh; cbn [rb_left rb_right rb_parent_color] in Hh.
Ltac rb_step Hh :=
  lazymatch goal with
  | |- wp (_ ≫= _) _ _ => apply wp_bind
  | |- wp (mret _) _ _ => apply wp_ret
  | |- wp (gets _) _ _ => apply wp_gets
  | |- wp (set_root _) _ _ => apply wp_modify
  | |- wp (nd _) _ _ => eapply wp_nd; [exact Hh|pull|]
  | |- wp (get_left _) _ _ => eapply wp_get_left; [exact Hh|pull|]
  | |- wp (get_right _) _ _ => eapply wp_get_right; [exact Hh|pull|]
  | |- wp (rb_parent _) _ _ => eapply wp_rb_parent; [exact Hh|pull|al|]
  | |- wp (rb_color _) _ _ => eapply wp_rb_color; [exact Hh|pull|al|]
  | |- wp (rb_is_red _) _ _ => eapply wp_rb_is_red; [exact Hh|pull|al|]
  | |- wp (rb_is_black _) _ _ => eapply wp_rb_is_black; [exact Hh|pull|al|]
  | |- wp (set_left _ _) _ _ => rb_write Hh ltac:(eapply wp_nd_mod; [exact Hh|pull|])
  | |- wp (set_right _ _) _ _ => rb_write Hh ltac:(eapply wp_nd_mod; [exact Hh|pull|])
  | |- wp (rb_set_parent _ _) _ _ => rb_write Hh ltac:(eapply wp_rb_set_parent; [exact Hh|pull|al|al|])
  | |- wp (rb_set_black _) _ _ => rb_write Hh ltac:(eapply wp_rb_set_black; [exact Hh|pull|al|])
  | |- wp (rb_set_red _) _ _ => rb_write Hh ltac:(eapply wp_rb_set_red; [exact Hh|pull|al|])
  | |- wp (rb_set_color _ (cz _)) _ _ => rb_write Hh ltac:(eapply wp_rb_set_color; [exact Hh|pull|al|])
  end; cbn [rb_left rb_right rb_parent_color nodes rb_root].
Ltac rb_steps Hh := repeat rb_step Hh.

Lemma truthy_valid p : valid p → truthy p = true.
Proof. intros [_ ?]. by apply truthy_true. Qed.

(** The tests of the code, decided by the shape. *)
Ltac rb_if Hh :=
  lazymatch goal with
  | |- context [truthy 0] => change (truthy 0) with false
  | |- context [truthy ?p] =>
      rewrite (truthy_valid p); [|first [eassumption|eapply heap_valid; [exact Hh|pull]]]
  | |- context [?x =? ?x] => rewrite (Z.eqb_refl x)
  | |- context [?x =? ?y] => rewrite (proj2 (Z.eqb_neq x y)); [|by auto]
  end; cbn [when negb andb orb].
Ltac rb_auto Hh := repeat first [rb_step Hh | rb_if Hh].

Section rotate.
Context (m0 : gmap Z rb_node).
Implicit Types (a b d : tree) (z : list frame).

(** Replacing the child [x] of the parent of a position by [y], in the two forms
    of the code. *)
Lemma relink_left_aux m rt z x y es n :
  heap m0 (zmap z x ++ (x, n) :: es) m → rt = zroot z x →
  wp (if truthy (zpar z) then
        pl ← get_left (zpar z);
        if x =? pl then set_left (zpar z) y else set_right (zpar z) y
      else set_root y)
     (λ _ s', heap m0 (zmap z y ++ (x, n) :: es) (nodes s') ∧ rb_root s' = zroot z y) (MkRb m rt).
Proof.
  intros Hh ->. destruct z as [|[cf [] pf sf] z]; cbn [zpar f_p zmap zroot frame_node f_side] in *.
  - by rb_auto Hh.
  - rb_auto Hh. split; [|done]. eapply heap_perm, Hh. solve_Permutation.
  - assert (ptr sf ≠ x) as Hne.
    { lazymatch type of Hh with heap _ ((?e :: _) ++ _) _ =>
        apply (heap_ptr_ne _ _ _ x n pf sf (e :: zmap z pf ++ es) Hh) end. solve_Permutation. }
    rb_auto Hh. split; [|done]. eapply heap_perm, Hh. solve_Permutation.
Qed.
Lemma relink_right_aux m rt z x y es n :
  heap m0 (zmap z x ++ (x, n) :: es) m → rt = zroot z x →
  wp (if truthy (zpar z) then
        pr ← get_right (zpar z);
        if x =? pr then set_right (zpar z) y else set_left (zpar z) y
      else set_root y)
     (λ _ s', heap m0 (zmap z y ++ (x, n) :: es) (nodes s') ∧ rb_root s' = zroot z y) (MkRb m rt).
Proof.
  intros Hh ->. destruct z as [|[cf [] pf sf] z]; cbn [zpar f_p zmap zroot frame_node f_side] in *.
  - by rb_auto Hh.
  - assert (ptr sf ≠ x) as Hne.
    { lazymatch type of Hh with heap _ ((?e :: _) ++ _) _ =>
        apply (heap_ptr_ne _ _ _ x n pf sf (e :: zmap z pf ++ es) Hh) end. solve_Permutation. }
    rb_auto Hh. split; [|done]. eapply heap_perm, Hh. solve_Permutation.
  - rb_auto Hh. split; [|done]. eapply heap_perm, Hh. solve_Permutation.
Qed.

Lemma relink_left_run m rt z x y es es1 es2 n (Φ : unit → rb → Prop) :
  heap m0 es m → es ≡ₚ (x, n) :: es1 → es1 ≡ₚ zmap z x ++ es2 → rt = zroot z x →
  (∀ m', heap m0 ((x, n) :: zmap z y ++ es2) m' → Φ tt (MkRb m' (zroot z y))) →
  wp (if truthy (zpar z) then
        pl ← get_left (zpar z);
        if x =? pl then set_left (zpar z) y else set_right (zpar z) y
      else set_root y) Φ (MkRb m rt).
Proof.
  intros Hh Hp1 Hp2 Hr HΦ. eapply wp_mono.
  - apply (relink_left_aux _ _ z x y es2 n); [|done]. eapply heap_perm, Hh.
    rewrite Hp1 Hp2. solve_Permutation.
  - intros [] [m' rt'] [Hh' Hrt']. simpl in *. subst rt'. apply HΦ.
    eapply heap_perm, Hh'. solve_Permutation.
Qed.
Lemma relink_right_run m rt z x y es es1 es2 n (Φ : unit → rb → Prop) :
  heap m0 es m → es ≡ₚ (x, n) :: es1 → es1 ≡ₚ zmap z x ++ es2 → rt = zroot z x →
  (∀ m', heap m0 ((x, n) :: zmap z y ++ es2) m' → Φ tt (MkRb m' (zroot z y))) →
  wp (if truthy (zpar z) then
        pr ← get_right (zpar z);
        if x =? pr then set_right (zpar z) y else set_left (zpar z) y
      else set_root y) Φ (MkRb m rt).
Proof.
  intros Hh Hp1 Hp2 Hr HΦ. eapply wp_mono.
  - apply (relink_right_aux _ _ z x y es2 n); [|done]. eapply heap_perm, Hh.
    rewrite Hp1 Hp2. solve_Permutation.
  - intros [] [m' rt'] [Hh' Hrt']. simpl in *. subst rt'. apply HΦ.
    eapply heap_perm, Hh'. solve_Permutation.
Qed.

Lemma at_pos_zpar s z t : at_pos m0 s z t → aligned (zpar z).
Proof.
  intros [Hh _]. eapply (zpar_aligned _ _ _ z (ptr t)); [exact Hh|].
  by rewrite Permutation_app_comm.
Qed.

Lemma rotate_left_run s z c1 a x c2 b y d :
  at_pos m0 s z (T c1 a x (T c2 b y d)) →
  wp (rb_rotate_left x) (λ _ s', at_pos m0 s' z (T c2 (T c1 a x b) y d)) s.
Proof.
  intros Hs. pose proof (at_pos_zpar _ _ _ Hs) as Hal. destruct s as [m rt], Hs as [Hh Hr].
  simpl in Hr. cbn [nodes tmap ptr] in Hh. rewrite /rb_rotate_left.
  assert (Hx : valid x) by (eapply heap_valid; [exact Hh|pull]).
  assert (Hy : valid y) by (eapply heap_valid; [exact Hh|pull]).
  rb_steps Hh. destruct b as [|cb bl pb br]; cbn [ptr tmap] in *; rb_auto Hh.
  all: rb_write Hh ltac:(eapply relink_left_run; [exact Hh|pull|pullb|exact Hr|]); rb_auto Hh.
  all: split; [|done]; eapply heap_perm, Hh; cbn [tmap ptr]; solve_Permutation.
Qed.
Lemma rotate_right_run s z c1 a x c2 b y d :
  at_pos m0 s z (T c1 (T c2 a y b) x d) →
  wp (rb_rotate_right x) (λ _ s', at_pos m0 s' z (T c2 a y (T c1 b x d))) s.
Proof.
  intros Hs. pose proof (at_pos_zpar _ _ _ Hs) as Hal. destruct s as [m rt], Hs as [Hh Hr].
  simpl in Hr. cbn [nodes tmap ptr] in Hh. rewrite /rb_rotate_right.
  assert (Hx : valid x) by (eapply heap_valid; [exact Hh|pull]).
  assert (Hy : valid y) by (eapply heap_valid; [exact Hh|pull]).
  rb_steps Hh. destruct b as [|cb bl pb br]; cbn [ptr tmap] in *; rb_auto Hh.
  all: rb_write Hh ltac:(eapply relink_right_run; [exact Hh|pull|pullb|exact Hr|]); rb_auto Hh.
  all: split; [|done]; eapply heap_perm, Hh; cbn [tmap ptr]; solve_Permutation.
Qed.
End rotate.
