(* ===== verification/RbInsert.v ===== *)
(** * Red-black trees: insertion

    The red-black conditions on shapes and on positions, and the correctness of
    [rb_insert_color]: rebalancing keeps the order of the nodes and restores the
    red-black conditions. *)

From S2P Require Import Prelude RbTree RbRep.
#[local] Open Scope Z_scope.

(** ** The red-black conditions *)
Definition root_color (t : tree) : color := match t with E => Black | T c _ _ _ => c end.

(** No red node has a red child, and every path has [n] black nodes. *)
Fixpoint wf (t : tree) (n : nat) : Prop :=
  match t with
  | E => n = 0%nat
  | T Red l _ r => wf l n ∧ wf r n ∧ root_color l = Black ∧ root_color r = Black
  | T Black l _ r => match n with 0%nat => False | S n => wf l n ∧ wf r n end
  end.
(** A red-black tree: the root is black as well. *)
Definition is_rb (t : tree) : Prop := root_color t = Black ∧ ∃ n, wf t n.

(** The colour of the parent of a position. *)
Definition top_color (z : list frame) : color := match z with [] => Black | f :: _ => f_c f end.

(** A context in which a subtree of black height [n] is expected; below a red
    frame is a black one. *)
Fixpoint zwf (z : list frame) (n : nat) : Prop :=
  match z with
  | [] => True
  | Fr Red _ _ sib :: z =>
      wf sib n ∧ root_color sib = Black ∧ z ≠ [] ∧ top_color z = Black ∧ zwf z n
  | Fr Black _ _ sib :: z => wf sib n ∧ zwf z (S n)
  end.

Section shapes.
Implicit Types (t l r : tree) (z : list frame) (f : frame).

Lemma inorder_plug z t t' : inorder t = inorder t' → inorder (plug z t) = inorder (plug z t').
Proof.
  revert t t'. induction z as [|[c [] p sib] z IH]; intros t t' Ht; [done|apply IH..];
    by rewrite /plug1 /= Ht.
Qed.
Lemma plug_wf z t n :
  zwf z n → wf t n → (root_color t = Red → top_color z = Black) → ∃ n', wf (plug z t) n'.
Proof.
  revert t n. induction z as [|[c sd p sib] z IH]; intros t n Hz Ht Hc; [by exists n|].
  cbn [plug]. destruct c; cbn [zwf] in Hz.
  - destruct Hz as (Hs&Hb&Hne&Htop&Hz). assert (root_color t = Black).
    { destruct (root_color t); [|done]. by specialize (Hc eq_refl). }
    apply (IH _ n); [done| |done]. by destruct sd; cbn; split_and!.
  - destruct Hz as (Hs&Hz). apply (IH _ (S n)); [done| |by destruct sd].
    by destruct sd; cbn; split_and!.
Qed.
Lemma wf_height_inj t n n' : wf t n → wf t n' → n = n'.
Proof.
  revert n n'. induction t as [|[] l IHl p r IHr]; intros n n'; cbn.
  - by intros -> ->.
  - intros (?&_) (?&_). eauto.
  - destruct n, n'; try done. intros [? _] [? _]. f_equal. eauto.
Qed.

(** A tree of black height [n] has at least [2^n - 1] nodes, and no path is more
    than twice as long as another: the height is logarithmic. *)
Fixpoint depth (t : tree) : nat :=
  match t with E => 0 | T _ l _ r => S (Nat.max (depth l) (depth r)) end.
Lemma wf_depth t n :
  wf t n → (depth t ≤ 2 * n + match root_color t with Red => 1 | Black => 0 end)%nat.
Proof.
  revert n. induction t as [|[] l IHl p r IHr]; intros n; cbn [wf depth root_color].
  - lia.
  - intros (Hl&Hr&Cl&Cr). specialize (IHl n Hl); specialize (IHr n Hr).
    rewrite Cl in IHl. rewrite Cr in IHr. lia.
  - destruct n as [|n]; [done|]. intros (Hl&Hr). specialize (IHl n Hl); specialize (IHr n Hr).
    destruct (root_color l), (root_color r); lia.
Qed.
Lemma wf_size t n : wf t n → (2 ^ n ≤ length (inorder t) + 1)%nat.
Proof.
  revert n. induction t as [|[] l IHl p r IHr]; intros n; cbn [wf inorder];
    rewrite ?length_app; cbn [length].
  - intros ->. simpl. lia.
  - intros (Hl&Hr&_). specialize (IHl n Hl); specialize (IHr n Hr). lia.
  - destruct n as [|n]; [done|]. intros (Hl&Hr). specialize (IHl n Hl); specialize (IHr n Hr).
    rewrite Nat.pow_succ_r'. lia.
Qed.
End shapes.

(** ** Single operations at a position *)
Section single.
Context (m0 : gmap Z rb_node).
Implicit Types (l r t : tree) (z : list frame) (s : rb).

Lemma at_pos_down s f z t : at_pos m0 s z (plug1 f t) → at_pos m0 s (f :: z) t.
Proof. apply at_pos_up. Qed.

Lemma at_pos_out s f z t : at_pos m0 s (f :: z) t → at_pos m0 s z (plug1 f t).
Proof. apply at_pos_up. Qed.

Lemma at_pos_valid s z c l p r : at_pos m0 s z (T c l p r) → valid p.
Proof. intros [Hh _]. cbn [tmap] in Hh. eapply heap_valid; [exact Hh|pull]. Qed.

Lemma parent_run s z c l p r :
  at_pos m0 s z (T c l p r) → rb_parent p s = Some (zpar z, s).
Proof.
  intros Hs. pose proof (at_pos_zpar _ _ _ _ Hs). destruct s as [m rt], Hs as [Hh _]. cbn [tmap] in Hh.
  assert (wp (rb_parent p) (λ v s', v = zpar z ∧ s' = MkRb m rt) (MkRb m rt))
    as (v&s'&?&->&->)%wp_inv; [|done].
  by rb_step Hh.
Qed.
Lemma left_run s z c l p r : at_pos m0 s z (T c l p r) → get_left p s = Some (ptr l, s).
Proof.
  destruct s as [m rt]. intros [Hh _]. cbn [tmap] in Hh.
  assert (wp (get_left p) (λ v s', v = ptr l ∧ s' = MkRb m rt) (MkRb m rt))
    as (v&s'&?&->&->)%wp_inv; [|done].
  by rb_step Hh.
Qed.
Lemma right_run s z c l p r : at_pos m0 s z (T c l p r) → get_right p s = Some (ptr r, s).
Proof.
  destruct s as [m rt]. intros [Hh _]. cbn [tmap] in Hh.
  assert (wp (get_right p) (λ v s', v = ptr r ∧ s' = MkRb m rt) (MkRb m rt))
    as (v&s'&?&->&->)%wp_inv; [|done].
  by rb_step Hh.
Qed.
Lemma color_run s z c l p r : at_pos m0 s z (T c l p r) → rb_color p s = Some (cz c, s).
Proof.
  intros Hs. pose proof (at_pos_zpar _ _ _ _ Hs). destruct s as [m rt], Hs as [Hh _]. cbn [tmap] in Hh.
  assert (wp (rb_color p) (λ v s', v = cz c ∧ s' = MkRb m rt) (MkRb m rt))
    as (v&s'&?&->&->)%wp_inv; [|done].
  by rb_step Hh.
Qed.
Lemma is_red_run s z c l p r :
  at_pos m0 s z (T c l p r) → rb_is_red p s = Some (bool_decide (c = Red), s).
Proof.
  intros Hs. rewrite /rb_is_red (bind_run _ _ _ _ _ (color_run _ _ _ _ _ _ Hs)). by destruct c.
Qed.
Lemma is_black_run s z c l p r :
  at_pos m0 s z (T c l p r) → rb_is_black p s = Some (bool_decide (c = Black), s).
Proof.
  intros Hs. rewrite /rb_is_black (bind_run _ _ _ _ _ (color_run _ _ _ _ _ _ Hs)). by destruct c.
Qed.
(** The tests on a pointer that may be null. *)
Lemma red_node_run s z t :
  at_pos m0 s z t → red_node (ptr t) s = Some (bool_decide (root_color t = Red), s).
Proof.
  intros Hs. destruct t as [|c l p r]; [done|]. cbn [ptr root_color].
  rewrite /red_node (truthy_valid p); [by eapply is_red_run|by eapply at_pos_valid].
Qed.
Lemma black_or_null_run s z t :
  at_pos m0 s z t → black_or_null (ptr t) s = Some (bool_decide (root_color t = Black), s).
Proof.
  intros Hs. destruct t as [|c l p r]; [done|]. cbn [ptr root_color].
  rewrite /black_or_null (truthy_valid p); [by eapply is_black_run|by eapply at_pos_valid].
Qed.

Lemma set_black_run s z c l p r :
  at_pos m0 s z (T c l p r) → wp (rb_set_black p) (λ _ s', at_pos m0 s' z (T Black l p r)) s.
Proof.
  intros Hs. pose proof (at_pos_zpar _ _ _ _ Hs). destruct s as [m rt], Hs as [Hh Hr].
  cbn [tmap nodes] in Hh. rb_step Hh. split; [|done]. exact Hh.
Qed.
Lemma set_red_run s z c l p r :
  at_pos m0 s z (T c l p r) → wp (rb_set_red p) (λ _ s', at_pos m0 s' z (T Red l p r)) s.
Proof.
  intros Hs. pose proof (at_pos_zpar _ _ _ _ Hs). destruct s as [m rt], Hs as [Hh Hr].
  cbn [tmap nodes] in Hh. rb_step Hh. split; [|done]. exact Hh.
Qed.
Lemma set_color_run s z c d l p r :
  at_pos m0 s z (T c l p r) → wp (rb_set_color p (cz d)) (λ _ s', at_pos m0 s' z (T d l p r)) s.
Proof.
  intros Hs. pose proof (at_pos_zpar _ _ _ _ Hs). destruct s as [m rt], Hs as [Hh Hr].
  cbn [tmap nodes] in Hh. rb_step Hh. split; [|done]. exact Hh.
Qed.
Lemma root_run s z t : at_pos m0 s z t → rb_root s = ptr (plug z t).
Proof. intros Hs%at_pos_plug. apply Hs. Qed.
End single.

(** ** The loop of [rb_insert_color] *)
Section insert.
Context (m0 : gmap Z rb_node).
Implicit Types (l r t sib : tree) (z : list frame) (s : rb).

(** Rotating the grandparent when the uncle is black: the new subtree. *)
Definition rebalanced (s1 s2 : side) (l : tree) (x : Z) (r : tree) (p : Z) (sib : tree)
  (g : Z) (u : tree) : tree :=
  match s2, s1 with
  | SL, SL => T Black (T Red l x r) p (T Red sib g u)
  | SL, SR => T Black (T Red sib p l) x (T Red r g u)
  | SR, SR => T Black (T Red u g sib) p (T Red l x r)
  | SR, SL => T Black (T Red u g l) x (T Red r p sib)
  end.

(** The loop stops below a black parent. *)
Lemma insert_loop_stop fuel s z c l x r :
  at_pos m0 s z (T c l x r) → top_color z = Black → insert_loop fuel x s = Some (tt, s).
Proof.
  intros Hs Htop. destruct z as [|[fc sd p sib] z].
  - destruct fuel; cbn [insert_loop]; by rewrite (bind_run _ _ _ _ _ (parent_run _ _ _ _ _ _ _ Hs)).
  - cbn in Htop. subst fc. pose proof (at_pos_out _ _ _ _ _ Hs) as Hp.
    assert (Hred : red_node p s = Some (false, s)).
    { destruct sd; exact (red_node_run _ _ _ _ Hp). }
    destruct fuel; cbn [insert_loop]; rewrite (bind_run _ _ _ _ _ (parent_run _ _ _ _ _ _ _ Hs));
      by rewrite (bind_run _ _ _ _ _ Hred).
Qed.

Lemma wp_run {A B} (m : M rb A) (k : A → M rb B) s a Φ :
  m s = Some (a, s) → wp (k a) Φ s → wp (m ≫= k) Φ s.
Proof. intros Hm HΦ. rewrite /wp (bind_run _ _ _ _ _ Hm). exact HΦ. Qed.

(** A node is not its own sibling. *)
Lemma sib_ne s f z c l p r : at_pos m0 s (f :: z) (T c l p r) → ptr (f_sib f) ≠ p.
Proof.
  intros [Hh _]. cbn [tmap zmap ptr] in Hh. destruct f as [fc sd q sib]. cbn [f_p f_sib] in *.
  eapply (heap_ptr_ne _ _ _ p _ q sib); [exact Hh|].
  cbn [app]. apply perm_skip. pullb.
Qed.

(** A red uncle: the three nodes change colour and the loop goes on at the
    grandparent. *)
Lemma insert_loop_recolor fuel s z d1 d2 l x r p sib g ul u ur Φ :
  at_pos m0 s (Fr Red d1 p sib :: Fr Black d2 g (T Red ul u ur) :: z) (T Red l x r) →
  (∀ s', at_pos m0 s' z (plug1 (Fr Red d2 g (T Black ul u ur))
           (plug1 (Fr Black d1 p sib) (T Red l x r))) →
     wp (insert_loop fuel g) Φ s') →
  wp (insert_loop (S fuel) x) Φ s.
Proof.
  intros Hs HΦ. pose proof (at_pos_out _ _ _ _ _ Hs) as Hp.
  pose proof (at_pos_out _ _ _ _ _ Hp) as Hg.
  assert (∃ P, plug1 (Fr Red d1 p sib) (T Red l x r) = P ∧ ∃ pl pr, P = T Red pl p pr) as
    (P&HP&pl&pr&->).
  { destruct d1; eauto. }
  rewrite HP in Hp, Hg. cbn [insert_loop].
  eapply wp_run; [exact (parent_run _ _ _ _ _ _ _ Hs)|]. cbn [zpar f_p].
  eapply wp_run; [exact (red_node_run _ _ _ _ Hp)|]. cbn [root_color bool_decide negb].
  rewrite bool_decide_eq_true_2 //. cbn [negb].
  eapply wp_run; [exact (parent_run _ _ _ _ _ _ _ Hp)|]. cbn [zpar f_p].
  pose proof (sib_ne _ _ _ _ _ _ _ Hp) as Hne. cbn [f_sib] in Hne.
  destruct d2; cbn in Hg; (eapply wp_run; [exact (left_run _ _ _ _ _ _ _ Hg)|]); cbn [ptr] in *.
  - rewrite Z.eqb_refl.
    eapply wp_run; [exact (right_run _ _ _ _ _ _ _ Hg)|].
    pose proof (at_pos_down _ _ (Fr Black SR g (T Red pl p pr)) _ (T Red ul u ur) Hg) as Hu.
    eapply wp_run; [exact (red_node_run _ _ _ _ Hu)|]. rewrite bool_decide_eq_true_2 //.
    apply wp_bind. eapply wp_mono; [exact (set_black_run _ _ _ _ _ _ _ Hu)|]. intros [] s1 Hu1.
    pose proof (at_pos_out _ _ _ _ _ Hu1) as Hg1.
    pose proof (at_pos_down _ _ (Fr Black SL g (T Black ul u ur)) _ (T Red pl p pr) Hg1) as Hp1.
    apply wp_bind. eapply wp_mono; [exact (set_black_run _ _ _ _ _ _ _ Hp1)|]. intros [] s2 Hp2.
    pose proof (at_pos_out _ _ _ _ _ Hp2) as Hg2.
    apply wp_bind. eapply wp_mono; [exact (set_red_run _ _ _ _ _ _ _ Hg2)|]. intros [] s3 Hg3.
    apply HΦ. destruct d1; cbn in HP |- *; injection HP as <- <-; exact Hg3.
  - rewrite (proj2 (Z.eqb_neq p u)); [|by auto].
    eapply wp_run; [exact (left_run _ _ _ _ _ _ _ Hg)|].
    pose proof (at_pos_down _ _ (Fr Black SL g (T Red pl p pr)) _ (T Red ul u ur) Hg) as Hu.
    eapply wp_run; [exact (red_node_run _ _ _ _ Hu)|]. rewrite bool_decide_eq_true_2 //.
    apply wp_bind. eapply wp_mono; [exact (set_black_run _ _ _ _ _ _ _ Hu)|]. intros [] s1 Hu1.
    pose proof (at_pos_out _ _ _ _ _ Hu1) as Hg1.
    pose proof (at_pos_down _ _ (Fr Black SR g (T Black ul u ur)) _ (T Red pl p pr) Hg1) as Hp1.
    apply wp_bind. eapply wp_mono; [exact (set_black_run _ _ _ _ _ _ _ Hp1)|]. intros [] s2 Hp2.
    pose proof (at_pos_out _ _ _ _ _ Hp2) as Hg2.
    apply wp_bind. eapply wp_mono; [exact (set_red_run _ _ _ _ _ _ _ Hg2)|]. intros [] s3 Hg3.
    apply HΦ. destruct d1; cbn in HP |- *; injection HP as <- <-; exact Hg3.
Qed.

(** The last steps of a rotation case: the parent [q] becomes black, the
    grandparent red, and the grandparent is rotated. *)
Lemma finish_right s z q ql qr g u (k : M rb unit) Φ :
  at_pos m0 s z (T Black (T Red ql q qr) g u) →
  (∀ s', at_pos m0 s' z (T Black ql q (T Red qr g u)) → wp k Φ s') →
  wp (rb_set_black q;; rb_set_red g;; rb_rotate_right g;; k) Φ s.
Proof.
  intros Hg HΦ. pose proof (at_pos_down _ _ (Fr Black SL g u) _ (T Red ql q qr) Hg) as Hq.
  apply wp_bind. eapply wp_mono; [exact (set_black_run _ _ _ _ _ _ _ Hq)|]. intros [] s1 Hq1.
  pose proof (at_pos_out _ _ _ _ _ Hq1) as Hg1.
  apply wp_bind. eapply wp_mono; [exact (set_red_run _ _ _ _ _ _ _ Hg1)|]. intros [] s2 Hg2.
  apply wp_bind. eapply wp_mono; [exact (rotate_right_run _ _ _ _ _ _ _ _ _ _ Hg2)|].
  intros [] s3. apply HΦ.
Qed.
Lemma finish_left s z q ql qr g u (k : M rb unit) Φ :
  at_pos m0 s z (T Black u g (T Red ql q qr)) →
  (∀ s', at_pos m0 s' z (T Black (T Red u g ql) q qr) → wp k Φ s') →
  wp (rb_set_black q;; rb_set_red g;; rb_rotate_left g;; k) Φ s.
Proof.
  intros Hg HΦ. pose proof (at_pos_down _ _ (Fr Black SR g u) _ (T Red ql q qr) Hg) as Hq.
  apply wp_bind. eapply wp_mono; [exact (set_black_run _ _ _ _ _ _ _ Hq)|]. intros [] s1 Hq1.
  pose proof (at_pos_out _ _ _ _ _ Hq1) as Hg1.
  apply wp_bind. eapply wp_mono; [exact (set_red_run _ _ _ _ _ _ _ Hg1)|]. intros [] s2 Hg2.
  apply wp_bind. eapply wp_mono; [exact (rotate_left_run _ _ _ _ _ _ _ _ _ _ Hg2)|].
  intros [] s3. apply HΦ.
Qed.

(** A red node below a black parent ends the loop. *)
Lemma wp_insert_stop fuel s z c l x r Φ :
  at_pos m0 s z (T c l x r) → top_color z = Black → Φ tt s → wp (insert_loop fuel x) Φ s.
Proof. intros Hs Ht HΦ. rewrite /wp (insert_loop_stop _ _ _ _ _ _ _ Hs Ht). exact HΦ. Qed.

Lemma insert_loop_rotate fuel s z d1 d2 l x r p sib g u Φ :
  at_pos m0 s (Fr Red d1 p sib :: Fr Black d2 g u :: z) (T Red l x r) → root_color u = Black →
  (∀ s', at_pos m0 s' z (rebalanced d1 d2 l x r p sib g u) → Φ tt s') →
  wp (insert_loop (S fuel) x) Φ s.
Proof.
  intros Hs Hb HΦ. pose proof (at_pos_out _ _ _ _ _ Hs) as Hp.
  pose proof (at_pos_out _ _ _ _ _ Hp) as Hg.
  pose proof (sib_ne _ _ _ _ _ _ _ Hs) as Hnx. cbn [f_sib] in Hnx.
  cbn [insert_loop]. eapply wp_run; [exact (parent_run _ _ _ _ _ _ _ Hs)|]. cbn [zpar f_p].
  assert (Hredp : red_node p s = Some (true, s)).
  { destruct d1; exact (red_node_run _ _ _ _ Hp). }
  assert (Hparp : rb_parent p s = Some (g, s)).
  { destruct d1; exact (parent_run _ _ _ _ _ _ _ Hp). }
  assert (Hup : ptr u ≠ p) by (destruct d1; exact (sib_ne _ _ _ _ _ _ _ Hp)).
  eapply wp_run; [exact Hredp|]. cbn [negb]. eapply wp_run; [exact Hparp|].
  assert (Huw : ∀ f, plug1 f u = plug1 (Fr Black d2 g u) (plug1 (Fr Red d1 p sib) (T Red l x r)) →
    red_node (ptr u) s = Some (false, s)).
  { intros f Hf. rewrite -Hf in Hg. apply at_pos_up in Hg.
    by rewrite (red_node_run _ _ _ _ Hg) Hb. }
  destruct d2; cbn in Hg; (eapply wp_run; [exact (left_run _ _ _ _ _ _ _ Hg)|]).
  - replace (ptr (plug1 (Fr Red d1 p sib) (T Red l x r))) with p by by destruct d1.
    rewrite Z.eqb_refl. eapply wp_run; [exact (right_run _ _ _ _ _ _ _ Hg)|].
    eapply wp_run; [exact (Huw (Fr Black SR g (plug1 (Fr Red d1 p sib) (T Red l x r))) eq_refl)|].
    destruct d1; cbn in Hp, Hg; (eapply wp_run; [exact (right_run _ _ _ _ _ _ _ Hp)|]); cbn [ptr].
    + rewrite (proj2 (Z.eqb_neq _ _) Hnx). apply wp_bind, wp_ret.
      eapply finish_right; [exact Hg|]. intros s3 H3.
      pose proof (at_pos_down _ _ (Fr Black SL p (T Red sib g u)) _ (T Red l x r) H3) as Hx.
      eapply wp_insert_stop; [exact Hx|done|]. by apply HΦ.
    + rewrite Z.eqb_refl. apply wp_bind, wp_bind.
      eapply wp_mono; [exact (rotate_left_run _ _ _ _ _ _ _ _ _ _ Hp)|]. intros [] s1 H1.
      apply wp_ret. pose proof (at_pos_out _ _ _ _ _ H1) as Hg1.
      eapply finish_right; [exact Hg1|]. intros s3 H3.
      pose proof (at_pos_down _ _ (Fr Black SL x (T Red r g u)) _ (T Red sib p l) H3) as Hx.
      eapply wp_insert_stop; [exact Hx|done|]. by apply HΦ.
  - rewrite (proj2 (Z.eqb_neq p (ptr u))); [|by auto].
    eapply wp_run; [exact (left_run _ _ _ _ _ _ _ Hg)|].
    eapply wp_run; [exact (Huw (Fr Black SL g (plug1 (Fr Red d1 p sib) (T Red l x r))) eq_refl)|].
    destruct d1; cbn in Hp, Hg; (eapply wp_run; [exact (left_run _ _ _ _ _ _ _ Hp)|]); cbn [ptr].
    + rewrite Z.eqb_refl. apply wp_bind, wp_bind.
      eapply wp_mono; [exact (rotate_right_run _ _ _ _ _ _ _ _ _ _ Hp)|]. intros [] s1 H1.
      apply wp_ret. pose proof (at_pos_out _ _ _ _ _ H1) as Hg1.
      eapply finish_left; [exact Hg1|]. intros s3 H3.
      pose proof (at_pos_down _ _ (Fr Black SR x (T Red u g l)) _ (T Red r p sib) H3) as Hx.
      eapply wp_insert_stop; [exact Hx|done|]. by apply HΦ.
    + rewrite (proj2 (Z.eqb_neq _ _) Hnx). apply wp_bind, wp_ret.
      eapply finish_left; [exact Hg|]. intros s3 H3.
      pose proof (at_pos_down _ _ (Fr Black SR p (T Red u g sib)) _ (T Red l x r) H3) as Hx.
      eapply wp_insert_stop; [exact Hx|done|]. by apply HΦ.
Qed.

(** What rebalancing promises: the same order, and the conditions hold except
    perhaps for the colour of the root. *)
Definition rebalanced_to (t0 : tree) (s' : rb) : Prop :=
  ∃ t', is_tree m0 s' t' ∧ inorder t' = inorder t0 ∧ ∃ n, wf t' n.

Lemma insert_loop_run fuel s z n l x r :
  at_pos m0 s z (T Red l x r) → zwf z n → wf (T Red l x r) n → (length z ≤ fuel)%nat →
  wp (insert_loop fuel x) (λ _, rebalanced_to (plug z (T Red l x r))) s.
Proof.
  revert s z n l x r. induction fuel as [fuel IH] using lt_wf_ind.
  intros s z n l x r Hs Hz Hx Hf. destruct (decide (top_color z = Black)) as [Ht|Ht].
  { eapply wp_insert_stop; [exact Hs|done|]. apply at_pos_plug in Hs.
    exists (plug z (T Red l x r)). split_and!; [done..|]. by apply (plug_wf z _ n). }
  destruct z as [|[[] d1 p sib] z]; [done| |done].
  destruct Hz as (Hsib&Hsb&Hne&Htop&Hz).
  destruct z as [|[c d2 g u] z]; [done|]. cbn in Htop. subst c. destruct Hz as [Hu Hz].
  destruct fuel as [|fuel]; [cbn in Hf; lia|]. destruct Hx as (Hl&Hr&Hcl&Hcr).
  destruct u as [|[] ul u ur].
  2: { eapply insert_loop_recolor; [exact Hs|]. intros s' Hs'.
    destruct Hu as (Hul&Hur&_&_). cbn in Hf.
    destruct d2, d1; cbn [plug1 f_side f_c f_p f_sib] in Hs';
      (eapply wp_mono; [eapply (IH fuel); [lia|exact Hs'|exact Hz|by cbn; split_and!|cbn; lia]|]);
      intros [] s2 (t'&H1&H2&H3); exists t'; (split_and!; [done| |done]);
      rewrite H2; cbn [plug]; by apply inorder_plug. }
  all: eapply insert_loop_rotate; [exact Hs|done|]; intros s' Hs'; apply at_pos_plug in Hs';
    eexists; (split; [exact Hs'|]); split;
    [destruct d1, d2; cbn [plug plug1 rebalanced f_side f_c f_p f_sib]; apply inorder_plug; cbn;
       by rewrite -?app_assoc /= -?app_assoc
    |apply (plug_wf z _ (S n)); [done| |by destruct d1, d2];
       destruct d1, d2; cbn in Hu |- *; by split_and!].
Qed.
End insert.

(** ** The nodes before and after a position *)
Fixpoint before (z : list frame) : list Z :=
  match z with
  | [] => []
  | Fr _ SL p sib :: z => before z
  | Fr _ SR p sib :: z => before z ++ inorder sib ++ [p]
  end.
Fixpoint after (z : list frame) : list Z :=
  match z with
  | [] => []
  | Fr _ SL p sib :: z => p :: inorder sib ++ after z
  | Fr _ SR p sib :: z => after z
  end.
(** The link to a position, as the callers of [rb_link_node] find it. *)
Definition zlink (z : list frame) : link_t :=
  match z with
  | [] => L_root
  | Fr _ SL p _ :: _ => L_left p
  | Fr _ SR p _ :: _ => L_right p
  end.

Section positions.
Implicit Types (t l r : tree) (z : list frame) (s : rb).

Lemma inorder_split z t : inorder (plug z t) = before z ++ inorder t ++ after z.
Proof.
  revert t. induction z as [|[c [] p sib] z IH]; intros t; cbn [plug before after].
  - by rewrite app_nil_r.
  - rewrite IH /=. by rewrite -!app_assoc.
  - rewrite IH /=. by rewrite -!app_assoc.
Qed.
Lemma plug_wf_inv z t N :
  wf (plug z t) N → root_color (plug z t) = Black →
  ∃ n, wf t n ∧ zwf z n ∧ (root_color t = Red → top_color z = Black) ∧ (z = [] → n = N).
Proof.
  revert t. induction z as [|[c sd p sib] z IH]; intros t Hw Hr.
  { exists N. split_and!; try done. }
  destruct (IH _ Hw Hr) as (n&Hn&Hz&Hc&H0). destruct c.
  - assert (Hzn : z ≠ []).
    { intros ->. by destruct sd. }
    exists n. destruct sd; cbn in Hn; destruct Hn as (?&?&Hb1&Hb2); cbn [zwf root_color top_color f_c];
      (split_and!; [done..|by apply Hc|done| |done]); [rewrite Hb1|rewrite Hb2]; done.
  - destruct n as [|n]; [by destruct sd|]. exists n.
    destruct sd; cbn in Hn; destruct Hn as (?&?); by split_and!.
Qed.

Lemma tmap_fst par t : (tmap par t).*1 ≡ₚ inorder t.
Proof.
  revert par. induction t as [|c l IHl p r IHr]; intros par; [done|].
  cbn. rewrite fmap_app IHl IHr. apply Permutation_middle.
Qed.
Lemma zmap_plug z t : tmap (zpar z) t ++ zmap z (ptr t) ≡ₚ tmap 0 (plug z t).
Proof.
  revert t. induction z as [|f z IH]; intros t; [by cbn; rewrite app_nil_r|].
  by rewrite zmap_move IH.
Qed.
Lemma heap_add m0 es m a n :
  heap m0 es m → valid a → a ∉ es.*1 → heap m0 ((a, n) :: es) (<[a := n]> m).
Proof.
  intros [H1 H2 H3 H4] Hv Ha. split; cbn [fmap list_fmap fst].
  - by apply NoDup_cons.
  - by apply Forall_cons.
  - intros b k [[= -> ->]|Hb]%elem_of_cons; [by rewrite lookup_insert_eq|].
    rewrite lookup_insert_ne; [by apply H3|].
    intros ->. apply Ha, list_elem_of_fmap. by exists (b, k).
  - intros b Hb. rewrite lookup_insert_ne; [apply H4|]; set_solver.
Qed.
Lemma heap_size m0 es m : heap m0 es m → (length es ≤ size m)%nat.
Proof.
  intros [H1 _ H3 _]. rewrite -(length_fmap fst es) -(size_list_to_set (C := gset Z)) //.
  rewrite -(size_dom m). apply subseteq_size. intros a Ha.
  apply elem_of_list_to_set, list_elem_of_fmap in Ha as ([b n]&->&Hb).
  apply elem_of_dom. exists n. by apply H3.
Qed.
Lemma at_pos_size m0 s z t :
  at_pos m0 s z t → (length (inorder (plug z t)) ≤ size (nodes s))%nat.
Proof.
  intros [Hh _]. apply heap_size in Hh. rewrite zmap_plug in Hh.
  by rewrite -(tmap_fst 0) length_fmap.
Qed.
Lemma at_pos_nodes m0 s z t a :
  at_pos m0 s z t → a ∈ inorder (plug z t) ↔ a ∈ (tmap (zpar z) t ++ zmap z (ptr t)).*1.
Proof. intros [Hh _]. by rewrite zmap_plug tmap_fst. Qed.
Lemma length_plug z t : (length z ≤ length (inorder (plug z t)))%nat.
Proof.
  rewrite inorder_split !length_app.
  assert (length z ≤ length (before z) + length (after z))%nat; [|lia].
  induction z as [|[c [] p sib] z IH]; cbn; rewrite ?length_app /=; lia.
Qed.

(** [rb_link_node] puts a red leaf at an empty position. *)
Lemma link_node_run m0 s z x :
  at_pos m0 s z E → valid x → x ∉ inorder (plug z E) →
  wp (rb_link_node x (zpar z) (zlink z)) (λ _ s', at_pos m0 s' z (T Red E x E)) s.
Proof.
  intros Hs Hv Hx. rewrite (at_pos_nodes _ _ _ _ _ Hs) in Hx.
  destruct s as [m rt], Hs as [Hh Hr]. cbn [nodes tmap ptr app rb_root] in *.
  pose proof (heap_add _ _ _ _ (MkNode (zpar z) 0 0) Hh Hv Hx) as Hh'.
  rewrite /rb_link_node. apply wp_bind, wp_modify. cbn [nodes rb_root].
  destruct z as [|[c [] p sib] z]; cbn [zlink link_set zmap zpar f_p frame_node f_side] in *.
  - apply wp_modify. split; [|done]. cbn. by rewrite pack_red.
  - rb_step Hh'. split; [|done]. eapply heap_perm, Hh'. cbn. rewrite pack_red. solve_Permutation.
  - rb_step Hh'. split; [|done]. eapply heap_perm, Hh'. cbn. rewrite pack_red. solve_Permutation.
Qed.

Lemma insert_color_run m0 s z n l x r :
  at_pos m0 s z (T Red l x r) → zwf z n → wf (T Red l x r) n →
  wp (rb_insert_color x)
    (λ _ s', ∃ t', is_tree m0 s' t' ∧ is_rb t' ∧
       inorder t' = before z ++ inorder l ++ x :: inorder r ++ after z) s.
Proof.
  intros Hs Hz Hx. rewrite /rb_insert_color. apply wp_bind, wp_gets. apply wp_bind.
  eapply wp_mono; [eapply insert_loop_run; [exact Hs|exact Hz|exact Hx|]|].
  { etrans; [apply length_plug|by eapply at_pos_size]. }
  intros [] s1 (t'&Ht&Ho&k&Hk). apply wp_bind, wp_gets.
  rewrite inorder_split /= -app_assoc in Ho. pose proof (root_run _ _ _ _ Ht) as Hroot.
  destruct t' as [|c l' y r']; [by destruct (before z), (inorder l)|].
  rewrite Hroot. cbn. eapply wp_mono; [exact (set_black_run _ _ _ _ _ _ _ Ht)|].
  intros [] s2 Ht2. eexists; split; [exact Ht2|]. split; [|done]. split; [done|].
  destruct c; [exists (S k)|exists k; exact Hk]. by destruct Hk as (?&?&_).
Qed.
End positions.
