(* ===== verification/RbWalk.v ===== *)
(** * Red-black trees: traversal and replacement

    [rb_first] and [rb_last] return the ends of the in-order sequence, [rb_next] and
    [rb_prev] the neighbours of a node in it, and [rb_replace_node] exchanges one
    node for another at the same place. *)

From S2P Require Import Prelude RbTree RbRep RbInsert.
#[local] Open Scope Z_scope.

Section walk.
Context (m0 : gmap Z rb_node).
Implicit Types (l r t sib : tree) (z : list frame) (s : rb).

Lemma go_left_run fuel s z c l p r :
  at_pos m0 s z (T c l p r) → (depth l ≤ fuel)%nat →
  go_left fuel p s = Some (default 0 (head (inorder l ++ [p])), s).
Proof.
  revert fuel z c p r. induction l as [|c' l1 IH p' r1 _]; intros fuel z c p r Hs Hf;
    destruct fuel as [|fuel]; cbn [depth] in Hf; try lia; cbn [go_left];
    rewrite (bind_run _ _ _ _ _ (left_run _ _ _ _ _ _ _ Hs)); [done..|].
  pose proof (at_pos_down _ _ (Fr c SL p r) _ (T c' l1 p' r1) Hs) as Hl. cbn [ptr].
  rewrite (truthy_valid p'); [|by eapply at_pos_valid].
  rewrite (IH fuel _ _ _ _ Hl); [|lia]. cbn. by destruct (inorder l1).
Qed.
Lemma go_right_run fuel s z c l p r :
  at_pos m0 s z (T c l p r) → (depth r ≤ fuel)%nat →
  go_right fuel p s = Some (default 0 (last (p :: inorder r)), s).
Proof.
  revert fuel z c p l. induction r as [|c' l1 _ p' r1 IH]; intros fuel z c p l Hs Hf;
    destruct fuel as [|fuel]; cbn [depth] in Hf; try lia; cbn [go_right];
    rewrite (bind_run _ _ _ _ _ (right_run _ _ _ _ _ _ _ Hs)); [done..|].
  pose proof (at_pos_down _ _ (Fr c SR p l) _ (T c' l1 p' r1) Hs) as Hl. cbn [ptr].
  rewrite (truthy_valid p'); [|by eapply at_pos_valid].
  rewrite (IH fuel _ _ _ _ Hl); [|lia]. cbn [inorder].
  by rewrite (app_comm_cons (inorder l1)) (last_app_cons (p :: inorder l1)).
Qed.

Lemma depth_le t : (depth t ≤ length (inorder t))%nat.
Proof. induction t; cbn; rewrite ?length_app /=; lia. Qed.
Lemma at_pos_depth s z t : at_pos m0 s z t → (depth t ≤ size (nodes s))%nat.
Proof.
  intros Hs. apply at_pos_size in Hs. rewrite inorder_split !length_app in Hs.
  pose proof (depth_le t). lia.
Qed.

(** The parent of a position is another node. *)
Lemma zpar_ne s z c l p r : at_pos m0 s z (T c l p r) → zpar z ≠ p.
Proof.
  intros Hs. pose proof (at_pos_valid _ _ _ _ _ _ _ Hs) as [_ Hv].
  destruct z as [|f z]; [cbn; congruence|]. destruct Hs as [Hh _].
  cbn [tmap zmap zpar] in *. intros <-.
  eapply (heap_ne _ _ _ (f_p f)); [exact Hh| |reflexivity].
  cbn [app]. apply perm_skip. pull.
Qed.

Lemma up_right_run fuel s z c l p r :
  at_pos m0 s z (T c l p r) → (length z ≤ fuel)%nat →
  up_right fuel p s = Some (default 0 (head (after z)), s).
Proof.
  revert fuel c l p r. induction z as [|[fc sd q sib] z IH]; intros fuel c l p r Hs Hf.
  { destruct fuel; cbn [up_right]; by rewrite (bind_run _ _ _ _ _ (parent_run _ _ _ _ _ _ _ Hs)). }
  destruct fuel as [|fuel]; cbn in Hf; [lia|]. cbn [up_right].
  rewrite (bind_run _ _ _ _ _ (parent_run _ _ _ _ _ _ _ Hs)). cbn [zpar f_p].
  pose proof (at_pos_out _ _ _ _ _ Hs) as Hq. pose proof (sib_ne _ _ _ _ _ _ _ _ Hs) as Hne.
  cbn [f_sib] in Hne. destruct sd; cbn in Hq;
    (rewrite (truthy_valid q); [|by eapply at_pos_valid]); cbn [negb];
    rewrite (bind_run _ _ _ _ _ (right_run _ _ _ _ _ _ _ Hq)); cbn [ptr].
  - by rewrite (proj2 (Z.eqb_neq _ _) (not_eq_sym Hne)).
  - rewrite Z.eqb_refl. by rewrite (IH fuel _ _ _ _ Hq); [|lia].
Qed.
Lemma up_left_run fuel s z c l p r :
  at_pos m0 s z (T c l p r) → (length z ≤ fuel)%nat →
  up_left fuel p s = Some (default 0 (last (before z)), s).
Proof.
  revert fuel c l p r. induction z as [|[fc sd q sib] z IH]; intros fuel c l p r Hs Hf.
  { destruct fuel; cbn [up_left]; by rewrite (bind_run _ _ _ _ _ (parent_run _ _ _ _ _ _ _ Hs)). }
  destruct fuel as [|fuel]; cbn in Hf; [lia|]. cbn [up_left].
  rewrite (bind_run _ _ _ _ _ (parent_run _ _ _ _ _ _ _ Hs)). cbn [zpar f_p].
  pose proof (at_pos_out _ _ _ _ _ Hs) as Hq. pose proof (sib_ne _ _ _ _ _ _ _ _ Hs) as Hne.
  cbn [f_sib] in Hne. destruct sd; cbn in Hq;
    (rewrite (truthy_valid q); [|by eapply at_pos_valid]); cbn [negb];
    rewrite (bind_run _ _ _ _ _ (left_run _ _ _ _ _ _ _ Hq)); cbn [ptr].
  - rewrite Z.eqb_refl. by rewrite (IH fuel _ _ _ _ Hq); [|lia].
  - rewrite (proj2 (Z.eqb_neq _ _) (not_eq_sym Hne)).
    cbn [before]. rewrite app_assoc last_snoc. done.
Qed.

Lemma first_run s t : is_tree m0 s t → rb_first s = Some (default 0 (head (inorder t)), s).
Proof.
  intros Hs. rewrite /rb_first (bind_run (gets rb_root) _ s _ s eq_refl) (root_run _ _ _ _ Hs).
  cbn [plug]. destruct t as [|c l p r]; [done|]. cbn [ptr].
  rewrite (truthy_valid p); [|by eapply at_pos_valid]. cbn [negb].
  rewrite (bind_run (gets _) _ s _ s eq_refl) (go_left_run _ _ _ _ _ _ _ Hs).
  - cbn. by destruct (inorder l).
  - apply at_pos_depth in Hs. cbn [depth] in Hs. lia.
Qed.
Lemma last_run s t : is_tree m0 s t → rb_last s = Some (default 0 (last (inorder t)), s).
Proof.
  intros Hs. rewrite /rb_last (bind_run (gets rb_root) _ s _ s eq_refl) (root_run _ _ _ _ Hs).
  cbn [plug]. destruct t as [|c l p r]; [done|]. cbn [ptr].
  rewrite (truthy_valid p); [|by eapply at_pos_valid]. cbn [negb].
  rewrite (bind_run (gets _) _ s _ s eq_refl) (go_right_run _ _ _ _ _ _ _ Hs).
  - cbn [inorder]. by rewrite (last_app_cons (inorder l)).
  - apply at_pos_depth in Hs. cbn [depth] in Hs. lia.
Qed.

Lemma next_run s z c l p r :
  at_pos m0 s z (T c l p r) →
  rb_next p s = Some (default 0 (head (inorder r ++ after z)), s).
Proof.
  intros Hs. rewrite /rb_next (bind_run (gets _) _ s _ s eq_refl).
  rewrite (bind_run _ _ _ _ _ (parent_run _ _ _ _ _ _ _ Hs)).
  rewrite (proj2 (Z.eqb_neq _ _) (zpar_ne _ _ _ _ _ _ Hs)).
  rewrite (bind_run _ _ _ _ _ (right_run _ _ _ _ _ _ _ Hs)).
  destruct r as [|c' l' q r']; cbn [ptr].
  - cbn. rewrite (up_right_run _ _ _ _ _ _ _ Hs) //.
    etrans; [apply length_plug|by eapply at_pos_size].
  - pose proof (at_pos_down _ _ (Fr c SR p l) _ (T c' l' q r') Hs) as Hq.
    rewrite (truthy_valid q); [|by eapply at_pos_valid].
    rewrite (go_left_run _ _ _ _ _ _ _ Hq).
    + cbn. by destruct (inorder l').
    + apply at_pos_depth in Hq. cbn [depth] in Hq. lia.
Qed.
Lemma prev_run s z c l p r :
  at_pos m0 s z (T c l p r) →
  rb_prev p s = Some (default 0 (last (before z ++ inorder l)), s).
Proof.
  intros Hs. rewrite /rb_prev (bind_run (gets _) _ s _ s eq_refl).
  rewrite (bind_run _ _ _ _ _ (parent_run _ _ _ _ _ _ _ Hs)).
  rewrite (proj2 (Z.eqb_neq _ _) (zpar_ne _ _ _ _ _ _ Hs)).
  rewrite (bind_run _ _ _ _ _ (left_run _ _ _ _ _ _ _ Hs)).
  destruct l as [|c' l' q r']; cbn [ptr].
  - cbn. rewrite app_nil_r (up_left_run _ _ _ _ _ _ _ Hs) //.
    etrans; [apply length_plug|by eapply at_pos_size].
  - pose proof (at_pos_down _ _ (Fr c SL p r) _ (T c' l' q r') Hs) as Hq.
    rewrite (truthy_valid q); [|by eapply at_pos_valid].
    rewrite (go_right_run _ _ _ _ _ _ _ Hq).
    + cbn [inorder]. by rewrite app_assoc last_app_cons.
    + apply at_pos_depth in Hq. cbn [depth] in Hq. lia.
Qed.
End walk.

Section replace.
Context (m0 : gmap Z rb_node).
Implicit Types (l r t : tree) (z : list frame) (s : rb).

(** A node that is no longer part of the tree joins the rest of the store. *)
Lemma heap_free es m a n : heap m0 ((a, n) :: es) m → heap (<[a := n]> m0) es m.
Proof.
  intros [H1 H2 H3 H4]. cbn in H1, H2, H4. apply NoDup_cons in H1 as [Ha H1].
  apply Forall_cons in H2 as [_ H2]. split; [done|done|..].
  - intros b k Hb. apply H3. set_solver.
  - intros b Hb. destruct (decide (a = b)) as [<-|Hne].
    + rewrite lookup_insert_eq. apply H3. set_solver.
    + rewrite lookup_insert_ne //. apply H4. set_solver.
Qed.

Lemma replace_run s z c l p r new n :
  at_pos m0 s z (T c l p r) → valid new → new ∉ inorder (plug z (T c l p r)) →
  nodes s !! p = Some n →
  wp (rb_replace_node p new) (λ _ s', at_pos (<[p := n]> m0) s' z (T c l new r)) s.
Proof.
  intros Hs Hv Hnew Hn. pose proof (at_pos_zpar _ _ _ _ Hs) as Hal.
  rewrite (at_pos_nodes _ _ _ _ _ Hs) in Hnew.
  assert (Hp : valid p) by by eapply at_pos_valid.
  destruct s as [m rt], Hs as [Hh Hr]. cbn [tmap nodes ptr rb_root] in Hh, Hr, Hn, Hnew.
  assert (n = MkNode (pack (zpar z) c) (ptr r) (ptr l)) as ->.
  { erewrite (heap_lookup _ _ _ p) in Hn; [|exact Hh|pull]. by injection Hn as <-. }
  rewrite /rb_replace_node. rb_steps Hh.
  rb_write Hh ltac:(eapply relink_left_run; [exact Hh|pull|pullb|exact Hr|]). rb_steps Hh.
  assert (Hdone : ∀ m',
    heap m0 ((p, MkNode (pack (zpar z) c) (ptr r) (ptr l)) ::
      (tmap new l ++ tmap new r) ++ zmap z new) m' →
    at_pos (<[p := MkNode (pack (zpar z) c) (ptr r) (ptr l)]> m0)
      (MkRb (<[new := MkNode (pack (zpar z) c) (ptr r) (ptr l)]> m') (zroot z new))
      z (T c l new r)).
  { intros m' Hm. split; [|done]. cbn [nodes rb_root tmap ptr].
    apply heap_add; [by apply heap_free|done|]. intros Hin. apply Hnew.
    cbn. right. rewrite !fmap_app !tmap_fst in Hin |- *.
    assert (Hz : ∀ x y, (zmap z x).*1 = (zmap z y).*1) by by destruct z.
    rewrite (Hz p new). exact Hin. }
  destruct l as [|cl ll pl lr], r as [|cr rl pr rr]; cbn [ptr tmap] in *; rb_auto Hh;
    try apply wp_modify; apply Hdone; (eapply heap_perm, Hh); cbn [tmap]; solve_Permutation.
Qed.
End replace.
