(* ===== verification/RbErase.v ===== *)
(** * Red-black trees: removal

    [rb_erase] removes a node: the order of the others is kept and the red-black
    conditions are restored.  A position whose subtree is one black node short is
    repaired by [__rb_erase_color]; the two halves of its loop are shown case by
    case, for a black and for a red sibling. *)

From S2P Require Import Prelude RbTree RbRep RbInsert RbWalk.
#[local] Open Scope Z_scope.

(** ** The body of the loop of [__rb_erase_color], from the point where the sibling
    is known to be black *)
Definition left_case (fuel : nat) (parent other : Z) : M rb Z :=
  ol ← get_left other; bl ← black_or_null ol;
  both ← (if (bl : bool) then orr ← get_right other; black_or_null orr else mret false);
  if (both : bool) then
    rb_set_red other;;
    parent' ← rb_parent parent;
    erase_loop fuel parent parent'
  else
    orr ← get_right other; br ← black_or_null orr;
    other ← (if (br : bool) then
        ol ← get_left other; rb_set_black ol;;
        rb_set_red other;;
        rb_rotate_right other;;
        get_right parent
      else mret other);
    c ← rb_color parent; rb_set_color other c;;
    rb_set_black parent;;
    orr ← get_right other; rb_set_black orr;;
    rb_rotate_left parent;;
    gets rb_root.
Definition right_case (fuel : nat) (parent other : Z) : M rb Z :=
  ol ← get_left other; bl ← black_or_null ol;
  both ← (if (bl : bool) then orr ← get_right other; black_or_null orr else mret false);
  if (both : bool) then
    rb_set_red other;;
    parent' ← rb_parent parent;
    erase_loop fuel parent parent'
  else
    ol ← get_left other; bl ← black_or_null ol;
    other ← (if (bl : bool) then
        orr ← get_right other; rb_set_black orr;;
        rb_set_red other;;
        rb_rotate_left other;;
        get_left parent
      else mret other);
    c ← rb_color parent; rb_set_color other c;;
    rb_set_black parent;;
    ol ← get_left other; rb_set_black ol;;
    rb_rotate_right parent;;
    gets rb_root.

Lemma erase_loop_S fuel node parent :
  erase_loop (S fuel) node parent =
    (b ← black_or_null node;
     root ← gets rb_root;
     if negb (b && negb (node =? root)) then mret node else
     pl ← get_left parent;
     if pl =? node then
       other ← get_right parent;
       r ← rb_is_red other;
       other ← (if (r : bool) then
           rb_set_black other;; rb_set_red parent;; rb_rotate_left parent;; get_right parent
         else mret other);
       left_case fuel parent other
     else
       other ← get_left parent;
       r ← rb_is_red other;
       other ← (if (r : bool) then
           rb_set_black other;; rb_set_red parent;; rb_rotate_right parent;; get_left parent
         else mret other);
       right_case fuel parent other).
Proof. reflexivity. Qed.

Ltac rb_run H := eapply wp_run; [exact H|].
Ltac rb_end H := eapply wp_intro; [exact H|].
(** A writing step that leads to the next state. *)
Ltac rb_then H s' H' := apply wp_bind; eapply wp_mono; [exact H|]; intros [] s' H'.

Section erase_color.
Context (m0 : gmap Z rb_node).
Implicit Types (l r t sib : tree) (z : list frame) (s : rb) (c : color).

(** The last step of [__rb_erase_color], and what it must reach. *)
Definition erase_fin (node : Z) : M rb unit := when (truthy node) (rb_set_black node).
Definition erased_to (o : list Z) (s' : rb) : Prop :=
  ∃ t', is_tree m0 s' t' ∧ is_rb t' ∧ inorder t' = o.
Definition erase_post (o : list Z) (node : Z) (s : rb) : Prop :=
  wp (erase_fin node) (λ _, erased_to o) s.

Lemma root_color_plug z t n : zwf z n → z ≠ [] → root_color (plug z t) = Black.
Proof.
  revert t n. induction z as [|[c sd p sib] z IH]; intros t n Hz Hne; [done|].
  cbn [plug]. destruct z as [|f z].
  - destruct c; [by destruct Hz as (?&?&?&_)|]. by destruct sd.
  - destruct c; [destruct Hz as (_&_&_&_&Hz)|destruct Hz as [_ Hz]]; by eapply IH.
Qed.

(** Painting the root of a repaired subtree black. *)
Lemma fin_node s z n c l p r :
  at_pos m0 s z (T c l p r) → wf (T Black l p r) n → zwf z n →
  erase_post (before z ++ inorder (T c l p r) ++ after z) p s.
Proof.
  intros Hs Hw Hz. rewrite /erase_post /erase_fin (truthy_valid p); [|by eapply at_pos_valid].
  cbn [when]. eapply wp_mono; [exact (set_black_run _ _ _ _ _ _ _ Hs)|]. intros [] s1 Hs1.
  apply at_pos_plug in Hs1. eexists. split; [exact Hs1|]. split; [|by rewrite inorder_split].
  split; [|by eapply plug_wf]. destruct z; [done|]. by eapply root_color_plug.
Qed.
Lemma fin_empty s : at_pos m0 s [] E → erase_post [] 0 s.
Proof.
  intros Hs. rewrite /erase_post. apply wp_ret. exists E.
  split_and!; [done| |done]. split; [done|by exists 0%nat].
Qed.
(** Painting the root of the whole tree black. *)
Lemma fin_root s z t n :
  at_pos m0 s z t → wf t n → zwf z n → (root_color t = Red → z ≠ [] ∧ top_color z = Black) →
  wp (gets rb_root) (erase_post (before z ++ inorder t ++ after z)) s.
Proof.
  intros Hs Hw Hz Hc. apply wp_gets. rewrite (root_run _ _ _ _ Hs) -inorder_split.
  destruct (plug_wf z t n Hz Hw ltac:(naive_solver)) as [n' Hw'].
  assert (root_color (plug z t) = Black) as Hb.
  { destruct z; [|by eapply root_color_plug]. cbn. destruct (root_color t) eqn:E; naive_solver. }
  apply at_pos_plug in Hs. destruct (plug z t) as [|c l p r]; cbn in Hb.
  - by apply fin_empty.
  - subst c. pose proof (fin_node s [] n' Black l p r Hs Hw' I) as Hf. cbn [before after app] in Hf.
    by rewrite app_nil_r in Hf.
Qed.

(** The loop stops at a red node, and at the root. *)
Lemma erase_stop_red fuel s z n l p r q :
  at_pos m0 s z (T Red l p r) → wf (T Black l p r) n → zwf z n →
  wp (erase_loop fuel p q) (erase_post (before z ++ inorder (T Red l p r) ++ after z)) s.
Proof.
  intros Hs Hw Hz.
  assert (erase_loop fuel p q s = Some (p, s)) as Hrun.
  { pose proof (black_or_null_run _ _ _ _ Hs) as Hb. cbn in Hb.
    destruct fuel; cbn [erase_loop]; by rewrite (bind_run _ _ _ _ _ Hb). }
  rewrite /wp Hrun. by eapply fin_node.
Qed.
Lemma erase_stop_root fuel s t n q :
  at_pos m0 s [] t → wf t n → wp (erase_loop fuel (ptr t) q) (erase_post (inorder t)) s.
Proof.
  intros Hs Hw. assert (erase_loop fuel (ptr t) q s = Some (ptr t, s)) as Hrun.
  { pose proof (black_or_null_run _ _ _ _ Hs) as Hb. pose proof (root_run _ _ _ _ Hs) as Hr.
    cbn in Hr. destruct fuel; cbn [erase_loop];
      rewrite (bind_run _ _ _ _ _ Hb) (bind_run (gets _) _ s _ s eq_refl) Hr Z.eqb_refl andb_false_r //. }
  rewrite /wp Hrun. destruct t as [|c l p r]; [by apply fin_empty|].
  pose proof (fin_node s [] (match c with Red => S n | Black => n end) c l p r Hs) as Hf.
  cbn [before after app] in Hf. rewrite app_nil_r in Hf. apply Hf; [|done].
  destruct c; [|done]. by destruct Hw as (?&?&_).
Qed.

(** The surrounding of a node of colour [c] whose subtrees should have black
    height [S n]. *)
Definition outer (c : color) (z : list frame) (n : nat) : Prop :=
  zwf z (match c with Red => S n | Black => S (S n) end) ∧
  (c = Red → z ≠ [] ∧ top_color z = Black).
Lemma zwf_outer c sd p sib z n :
  zwf (Fr c sd p sib :: z) (S n) →
  wf sib (S n) ∧ (c = Red → root_color sib = Black) ∧ outer c z n.
Proof. rewrite /outer. destruct c; cbn; naive_solver. Qed.

(** The last case: a black sibling with a red child on the far side. *)
Lemma left_final s z n c t p a o x y w :
  at_pos m0 s z (T c t p (T Black a o (T Red x y w))) → outer c z n →
  wf t n → wf a n → wf x n → wf w n →
  wp (c ← rb_color p; rb_set_color o c;; rb_set_black p;;
      orr ← get_right o; rb_set_black orr;; rb_rotate_left p;; gets rb_root)
    (erase_post (before z ++ inorder (T c t p (T Black a o (T Red x y w))) ++ after z)) s.
Proof.
  intros Hp [Hz Hc] Ht Ha Hx Hw. rb_run (color_run _ _ _ _ _ _ _ Hp).
  pose proof (at_pos_down _ _ (Fr c SR p t) _ (T Black a o (T Red x y w)) Hp) as Ho.
  rb_then (set_color_run _ _ _ _ c _ _ _ Ho) s1 Ho1.
  pose proof (at_pos_out _ _ _ _ _ Ho1) as Hp1.
  rb_then (set_black_run _ _ _ _ _ _ _ Hp1) s2 Hp2.
  pose proof (at_pos_down _ _ (Fr Black SR p t) _ (T c a o (T Red x y w)) Hp2) as Ho2.
  rb_run (right_run _ _ _ _ _ _ _ Ho2).
  pose proof (at_pos_down _ _ (Fr c SR o a) _ (T Red x y w) Ho2) as Hy2.
  rb_then (set_black_run _ _ _ _ _ _ _ Hy2) s3 Hy3.
  do 2 apply at_pos_out in Hy3. rb_then (rotate_left_run _ _ _ _ _ _ _ _ _ _ Hy3) s4 Hp4.
  replace (inorder (T c t p (T Black a o (T Red x y w))))
    with (inorder (T c (T Black t p a) o (T Black x y w))) by (cbn; by rewrite -!app_assoc).
  eapply fin_root; [exact Hp4| |exact Hz|exact Hc]. by destruct c; cbn; split_and!.
Qed.
Lemma right_final s z n c t p a o x y w :
  at_pos m0 s z (T c (T Black (T Red x y w) o a) p t) → outer c z n →
  wf t n → wf a n → wf x n → wf w n →
  wp (c ← rb_color p; rb_set_color o c;; rb_set_black p;;
      ol ← get_left o; rb_set_black ol;; rb_rotate_right p;; gets rb_root)
    (erase_post (before z ++ inorder (T c (T Black (T Red x y w) o a) p t) ++ after z)) s.
Proof.
  intros Hp [Hz Hc] Ht Ha Hx Hw. rb_run (color_run _ _ _ _ _ _ _ Hp).
  pose proof (at_pos_down _ _ (Fr c SL p t) _ (T Black (T Red x y w) o a) Hp) as Ho.
  rb_then (set_color_run _ _ _ _ c _ _ _ Ho) s1 Ho1.
  pose proof (at_pos_out _ _ _ _ _ Ho1) as Hp1.
  rb_then (set_black_run _ _ _ _ _ _ _ Hp1) s2 Hp2.
  pose proof (at_pos_down _ _ (Fr Black SL p t) _ (T c (T Red x y w) o a) Hp2) as Ho2.
  rb_run (left_run _ _ _ _ _ _ _ Ho2).
  pose proof (at_pos_down _ _ (Fr c SL o a) _ (T Red x y w) Ho2) as Hy2.
  rb_then (set_black_run _ _ _ _ _ _ _ Hy2) s3 Hy3.
  do 2 apply at_pos_out in Hy3. rb_then (rotate_right_run _ _ _ _ _ _ _ _ _ _ Hy3) s4 Hp4.
  replace (inorder (T c (T Black (T Red x y w) o a) p t))
    with (inorder (T c (T Black x y w) o (T Black a p t))) by (cbn; by rewrite -!app_assoc).
  eapply fin_root; [exact Hp4| |exact Hz|exact Hc]. by destruct c; cbn; split_and!.
Qed.

(** The loop, with a given number of iterations left, repairs a position that is
    one black node short. *)
Definition repairs (fuel : nat) : Prop := ∀ s z t n,
  at_pos m0 s z t → wf t n → zwf z (S n) → (length z ≤ fuel)%nat →
  wp (erase_loop fuel (ptr t) (zpar z)) (erase_post (before z ++ inorder t ++ after z)) s.

(** Going on at the parent after the sibling has turned red. *)
Lemma erase_parent fuel s z n c l p r :
  at_pos m0 s z (T c l p r) → wf (T Black l p r) (S n) → outer c z n →
  (c = Red ∨ repairs fuel ∧ length z ≤ fuel)%nat →
  wp (parent' ← rb_parent p; erase_loop fuel p parent')
    (erase_post (before z ++ inorder (T c l p r) ++ after z)) s.
Proof.
  intros Hs Hw [Hz Hc] Hf. rb_run (parent_run _ _ _ _ _ _ _ Hs). destruct c.
  - by eapply erase_stop_red.
  - destruct Hf as [|[Hrep Hf]]; [done|]. by eapply (Hrep s z (T Black l p r) (S n)).
Qed.

(** Reading the children of the sibling [o]. *)
Lemma both_black_run s z a o b :
  at_pos m0 s z (T Black a o b) →
  get_left o s = Some (ptr a, s) ∧ get_right o s = Some (ptr b, s) ∧
  black_or_null (ptr a) s = Some (bool_decide (root_color a = Black), s) ∧
  black_or_null (ptr b) s = Some (bool_decide (root_color b = Black), s).
Proof.
  intros Hs. split_and!.
  - exact (left_run _ _ _ _ _ _ _ Hs).
  - exact (right_run _ _ _ _ _ _ _ Hs).
  - exact (black_or_null_run _ _ _ _ (at_pos_down _ _ (Fr Black SL o b) _ a Hs)).
  - exact (black_or_null_run _ _ _ _ (at_pos_down _ _ (Fr Black SR o a) _ b Hs)).
Qed.

Lemma left_case_run fuel s z n c t p a o b :
  at_pos m0 s z (T c t p (T Black a o b)) → wf t n → wf a n → wf b n → outer c z n →
  (c = Red ∨ repairs fuel ∧ length z ≤ fuel)%nat →
  wp (left_case fuel p o)
    (erase_post (before z ++ inorder (T c t p (T Black a o b)) ++ after z)) s.
Proof.
  intros Hp Ht Ha Hb Hout Hf.
  pose proof (at_pos_down _ _ (Fr c SR p t) _ (T Black a o b) Hp) as Ho.
  destruct (both_black_run _ _ _ _ _ Ho) as (Rl&Rr&Bl&Br). rewrite /left_case.
  rb_run Rl. rb_run Bl. destruct (root_color a) eqn:Ca, (root_color b) eqn:Cb; cbn [bool_decide] in *.
  - apply wp_bind, wp_ret. rb_run Rr. rb_run Br.
    apply wp_bind, wp_ret.
    destruct b as [|[] x y w]; try done. destruct Hb as (?&?&_). by eapply left_final.
  - apply wp_bind, wp_ret. rb_run Rr. rb_run Br.
    destruct a as [|[] x y w]; try done. destruct Ha as (Hx&Hw&_).
    apply wp_bind. rb_run Rl. apply wp_bind.
    pose proof (at_pos_down _ _ (Fr Black SL o b) _ (T Red x y w) Ho) as Hy.
    eapply wp_mono; [exact (set_black_run _ _ _ _ _ _ _ Hy)|]. intros [] s1 Hy1.
    apply at_pos_out in Hy1. rb_then (set_red_run _ _ _ _ _ _ _ Hy1) s2 Ho2.
    rb_then (rotate_right_run _ _ _ _ _ _ _ _ _ _ Ho2) s3 Hy3.
    apply at_pos_out in Hy3. rb_end (right_run _ _ _ _ _ _ _ Hy3).
    replace (inorder (T c t p (T Black (T Red x y w) o b)))
      with (inorder (T c t p (T Black x y (T Red w o b)))) by (cbn; by rewrite -!app_assoc).
    by eapply left_final.
  - apply wp_bind. rb_run Rr. rb_end Br. rb_run Rr. rb_run Br. apply wp_bind, wp_ret.
    destruct b as [|[] x y w]; try done. destruct Hb as (?&?&_). by eapply left_final.
  - apply wp_bind. rb_run Rr. rb_end Br.
    rb_then (set_red_run _ _ _ _ _ _ _ Ho) s1 Ho1. apply at_pos_out in Ho1.
    eapply (erase_parent fuel s1 z n c t p (T Red a o b)); [exact Ho1| |done|done].
    by cbn; split_and!.
Qed.
Lemma right_case_run fuel s z n c t p a o b :
  at_pos m0 s z (T c (T Black a o b) p t) → wf t n → wf a n → wf b n → outer c z n →
  (c = Red ∨ repairs fuel ∧ length z ≤ fuel)%nat →
  wp (right_case fuel p o)
    (erase_post (before z ++ inorder (T c (T Black a o b) p t) ++ after z)) s.
Proof.
  intros Hp Ht Ha Hb Hout Hf.
  pose proof (at_pos_down _ _ (Fr c SL p t) _ (T Black a o b) Hp) as Ho.
  destruct (both_black_run _ _ _ _ _ Ho) as (Rl&Rr&Bl&Br). rewrite /right_case.
  rb_run Rl. rb_run Bl. destruct (root_color a) eqn:Ca, (root_color b) eqn:Cb; cbn [bool_decide] in *.
  1,2: apply wp_bind, wp_ret; rb_run Rl; rb_run Bl; apply wp_bind, wp_ret;
    destruct a as [|[] x y w]; try done; destruct Ha as (?&?&_); by eapply right_final.
  - apply wp_bind. rb_run Rr. rb_end Br. rb_run Rl. rb_run Bl.
    destruct b as [|[] x y w]; try done. destruct Hb as (Hx&Hw&_).
    apply wp_bind. rb_run Rr. apply wp_bind.
    pose proof (at_pos_down _ _ (Fr Black SR o a) _ (T Red x y w) Ho) as Hy.
    eapply wp_mono; [exact (set_black_run _ _ _ _ _ _ _ Hy)|]. intros [] s1 Hy1.
    apply at_pos_out in Hy1. rb_then (set_red_run _ _ _ _ _ _ _ Hy1) s2 Ho2.
    rb_then (rotate_left_run _ _ _ _ _ _ _ _ _ _ Ho2) s3 Hy3.
    apply at_pos_out in Hy3. rb_end (left_run _ _ _ _ _ _ _ Hy3).
    replace (inorder (T c (T Black a o (T Red x y w)) p t))
      with (inorder (T c (T Black (T Red a o x) y w) p t)) by (cbn; by rewrite -!app_assoc /= -!app_assoc).
    by eapply right_final.
  - apply wp_bind. rb_run Rr. rb_end Br.
    rb_then (set_red_run _ _ _ _ _ _ _ Ho) s1 Ho1. apply at_pos_out in Ho1.
    eapply (erase_parent fuel s1 z n c (T Red a o b) p t); [exact Ho1| |done|done].
    by cbn; split_and!.
Qed.

(** The whole body of the loop below a parent [p], for each side; a red sibling
    is first rotated away. *)
Lemma erase_left_run fuel s z n c t p sib :
  at_pos m0 s z (T c t p sib) → wf t n → wf sib (S n) → (c = Red → root_color sib = Black) →
  outer c z n → repairs fuel → (length z ≤ fuel)%nat →
  wp (other ← get_right p; r ← rb_is_red other;
      other ← (if (r : bool) then
          rb_set_black other;; rb_set_red p;; rb_rotate_left p;; get_right p
        else mret other);
      left_case fuel p other)
    (erase_post (before z ++ inorder (T c t p sib) ++ after z)) s.
Proof.
  intros Hp Ht Hsib Hcs Hout Hrep Hf. destruct sib as [|d a o b]; [done|].
  pose proof (at_pos_down _ _ (Fr c SR p t) _ (T d a o b) Hp) as Ho.
  rb_run (right_run _ _ _ _ _ _ _ Hp). rb_run (is_red_run _ _ _ _ _ _ _ Ho).
  destruct d; cbn [bool_decide].
  - destruct c; [by specialize (Hcs eq_refl)|]. destruct Hsib as (Ha&Hb&Ca&Cb), Hout as [Hz _].
    destruct a as [|[] x y w]; try done. destruct Ha as [Hx Hw].
    apply wp_bind. rb_then (set_black_run _ _ _ _ _ _ _ Ho) s1 Ho1. apply at_pos_out in Ho1.
    rb_then (set_red_run _ _ _ _ _ _ _ Ho1) s2 Hp2.
    rb_then (rotate_left_run _ _ _ _ _ _ _ _ _ _ Hp2) s3 Ho3.
    pose proof (at_pos_down _ _ (Fr Black SL o b) _ (T Red t p (T Black x y w)) Ho3) as Hp3.
    rb_end (right_run _ _ _ _ _ _ _ Hp3).
    pose proof (left_case_run fuel s3 _ n Red t p x y w Hp3 Ht Hx Hw) as Hrun.
    cbn [before after inorder] in Hrun |- *. repeat (rewrite -app_assoc in Hrun || rewrite -app_assoc; cbn [app] in Hrun |- *).
    apply Hrun; [|by left]. by split.
  - destruct Hsib as [Ha Hb]. apply wp_bind, wp_ret. by eapply left_case_run; eauto.
Qed.
Lemma erase_right_run fuel s z n c t p sib :
  at_pos m0 s z (T c sib p t) → wf t n → wf sib (S n) → (c = Red → root_color sib = Black) →
  outer c z n → repairs fuel → (length z ≤ fuel)%nat →
  wp (other ← get_left p; r ← rb_is_red other;
      other ← (if (r : bool) then
          rb_set_black other;; rb_set_red p;; rb_rotate_right p;; get_left p
        else mret other);
      right_case fuel p other)
    (erase_post (before z ++ inorder (T c sib p t) ++ after z)) s.
Proof.
  intros Hp Ht Hsib Hcs Hout Hrep Hf. destruct sib as [|d a o b]; [done|].
  pose proof (at_pos_down _ _ (Fr c SL p t) _ (T d a o b) Hp) as Ho.
  rb_run (left_run _ _ _ _ _ _ _ Hp). rb_run (is_red_run _ _ _ _ _ _ _ Ho).
  destruct d; cbn [bool_decide].
  - destruct c; [by specialize (Hcs eq_refl)|]. destruct Hsib as (Ha&Hb&Ca&Cb), Hout as [Hz _].
    destruct b as [|[] x y w]; try done. destruct Hb as [Hx Hw].
    apply wp_bind. rb_then (set_black_run _ _ _ _ _ _ _ Ho) s1 Ho1. apply at_pos_out in Ho1.
    rb_then (set_red_run _ _ _ _ _ _ _ Ho1) s2 Hp2.
    rb_then (rotate_right_run _ _ _ _ _ _ _ _ _ _ Hp2) s3 Ho3.
    pose proof (at_pos_down _ _ (Fr Black SR o a) _ (T Red (T Black x y w) p t) Ho3) as Hp3.
    rb_end (left_run _ _ _ _ _ _ _ Hp3).
    pose proof (right_case_run fuel s3 _ n Red t p x y w Hp3 Ht Hx Hw) as Hrun.
    cbn [before after inorder] in Hrun |- *. repeat (rewrite -app_assoc in Hrun || rewrite -app_assoc; cbn [app] in Hrun |- *).
    apply Hrun; [|by left]. by split.
  - destruct Hsib as [Ha Hb]. apply wp_bind, wp_ret. by eapply right_case_run; eauto.
Qed.

(** Below the root, a position is not the root. *)
Lemma zroot_in f z hp : zroot (f :: z) hp ∈ (zmap (f :: z) hp).*1.
Proof.
  revert f hp. induction z as [|g z IH]; intros f hp; cbn [zroot zmap fmap list_fmap fst].
  - left.
  - right. rewrite fmap_app. apply elem_of_app. right. apply (IH g (f_p f)).
Qed.
Lemma root_ne s f z t : at_pos m0 s (f :: z) t → ptr t ≠ rb_root s.
Proof.
  intros [[Hnd Hv _ _] ->]. rewrite fmap_app in Hnd, Hv. apply Forall_app in Hv as [_ Hv].
  apply NoDup_app in Hnd as (_&Hnd&_). pose proof (zroot_in f z (ptr t)) as Hin.
  destruct t as [|c l p r]; intros Heq; rewrite -Heq in Hin.
  - rewrite Forall_forall in Hv. by destruct (Hv _ Hin).
  - eapply Hnd; [|exact Hin]. left.
Qed.

Lemma erase_loop_run fuel : repairs fuel.
Proof.
  induction fuel as [|fuel IH]; intros s z t n Hs Hw Hz Hf.
  all: destruct z as [|[c sd p sib] z];
    [cbn [before after app]; rewrite app_nil_r; by eapply erase_stop_root|].
  { cbn in Hf. lia. }
  destruct (decide (root_color t = Red)) as [Hred|Hred].
  { destruct t as [|[] l q r]; try done. destruct Hw as (?&?&_). by apply (erase_stop_red _ _ _ (S n)). }
  destruct (zwf_outer _ _ _ _ _ _ Hz) as (Hsib&Hcs&Hout). cbn in Hf.
  rewrite erase_loop_S. rb_run (black_or_null_run _ _ _ _ Hs).
  apply wp_bind, wp_gets. rewrite bool_decide_eq_true_2; [|by destruct (root_color t)].
  rewrite (proj2 (Z.eqb_neq _ _) (root_ne _ _ _ _ Hs)). cbn [negb andb zpar f_p].
  pose proof (at_pos_out _ _ _ _ _ Hs) as Hp. destruct sd; cbn in Hp.
  - rb_run (left_run _ _ _ _ _ _ _ Hp). rewrite Z.eqb_refl.
    pose proof (erase_left_run fuel s z n c t p sib Hp Hw Hsib Hcs Hout IH ltac:(lia)) as Hrun.
    cbn [before after inorder] in *. by rewrite -app_assoc in Hrun.
  - rb_run (left_run _ _ _ _ _ _ _ Hp).
    assert (ptr sib ≠ ptr t) as Hne.
    { destruct t; [by destruct sib as [|? ? q ?]; [destruct n|];
        [..|exact (proj2 (at_pos_valid _ _ _ _ _ _ _ (at_pos_down _ _ (Fr c SL p E) _ (T _ _ q _) Hp)))]|].
      exact (sib_ne _ _ _ _ _ _ _ _ Hs). }
    rewrite (proj2 (Z.eqb_neq _ _) Hne).
    pose proof (erase_right_run fuel s z n c t p sib Hp Hw Hsib Hcs Hout IH ltac:(lia)) as Hrun.
    cbn [before after inorder] in *. by rewrite -!app_assoc /= in Hrun |- *.
Qed.
End erase_color.

(** ** Unlinking a node *)
Lemma wp_bind_inv {S A B} (m : M S A) (k : A → M S B) Φ s :
  wp (m ≫= k) Φ s → wp m (λ a, wp (k a) Φ) s.
Proof. rewrite /wp /mbind /M_bind. by destruct (m s) as [[]|]. Qed.

Section unlink.
Context (m0 : gmap Z rb_node).
Implicit Types (l r t : tree) (z : list frame) (s : rb) (c : color).

(** The forms in which [rb_erase] replaces the child [x] of a parent by [y]. *)
Lemma relink_one_run m rt z x y es es1 es2 n (Φ : unit → rb → Prop) :
  heap m0 es m → es ≡ₚ (x, n) :: es1 → es1 ≡ₚ zmap z x ++ es2 → rt = zroot z x →
  (∀ m', heap m0 ((x, n) :: zmap z y ++ es2) m' → Φ tt (MkRb m' (zroot z y))) →
  wp (if truthy (zpar z) then
        pl ← get_left (zpar z);
        if pl =? x then set_left (zpar z) y else set_right (zpar z) y
      else set_root y) Φ (MkRb m rt).
Proof.
  intros Hh Hp1 Hp2 Hr HΦ. pose proof (relink_left_run _ _ _ z x y _ _ _ _ Φ Hh Hp1 Hp2 Hr HΦ) as Hw.
  destruct (truthy (zpar z)); [|done]. apply wp_bind. apply wp_bind_inv in Hw.
  eapply wp_mono; [exact Hw|]. intros a s'. by rewrite Z.eqb_sym.
Qed.
Lemma relink_two_run m rt z x y c (xr xl : Z) es es1 es2 (Φ : unit → rb → Prop) :
  heap m0 es m → es ≡ₚ (x, MkNode (pack (zpar z) c) xr xl) :: es1 → es1 ≡ₚ zmap z x ++ es2 →
  rt = zroot z x → aligned (zpar z) →
  (∀ m', heap m0 ((x, MkNode (pack (zpar z) c) xr xl) :: zmap z y ++ es2) m' →
     Φ tt (MkRb m' (zroot z y))) →
  wp (if truthy (zpar z) then
        opl ← get_left (zpar z);
        if opl =? x then op ← rb_parent x; set_left op y else op ← rb_parent x; set_right op y
      else set_root y) Φ (MkRb m rt).
Proof.
  intros Hh Hp1 Hp2 Hr Hal HΦ.
  pose proof (relink_one_run _ _ z x y _ _ _ _ Φ Hh Hp1 Hp2 Hr HΦ) as Hw.
  destruct (truthy (zpar z)); [|done]. apply wp_bind. apply wp_bind_inv in Hw.
  destruct (wp_inv _ _ _ Hw) as (a&s'&Hrun&Hw').
  assert (s' = MkRb m rt) as ->.
  { move: Hrun. rewrite /get_left /nd /mbind /M_bind /=.
    by destruct (m !! zpar z); intros [= _ <-]. }
  rb_end Hrun. cbn beta in Hw'.
  destruct (a =? x); apply wp_bind; (eapply wp_rb_parent; [exact Hh|exact Hp1|exact Hal|exact Hw']).
Qed.

(** Removing a node with at most one child: the child takes its place. *)
Lemma erase_one_run s z c l p r t n :
  at_pos m0 s z (T c l p r) → (l = E ∧ t = r ∨ r = E ∧ t = l) → nodes s !! p = Some n →
  wp (erase_one p (ptr t))
    (λ res s', res = (ptr t, zpar z, cz c) ∧ at_pos (<[p := n]> m0) s' z t) s.
Proof.
  intros Hs Hlr Hn. pose proof (at_pos_zpar _ _ _ _ Hs) as Hal.
  assert (Hp : valid p) by by eapply at_pos_valid.
  destruct s as [m rt], Hs as [Hh Hr]. cbn [tmap nodes ptr rb_root] in Hh, Hr, Hn.
  assert (∃ np, np = MkNode (pack (zpar z) c) (ptr r) (ptr l) ∧ n = np ∧
    heap m0 ((p, np) :: tmap p t ++ zmap z p) m) as (np&Enp&->&Hh').
  { eexists. split; [reflexivity|]. split.
    - erewrite (heap_lookup _ _ _ p) in Hn; [|exact Hh|pull]. by injection Hn as <-.
    - destruct Hlr as [[-> ->]|[-> ->]]; cbn in Hh; [done|]. by rewrite app_nil_r in Hh. }
  clear Hh. rename Hh' into Hh. assert (Hdone : ∀ m',
    heap m0 ((p, np) :: zmap z (ptr t) ++ tmap (zpar z) t ++ []) m' →
    at_pos (<[p := np]> m0) (MkRb m' (zroot z (ptr t))) z t).
  { intros m' Hm. split; [|done]. cbn [nodes]. apply heap_free.
    eapply heap_perm, Hm. solve_Permutation. }
  rewrite /erase_one. rewrite Enp in Hh. rb_steps Hh.
  destruct t as [|ct tl pt tr]; cbn [ptr tmap] in *.
  - rb_auto Hh. rb_write Hh ltac:(eapply relink_one_run; [exact Hh|pull|pullb|exact Hr|]).
    rb_steps Hh. split; [done|]. apply Hdone. rewrite Enp. eapply heap_perm, Hh. solve_Permutation.
  - rb_auto Hh. rb_write Hh ltac:(eapply relink_one_run; [exact Hh|pull|pullb|exact Hr|]).
    rb_steps Hh. split; [done|]. apply Hdone. rewrite Enp. eapply heap_perm, Hh. solve_Permutation.
Qed.
End unlink.

(** ** Inner segments of a path

    The frames [z] between a position at [hp] and a node [par] above them. *)
Definition spar (par : Z) (z : list frame) : Z := match z with [] => par | f :: _ => f_p f end.
Fixpoint zseg (par : Z) (z : list frame) (hp : Z) : list entry :=
  match z with
  | [] => []
  | f :: z => (f_p f, frame_node (spar par z) f hp) :: tmap (f_p f) (f_sib f) ++ zseg par z (f_p f)
  end.
(** The leftmost node of a tree: the path to it, its colour, address and right child. *)
Fixpoint leftmost (c : color) (l : tree) (p : Z) (r : tree) : list frame * (color * Z * tree) :=
  match l with
  | E => ([], (c, p, r))
  | T c' l' p' r' => let '(z, n) := leftmost c' l' p' r' in (z ++ [Fr c SL p r], n)
  end.

Section segments.
Context (m0 : gmap Z rb_node).
Implicit Types (l r t : tree) (z : list frame) (s : rb) (c : color) (f : frame).

Lemma zmap_app z f z' hp :
  zmap (z ++ f :: z') hp = zseg (f_p f) z hp ++ zmap (f :: z') (zroot z hp).
Proof.
  revert hp. induction z as [|g z IH]; intros hp; [done|]. cbn [app zseg zmap zroot].
  rewrite IH -app_assoc. by destruct z.
Qed.
Lemma zroot_app z z' hp : zroot (z ++ z') hp = zroot z' (zroot z hp).
Proof. revert hp. induction z as [|g z IH]; intros hp; [done|]. apply IH. Qed.
Lemma plug_app z z' t : plug (z ++ z') t = plug z' (plug z t).
Proof. revert t. induction z as [|g z IH]; intros t; [done|]. apply IH. Qed.
Lemma zpar_app z f z' : zpar (z ++ f :: z') = spar (f_p f) z.
Proof. by destruct z. Qed.

(** The topmost node of a segment is the one that points to the node above. *)
Lemma zseg_top f z hp :
  ∃ c (nr nl : Z) es, ∀ q,
    zseg q (f :: z) hp ≡ₚ (zroot (f :: z) hp, MkNode (pack q c) nr nl) :: es.
Proof.
  revert f hp. induction z as [|g z IH]; intros f hp.
  - destruct f as [c [] p sib]; cbn; exists c; do 3 eexists; intros q; reflexivity.
  - destruct (IH g (f_p f)) as (c&nr&nl&es&Hes).
    exists c, nr, nl, ((f_p f, frame_node (f_p g) f hp) :: tmap (f_p f) (f_sib f) ++ es).
    intros q. change (zseg q (f :: g :: z) hp) with
      ((f_p f, frame_node (f_p g) f hp) :: tmap (f_p f) (f_sib f) ++ zseg q (g :: z) (f_p f)).
    rewrite (Hes q). cbn [zroot]. solve_Permutation.
Qed.
Lemma wp_zseg_parent m rt par q f z hp es (Φ : unit → rb → Prop) :
  heap m0 (zseg par (f :: z) hp ++ es) m → aligned par → aligned q →
  (∀ m', heap m0 (zseg q (f :: z) hp ++ es) m' → Φ tt (MkRb m' rt)) →
  wp (rb_set_parent (zroot (f :: z) hp) q) Φ (MkRb m rt).
Proof.
  intros Hh Hpar Hq HΦ. destruct (zseg_top f z hp) as (c&nr&nl&es'&Hes).
  eapply (wp_rb_set_parent _ _ _ par c nr nl _ (es' ++ es)); [exact Hh| |done|done|].
  - by rewrite (Hes par).
  - intros m' Hm. apply HΦ. eapply heap_perm, Hm. by rewrite (Hes q).
Qed.

Lemma before_left z : Forall (λ f, f_side f = SL) z → before z = [].
Proof. induction 1 as [|[? [] ? ?] z Hf]; done. Qed.
Lemma leftmost_plug c l p r z d y b :
  leftmost c l p r = (z, (d, y, b)) →
  plug z (T d E y b) = T c l p r ∧ default 0 (head (inorder l ++ [p])) = y ∧
  Forall (λ f, f_side f = SL) z.
Proof.
  revert c p r z d y b. induction l as [|c' l' IH p' r' _]; intros c p r z d y b; cbn [leftmost].
  - by intros [= <- <- <- <-].
  - destruct (leftmost c' l' p' r') as [z' [[d' y'] b']] eqn:Hl. intros [= <- -> -> ->].
    destruct (IH _ _ _ _ _ _ _ Hl) as (Hp&Hh&Hs). split_and!.
    + by rewrite plug_app Hp.
    + cbn. rewrite -Hh. by destruct (inorder l').
    + apply Forall_app. split; [done|]. by apply Forall_singleton.
Qed.
End segments.

Section erase_two.
Context (m0 : gmap Z rb_node).
Implicit Types (l r t : tree) (z : list frame) (s : rb) (c : color).

(** [erase_two] once the successor [node] is found. *)
Definition erase_two_tail (old node : Z) : M rb (Z * Z * Z) :=
  op ← rb_parent old;
  (if truthy op then
     opl ← get_left op;
     if opl =? old then op ← rb_parent old; set_left op node
     else op ← rb_parent old; set_right op node
   else set_root node);;
  child ← get_right node;
  parent ← rb_parent node;
  color ← rb_color node;
  parent ← (if parent =? old then mret node else
     when (truthy child) (rb_set_parent child parent);;
     set_left parent child;;
     orr ← get_right old;
     set_right node orr;;
     orr ← get_right old;
     rb_set_parent orr node;;
     mret parent);
  on ← nd old;
  nd_mod (λ n, MkNode (rb_parent_color on) (rb_right n) (rb_left n)) node;;
  ol ← get_left old;
  set_left node ol;;
  ol ← get_left old;
  rb_set_parent ol node;;
  mret (child, parent, color).

Lemma heap_ne_pull m a n b k es es1 es2 :
  heap m0 es m → es ≡ₚ (a, n) :: es1 → es1 ≡ₚ (b, k) :: es2 → a ≠ b.
Proof. intros Hh H1 H2. eapply heap_ne; [exact Hh|]. by rewrite H1 H2. Qed.

(** The successor is the right child itself. *)
Lemma erase_tail_near m rt z c cl ll pl lr p d y b :
  heap m0 ((y, MkNode (pack p d) (ptr b) 0) :: tmap y b ++
    (p, MkNode (pack (zpar z) c) y pl) :: tmap p (T cl ll pl lr) ++ zmap z p) m →
  rt = zroot z p → aligned (zpar z) →
  wp (erase_two_tail p y)
    (λ res s', res = (ptr b, y, cz d) ∧
       at_pos (<[p := MkNode (pack (zpar z) c) y pl]> m0) s'
         (Fr c SR y (T cl ll pl lr) :: z) b) (MkRb m rt).
Proof.
  intros Hh Hr Hal. cbn [tmap] in Hh. rewrite /erase_two_tail.
  assert (Hp : valid p) by (eapply heap_valid; [exact Hh|pull]).
  assert (Hy : valid y) by (eapply heap_valid; [exact Hh|pull]).
  rb_steps Hh.
  rb_write Hh ltac:(eapply relink_two_run; [exact Hh|pull|pullb|exact Hr|exact Hal|]).
  rb_steps Hh. rewrite Z.eqb_refl. rb_steps Hh.
  rb_write Hh ltac:(eapply wp_nd_mod; [exact Hh|pull|]). rb_steps Hh.
  split; [done|]. split; [|done]. cbn [nodes]. apply heap_free. eapply heap_perm, Hh.
  cbn [zmap zpar f_p f_sib f_c tmap frame_node f_side ptr]. solve_Permutation.
Qed.

(** The successor is further down: its own right child takes its place. *)
Lemma erase_tail_far m rt z c cl ll pl lr p fc q sib zr d y b :
  heap m0 ((y, MkNode (pack q d) (ptr b) 0) :: tmap y b ++
    zseg p (Fr fc SL q sib :: zr) y ++
    (p, MkNode (pack (zpar z) c) (zroot zr q) pl) :: tmap p (T cl ll pl lr) ++ zmap z p) m →
  rt = zroot z p → aligned (zpar z) → aligned (spar p zr) →
  wp (erase_two_tail p y)
    (λ res s', res = (ptr b, q, cz d) ∧
       at_pos (<[p := MkNode (pack (zpar z) c) (zroot zr q) pl]> m0) s'
         ((Fr fc SL q sib :: zr) ++ Fr c SR y (T cl ll pl lr) :: z) b) (MkRb m rt).
Proof.
  intros Hh Hr Hal Hals. cbn [tmap zseg f_p f_sib frame_node f_side f_c] in Hh.
  rewrite /erase_two_tail.
  assert (Hp : valid p) by (eapply heap_valid; [exact Hh|pull]).
  assert (Hy : valid y) by (eapply heap_valid; [exact Hh|pull]).
  assert (Hq : valid q) by (eapply heap_valid; [exact Hh|pull]).
  assert (Hqp : q ≠ p).
  { eapply (heap_ne_pull _ q _ p); [exact Hh|pull|pull]. }
  rb_steps Hh.
  rb_write Hh ltac:(eapply relink_two_run; [exact Hh|pull|pullb|exact Hr|exact Hal|]).
  rb_steps Hh. rewrite (proj2 (Z.eqb_neq q p) Hqp).
  assert (Hb : wp (when (truthy (ptr b)) (rb_set_parent (ptr b) q))
    (λ _ s', ∃ m', s' = MkRb m' (zroot z y) ∧
       heap m0 ((y, MkNode (pack q d) (ptr b) 0) :: tmap q b ++
         zseg p (Fr fc SL q sib :: zr) y ++
         (p, MkNode (pack (zpar z) c) (zroot zr q) pl) :: tmap p (T cl ll pl lr) ++ zmap z y) m')
    (MkRb m1 (zroot z y))).
  { destruct b as [|cb bl pb br]; cbn [ptr tmap] in *; rb_auto Hh;
      (eexists; split; [reflexivity|]); (eapply heap_perm, Hh);
      cbn [tmap zseg f_p f_sib frame_node f_side f_c]; solve_Permutation. }
  apply wp_bind. eapply wp_mono; [exact Hb|]. clear Hh Hb m1.
  intros [] ? (m1&->&Hh). cbn [tmap zseg f_p f_sib frame_node f_side f_c] in Hh. rb_steps Hh.
  eapply (wp_zseg_parent _ _ _ p y (Fr fc SL q sib) zr (ptr b)
    ((y, MkNode (pack q d) (zroot zr q) 0) :: tmap q b ++
     (p, MkNode (pack (zpar z) c) (zroot zr q) pl) :: tmap p (T cl ll pl lr) ++ zmap z y)).
  { eapply heap_perm, Hh. cbn [tmap zseg f_p f_sib frame_node f_side f_c]. solve_Permutation. }
  1,2: al. clear Hh m1. intros m1 Hh. cbn [tmap] in Hh. rb_steps Hh.
  rb_write Hh ltac:(eapply wp_nd_mod; [exact Hh|pull|]). rb_steps Hh.
  split; [done|]. split; [|cbn [rb_root]; by rewrite zroot_app].
  cbn [nodes]. apply heap_free. rewrite zpar_app zmap_app. eapply heap_perm, Hh.
  cbn [zmap zpar spar f_p f_sib f_c tmap frame_node f_side ptr zroot]. solve_Permutation.
Qed.
End erase_two.

(** ** [rb_erase] as a whole *)
Section erase.
Context (m0 : gmap Z rb_node).
Implicit Types (l r t : tree) (z : list frame) (s : rb) (c : color).

(** Where the removal leaves a gap: the path to it and the subtree there. *)
Definition gap (z : list frame) (c : color) (l : tree) (r : tree) : list frame * color * tree :=
  match l, r with
  | E, _ => (z, c, r)
  | _, E => (z, c, l)
  | T _ _ _ _, T cr rl pr rr =>
      let '(zr, (d, y, b)) := leftmost cr rl pr rr in (zr ++ Fr c SR y l :: z, d, b)
  end.

Lemma plug_ptr z t : ptr (plug z t) = zroot z (ptr t).
Proof.
  revert t. induction z as [|f z IH]; intros t; [done|]. cbn [plug zroot]. rewrite IH.
  by destruct f as [? [] ? ?].
Qed.

Lemma erase_two_run s z c cl ll pl lr p cr rl pr rr n zr d y b :
  at_pos m0 s z (T c (T cl ll pl lr) p (T cr rl pr rr)) →
  leftmost cr rl pr rr = (zr, (d, y, b)) → nodes s !! p = Some n →
  wp (erase_two p)
    (λ res s', res = (ptr b, spar y zr, cz d) ∧
       at_pos (<[p := n]> m0) s' (zr ++ Fr c SR y (T cl ll pl lr) :: z) b) s.
Proof.
  intros Hs Hlm Hn. destruct (leftmost_plug _ _ _ _ _ _ _ _ Hlm) as (Hpl&Hy&Hsl).
  pose proof (at_pos_zpar _ _ _ _ Hs) as Hal.
  pose proof (at_pos_down _ _ (Fr c SR p (T cl ll pl lr)) _ (T cr rl pr rr) Hs) as Hr.
  rewrite /erase_two. apply wp_bind, wp_gets. rb_run (right_run _ _ _ _ _ _ _ Hs). cbn [ptr].
  eapply wp_run.
  { apply (go_left_run _ _ _ _ _ _ _ _ Hr). apply at_pos_depth in Hr. cbn [depth] in Hr. lia. }
  rewrite Hy. change (wp (erase_two_tail p y)
    (λ res s', res = (ptr b, spar y zr, cz d) ∧
       at_pos (<[p := n]> m0) s' (zr ++ Fr c SR y (T cl ll pl lr) :: z) b) s).
  assert (Hb : at_pos m0 s (zr ++ Fr c SR p (T cl ll pl lr) :: z) (T d E y b)).
  { apply at_pos_plug. rewrite plug_app Hpl. exact (proj1 (at_pos_plug _ _ _ _) Hr). }
  assert (Hnn : n = MkNode (pack (zpar z) c) pr pl).
  { destruct Hs as [Hh _]. cbn [tmap] in Hh. erewrite (heap_lookup _ _ _ p) in Hn; [|exact Hh|pull].
    by injection Hn as <-. }
  pose proof Hb as Hb'. destruct s as [m rt], Hs as [_ Hrt], Hb as [Hh _]. subst n.
  rewrite zpar_app zmap_app in Hh. cbn [nodes ptr tmap app] in *.
  destruct zr as [|[fc sd q sib] zr].
  - cbn in Hpl. injection Hpl as <- <- <- <-. apply erase_tail_near; [|done|done]. exact Hh.
  - assert (sd = SL) as -> by by inversion Hsl.
    assert (zroot zr q = pr) as <-.
    { by rewrite -[pr]/(ptr (T cr rl pr rr)) -Hpl plug_ptr. }
    eapply erase_tail_far; [exact Hh|done|done|].
    cbn [app] in Hb'. apply at_pos_out, at_pos_zpar in Hb'. by rewrite zpar_app in Hb'.
Qed.
Lemma before_app z z' : before (z ++ z') = before z' ++ before z.
Proof.
  induction z as [|[c [] p sib] z IH]; cbn; [by rewrite app_nil_r|done|]. by rewrite IH -!app_assoc.
Qed.
Lemma after_app z z' : after (z ++ z') = after z ++ after z'.
Proof. induction z as [|[c [] p sib] z IH]; cbn; [done| |done]. by rewrite IH -!app_assoc. Qed.
(** The conditions do not depend on the addresses. *)
Lemma zwf_addr z c sd p q sib z' n : zwf (z ++ Fr c sd p sib :: z') n → zwf (z ++ Fr c sd q sib :: z') n.
Proof.
  revert n. induction z as [|[d sd' p' sib'] z IH]; intros n; [done|].
  destruct d; cbn; [|naive_solver]. intros (?&?&?&?&?). split_and!; auto; by destruct z.
Qed.

(** The first part of [rb_erase] opens the gap. *)
Definition unlink (node : Z) : M rb (Z * Z * Z) :=
  l ← get_left node;
  if negb (truthy l) then child ← get_right node; erase_one node child
  else r ← get_right node;
    if negb (truthy r) then child ← get_left node; erase_one node child
    else erase_two node.
Lemma unlink_run s z c l p r n z' d b :
  at_pos m0 s z (T c l p r) → nodes s !! p = Some n → gap z c l r = (z', d, b) →
  wp (unlink p)
    (λ res s', res = (ptr b, zpar z', cz d) ∧ at_pos (<[p := n]> m0) s' z' b) s.
Proof.
  intros Hs Hn Hg. rewrite /unlink. rb_run (left_run _ _ _ _ _ _ _ Hs).
  destruct l as [|cl ll pl lr]; cbn [ptr].
  { injection Hg as <- <- <-. cbn [truthy negb]. rb_run (right_run _ _ _ _ _ _ _ Hs).
    eapply erase_one_run; [exact Hs|by left|done]. }
  rewrite (truthy_valid pl); cbn [negb].
  2: { eapply (at_pos_valid _ _ _ cl ll pl lr).
    exact (at_pos_down _ _ (Fr c SL p r) _ (T cl ll pl lr) Hs). }
  rb_run (right_run _ _ _ _ _ _ _ Hs). destruct r as [|cr rl pr rr]; cbn [ptr].
  { injection Hg as <- <- <-. cbn [truthy negb]. rb_run (left_run _ _ _ _ _ _ _ Hs).
    eapply erase_one_run; [exact Hs|by right|done]. }
  rewrite (truthy_valid pr); cbn [negb].
  2: { eapply (at_pos_valid _ _ _ cr rl pr rr).
    exact (at_pos_down _ _ (Fr c SR p (T cl ll pl lr)) _ (T cr rl pr rr) Hs). }
  cbn [gap] in Hg. destruct (leftmost cr rl pr rr) as [zr [[d' y] b']] eqn:Hlm.
  injection Hg as <- <- <-. rewrite zpar_app. by eapply erase_two_run.
Qed.

(** What is known of the gap in a red-black tree. *)
Lemma gap_wf z c l p r z' d b :
  is_rb (plug z (T c l p r)) → gap z c l r = (z', d, b) →
  ∃ n, zwf z' n ∧ match d with
    | Red => wf b n ∧ root_color b = Black ∧ z' ≠ []
    | Black => ∃ n', n = S n' ∧ wf b n'
    end.
Proof.
  intros [Hc [N HN]] Hg. destruct l as [|cl ll pl lr], r as [|cr rl pr rr]; cbn [gap] in Hg.
  1-3: injection Hg as <- <- <-; destruct (plug_wf_inv _ _ _ HN Hc) as (n&Hn&Hz&Hr&H0);
    exists n; (split; [done|]); destruct c; cbn in Hn;
    [split_and!; try naive_solver; by intros ->|destruct n; naive_solver].
  destruct (leftmost cr rl pr rr) as [zr [[d' y] b']] eqn:Hlm. injection Hg as <- <- <-.
  destruct (leftmost_plug _ _ _ _ _ _ _ _ Hlm) as (Hpl&_&_).
  assert (Heq : plug z (T c (T cl ll pl lr) p (T cr rl pr rr)) =
    plug (zr ++ Fr c SR p (T cl ll pl lr) :: z) (T d' E y b')) by by rewrite plug_app Hpl.
  rewrite Heq in Hc, HN. destruct (plug_wf_inv _ _ _ HN Hc) as (n&Hn&Hz&Hr&_).
  exists n. split; [by eapply zwf_addr|].
  destruct d'; cbn in Hn; [|destruct n; naive_solver]. split_and!; try naive_solver. by destruct zr.
Qed.
Lemma gap_inorder z c l r z' d b :
  gap z c l r = (z', d, b) →
  before z' ++ inorder b ++ after z' = before z ++ inorder l ++ inorder r ++ after z.
Proof.
  destruct l as [|cl ll pl lr], r as [|cr rl pr rr]; cbn [gap]; [by intros [= <- <- <-]..|].
  destruct (leftmost cr rl pr rr) as [zr [[d' y] b']] eqn:Hlm. intros [= <- <- <-].
  destruct (leftmost_plug _ _ _ _ _ _ _ _ Hlm) as (Hpl&_&Hsl).
  rewrite before_app after_app (before_left _ Hsl) app_nil_r -Hpl inorder_split (before_left _ Hsl).
  cbn [before after]. by rewrite /= -!app_assoc.
Qed.

Lemma erase_run s z c l p r n :
  at_pos m0 s z (T c l p r) → is_rb (plug z (T c l p r)) → nodes s !! p = Some n →
  wp (rb_erase p)
    (λ _, erased_to (<[p := n]> m0) (before z ++ inorder l ++ inorder r ++ after z)) s.
Proof.
  intros Hs Hrb Hn. destruct (gap z c l r) as [[z' d] b] eqn:Hg.
  destruct (gap_wf _ _ _ _ _ _ _ _ Hrb Hg) as (k&Hz&Hd). rewrite -(gap_inorder _ _ _ _ _ _ _ Hg).
  rewrite /rb_erase. apply wp_bind.
  eapply wp_mono; [eapply wp_bind_inv; exact (unlink_run _ _ _ _ _ _ _ _ _ _ Hs Hn Hg)|].
  intros l' s0 Hu. apply wp_bind. eapply wp_mono; [exact Hu|]. intros res s1 [-> Hs1].
  destruct d; cbn [cz Z.eqb when RB_RED RB_BLACK].
  - destruct Hd as (Hb&Hcb&Hne). apply wp_ret. exists (plug z' b). split; [exact (proj1 (at_pos_plug _ _ _ _) Hs1)|].
    split; [|by rewrite inorder_split]. split; [by eapply root_color_plug|].
    eapply plug_wf; [exact Hz|done|by rewrite Hcb].
  - destruct Hd as (k'&->&Hb). rewrite /= /rb_erase_color. apply wp_bind, wp_gets. apply wp_bind.
    eapply wp_mono; [eapply erase_loop_run; [exact Hs1|exact Hb|exact Hz|]|].
    + etrans; [apply length_plug|]. etrans; [by eapply at_pos_size|lia].
    + intros node s2 Hpost. exact Hpost.
Qed.
End erase.
