(* ===== verification/RbSpec.v ===== *)
(** * Red-black trees: what rbtree.c promises

    The theorems state the operations on whole trees: a tree is its sequence of
    nodes in order, [is_rb] the red-black conditions. *)

From S2P Require Import Prelude RbTree RbRep RbInsert RbWalk RbErase.
#[local] Open Scope Z_scope.

Section focus.
Implicit Types (l r t : tree) (z : list frame) (s : rb) (c : color).

(** Every node of a tree is at a position. *)
Lemma focus t p : p ∈ inorder t → ∃ z c l r, t = plug z (T c l p r).
Proof.
  enough (∀ z, p ∈ inorder t → ∃ z' c l r, plug z t = plug z' (T c l p r)) as H by apply (H []).
  induction t as [|c l IHl q r IHr]; intros z Hp; [by apply elem_of_nil in Hp|].
  cbn in Hp. apply elem_of_app in Hp as [Hp|[->|Hp]%elem_of_cons].
  - exact (IHl (Fr c SL q r :: z) Hp).
  - by exists z, c, l, r.
  - exact (IHr (Fr c SR q l :: z) Hp).
Qed.
Lemma is_tree_nodup m0 s t : is_tree m0 s t → NoDup (inorder t).
Proof.
  intros [Hh _]. apply hp_nodup in Hh. cbn in Hh. by rewrite app_nil_r tmap_fst in Hh.
Qed.
Lemma nodup_split (xs ys xs' ys' : list Z) p :
  NoDup (xs ++ p :: ys) → xs ++ p :: ys = xs' ++ p :: ys' → xs = xs' ∧ ys = ys'.
Proof.
  revert xs'. induction xs as [|x xs IH]; intros [|x' xs'] Hnd Heq; cbn in *; simplify_eq.
  - done.
  - apply NoDup_cons in Hnd as [Hn _]. set_solver.
  - apply NoDup_cons in Hnd as [Hn _]. set_solver.
  - apply NoDup_cons in Hnd as [_ Hnd]. by destruct (IH xs' Hnd) as [-> ->].
Qed.
(** The position of a node that splits the sequence. *)
Lemma focus_split m0 s t xs p ys :
  is_tree m0 s t → inorder t = xs ++ p :: ys →
  ∃ z c l r, t = plug z (T c l p r) ∧ at_pos m0 s z (T c l p r) ∧
    xs = before z ++ inorder l ∧ ys = inorder r ++ after z.
Proof.
  intros Ht Ho. pose proof (is_tree_nodup _ _ _ Ht) as Hnd.
  destruct (focus t p) as (z&c&l&r&->); [rewrite Ho; set_solver|].
  exists z, c, l, r. split; [done|]. split; [by apply at_pos_plug|].
  rewrite Ho in Hnd. apply (nodup_split _ _ _ _ _ Hnd). rewrite -Ho inorder_split /=.
  by rewrite -!app_assoc.
Qed.
Lemma node_in m0 s z c l p r : at_pos m0 s z (T c l p r) → is_Some (nodes s !! p).
Proof.
  intros [Hh _]. cbn [tmap] in Hh. eexists. eapply heap_lookup; [exact Hh|pull].
Qed.

(** Insertion and removal on whole trees. *)
Lemma insert_at_run m0 s z x :
  at_pos m0 s z E → is_rb (plug z E) → valid x → x ∉ inorder (plug z E) →
  wp (rb_link_node x (zpar z) (zlink z);; rb_insert_color x)
    (λ _ s', ∃ t', is_tree m0 s' t' ∧ is_rb t' ∧ inorder t' = before z ++ x :: after z) s.
Proof.
  intros Hs [Hc [N HN]] Hv Hx. destruct (plug_wf_inv _ _ _ HN Hc) as (n&Hn&Hz&_).
  apply wp_bind. eapply wp_mono; [by apply link_node_run|]. intros [] s1 H1.
  by apply (insert_color_run _ _ _ n E x E H1 Hz).
Qed.
Lemma erase_from_run m0 s t xs p ys :
  is_tree m0 s t → is_rb t → inorder t = xs ++ p :: ys →
  ∃ n, nodes s !! p = Some n ∧
  wp (rb_erase p)
    (λ _ s', ∃ t', is_tree (<[p := n]> m0) s' t' ∧ is_rb t' ∧ inorder t' = xs ++ ys) s.
Proof.
  intros Ht Hrb Ho. destruct (focus_split _ _ _ _ _ _ Ht Ho) as (z&c&l&r&->&Hs&->&->).
  destruct (node_in _ _ _ _ _ _ _ Hs) as [n Hn]. exists n. split; [done|].
  rewrite -app_assoc. by eapply erase_run.
Qed.
End focus.

Section Promises.
Context (m0 : gmap Z rb_node).
Implicit Types (t : tree) (z : list frame) (s : rb).

(** C20: linking a new node at an empty place and rebalancing inserts it into the
    sequence at that place, and the tree is a red-black tree again; nothing else in
    the store changes. *)
Theorem rb_insert_correct s z x :
  at_pos m0 s z E → is_rb (plug z E) → valid x → x ∉ inorder (plug z E) →
  wp (rb_link_node x (zpar z) (zlink z);; rb_insert_color x)
    (λ _ s', ∃ t', is_tree m0 s' t' ∧ is_rb t' ∧ inorder t' = before z ++ x :: after z) s.
Proof. apply insert_at_run. Qed.

(** C10: [rb_erase] removes exactly the given node from the sequence, and the tree is
    a red-black tree again; the node itself and the rest of the store are untouched. *)
Theorem rb_erase_correct s t xs p ys :
  is_tree m0 s t → is_rb t → inorder t = xs ++ p :: ys →
  ∃ n, nodes s !! p = Some n ∧
  wp (rb_erase p)
    (λ _ s', ∃ t', is_tree (<[p := n]> m0) s' t' ∧ is_rb t' ∧ inorder t' = xs ++ ys) s.
Proof. apply erase_from_run. Qed.

(** C30: [rb_first] and [rb_last] return the ends of the sequence, [rb_next] and
    [rb_prev] the neighbours of a node, null where there is none; the state is
    unchanged. *)
Theorem rb_traversal_correct s t :
  is_tree m0 s t →
  rb_first s = Some (default 0 (head (inorder t)), s) ∧
  rb_last s = Some (default 0 (last (inorder t)), s) ∧
  ∀ xs p ys, inorder t = xs ++ p :: ys →
    rb_next p s = Some (default 0 (head ys), s) ∧ rb_prev p s = Some (default 0 (last xs), s).
Proof.
  intros Ht. split; [by apply (first_run m0)|]. split; [by apply (last_run m0)|].
  intros xs p ys Ho. destruct (focus_split _ _ _ _ _ _ Ht Ho) as (z&c&l&r&->&Hs&->&->).
  split; [by eapply next_run|by eapply prev_run].
Qed.

(** [rb_replace_node] puts the new node in the place of the victim: the sequence
    differs at that place only, colours and balance are kept. *)
Theorem rb_replace_node_correct s t xs p ys new :
  is_tree m0 s t → is_rb t → inorder t = xs ++ p :: ys → valid new → new ∉ inorder t →
  ∃ n, nodes s !! p = Some n ∧
  wp (rb_replace_node p new)
    (λ _ s', ∃ t', is_tree (<[p := n]> m0) s' t' ∧ is_rb t' ∧ inorder t' = xs ++ new :: ys) s.
Proof.
  intros Ht [Hc [N HN]] Ho Hv Hnew.
  destruct (focus_split _ _ _ _ _ _ Ht Ho) as (z&c&l&r&->&Hs&->&->).
  destruct (node_in _ _ _ _ _ _ _ Hs) as [n Hn]. exists n. split; [done|].
  eapply wp_mono; [by eapply replace_run|]. intros [] s' Hs'.
  exists (plug z (T c l new r)). split; [exact (proj1 (at_pos_plug _ _ _ _) Hs')|]. split.
  - destruct (plug_wf_inv _ _ _ HN Hc) as (k&Hk&Hz&Hcz&_). split.
    + destruct z; [done|]. by eapply root_color_plug.
    + eapply plug_wf; [exact Hz| |exact Hcz]. exact Hk.
  - by rewrite inorder_split /= -!app_assoc.
Qed.

(** in a red-black tree of [n] nodes the descent of [rb_first] takes at most
    [2 * log2 (n + 1)] steps. *)
Theorem rb_first_logarithmic s t :
  is_tree m0 s t → is_rb t → t ≠ E →
  go_left (2 * Nat.log2 (length (inorder t) + 1)) (rb_root s) s =
    Some (default 0 (head (inorder t)), s).
Proof.
  intros Ht [Hc [n Hn]] Hne. rewrite (root_run _ _ _ _ Ht). cbn [plug].
  destruct t as [|c l p r]; [done|]. cbn [ptr]. rewrite (go_left_run _ _ _ _ _ _ _ _ Ht).
  - cbn [inorder]. by destruct (inorder l).
  - pose proof (wf_depth _ _ Hn) as Hd. rewrite Hc in Hd. cbn [depth] in Hd.
    pose proof (wf_size _ _ Hn) as Hsz. apply Nat.log2_le_mono in Hsz.
    rewrite Nat.log2_pow2 in Hsz; lia.
Qed.
End Promises.

(** ** A concrete tree *)
Module RbWitness.

(** The store that holds just a tree. *)
Definition store (t : tree) : rb := MkRb (list_to_map (tmap 0 t)) (ptr t).
Lemma heap_list es :
  NoDup es.*1 → Forall valid es.*1 → heap ∅ es (list_to_map es : gmap Z rb_node).
Proof.
  intros Hnd Hv. split; [done|done|..].
  - intros a n Hin. by apply elem_of_list_to_map_1.
  - intros a Ha. rewrite lookup_empty. by apply not_elem_of_list_to_map_1.
Qed.
Lemma store_tree t : NoDup (inorder t) → Forall valid (inorder t) → is_tree ∅ (store t) t.
Proof.
  intros Hnd Hv. split; [|done]. cbn. rewrite app_nil_r. apply heap_list; by rewrite tmap_fst.
Qed.
#[local] Instance valid_dec p : Decision (valid p).
Proof. rewrite /valid /aligned. apply _. Defined.

Definition seven : tree :=
  T Black (T Red (T Black E 4 E) 8 (T Black E 12 E)) 16 (T Red (T Black E 20 E) 24 (T Black E 28 E)).
Lemma seven_tree : is_tree ∅ (store seven) seven.
Proof. apply store_tree; [by apply (bool_decide_unpack _)|by apply (bool_decide_unpack _)]. Qed.
Lemma seven_rb : is_rb seven.
Proof. split; [done|]. by exists 2%nat. Qed.
(** The place to the right of the last node. *)
Definition seven_end : list frame :=
  [Fr Black SR 28 E; Fr Red SR 24 (T Black E 20 E);
   Fr Black SR 16 (T Red (T Black E 4 E) 8 (T Black E 12 E))].

Lemma rb_insert_witness :
  wp (rb_link_node 32 (zpar seven_end) (zlink seven_end);; rb_insert_color 32)
    (λ _ s', ∃ t', is_tree ∅ s' t' ∧ is_rb t' ∧ inorder t' = [4; 8; 12; 16; 20; 24; 28; 32])
    (store seven).
Proof.
  apply (rb_insert_correct ∅ (store seven) seven_end 32).
  - exact (proj2 (at_pos_plug _ _ seven_end E) seven_tree).
  - exact seven_rb.
  - by apply (bool_decide_unpack _).
  - by apply (bool_decide_unpack _).
Defined.
Lemma rb_erase_witness :
  ∃ n, nodes (store seven) !! 16 = Some n ∧
  wp (rb_erase 16)
    (λ _ s', ∃ t', is_tree {[16 := n]} s' t' ∧ is_rb t' ∧ inorder t' = [4; 8; 12] ++ [20; 24; 28])
    (store seven).
Proof. by apply (rb_erase_correct ∅ (store seven) seven [4; 8; 12] 16 [20; 24; 28] seven_tree seven_rb). Defined.
Lemma rb_traversal_witness :
  rb_first (store seven) = Some (4, store seven) ∧ rb_next 12 (store seven) = Some (16, store seven).
Proof.
  split.
  - apply (rb_traversal_correct ∅ (store seven) seven seven_tree).
  - by apply (proj2 (proj2 (rb_traversal_correct ∅ (store seven) seven seven_tree))
      [4; 8] 12 [16; 20; 24; 28]).
Defined.
Lemma rb_replace_node_witness :
  ∃ n, nodes (store seven) !! 8 = Some n ∧
  wp (rb_replace_node 8 40)
    (λ _ s', ∃ t', is_tree {[8 := n]} s' t' ∧ is_rb t' ∧
       inorder t' = [4] ++ 40 :: [12; 16; 20; 24; 28]) (store seven).
Proof.
  apply (rb_replace_node_correct ∅ (store seven) seven [4] 8 [12; 16; 20; 24; 28] 40 seven_tree seven_rb);
    by apply (bool_decide_unpack _).
Defined.
Lemma rb_first_logarithmic_witness : go_left 6 16 (store seven) = Some (4, store seven).
Proof. by apply (rb_first_logarithmic ∅ (store seven) seven seven_tree seven_rb). Defined.
End RbWitness.
