(* ===== verification/Timers.v ===== *)
(** * Timer wheels (src/TIMERS, SFS build)

    A running timer sits in one of four red-black trees, the wheels for ticks,
    seconds, minutes and hours, ordered by the clock value [rt] at which the wheel
    hands it on.  [ctime] holds what is left of its time in the 32-bit format of
    tmrtypes.h.

    - [struct app_timer] begins with its tree node [rlist], so a node of a wheel
      and the timer it belongs to have the same address; addresses are [Z], 0 is
      null.  The nodes of the four wheels share one store.
    - An access to an address that is not allocated, or outside of [root] or
      [clk], is undefined behaviour.
    - The timer functions run inside a host [H], which they do not look at: the
      state that the time-out handlers act on.  [TmEnv] is what they ask of
      it: memory, and the handlers. *)

From stdpp Require Export strings.
From S2P Require Import Prelude ListHead RbTree.
#[local] Open Scope Z_scope.

(** ** Constants of tmrtypes.h, tmr_init.c and thr_spec.c *)
Definition TICK : Z := 0.
Definition SEC : Z := 1.
Definition MIN : Z := 2.
Definition HRS : Z := 3.
Definition TIMER_WHEEL : Z := 4.
Definition WAIT_TIMERS : Z := 5.
Definition TIMER_ONCE : Z := 1.
Definition TIMER_REPEAT : Z := 2.
Definition TIMER_FOREVER : Z := 4.
Definition MAX_TIMERS : Z := 2000.
Definition TICK_BITS : Z := 10.
Definition SECS_BITS : Z := 6.
Definition MINS_BITS : Z := 6.
Definition HRS_BITS : Z := 10.
Definition SEC_BITS_OFFSET : Z := TICK_BITS.
Definition MIN_BITS_OFFSET : Z := SEC_BITS_OFFSET + SECS_BITS.
Definition HRS_BITS_OFFSET : Z := MIN_BITS_OFFSET + MINS_BITS.
(** The ticks of a second: 50 in the SFS build, 100 in the pthread build. *)
Class TickRate := tm_get_ticks_per_second : Z.
#[global] Instance sfs_ticks : TickRate := 50.

(** ** The time format *)
Definition SET_TICK {TR : TickRate} (ct t : Z) : Z := Z.lor ct (t `mod` tm_get_ticks_per_second).
Definition SET_SECS (ct t : Z) : Z := Z.lor ct (u32 (Z.shiftl (t `mod` 60) SEC_BITS_OFFSET)).
Definition SET_MINS (ct t : Z) : Z := Z.lor ct (u32 (Z.shiftl (t `mod` 60) MIN_BITS_OFFSET)).
Definition SET_HRS (ct t : Z) : Z := Z.lor ct (u32 (Z.shiftl t HRS_BITS_OFFSET)).
(** [~(~0U << n)]. *)
Definition low_mask (n : Z) : Z := u32 (Z.lnot (u32 (Z.shiftl (u32 (Z.lnot 0)) n))).
Definition GET_TICK (ct : Z) : Z := Z.land (low_mask TICK_BITS) ct.
Definition GET_SECS (ct : Z) : Z := Z.land (low_mask SECS_BITS) (Z.shiftr ct SEC_BITS_OFFSET).
Definition GET_MINS (ct : Z) : Z := Z.land (low_mask MINS_BITS) (Z.shiftr ct MIN_BITS_OFFSET).
Definition GET_HRS (ct : Z) : Z := Z.land (low_mask HRS_BITS) (Z.shiftr ct HRS_BITS_OFFSET).
Definition wheel_mask : list Z := [0xFFFFFC00; 0xFFFF03FF; 0xFFC0FFFF; 0x3FFFFF].

(** ** Data *)
Record tm_timer := MkTimer {
  rmt : Z;
  exp : Z;
  wheel : Z;
  idx : Z;
  flags : Z;
  is_running : Z;
  data : Z;
  apptimer : Z;
  time_out_handler : Z
}.
Record app_timer := MkApp { timer : Z; ctime : Z; rt : Z }.
Definition timer_zero : tm_timer := MkTimer 0 0 0 0 0 0 0 0 0.
Definition app_zero : app_timer := MkApp 0 0 0.

(** The nodes of the list of expired timers: its head and [app_timer.elist]. *)
Inductive enode := E_hd | E_tmr (a : Z).
#[global] Instance enode_eq_dec : EqDecision enode.
Proof. solve_decision. Defined.
#[global] Program Instance enode_countable : Countable enode :=
  inj_countable' (λ n, match n with E_hd => inl tt | E_tmr a => inr a end)
                 (λ s, match s with inl _ => E_hd | inr a => E_tmr a end) _.
Next Obligation. by intros []. Qed.
Definition list_entry_tmr (n : enode) : option Z :=
  match n with E_tmr a => Some a | E_hd => None end.

(** The file-scope variables of the timer code, the memory it has allocated, and
    the host.  [t_alloc] is what the timers contribute to [alloc_size]. *)
Record tms {H : Type} := MkTms {
  apps : gmap Z app_timer;
  timers : gmap Z tm_timer;
  tnodes : gmap Z rb_node;
  roots : list Z;
  elst : gmap enode (list_head enode);
  clk : list Z;
  count : Z;
  indx : Z;
  t_alloc : Z;
  n_alloc : nat;
  host : H
}.
Arguments tms : clear implicits.

(** The lock of [struct rb_root], a field of each wheel: what [sync_lock] and [sync_unlock] do to it.  In the SFS
    build both return at once (src/core/lock.c); the pthread build has semaphores (PthTimers.v). *)
Class WheelLocks (H : Type) := {
  wheel_lock : Z → M (tms H) unit;
  wheel_unlock : Z → M (tms H) unit
}.
#[global] Instance sfs_locks H : WheelLocks H := {| wheel_lock _ := mret tt; wheel_unlock _ := mret tt |}.

Class TmEnv (H : Type) := {
  env_talloc : nat → Z;
  env_tsizeof : string → Z;
  env_handler : Z → Z → M (tms H) unit
}.

Section setters.
Context {H : Type}.
Implicit Types s : tms H.

Definition set_apps v s := MkTms H v (timers s) (tnodes s) (roots s) (elst s) (clk s) (count s) (indx s) (t_alloc s) (n_alloc s) (host s).
Definition set_timers v s := MkTms H (apps s) v (tnodes s) (roots s) (elst s) (clk s) (count s) (indx s) (t_alloc s) (n_alloc s) (host s).
Definition set_trees v w s := MkTms H (apps s) (timers s) v w (elst s) (clk s) (count s) (indx s) (t_alloc s) (n_alloc s) (host s).
Definition set_elst v s := MkTms H (apps s) (timers s) (tnodes s) (roots s) v (clk s) (count s) (indx s) (t_alloc s) (n_alloc s) (host s).
Definition set_clk v s := MkTms H (apps s) (timers s) (tnodes s) (roots s) (elst s) v (count s) (indx s) (t_alloc s) (n_alloc s) (host s).
Definition set_count v s := MkTms H (apps s) (timers s) (tnodes s) (roots s) (elst s) (clk s) v (indx s) (t_alloc s) (n_alloc s) (host s).
Definition set_indx v s := MkTms H (apps s) (timers s) (tnodes s) (roots s) (elst s) (clk s) (count s) v (t_alloc s) (n_alloc s) (host s).
Definition set_alloc v w s := MkTms H (apps s) (timers s) (tnodes s) (roots s) (elst s) (clk s) (count s) (indx s) v w (host s).
Definition set_host v s := MkTms H (apps s) (timers s) (tnodes s) (roots s) (elst s) (clk s) (count s) (indx s) (t_alloc s) (n_alloc s) v.

(** ** Accesses *)
Definition app_ld (a : Z) : M (tms H) app_timer := x ← gets apps; liftO (x !! a).
Definition app_st (a : Z) (v : app_timer) : M (tms H) unit :=
  app_ld a;; modify (λ s, set_apps (<[a := v]> (apps s)) s).
Definition timer_ld (p : Z) : M (tms H) tm_timer := x ← gets timers; liftO (x !! p).
Definition timer_mod (f : tm_timer → tm_timer) (p : Z) : M (tms H) unit :=
  t ← timer_ld p; modify (λ s, set_timers (<[p := f t]> (timers s)) s).
(** [clk[w]]. *)
Definition clk_ld (w : Z) : M (tms H) Z :=
  if decide (0 ≤ w) then x ← gets clk; liftO (x !! Z.to_nat w) else ub.
Definition clk_inc (w : Z) : M (tms H) Z :=
  c ← clk_ld w;
  modify (λ s, set_clk (<[Z.to_nat w := u32 (c + 1)]> (clk s)) s);;
  mret (u32 (c + 1)).
(** An operation on the tree [tmrrq.root[w]]. *)
Definition on_root {A} (w : Z) (m : M rb A) : M (tms H) A := λ s,
  if decide (0 ≤ w) then
    match roots s !! Z.to_nat w with
    | Some r =>
        match m (MkRb (tnodes s) r) with
        | Some (a, t) => Some (a, set_trees (nodes t) (<[Z.to_nat w := rb_root t]> (roots s)) s)
        | None => None
        end
    | None => None
    end
  else None.
Definition on_elst {A} (m : M (gmap enode (list_head enode)) A) : M (tms H) A := zoom elst set_elst m.

(** The fields of a timer. *)
Definition set_rmt v t := MkTimer v (exp t) (wheel t) (idx t) (flags t) (is_running t) (data t) (apptimer t) (time_out_handler t).
Definition set_exp v t := MkTimer (rmt t) v (wheel t) (idx t) (flags t) (is_running t) (data t) (apptimer t) (time_out_handler t).
Definition set_wheel v t := MkTimer (rmt t) (exp t) v (idx t) (flags t) (is_running t) (data t) (apptimer t) (time_out_handler t).
Definition set_is_running v t := MkTimer (rmt t) (exp t) (wheel t) (idx t) (flags t) v (data t) (apptimer t) (time_out_handler t).
Definition set_apptimer v t := MkTimer (rmt t) (exp t) (wheel t) (idx t) (flags t) (is_running t) (data t) v (time_out_handler t).
End setters.

(** ** The operations *)
Section Timers.
Context {TR : TickRate} {H : Type} `{T : TmEnv H} {WL : WheelLocks H}.

Definition tm_calloc_t (size : Z) : M (tms H) Z :=
  k ← gets n_alloc;
  modify (λ s, set_alloc (u32 (t_alloc s + size)) (S k) s);;
  mret (env_talloc k).
Definition alloc_timer : M (tms H) Z :=
  p ← tm_calloc_t (env_tsizeof "tm_timer");
  when (truthy p) (modify (λ s, set_timers (<[p := timer_zero]> (timers s)) s));;
  mret p.
Definition alloc_app : M (tms H) Z :=
  a ← tm_calloc_t (env_tsizeof "app_timer");
  when (truthy a)
    (modify (λ s, set_apps (<[a := app_zero]> (apps s)) s);;
     modify (λ s, set_trees (<[a := MkNode 0 0 0]> (tnodes s)) (roots s) s));;
  mret a.
(** The list node [elist] enters the store when [INIT_LIST_HEAD] first writes it.

    [tm_free (p, sizeof ( *p))] of a [struct tm_timer]. *)
Definition free_timer (p : Z) : M (tms H) unit :=
  modify (λ s, set_alloc (u32 (t_alloc s - env_tsizeof "tm_timer")) (n_alloc s) s);;
  timer_ld p;;
  modify (λ s, set_timers (delete p (timers s)) s).
(** [free] of a [struct app_timer], with its tree and list nodes. *)
Definition free_app (a : Z) : M (tms H) unit :=
  app_ld a;;
  modify (λ s, set_apps (delete a (apps s)) s);;
  modify (λ s, set_trees (delete a (tnodes s)) (roots s) s);;
  modify (λ s, set_elst (delete (E_tmr a) (elst s)) s).

(** *** update.c: the trees *)

(** The descent of [timer_add]: the link to an empty place, and its parent. *)
Fixpoint add_descend (fuel : nat) (w cmp : Z) (link : link_t) (parent : Z) : M (tms H) (link_t * Z) :=
  v ← on_root w (link_get link);
  if negb (truthy v) then mret (link, parent) else
  match fuel with
  | 0%nat => ub
  | S fuel =>
      x ← app_ld v;
      add_descend fuel w cmp (if cmp <? rt x then L_left v else L_right v) v
  end.
Definition timer_add (n w : Z) : M (tms H) unit :=
  a ← app_ld n;
  wheel_lock w;;
  sz ← gets (λ s, size (tnodes s));
  '(link, parent) ← add_descend sz w (rt a) L_root 0;
  on_root w (rb_link_node n parent link);;
  on_root w (rb_insert_color n);;
  wheel_unlock w.

Definition timer_del (n w : Z) : M (tms H) unit :=
  wheel_lock w;;
  on_root w (rb_erase n);;
  on_root w (RB_CLEAR_NODE n);;
  wheel_unlock w.

(** The loop of [timer_tree_walk]; 0 is null.  Both exits give the lock back. *)
Fixpoint walk_loop (fuel : nat) (w key : Z) (link : link_t) : M (tms H) Z :=
  v ← on_root w (link_get link);
  if negb (truthy v) then wheel_unlock w;; mret 0 else
  match fuel with
  | 0%nat => ub
  | S fuel =>
      x ← app_ld v;
      if key <? rt x then walk_loop fuel w key (L_left v)
      else if rt x <? key then walk_loop fuel w key (L_right v)
      else wheel_unlock w;; mret v
  end.
Definition timer_tree_walk (w key : Z) : M (tms H) Z :=
  wheel_lock w;;
  sz ← gets (λ s, size (tnodes s)); walk_loop sz w key L_root.

(** [rb_first (&tmrrq.root[w])] with its lock; the descent is [RbTree.rb_first]. *)
Definition wheel_first (w : Z) : M (tms H) Z :=
  wheel_lock w;;
  n ← on_root w rb_first;
  wheel_unlock w;;
  mret n.

(** *** tmr_init.c: placing a timer *)
Definition update_wheel (p w : Z) : M (tms H) unit := timer_mod (set_wheel w) p.

(** The wheel of the largest unit that is left, and how much of it. *)
Definition slot (ct : Z) : Z * Z :=
  if truthy (GET_HRS ct) then (HRS, GET_HRS ct)
  else if truthy (GET_MINS ct) then (MIN, GET_MINS ct)
  else if truthy (GET_SECS ct) then (SEC, GET_SECS ct)
  else if truthy (GET_TICK ct) then (TICK, GET_TICK ct)
  else (-1, GET_TICK ct).
Definition find_tmr_slot_and_place (a : Z) : M (tms H) Z :=
  p ← app_ld a;
  let '(w, t) := slot (ctime p) in
  (if w <? 0 then mret tt else
   c ← clk_ld w;
   app_st a (MkApp (timer p) (ctime p) (u32 (c + t)));;
   update_wheel (timer p) w;;
   timer_mod (set_is_running 1) (timer p);;
   timer_add a w);;
  mret 0.

(** The time format of a number of ticks, into a word that holds [ct]. *)
Definition encode_time (ct tick : Z) : Z :=
  let secs := tick / tm_get_ticks_per_second in
  let mins := secs / 60 in
  let hrs := mins / 60 in
  SET_HRS (SET_MINS (SET_SECS (SET_TICK ct tick) secs) mins) hrs.
Definition calc_time (a : Z) : M (tms H) unit :=
  p ← app_ld a;
  t ← timer_ld (timer p);
  let tick := rmt t in
  app_st a (MkApp (timer p) (encode_time (ctime p) tick) (rt p));;
  c ← clk_ld TICK;
  timer_mod (set_exp (u32 (tick + c))) (timer p).

Definition alloc_timer_id : M (tms H) Z :=
  n ← gets count;
  if MAX_TIMERS <? n then mret 0 else
  modify (λ s, set_indx (s32 (indx s + 1)) s);;
  gets indx.

Definition INC_TIMER_COUNT : M (tms H) unit := modify (λ s, set_count (u32 (count s + 1)) s).
Definition DEC_TIMER_COUNT : M (tms H) unit := modify (λ s, set_count (u32 (count s - 1)) s).

(** The result is the timer's address, or -1. *)
Definition start_timer (ticks dat handler flgs : Z) : M (tms H) Z :=
  i ← alloc_timer_id;
  if negb (truthy i) then mret (-1) else
  new ← alloc_timer;
  if negb (truthy new) then mret (-1) else
  timer_mod (λ t, MkTimer ticks (exp t) (wheel t) i (if truthy flgs then flgs else TIMER_ONCE)
    (is_running t) dat (apptimer t) handler) new;;
  a ← alloc_app;
  if negb (truthy a) then free_timer new;; mret (-1) else
  p ← app_ld a;
  app_st a (MkApp new (ctime p) (rt p));;
  timer_mod (set_apptimer a) new;;
  on_elst (INIT_LIST_HEAD (E_tmr a));;
  calc_time a;;
  find_tmr_slot_and_place a;;
  INC_TIMER_COUNT;;
  mret new.

(** The address stored through the argument, or -1. *)
Definition setup_timer (handler dat : Z) : M (tms H) (Z + Z) :=
  i ← alloc_timer_id;
  if negb (truthy i) then mret (inr (-1)) else
  new ← alloc_timer;
  if negb (truthy new) then mret (inr (-1)) else
  timer_mod (λ t, MkTimer 0 (exp t) (wheel t) i TIMER_FOREVER (is_running t) dat (apptimer t) handler) new;;
  update_wheel new WAIT_TIMERS;;
  mret (inl new).

Definition mod_timer (p secs : Z) : M (tms H) Z :=
  if negb (truthy p) then mret (-1) else
  a ← alloc_app;
  if negb (truthy a) then mret (-1) else
  on_elst (INIT_LIST_HEAD (E_tmr a));;
  timer_mod (set_rmt (u32 (secs * tm_get_ticks_per_second))) p;;
  x ← app_ld a;
  app_st a (MkApp p (ctime x) (rt x));;
  timer_mod (set_apptimer a) p;;
  calc_time a;;
  find_tmr_slot_and_place a;;
  INC_TIMER_COUNT;;
  mret 0.

(** The new [app_timer] is never connected to [p]: its [timer] is null. *)
Definition timer_restart (p : Z) : M (tms H) Z :=
  if negb (truthy p) then mret (-1) else
  a ← alloc_app;
  if negb (truthy a) then mret (-1) else
  on_elst (INIT_LIST_HEAD (E_tmr a));;
  calc_time a;;
  find_tmr_slot_and_place a;;
  INC_TIMER_COUNT;;
  mret 0.

Definition stop_timer (p : Z) : M (tms H) Z :=
  t ← timer_ld p;
  timer_del (apptimer t) (wheel t);;
  timer_mod (set_is_running 0) p;;
  t ← timer_ld p;
  free_app (apptimer t);;
  DEC_TIMER_COUNT;;
  mret 0.
Definition del_timer (p : Z) : M (tms H) unit :=
  t ← timer_ld p;
  when (truthy (apptimer t) && truthy (is_running t)) (stop_timer p;; mret tt).

Definition get_secs : M (tms H) Z := clk_ld SEC.
Definition get_ticks : M (tms H) Z := clk_ld TICK.
Definition get_mins : M (tms H) Z := clk_ld MIN.
Definition get_hrs : M (tms H) Z := clk_ld HRS.
Definition get_timers_count : M (tms H) Z := gets count.

Definition timer_pending (p : Z) : M (tms H) Z :=
  if negb (truthy p) then mret 0 else t ← timer_ld p; mret (is_running t).
Definition timer_get_remaining_time (p : Z) : M (tms H) Z :=
  if negb (truthy p) then mret 0 else
  t ← timer_ld p;
  if negb (truthy (is_running t)) then mret 0 else
  c ← get_ticks;
  let r := s32 (u32 (exp t - c)) in
  mret (u32 (if r <? 0 then 0 else r)).

(** *** update.c: expiry *)
Definition timer_expiry_action (a : Z) : M (tms H) unit :=
  p ← app_ld a;
  if negb (truthy (ctime p)) then
    DEC_TIMER_COUNT;;
    timer_mod (set_is_running 0) (timer p);;
    on_elst (list_add_tail (E_tmr a) E_hd)
  else find_tmr_slot_and_place a;; mret tt.

Definition clear_wheel_timer (a : Z) : M (tms H) unit :=
  p ← app_ld a;
  t ← timer_ld (timer p);
  k ← (if decide (0 ≤ wheel t) then liftO (wheel_mask !! Z.to_nat (wheel t)) else ub);
  app_st a (MkApp (timer p) (Z.land (ctime p) k) (rt p)).

(** The loop of [process_timers]. *)
Fixpoint process_loop (fuel : nat) (w expires n : Z) : M (tms H) Z :=
  a ← timer_tree_walk w expires;
  if negb (truthy a) then mret n else
  match fuel with
  | 0%nat => ub
  | S fuel =>
      clear_wheel_timer a;;
      timer_del a w;;
      timer_expiry_action a;;
      process_loop fuel w expires (s32 (n + 1))
  end.
Definition process_timers (w expires : Z) : M (tms H) Z :=
  sz ← gets (λ s, size (tnodes s)); process_loop sz w expires 0.

Definition IS_NXT_SEC_HAPPEND : M (tms H) bool :=
  c ← clk_ld TICK; mret (negb (truthy (c `mod` tm_get_ticks_per_second))).
Definition IS_NXT_MIN_HAPPEND : M (tms H) bool :=
  c ← clk_ld SEC; mret (negb (truthy (if truthy c then c `mod` 60 else 1))).
Definition IS_NXT_HR_HAPPEND : M (tms H) bool :=
  c ← clk_ld MIN; mret (negb (truthy (if truthy c then c `mod` 60 else 1))).

Definition process_wheel (w : Z) : M (tms H) Z := c ← clk_ld w; process_timers w c.
Definition tm_process_tick_and_update_timers : M (tms H) Z :=
  n0 ← process_wheel TICK;
  sec ← IS_NXT_SEC_HAPPEND;
  if negb sec then mret n0 else
  n1 ← process_wheel SEC;
  min ← IS_NXT_MIN_HAPPEND;
  if negb min then mret (s32 (n0 + n1)) else
  n2 ← process_wheel MIN;
  hr ← IS_NXT_HR_HAPPEND;
  if negb hr then mret (s32 (s32 (n0 + n1) + n2)) else
  n3 ← process_wheel HRS;
  mret (s32 (s32 (s32 (n0 + n1) + n2) + n3)).

(** *** btm_hlf.c: the handlers *)
Definition expire_one (n : enode) : M (tms H) unit :=
  a ← liftO (list_entry_tmr n);
  p ← app_ld a;
  t ← timer_ld (timer p);
  when (truthy (time_out_handler t)) (env_handler (time_out_handler t) (data t));;
  on_elst (list_del (E_tmr a));;
  p ← app_ld a;
  timer_mod (set_apptimer 0) (timer p);;
  t ← timer_ld (timer p);
  (if truthy (Z.land (flags t) TIMER_ONCE) then free_timer (timer p)
   else when (truthy (Z.land (flags t) TIMER_REPEAT)) (timer_restart (timer p);; mret tt));;
  free_app a.
(** [list_for_each_safe (pnode, next, head)]. *)
Fixpoint expd_loop (fuel : nat) (pnode next : enode) : M (tms H) unit :=
  if decide (pnode = E_hd) then mret tt else
  match fuel with
  | 0%nat => ub
  | S fuel =>
      expire_one pnode;;
      next' ← on_elst (get_next next);
      expd_loop fuel next next'
  end.
Definition process_expd_timers : M (tms H) unit :=
  sz ← gets (λ s, size (elst s));
  pnode ← on_elst (get_next E_hd);
  next ← on_elst (get_next pnode);
  expd_loop sz pnode next.

Definition btm_hlf : M (tms H) unit :=
  tm_process_tick_and_update_timers;;
  e ← on_elst (list_empty E_hd);
  when (negb e) process_expd_timers.

(** *** The clock of [update_times], and whether a service is due *)
Definition advance_clock : M (tms H) unit :=
  c ← clk_inc TICK;
  when (negb (truthy (c `mod` tm_get_ticks_per_second)))
    (c ← clk_inc SEC;
     when (negb (truthy (c `mod` 60)))
       (c ← clk_inc MIN;
        when (negb (truthy (c `mod` 60))) (clk_inc HRS;; mret tt))).
Definition timers_pending_for_service : M (tms H) Z :=
  n ← gets count;
  if negb (truthy n) then mret 0 else
  f ← wheel_first TICK;
  if truthy f then mret 1 else
  sec ← IS_NXT_SEC_HAPPEND;
  f ← (if (sec : bool) then wheel_first SEC else mret 0);
  if truthy f then mret 1 else
  min ← IS_NXT_MIN_HAPPEND;
  f ← (if (min : bool) then wheel_first MIN else mret 0);
  if truthy f then mret 1 else
  hr ← IS_NXT_HR_HAPPEND;
  f ← (if (hr : bool) then wheel_first HRS else mret 0);
  if truthy f then mret 1 else mret 0.

Definition timer_rq_init : M (tms H) unit :=
  on_elst (INIT_LIST_HEAD E_hd);;
  modify (set_count 0).
End Timers.
