(* ===== verification/TimerFormat.v ===== *)
(** * Timer wheels: the time format

    A remaining time is four bit fields of a word.  [pk] is such a word, the
    operations of tmrtypes.h are shown to read, write and clear its fields, and
    a timer with nothing left but smaller units moves down the wheels. *)

From S2P Require Import Prelude ListHead RbTree Timers.
#[local] Open Scope Z_scope.

(** ** Words made of fields *)
Lemma small_testbit a k n : 0 ≤ a < 2 ^ k → 0 ≤ k ≤ n → Z.testbit a n = false.
Proof. intros Ha Hn. rewrite -(Z.mod_small a (2 ^ k)) //. apply Z.mod_pow2_bits_high. lia. Qed.
Lemma field_testbit a b k n :
  0 ≤ k → 0 ≤ n → 0 ≤ a < 2 ^ k →
  Z.testbit (a + b * 2 ^ k) n = if n <? k then Z.testbit a n else Z.testbit b (n - k).
Proof.
  intros Hk Hn Ha. destruct (Z.ltb_spec n k).
  - rewrite -(Z.mod_pow2_bits_low (a + b * 2 ^ k) k); [|lia].
    rewrite Z.mod_add; [|lia]. by rewrite Z.mod_small.
  - replace (Z.testbit b (n - k)) with (Z.testbit ((a + b * 2 ^ k) / 2 ^ k) (n - k)).
    + rewrite Z.div_pow2_bits; [|lia..]. f_equal. lia.
    + rewrite Z.div_add; [|lia]. by rewrite Z.div_small.
Qed.
Lemma lor_field a b k : 0 ≤ k → 0 ≤ a < 2 ^ k → Z.lor a (b * 2 ^ k) = a + b * 2 ^ k.
Proof.
  intros Hk Ha. apply Z.bits_inj'. intros n Hn. rewrite Z.lor_spec field_testbit //.
  destruct (Z.ltb_spec n k).
  - rewrite Z.mul_pow2_bits_low; [by rewrite orb_false_r|lia].
  - rewrite (small_testbit a k); [|lia..]. rewrite Z.mul_pow2_bits; [done|lia].
Qed.
Lemma land_field a b c d k :
  0 ≤ k → 0 ≤ a < 2 ^ k → 0 ≤ c < 2 ^ k →
  Z.land (a + b * 2 ^ k) (c + d * 2 ^ k) = Z.land a c + Z.land b d * 2 ^ k.
Proof.
  intros Hk Ha Hc. assert (0 ≤ Z.land a c < 2 ^ k).
  { replace (Z.land a c) with (Z.land a c `mod` 2 ^ k); [apply Z.mod_pos_bound; lia|].
    rewrite -Z.land_ones // -Z.land_assoc (Z.land_ones c) //. by rewrite (Z.mod_small c). }
  apply Z.bits_inj'. intros n Hn. rewrite Z.land_spec !field_testbit //.
  destruct (Z.ltb_spec n k); by rewrite Z.land_spec.
Qed.

(** ** The four fields *)
Definition pk (h m s k : Z) : Z := k + (s + (m + h * 2 ^ 6) * 2 ^ 6) * 2 ^ 10.
Definition fields_ok (h m s k : Z) : Prop := 0 ≤ h < 2 ^ 10 ∧ 0 ≤ m < 2 ^ 6 ∧ 0 ≤ s < 2 ^ 6 ∧ 0 ≤ k < 2 ^ 10.

Section format.
Context (h m s k : Z) (Hok : fields_ok h m s k).

Lemma GET_TICK_pk : GET_TICK (pk h m s k) = k.
Proof.
  destruct Hok as (?&?&?&?). rewrite /GET_TICK Z.land_comm /pk. change (low_mask TICK_BITS) with (Z.ones 10).
  rewrite Z.land_ones; [|lia]. rewrite Z.mod_add; [|lia]. by apply Z.mod_small.
Qed.
Lemma GET_SECS_pk : GET_SECS (pk h m s k) = s.
Proof.
  destruct Hok as (?&?&?&?). rewrite /GET_SECS Z.land_comm /pk. change (low_mask SECS_BITS) with (Z.ones 6).
  rewrite Z.land_ones; [|lia]. change SEC_BITS_OFFSET with 10. rewrite Z.shiftr_div_pow2; [|lia].
  rewrite Z.div_add; [|lia]. rewrite Z.div_small; [|lia]. rewrite Z.add_0_l Z.mod_add; [|lia].
  by apply Z.mod_small.
Qed.
Lemma GET_MINS_pk : GET_MINS (pk h m s k) = m.
Proof.
  destruct Hok as (?&?&?&?). rewrite /GET_MINS Z.land_comm /pk. change (low_mask MINS_BITS) with (Z.ones 6).
  rewrite Z.land_ones; [|lia]. change MIN_BITS_OFFSET with (10 + 6).
  rewrite -Z.shiftr_shiftr; [|lia]. rewrite !Z.shiftr_div_pow2; [|lia..].
  rewrite Z.div_add; [|lia]. rewrite (Z.div_small k) //. rewrite Z.add_0_l Z.div_add; [|lia].
  rewrite (Z.div_small s) //. rewrite Z.add_0_l Z.mod_add; [|lia]. by apply Z.mod_small.
Qed.
Lemma GET_HRS_pk : GET_HRS (pk h m s k) = h.
Proof.
  destruct Hok as (?&?&?&?). rewrite /GET_HRS Z.land_comm /pk. change (low_mask HRS_BITS) with (Z.ones 10).
  rewrite Z.land_ones; [|lia]. change HRS_BITS_OFFSET with (10 + 6 + 6).
  rewrite -!Z.shiftr_shiftr; [|lia..]. rewrite !Z.shiftr_div_pow2; [|lia..].
  rewrite Z.div_add; [|lia]. rewrite (Z.div_small k) //. rewrite Z.add_0_l Z.div_add; [|lia].
  rewrite (Z.div_small s) //. rewrite Z.add_0_l Z.div_add; [|lia].
  rewrite (Z.div_small m) //. rewrite Z.add_0_l. by apply Z.mod_small.
Qed.
Lemma pk_0 : pk h m s k = 0 ↔ h = 0 ∧ m = 0 ∧ s = 0 ∧ k = 0.
Proof. destruct Hok as (?&?&?&?). rewrite /pk. lia. Qed.

(** Clearing a field, as [clear_wheel_timer] does. *)
Lemma mask_pk w c :
  wheel_mask !! w = Some c →
  Z.land (pk h m s k) c =
    match w with
    | 0%nat => pk h m s 0 | 1%nat => pk h m 0 k | 2%nat => pk h 0 s k | _ => pk 0 m s k
    end.
Proof.
  destruct Hok as (?&?&?&?).
  assert (Hland : ∀ h' m' s' k', fields_ok h' m' s' k' →
    Z.land (pk h m s k) (pk h' m' s' k') = pk (Z.land h h') (Z.land m m') (Z.land s s') (Z.land k k')).
  { intros h' m' s' k' (?&?&?&?). rewrite /pk. rewrite !land_field; [done|lia..]. }
  assert (Hones : ∀ x n, 0 ≤ n → 0 ≤ x < 2 ^ n → Z.land x (Z.ones n) = x).
  { intros x n Hn Hx. rewrite Z.land_ones //. by apply Z.mod_small. }
  assert (Hk : Z.land k 1023 = k) by (by apply (Hones k 10)).
  assert (Hs : Z.land s 63 = s) by (by apply (Hones s 6)).
  assert (Hm : Z.land m 63 = m) by (by apply (Hones m 6)).
  assert (Hh : Z.land h 1023 = h) by (by apply (Hones h 10)).
  destruct w as [|[|[|[|w]]]]; cbn; intros [= <-].
  - change 4294966272 with (pk 1023 63 63 0). rewrite Hland; [|rewrite /fields_ok; lia]. by rewrite Hs Hm Hh Z.land_0_r.
  - change 4294902783 with (pk 1023 63 0 1023). rewrite Hland; [|rewrite /fields_ok; lia]. by rewrite Hk Hm Hh Z.land_0_r.
  - change 4290838527 with (pk 1023 0 63 1023). rewrite Hland; [|rewrite /fields_ok; lia]. by rewrite Hk Hs Hh Z.land_0_r.
  - change 4194303 with (pk 0 63 63 1023). rewrite Hland; [|rewrite /fields_ok; lia]. by rewrite Hk Hm Hs Z.land_0_r.
Qed.

Lemma slot_pk :
  slot (pk h m s k) =
    if truthy h then (HRS, h) else if truthy m then (MIN, m)
    else if truthy s then (SEC, s) else if truthy k then (TICK, k) else (-1, k).
Proof. by rewrite /slot GET_HRS_pk GET_MINS_pk GET_SECS_pk GET_TICK_pk. Qed.
End format.

(** A second has at least one tick, and its ticks fit into their field. *)
Class RateOk {TR : TickRate} : Prop := rate_ok : 0 < tm_get_ticks_per_second ≤ 1024.
#[global] Instance sfs_rate_ok : @RateOk sfs_ticks.
Proof. split; by vm_compute. Qed.

Section encode.
Context {TR : TickRate} {OK : RateOk}.
#[local] Notation R := tm_get_ticks_per_second.

Lemma rate_pos : 0 < R ≤ 1024.
Proof using OK. exact OK. Qed.
(** The lengths that the format can hold. *)
Definition max_ticks : Z := 1024 * (R * 3600).

(** [calc_time] on a fresh word: ticks, seconds, minutes, and the hours modulo 1024. *)
Lemma encode_pk n :
  0 ≤ n →
  encode_time 0 n = pk ((n / (R * 3600)) `mod` 1024) ((n / (R * 60)) `mod` 60) ((n / R) `mod` 60) (n `mod` R).
Proof using OK.
  intros Hn. pose proof rate_pos. rewrite /encode_time /SET_TICK /SET_SECS /SET_MINS /SET_HRS. cbn [Z.lor].
  assert (E1 : n / R / 60 = n / (R * 60)) by (by rewrite Z.div_div; [|lia..]).
  assert (E2 : n / R / 60 / 60 = n / (R * 3600)) by (rewrite E1 Z.div_div; [f_equal|..]; lia).
  rewrite E2 E1. pose proof (Z.mod_pos_bound n R). pose proof (Z.mod_pos_bound (n / R) 60).
  pose proof (Z.mod_pos_bound (n / (R * 60)) 60).
  change SEC_BITS_OFFSET with 10. change MIN_BITS_OFFSET with 16. change HRS_BITS_OFFSET with 22.
  rewrite !Z.shiftl_mul_pow2; [|lia..]. set (s := (n / R) `mod` 60) in *.
  set (m := (n / (R * 60)) `mod` 60) in *. set (k := n `mod` R) in *.
  rewrite (u32_small (s * 2 ^ 10)); [|lia]. rewrite (u32_small (m * 2 ^ 16)); [|lia].
  assert (E3 : u32 (n / (R * 3600) * 2 ^ 22) = ((n / (R * 3600)) `mod` 1024) * 2 ^ 22).
  { rewrite /u32. change (2 ^ 32) with (1024 * 2 ^ 22). by rewrite Z.mul_mod_distr_r; [|lia..]. }
  rewrite E3. set (h := (n / (R * 3600)) `mod` 1024) in *.
  rewrite (lor_field k s 10); [|lia..]. rewrite (lor_field _ m 16); [|lia..].
  rewrite (lor_field _ h 22); [|lia..]. rewrite /pk. lia.
Qed.
Lemma encode_ok n :
  0 ≤ n → fields_ok ((n / (R * 3600)) `mod` 1024) ((n / (R * 60)) `mod` 60) ((n / R) `mod` 60) (n `mod` R).
Proof using OK.
  intros Hn. pose proof rate_pos. rewrite /fields_ok. pose proof (Z.mod_pos_bound n R).
  pose proof (Z.mod_pos_bound (n / R) 60). pose proof (Z.mod_pos_bound (n / (R * 60)) 60).
  pose proof (Z.mod_pos_bound (n / (R * 3600)) 1024). lia.
Qed.
End encode.
(** 1024 hours at 50 ticks a second. *)
Lemma sfs_max : max_ticks (TR:=sfs_ticks) = 1024 * 180000.
Proof. done. Qed.
