(* ===== verification/TimerTree.v ===== *)
(** * Timer wheels: the trees

    A wheel is a red-black tree sorted by [rt].  [timer_add] inserts behind the
    timers that are due earlier or at the same time, [timer_del] takes one timer
    out, [timer_tree_walk] finds a timer that is due at a given time exactly when
    there is one.  The other wheels, which share the store, are not touched. *)

From stdpp Require Import sorting.
From S2P Require Import Prelude ListHead RbTree RbRep RbInsert RbWalk RbErase RbSpec Timers.
#[local] Open Scope Z_scope.

Section trees.
Context {H : Type}.
Implicit Types (s : tms H) (t : tree) (z : list frame) (a n w : Z).

(** ** One wheel in the store *)
Definition wheel_tree s w t : Prop :=
  0 ≤ w ∧ ∃ r, roots s !! Z.to_nat w = Some r ∧ is_tree (tnodes s) (MkRb (tnodes s) r) t.
(** The time at which a wheel hands a timer on. *)
Definition rt_of s a : Z := match apps s !! a with Some p => rt p | None => 0 end.
Definition sorted s (xs : list Z) : Prop := StronglySorted (λ a b, rt_of s a ≤ rt_of s b) xs.
Definition keyed s t : Prop := ∀ a, a ∈ inorder t → is_Some (apps s !! a).
(** A step that makes [t'] of the wheel [w]; outside of the wheel only the node [n]
    may change. *)
Definition wheel_step s w n t' (s' : tms H) : Prop :=
  ∃ nd r, s' = set_trees nd (<[Z.to_nat w := r]> (roots s)) s ∧
    is_tree nd (MkRb nd r) t' ∧ ∀ b, b ∉ inorder t' → b ≠ n → nd !! b = tnodes s !! b.

Lemma is_tree_self m0 (b : rb) t : is_tree m0 b t → is_tree (nodes b) b t.
Proof. intros [[H1 H2 H3 H4] Hr]. split; [|done]. by split. Qed.
Lemma is_tree_out m0 (b : rb) t a : is_tree m0 b t → a ∉ inorder t → nodes b !! a = m0 !! a.
Proof.
  intros [Hh _] Ha. apply (hp_out _ _ _ Hh). cbn. by rewrite app_nil_r tmap_fst.
Qed.
Lemma is_tree_frame m m' r t :
  is_tree m (MkRb m r) t → (∀ a, a ∈ inorder t → m' !! a = m !! a) → is_tree m' (MkRb m' r) t.
Proof.
  intros [[H1 H2 H3 _] Hr] Hm. split; [|done]. cbn in *. split; [done|done| |done].
  intros a n Hin. rewrite Hm; [by apply H3|].
  rewrite -(tmap_fst 0 t). rewrite app_nil_r in Hin. apply list_elem_of_fmap. by exists (a, n).
Qed.
Lemma wheel_step_self s w n t t' s' : wheel_tree s w t → wheel_step s w n t' s' → wheel_tree s' w t'.
Proof.
  intros (Hw&r0&Hr0&_) (nd&r&->&Ht&_). split; [done|]. exists r. cbn.
  rewrite list_lookup_insert_eq; [done|]. by eapply lookup_lt_Some.
Qed.
Lemma wheel_step_other s w n t' s' v tv :
  wheel_tree s v tv → wheel_step s w n t' s' → 0 ≤ w → v ≠ w →
  (∀ a, a ∈ inorder tv → a ∉ inorder t' ∧ a ≠ n) → wheel_tree s' v tv.
Proof.
  intros (Hv&r0&Hr0&Htv) (nd&r&->&_&Hout) Hw Hne Hdis. split; [done|]. exists r0. cbn.
  rewrite list_lookup_insert_ne; [|lia]. split; [done|]. eapply is_tree_frame; [exact Htv|].
  intros a Ha. by apply Hout; apply Hdis.
Qed.

(** ** Running an operation on a wheel *)

(** Without semaphores a lock is free. *)
Lemma sfs_lock_run w s : (wheel_lock (WheelLocks := sfs_locks H)) w s = Some (tt, s).
Proof. done. Qed.
Lemma wp_on_root {A} s w r (m : M rb A) Φ :
  0 ≤ w → roots s !! Z.to_nat w = Some r →
  wp m (λ (v : A) b, Φ v (set_trees (nodes b) (<[Z.to_nat w := rb_root b]> (roots s)) s))
    (MkRb (tnodes s) r) →
  wp (on_root w m) Φ s.
Proof.
  intros Hw Hr. rewrite /wp /on_root decide_True // Hr.
  by destruct (m _) as [[a b]|].
Qed.
Lemma set_trees_id s (i : nat) r : roots s !! i = Some r → set_trees (tnodes s) (<[i := r]> (roots s)) s = s.
Proof. intros Hr. rewrite list_insert_id //. by destruct s. Qed.
(** An operation that only reads. *)
Lemma on_root_read {A} s w r (m : M rb A) (v : A) :
  0 ≤ w → roots s !! Z.to_nat w = Some r →
  m (MkRb (tnodes s) r) = Some (v, MkRb (tnodes s) r) → on_root w m s = Some (v, s).
Proof. intros Hw Hr Hm. rewrite /on_root decide_True // Hr Hm /=. by rewrite set_trees_id. Qed.

Lemma link_get_run m0 (b : rb) z t : at_pos m0 b z t → link_get (zlink z) b = Some (ptr t, b).
Proof.
  intros Hs. destruct z as [|[c [] p sib] z]; cbn [zlink link_get].
  - by rewrite /gets (root_run _ _ _ _ Hs).
  - apply at_pos_out in Hs. exact (left_run _ _ _ _ _ _ _ Hs).
  - apply at_pos_out in Hs. exact (right_run _ _ _ _ _ _ _ Hs).
Qed.
Lemma app_ld_run s a p : apps s !! a = Some p → app_ld a s = Some (p, s).
Proof. intros Hp. by rewrite /app_ld (bind_run (gets apps) _ s _ s eq_refl) /liftO Hp. Qed.

(** ** Sortedness around a position *)
Lemma sorted_node s z c l p r :
  sorted s (inorder (plug z (T c l p r))) →
  (∀ x, x ∈ inorder l → rt_of s x ≤ rt_of s p) ∧ (∀ x, x ∈ inorder r → rt_of s p ≤ rt_of s x).
Proof.
  rewrite /sorted inorder_split. cbn [inorder]. intros Hs.
  apply StronglySorted_app_1_r, StronglySorted_app_1_l in Hs.
  apply StronglySorted_app in Hs as (Hl&_&Hr). split.
  - intros x Hx. apply Hl; set_solver.
  - intros x Hx. apply StronglySorted_cons in Hr as [Hr _]. rewrite Forall_forall in Hr. by apply Hr.
Qed.

(** *** The descent of [timer_add] *)
Lemma add_descend_run s w r z t fuel cmp :
  0 ≤ w → roots s !! Z.to_nat w = Some r → at_pos (tnodes s) (MkRb (tnodes s) r) z t →
  keyed s (plug z t) → sorted s (inorder (plug z t)) → (depth t ≤ fuel)%nat →
  (∀ x, x ∈ before z → rt_of s x ≤ cmp) → (∀ x, x ∈ after z → cmp < rt_of s x) →
  ∃ z', add_descend fuel w cmp (zlink z) (zpar z) s = Some ((zlink z', zpar z'), s) ∧
    plug z' E = plug z t ∧
    (∀ x, x ∈ before z' → rt_of s x ≤ cmp) ∧ (∀ x, x ∈ after z' → cmp < rt_of s x).
Proof.
  intros Hw Hr Hs Hk Hsort. revert fuel z Hs Hk Hsort.
  induction t as [|c l IHl p r' IHr]; intros fuel z Hs Hk Hsort Hf Hb Ha.
  { exists z. split; [|done]. destruct fuel; cbn [add_descend];
      by rewrite (bind_run _ _ _ _ _ (on_root_read _ _ _ _ _ Hw Hr (link_get_run _ _ _ _ Hs))). }
  destruct fuel as [|fuel]; cbn [depth] in Hf; [lia|]. cbn [add_descend].
  rewrite (bind_run _ _ _ _ _ (on_root_read _ _ _ _ _ Hw Hr (link_get_run _ _ _ _ Hs))).
  cbn [ptr]. rewrite (truthy_valid p); [|by eapply at_pos_valid]. cbn [negb].
  assert (p ∈ inorder (plug z (T c l p r'))) as Hp by (rewrite inorder_split /=; set_solver).
  destruct (Hk _ Hp) as [x Hx]. rewrite (bind_run _ _ _ _ _ (app_ld_run _ _ _ Hx)).
  destruct (sorted_node _ _ _ _ _ _ Hsort) as [Hsl Hsr].
  assert (Hrt : rt x = rt_of s p) by by rewrite /rt_of Hx. rewrite Hrt.
  destruct (Z.ltb_spec cmp (rt_of s p)).
  - apply (IHl fuel (Fr c SL p r' :: z)); [by apply at_pos_down|done|done|lia|done|].
    intros y. cbn [after]. intros [->|[Hy|Hy]%elem_of_app]%elem_of_cons; [done| |by apply Ha].
    specialize (Hsr _ Hy). lia.
  - apply (IHr fuel (Fr c SR p l :: z)); [by apply at_pos_down|done|done|lia| |done].
    intros y. cbn [before]. intros [Hy|[Hy|Hy%list_elem_of_singleton]%elem_of_app]%elem_of_app.
    + by apply Hb.
    + specialize (Hsl _ Hy). lia.
    + subst y. lia.
Qed.

(** *** The search *)
Lemma walk_loop_run s w r z t fuel key :
  0 ≤ w → roots s !! Z.to_nat w = Some r → at_pos (tnodes s) (MkRb (tnodes s) r) z t →
  keyed s (plug z t) → sorted s (inorder (plug z t)) → (depth t ≤ fuel)%nat →
  (∀ x, x ∈ before z → rt_of s x < key) → (∀ x, x ∈ after z → key < rt_of s x) →
  ∃ v, walk_loop fuel w key (zlink z) s = Some (v, s) ∧
    (v = 0 ∧ (∀ x, x ∈ inorder (plug z t) → rt_of s x ≠ key) ∨
     v ≠ 0 ∧ v ∈ inorder (plug z t) ∧ rt_of s v = key).
Proof.
  intros Hw Hr Hs Hk Hsort. revert fuel z Hs Hk Hsort.
  induction t as [|c l IHl p r' IHr]; intros fuel z Hs Hk Hsort Hf Hb Ha.
  { exists 0. split.
    - destruct fuel; cbn [walk_loop];
        by rewrite (bind_run _ _ _ _ _ (on_root_read _ _ _ _ _ Hw Hr (link_get_run _ _ _ _ Hs))).
    - left. split; [done|]. intros x. rewrite inorder_split /=.
      intros [Hx|Hx]%elem_of_app; [specialize (Hb _ Hx)|specialize (Ha _ Hx)]; lia. }
  destruct fuel as [|fuel]; cbn [depth] in Hf; [lia|]. cbn [walk_loop].
  rewrite (bind_run _ _ _ _ _ (on_root_read _ _ _ _ _ Hw Hr (link_get_run _ _ _ _ Hs))).
  pose proof (at_pos_valid _ _ _ _ _ _ _ Hs) as Hv.
  cbn [ptr]. rewrite (truthy_valid p) //. cbn [negb].
  assert (p ∈ inorder (plug z (T c l p r'))) as Hp by (rewrite inorder_split /=; set_solver).
  destruct (Hk _ Hp) as [x Hx]. rewrite (bind_run _ _ _ _ _ (app_ld_run _ _ _ Hx)).
  destruct (sorted_node _ _ _ _ _ _ Hsort) as [Hsl Hsr].
  assert (Hrt : rt x = rt_of s p) by by rewrite /rt_of Hx. rewrite Hrt.
  destruct (Z.ltb_spec key (rt_of s p)); [|destruct (Z.ltb_spec (rt_of s p) key)].
  - apply (IHl fuel (Fr c SL p r' :: z)); [by apply at_pos_down|done|done|lia|done|].
    intros y. cbn [after]. intros [->|[Hy|Hy]%elem_of_app]%elem_of_cons; [done| |by apply Ha].
    specialize (Hsr _ Hy). lia.
  - apply (IHr fuel (Fr c SR p l :: z)); [by apply at_pos_down|done|done|lia| |done].
    intros y. cbn [before]. intros [Hy|[Hy|Hy%list_elem_of_singleton]%elem_of_app]%elem_of_app.
    + by apply Hb.
    + specialize (Hsl _ Hy). lia.
    + by subst y.
  - exists p. split; [done|]. right. split; [by destruct Hv|]. split; [done|lia].
Qed.
Lemma timer_tree_walk_run s w t key :
  wheel_tree s w t → keyed s t → sorted s (inorder t) →
  ∃ v, timer_tree_walk w key s = Some (v, s) ∧
    (v = 0 ∧ (∀ x, x ∈ inorder t → rt_of s x ≠ key) ∨ v ≠ 0 ∧ v ∈ inorder t ∧ rt_of s v = key).
Proof.
  intros (Hw&r&Hr&Ht) Hk Hs. rewrite /timer_tree_walk (bind_run _ _ _ _ _ (sfs_lock_run w s)) (bind_run (gets _) _ s _ s eq_refl).
  apply (walk_loop_run s w r [] t); try done; [|by intros x ?%elem_of_nil..].
  by apply at_pos_depth in Ht.
Qed.

(** *** Insertion and removal *)
Lemma timer_add_run s w t n p :
  wheel_tree s w t → is_rb t → keyed s t → sorted s (inorder t) →
  apps s !! n = Some p → valid n → n ∉ inorder t →
  wp (timer_add n w)
    (λ _ s', ∃ t' xs ys, wheel_step s w n t' s' ∧ is_rb t' ∧
       inorder t = xs ++ ys ∧ inorder t' = xs ++ n :: ys ∧
       (∀ x, x ∈ xs → rt_of s x ≤ rt p) ∧ (∀ y, y ∈ ys → rt p < rt_of s y)) s.
Proof.
  intros (Hw&r&Hr&Ht) Hrb Hk Hsort Hn Hv Hni.
  rewrite /timer_add /wp (bind_run _ _ _ _ _ (app_ld_run _ _ _ Hn)).
  rewrite (bind_run _ _ _ _ _ (sfs_lock_run w s)) (bind_run (gets _) _ s _ s eq_refl).
  destruct (add_descend_run s w r [] t (size (tnodes s)) (rt p) Hw Hr Ht Hk Hsort) as (z&Hrun&Hz&Hb&Ha);
    [by apply at_pos_depth in Ht|by intros x ?%elem_of_nil..|].
  cbn [zlink zpar] in Hrun. rewrite (bind_run _ _ _ _ _ Hrun). cbn [plug] in Hz.
  assert (Hpos : at_pos (tnodes s) (MkRb (tnodes s) r) z E).
  { apply at_pos_plug. by rewrite Hz. }
  rewrite -Hz in Hrb, Hni. pose proof (insert_at_run _ _ _ _ Hpos Hrb Hv Hni) as Hins.
  change (wp (on_root w (rb_link_node n (zpar z) (zlink z));; on_root w (rb_insert_color n);; wheel_unlock w)
    (λ _ s', ∃ t' xs ys, wheel_step s w n t' s' ∧ is_rb t' ∧
       inorder t = xs ++ ys ∧ inorder t' = xs ++ n :: ys ∧
       (∀ x, x ∈ xs → rt_of s x ≤ rt p) ∧ (∀ y, y ∈ ys → rt p < rt_of s y)) s).
  apply wp_bind. apply (wp_on_root _ _ r); [done..|]. apply wp_bind_inv in Hins.
  eapply wp_mono; [exact Hins|]. intros [] b1 Hb1.
  apply wp_bind, (wp_on_root _ _ (rb_root b1)); [done|cbn|].
  { rewrite list_lookup_insert_eq //. by eapply lookup_lt_Some. }
  cbn [tnodes set_trees]. destruct b1 as [nd1 r1]. cbn [nodes rb_root].
  eapply wp_mono; [exact Hb1|]. intros [] [nd2 r2] (t'&Ht'&Hrb'&Ho). cbn [nodes rb_root]. apply wp_ret.
  exists t', (before z), (after z). split; [|split_and!; [done| |done|done|done]].
  - exists nd2, r2. split; [by rewrite /set_trees /= list_insert_insert_eq|].
    split; [by apply is_tree_self in Ht'|]. intros b Hbn _. by rewrite -(is_tree_out _ _ _ _ Ht' Hbn).
  - by rewrite -Hz inorder_split.
Qed.

Lemma timer_del_run s w t xs n ys :
  wheel_tree s w t → is_rb t → inorder t = xs ++ n :: ys →
  wp (timer_del n w)
    (λ _ s', ∃ t', wheel_step s w n t' s' ∧ is_rb t' ∧ inorder t' = xs ++ ys) s.
Proof.
  intros (Hw&r&Hr&Ht) Hrb Ho. destruct (erase_from_run _ _ _ _ _ _ Ht Hrb Ho) as (nn&Hnn&Her).
  cbn [nodes] in Hnn. rewrite insert_id // in Her.
  pose proof (is_tree_nodup _ _ _ Ht) as Hnd. rewrite Ho in Hnd.
  assert (Hni : n ∉ xs ++ ys).
  { apply NoDup_app in Hnd as (_&H1&[H2 _]%NoDup_cons). set_solver. }
  rewrite /timer_del. apply wp_bind, wp_ret, wp_bind. apply (wp_on_root _ _ r); [done..|].
  eapply wp_mono; [exact Her|]. intros [] [nd1 r1] (t'&Ht'&Hrb'&Ho'). cbn [nodes rb_root].
  apply wp_bind, (wp_on_root _ _ r1); [done|cbn|].
  { rewrite list_lookup_insert_eq //. by eapply lookup_lt_Some. }
  assert (Hn1 : nd1 !! n = Some nn).
  { rewrite -[nd1]/(nodes (MkRb nd1 r1)) (is_tree_out _ _ _ n Ht'); [done|]. by rewrite Ho'. }
  cbn [tnodes set_trees]. rewrite /wp /RB_CLEAR_NODE /rb_set_parent /nd_mod /= Hn1.
  exists t'. split; [|done]. eexists _, r1. split; [by rewrite /set_trees /= list_insert_insert_eq|].
  split.
  - eapply is_tree_frame; [by apply is_tree_self in Ht'|]. intros a Ha. rewrite lookup_insert_ne //.
    intros ->. apply Hni. by rewrite -Ho'.
  - intros b Hb Hbn. rewrite lookup_insert_ne //. by rewrite -(is_tree_out _ _ _ _ Ht' Hb).
Qed.
End trees.
