(* ===== verification/TimerKeep.v ===== *)
(** * Timer wheels: what processing a tick leaves alone

    No pass over the wheels changes the owner, the handler, the argument or the flags
    of a timer. *)

From S2P Require Import Prelude ListHead RbTree Timers.
#[local] Open Scope Z_scope.

Section config.
Context {TR : TickRate} {H : Type}.
Implicit Types s : tms H.

(** The owner, handler, argument and flags of every timer. *)
Definition config s : gmap Z Z * gmap Z (Z * Z * Z) :=
  (timer <$> apps s, (λ t, (time_out_handler t, data t, flags t)) <$> timers s).
Definition same_config s s' : Prop := config s' = config s.
#[global] Instance same_config_preorder : PreOrder same_config.
Proof. split; [done|]. rewrite /same_config. intros s1 s2 s3. congruence. Qed.
Definition kept {A} (m : M (tms H) A) : Prop := respects same_config m.

Lemma kept_bind {A B} (m : M (tms H) A) (k : A → M (tms H) B) : kept m → (∀ a, kept (k a)) → kept (m ≫= k).
Proof. exact (respects_bind same_config m k). Qed.
Lemma kept_ret {A} (a : A) : kept (mret a).
Proof. exact (respects_ret same_config a). Qed.
Lemma kept_gets {A} (f : tms H → A) : kept (gets f).
Proof. exact (respects_gets same_config f). Qed.
Lemma kept_liftO {A} (o : option A) : kept (liftO o).
Proof. exact (respects_liftO same_config o). Qed.
Lemma kept_ub {A} : kept (ub : M (tms H) A).
Proof. done. Qed.
Lemma kept_clk_ld w : kept (clk_ld w : M (tms H) Z).
Proof. rewrite /clk_ld. case_decide; [|apply kept_ub]. apply kept_bind; [apply kept_gets|intros; apply kept_liftO]. Qed.
Lemma kept_app_ld a : kept (app_ld a : M (tms H) _).
Proof. apply kept_bind; [apply kept_gets|intros; apply kept_liftO]. Qed.
Lemma kept_timer_ld a : kept (timer_ld a : M (tms H) _).
Proof. apply kept_bind; [apply kept_gets|intros; apply kept_liftO]. Qed.
Lemma kept_on_root {A} w (m : M rb A) : kept (on_root w m : M (tms H) A).
Proof.
  intros s a s'. rewrite /on_root. case_decide; [|done]. destruct (roots s !! _); [|done].
  destruct (m _) as [[a' b]|]; [|done]. by intros [= _ <-].
Qed.
Lemma kept_on_elst {A} (m : M _ A) : kept (on_elst m : M (tms H) A).
Proof. intros s a s'. rewrite /on_elst /zoom. destruct (m _) as [[a' b]|]; [|done]. by intros [= _ <-]. Qed.
Lemma kept_count v : kept (modify (λ s : tms H, set_count (v s) s)).
Proof. intros s a s'. by intros [= _ <-]. Qed.
Lemma kept_timer_mod f p :
  (∀ t, (time_out_handler (f t), data (f t), flags (f t)) = (time_out_handler t, data t, flags t)) →
  kept (timer_mod f p : M (tms H) unit).
Proof.
  intros Hf s a s'. rewrite /timer_mod /timer_ld /mbind /M_bind /gets /liftO.
  destruct (timers s !! p) as [t|] eqn:Ht; [|done]. intros [= _ <-]. rewrite /same_config /config /=. f_equal.
  rewrite fmap_insert Hf. apply insert_id. by rewrite lookup_fmap Ht.
Qed.
(** Changing the times of a timer that was read just before. *)
Lemma app_st_config s a p ct r s' :
  apps s !! a = Some p → app_st a (MkApp (timer p) ct r) s = Some (tt, s') → config s' = config s.
Proof.
  intros Hp. rewrite /app_st /app_ld /mbind /M_bind /gets /liftO Hp. intros [= <-]. rewrite /config /=. f_equal.
  rewrite fmap_insert. apply insert_id. by rewrite lookup_fmap Hp.
Qed.
Lemma clk_ld_same (w : Z) s v s' : clk_ld w s = Some (v, s') → s' = s.
Proof.
  rewrite /clk_ld. case_decide; [|done]. rewrite /mbind /M_bind /gets /liftO.
  destruct (clk s !! _); [|done]. by intros [= _ <-].
Qed.
Lemma app_ld_inv (a : Z) s p s' : app_ld a s = Some (p, s') → s' = s ∧ apps s !! a = Some p.
Proof.
  rewrite /app_ld /mbind /M_bind /gets /liftO. destruct (apps s !! a); [|done]. by intros [= <- <-].
Qed.
Lemma timer_ld_inv (a : Z) s p s' : timer_ld a s = Some (p, s') → s' = s.
Proof.
  rewrite /timer_ld /mbind /M_bind /gets /liftO. destruct (timers s !! a); [|done]. by intros [= _ <-].
Qed.

Lemma kept_timer_add a w : kept (timer_add a w : M (tms H) unit).
Proof.
  apply kept_bind; [apply kept_app_ld|]. intros p. apply kept_bind; [apply kept_ret|]. intros _. apply kept_bind; [apply kept_gets|].
  intros sz. apply kept_bind.
  - generalize L_root 0. revert sz. intros sz. induction sz as [|sz IH]; intros l par; cbn [add_descend];
      (apply kept_bind; [apply kept_on_root|]); intros v; destruct (negb _); try apply kept_ret; [apply kept_ub|].
    apply kept_bind; [apply kept_app_ld|]. intros x. apply IH.
  - intros [l par]. apply kept_bind; [apply kept_on_root|]. intros _. apply kept_bind; [apply kept_on_root|].
    intros _. apply kept_ret.
Qed.
Lemma kept_place a : kept (find_tmr_slot_and_place a : M (tms H) Z).
Proof.
  intros s. apply wlp_bind. intros p s1 [-> Hp]%app_ld_inv. destruct (slot (ctime p)) as [w t].
  apply wlp_bind. destruct (w <? 0).
  { intros u s1 [= _ <-] v s2 [= _ <-]. done. }
  intros u s1 H1 v s2 [= _ <-]. revert u s1 H1. apply wlp_bind. intros c s1 ->%clk_ld_same.
  apply wlp_bind. intros [] s1 H1. pose proof (app_st_config _ _ _ _ _ _ Hp H1) as Hc.
  rewrite /same_config -Hc. revert s1 H1 Hc. intros s1 _ _. revert s1. apply (kept_bind (update_wheel (timer p) w)).
  - by apply kept_timer_mod.
  - intros _. apply kept_bind; [by apply kept_timer_mod|]. intros _. apply kept_timer_add.
Qed.
Lemma kept_clear a : kept (clear_wheel_timer a : M (tms H) unit).
Proof.
  intros s. apply wlp_bind. intros p s1 [-> Hp]%app_ld_inv. apply wlp_bind. intros t s1 ->%timer_ld_inv.
  apply wlp_bind. intros k s1 Hk. assert (s1 = s) as ->.
  { case_decide; [|done]. revert Hk. rewrite /liftO. destruct (wheel_mask !! _); [|done]. by intros [= _ <-]. }
  intros [] s1. by apply app_st_config.
Qed.
Lemma kept_action a : kept (timer_expiry_action a : M (tms H) unit).
Proof.
  apply kept_bind; [apply kept_app_ld|]. intros p. destruct (negb _).
  - apply kept_bind; [apply kept_count|]. intros _. apply kept_bind; [by apply kept_timer_mod|].
    intros _. apply kept_on_elst.
  - apply kept_bind; [apply kept_place|]. intros _. apply kept_ret.
Qed.
Lemma kept_walk w key : kept (timer_tree_walk w key : M (tms H) Z).
Proof.
  apply kept_bind; [apply kept_ret|]. intros _. apply kept_bind; [apply kept_gets|]. intros sz. generalize L_root.
  induction sz as [|sz IH]; intros l; cbn [walk_loop];
    (apply kept_bind; [apply kept_on_root|]); intros v; destruct (negb _); try apply kept_ret; [apply kept_ub|].
  apply kept_bind; [apply kept_app_ld|]. intros x. destruct (_ <? _); [apply IH|].
  destruct (_ <? _); [apply IH|apply kept_ret].
Qed.
Lemma kept_wheel w : kept (process_wheel w : M (tms H) Z).
Proof.
  apply kept_bind; [apply kept_clk_ld|]. intros c. apply kept_bind; [apply kept_gets|]. intros sz.
  generalize 0. induction sz as [|sz IH]; intros n; cbn [process_loop];
    (apply kept_bind; [apply kept_walk|]); intros a; destruct (negb _); try apply kept_ret; [apply kept_ub|].
  apply kept_bind; [apply kept_clear|]. intros _. apply kept_bind.
  { apply kept_bind; [apply kept_ret|]. intros _. apply kept_bind; [apply kept_on_root|]. intros _.
    apply kept_bind; [apply kept_on_root|]. intros _. apply kept_ret. }
  intros _. apply kept_bind; [apply kept_action|]. intros _. apply IH.
Qed.
Lemma kept_tick : kept (tm_process_tick_and_update_timers : M (tms H) Z).
Proof.
  assert (Hck : ∀ w (f : Z → bool), kept (c ← clk_ld w; mret (f c) : M (tms H) bool)).
  { intros w f. apply kept_bind; [apply kept_clk_ld|]. intros c. apply kept_ret. }
  apply kept_bind; [apply kept_wheel|]. intros n0. apply kept_bind; [apply Hck|]. intros [] ; cbn [negb]; [|apply kept_ret].
  apply kept_bind; [apply kept_wheel|]. intros n1. apply kept_bind; [apply Hck|]. intros [] ; cbn [negb]; [|apply kept_ret].
  apply kept_bind; [apply kept_wheel|]. intros n2. apply kept_bind; [apply Hck|]. intros [] ; cbn [negb]; [|apply kept_ret].
  apply kept_bind; [apply kept_wheel|]. intros n3. apply kept_ret.
Qed.

(** The handler of a timer and its argument. *)
Definition handler_of s (a : Z) : option (Z * Z) :=
  p ← apps s !! a; t ← timers s !! timer p; Some (time_out_handler t, data t).
(** A timer that is not to be repeated. *)
Definition one_shot s (a : Z) : Prop := ∃ p t, apps s !! a = Some p ∧ timers s !! timer p = Some t ∧
  (truthy (Z.land (flags t) TIMER_ONCE) = true ∨ truthy (Z.land (flags t) TIMER_REPEAT) = false).

Lemma config_lookup s a p t :
  apps s !! a = Some p → timers s !! timer p = Some t →
  (config s).1 !! a = Some (timer p) ∧ (config s).2 !! timer p = Some (time_out_handler t, data t, flags t).
Proof. intros Ha Ht. by rewrite /config /= !lookup_fmap Ha Ht. Qed.
Lemma config_back s a q c :
  (config s).1 !! a = Some q → (config s).2 !! q = Some c →
  ∃ p t, apps s !! a = Some p ∧ timers s !! timer p = Some t ∧ timer p = q ∧ c = (time_out_handler t, data t, flags t).
Proof.
  rewrite /config /= !lookup_fmap. destruct (apps s !! a) as [p|]; [|done]. intros [= <-].
  destruct (timers s !! timer p) as [t|] eqn:Ht; [|done]. intros [= <-]. eauto 10.
Qed.
Lemma handler_of_config s s' a c : config s' = config s → handler_of s a = Some c → handler_of s' a = Some c.
Proof.
  intros Hc. rewrite /handler_of. destruct (apps s !! a) as [p|] eqn:Ha; [|done]. cbn.
  destruct (timers s !! timer p) as [t|] eqn:Ht; [|done]. intros [= <-].
  destruct (config_lookup _ _ _ _ Ha Ht) as [H1 H2]. rewrite -Hc in H1, H2.
  destruct (config_back _ _ _ _ H1 H2) as (p'&t'&->&Ht'&_&[= -> -> _]). cbn. by rewrite Ht'.
Qed.
Lemma one_shot_config s s' a : config s' = config s → one_shot s a → one_shot s' a.
Proof.
  intros Hc (p&t&Ha&Ht&Hf). destruct (config_lookup _ _ _ _ Ha Ht) as [H1 H2]. rewrite -Hc in H1, H2.
  destruct (config_back _ _ _ _ H1 H2) as (p'&t'&Ha'&Ht'&_&[= _ _ Hfl]). exists p', t'. by rewrite -Hfl.
Qed.
End config.
