(* ===== verification/TimerInv.v ===== *)
(** * Timer wheels: the invariant and the passes over the wheels

    [tinv s tr xs]: the wheels of [s] are the trees [tr], the list of expired timers
    is [xs], and the control blocks agree with them.  [pass] is what one call of
    [process_timers] does to a single timer; the timers do not influence each
    other. *)

From stdpp Require Import sorting.
From S2P Require Import Prelude ListHead RbTree RbRep RbInsert RbWalk RbErase RbSpec.
From S2P Require Import Timers TimerFormat TimerTree.
#[local] Open Scope Z_scope.

(** ** One timer *)
Inductive tstate := Running (w r ct : Z) | Expired.
Definition clock (ck : list Z) (w : Z) : Z := ck !!! Z.to_nat w.
(** Where a timer with [ct] left goes. *)
Definition placed (ck : list Z) (ct : Z) : tstate :=
  let '(w, t) := slot ct in Running w (u32 (clock ck w + t)) ct.
Definition pass (ck : list Z) (w : Z) (st : tstate) : tstate :=
  match st with
  | Running v r ct =>
      if (v =? w) && (r =? clock ck w) then
        let ct' := Z.land ct (wheel_mask !!! Z.to_nat w) in
        if truthy ct' then placed ck ct' else Expired
      else st
  | Expired => Expired
  end.

Definition packed (ct : Z) : Prop := ∃ h m s k, fields_ok h m s k ∧ ct = pk h m s k.
Definition is_wheel (w : Z) : Prop := 0 ≤ w < TIMER_WHEEL.

Ltac truth := repeat match goal with
  | Hb : truthy _ = true |- _ => apply truthy_true in Hb
  | Hb : truthy _ = false |- _ => apply truthy_false in Hb
  end.

(** A timer that has time left has a wheel, and clearing that wheel's field leaves
    a smaller one. *)
Lemma slot_wheel ct : packed ct → ct ≠ 0 → is_wheel (slot ct).1.
Proof.
  intros (h&m&s&k&Hok&->) H0. rewrite (slot_pk _ _ _ _ Hok). rewrite (pk_0 _ _ _ _ Hok) in H0.
  rewrite /is_wheel /TIMER_WHEEL /HRS /MIN /SEC /TICK.
  destruct (truthy h) eqn:Eh; [cbn; lia|]. destruct (truthy m) eqn:Em; [cbn; lia|].
  destruct (truthy s) eqn:Es; [cbn; lia|]. destruct (truthy k) eqn:Ek; [cbn; lia|].
  truth. naive_solver.
Qed.
Lemma clear_slot ct w c :
  packed ct → (slot ct).1 = w → is_wheel w → wheel_mask !! Z.to_nat w = Some c →
  packed (Z.land ct c) ∧ (Z.land ct c ≠ 0 → (slot (Z.land ct c)).1 < w).
Proof.
  intros (h&m&s&k&Hok&->) Hw Hwr Hc. rewrite (slot_pk _ _ _ _ Hok) in Hw.
  rewrite (mask_pk _ _ _ _ Hok _ _ Hc). destruct Hok as (?&?&?&?).
  destruct (truthy h) eqn:Eh; [|destruct (truthy m) eqn:Em;
    [|destruct (truthy s) eqn:Es; [|destruct (truthy k) eqn:Ek]]];
    cbn in Hw; subst w; cbn [Z.to_nat HRS MIN SEC TICK Pos.to_nat Pos.iter_op Nat.add] in *;
    truth; subst.
  - assert (Hok' : fields_ok 0 m s k) by (rewrite /fields_ok; lia).
    split; [by exists 0, m, s, k|]. intros _. rewrite (slot_pk _ _ _ _ Hok').
    rewrite /HRS /MIN /SEC /TICK. repeat case_match; cbn; simplify_eq; lia.
  - assert (Hok' : fields_ok 0 0 s k) by (rewrite /fields_ok; lia).
    split; [by exists 0, 0, s, k|]. intros _. rewrite (slot_pk _ _ _ _ Hok').
    rewrite /HRS /MIN /SEC /TICK. repeat case_match; cbn; simplify_eq; lia.
  - assert (Hok' : fields_ok 0 0 0 k) by (rewrite /fields_ok; lia).
    split; [by exists 0, 0, 0, k|]. intros _. rewrite (slot_pk _ _ _ _ Hok').
    rewrite /HRS /MIN /SEC /TICK. repeat case_match; cbn; simplify_eq; lia.
  - split; [exists 0, 0, 0, 0; rewrite /fields_ok; split; [lia|done]|done].
  - by destruct Hwr.
Qed.

(** ** All timers *)
Section invariant.
Context {H : Type}.
Implicit Types (s : tms H) (tr : Z → tree) (xs : list Z) (a b w : Z).

(** A timer's control blocks. *)
Definition blocks s a (p : app_timer) (tm : tm_timer) : Prop :=
  apps s !! a = Some p ∧ timers s !! timer p = Some tm ∧ apptimer tm = a ∧
  is_Some (elst s !! E_tmr a) ∧ packed (ctime p).
Definition run_ok s w a : Prop := ∃ p tm, blocks s a p tm ∧
  is_running tm = 1 ∧ wheel tm = w ∧ (slot (ctime p)).1 = w.
Definition exp_ok s a : Prop := ∃ p tm, blocks s a p tm ∧ is_running tm = 0.

Record tinv s tr xs : Prop := {
  ti_wheel w : is_wheel w → wheel_tree s w (tr w) ∧ is_rb (tr w) ∧ sorted s (inorder (tr w));
  ti_disj v w a : is_wheel v → is_wheel w → a ∈ inorder (tr v) → a ∈ inorder (tr w) → v = w;
  ti_run w a : is_wheel w → a ∈ inorder (tr w) → run_ok s w a;
  ti_list : dll (elst s) E_hd (E_tmr <$> xs);
  ti_done a : a ∈ xs → exp_ok s a;
  ti_clk : length (clk s) = 4%nat
}.

(** The state of one timer. *)
Definition at_state s tr xs a (st : tstate) : Prop :=
  match st with
  | Expired => a ∈ xs
  | Running w r ct => is_wheel w ∧ a ∈ inorder (tr w) ∧
      ∃ p, apps s !! a = Some p ∧ rt p = r ∧ ctime p = ct
  end.
(** In no wheel and not expired. *)
Definition loose tr xs a : Prop := (∀ w, is_wheel w → a ∉ inorder (tr w)) ∧ a ∉ xs.

Lemma tinv_keyed s tr xs w : tinv s tr xs → is_wheel w → keyed s (tr w).
Proof.
  intros Hi Hw a Ha. destruct (ti_run _ _ _ Hi w a Hw Ha) as (p&tm&(Hp&_)&_). by exists p.
Qed.
Lemma tinv_exp_wheel s tr xs w a : tinv s tr xs → is_wheel w → a ∈ inorder (tr w) → a ∉ xs.
Proof.
  intros Hi Hw Ha Hx. destruct (ti_run _ _ _ Hi w a Hw Ha) as (p&tm&(Hp&Ht&_)&Hr&_).
  destruct (ti_done _ _ _ Hi a Hx) as (p'&tm'&(Hp'&Ht'&_)&Hr'). congruence.
Qed.
(** The states of a timer are exclusive. *)
Lemma at_state_inj s tr xs a st st' :
  tinv s tr xs → at_state s tr xs a st → at_state s tr xs a st' → st = st'.
Proof.
  intros Hi. destruct st as [w r ct|], st' as [w' r' ct'|]; cbn; [..|done].
  - intros (Hw&Ha&p&Hp&<-&<-) (Hw'&Ha'&p'&Hp'&<-&<-).
    rewrite (ti_disj _ _ _ Hi w w' a) //. congruence.
  - intros (Hw&Ha&_) Hx. by destruct (tinv_exp_wheel _ _ _ _ _ Hi Hw Ha).
  - intros Hx (Hw&Ha&_). by destruct (tinv_exp_wheel _ _ _ _ _ Hi Hw Ha).
Qed.
Lemma clk_ld_run s tr xs w : tinv s tr xs → is_wheel w → clk_ld w s = Some (clock (clk s) w, s).
Proof.
  intros Hi Hw. rewrite /clk_ld decide_True; [|by destruct Hw].
  rewrite (bind_run (gets clk) _ s _ s eq_refl) /liftO /clock.
  destruct (lookup_lt_is_Some_2 (clk s) (Z.to_nat w)) as [c Hc].
  { rewrite (ti_clk _ _ _ Hi). destruct Hw. rewrite /TIMER_WHEEL in H1. lia. }
  by rewrite (list_lookup_total_correct _ _ _ Hc) Hc.
Qed.

(** ** Changes of the control blocks of one timer *)
Definition put_app a p s : tms H := set_apps (<[a := p]> (apps s)) s.
Definition put_timer q tm s : tms H := set_timers (<[q := tm]> (timers s)) s.
Lemma app_st_run s a p p' : apps s !! a = Some p → app_st a p' s = Some (tt, put_app a p' s).
Proof. intros Hp. by rewrite /app_st (bind_run _ _ _ _ _ (app_ld_run _ _ _ Hp)). Qed.
Lemma timer_ld_run s q tm : timers s !! q = Some tm → timer_ld q s = Some (tm, s).
Proof. intros Hp. by rewrite /timer_ld (bind_run (gets timers) _ s _ s eq_refl) /liftO Hp. Qed.
Lemma timer_mod_run s q tm f : timers s !! q = Some tm → timer_mod f q s = Some (tt, put_timer q (f tm) s).
Proof. intros Hp. by rewrite /timer_mod (bind_run _ _ _ _ _ (timer_ld_run _ _ _ Hp)). Qed.

(** The blocks of another timer. *)
Lemma blocks_put_app s a p b q tq : b ≠ a → blocks s b q tq → blocks (put_app a p s) b q tq.
Proof. intros Hne (Hq&?). split; [|done]. cbn. by rewrite lookup_insert_ne. Qed.
Lemma blocks_put_timer s r tm b q tq :
  timer q ≠ r → blocks s b q tq → blocks (put_timer r tm s) b q tq.
Proof. intros Hne (Hq&Htq&?). split; [done|]. split; [|done]. cbn. by rewrite lookup_insert_ne. Qed.
Lemma blocks_timer_ne s a p tm b q tq : blocks s a p tm → blocks s b q tq → b ≠ a → timer q ≠ timer p.
Proof. intros (_&Ht&Ha&_) (_&Htq&Hb&_) Hne Heq. rewrite Heq in Htq. congruence. Qed.
(** The same timer with changed fields. *)
Lemma blocks_self s a p tm ct r tm' :
  blocks s a p tm → packed ct → apptimer tm' = a →
  blocks (put_timer (timer p) tm' (put_app a (MkApp (timer p) ct r) s)) a (MkApp (timer p) ct r) tm'.
Proof.
  intros (Hp&Ht&Ha&He&_) Hk Ha'. split_and!; cbn; [by rewrite lookup_insert_eq..|done|done|done].
Qed.
(** What the operations on the wheels leave alone. *)
Definition untouched s s' : Prop := clk s' = clk s ∧ count s' = count s ∧ host s' = host s.

(** ** Rebuilding the invariant around one timer *)
Lemma tinv_change s tr xs s' tr' xs' a :
  tinv s tr xs →
  (∀ b p tm, b ≠ a → blocks s b p tm → blocks s' b p tm) → clk s' = clk s →
  dll (elst s') E_hd (E_tmr <$> xs') →
  (∀ w, is_wheel w → wheel_tree s' w (tr' w) ∧ is_rb (tr' w) ∧ sorted s' (inorder (tr' w))) →
  (∀ w b, is_wheel w → b ≠ a → b ∈ inorder (tr' w) → b ∈ inorder (tr w)) →
  (∀ b, b ≠ a → b ∈ xs' → b ∈ xs) →
  (∀ v w, is_wheel v → is_wheel w → a ∈ inorder (tr' v) → a ∈ inorder (tr' w) → v = w) →
  (∀ w, is_wheel w → a ∈ inorder (tr' w) → run_ok s' w a) → (a ∈ xs' → exp_ok s' a) →
  tinv s' tr' xs'.
Proof.
  intros Hi Hbl Hclk Hdll Hwt Hin Hx Hdis Hrun Hexp. split; [done|..|done| |by rewrite Hclk; apply Hi].
  - intros v w b Hv Hw Hb Hb'. destruct (decide (b = a)) as [->|Hne]; [by apply Hdis|].
    by apply (ti_disj _ _ _ Hi v w b); auto.
  - intros w b Hw Hb. destruct (decide (b = a)) as [->|Hne]; [by apply Hrun|].
    destruct (ti_run _ _ _ Hi w b Hw (Hin _ _ Hw Hne Hb)) as (p&tm&Hp&Hr).
    exists p, tm. split; [by apply Hbl|done].
  - intros b Hb. destruct (decide (b = a)) as [->|Hne]; [by apply Hexp|].
    destruct (ti_done _ _ _ Hi b (Hx _ Hne Hb)) as (p&tm&Hp&Hr).
    exists p, tm. split; [by apply Hbl|done].
Qed.
(** The other timers keep their state. *)
Definition same_others s tr xs s' tr' xs' a : Prop :=
  ∀ b st, b ≠ a → at_state s tr xs b st ↔ at_state s' tr' xs' b st.
Lemma same_others_intro s tr xs s' tr' xs' a :
  (∀ b, b ≠ a → apps s' !! b = apps s !! b) →
  (∀ w b, is_wheel w → b ≠ a → b ∈ inorder (tr' w) ↔ b ∈ inorder (tr w)) →
  (∀ b, b ≠ a → b ∈ xs' ↔ b ∈ xs) → same_others s tr xs s' tr' xs' a.
Proof.
  intros Ha Hw Hx b [w r ct|] Hne; cbn; [|by rewrite Hx].
  rewrite Ha //. split; intros (Hw'&Hb&Hp); (split_and!; [done| |done]); by apply Hw.
Qed.
Lemma same_others_trans s1 tr1 xs1 s2 tr2 xs2 s3 tr3 xs3 a :
  same_others s1 tr1 xs1 s2 tr2 xs2 a → same_others s2 tr2 xs2 s3 tr3 xs3 a →
  same_others s1 tr1 xs1 s3 tr3 xs3 a.
Proof. intros H1 H2 b st Hne. rewrite H1 //. by apply H2. Qed.

Lemma sorted_ext s s' l :
  (∀ b, b ∈ l → rt_of s' b = rt_of s b) → sorted s l → sorted s' l.
Proof.
  rewrite /sorted. induction l as [|x l IH]; intros Hrt; [by constructor|].
  rewrite !StronglySorted_cons !Forall_forall. intros [Hx Hl]. split.
  - intros y Hy. rewrite !Hrt; [by apply Hx|set_solver..].
  - apply IH; [|done]. set_solver.
Qed.
Lemma sorted_insert s l1 l2 a :
  sorted s (l1 ++ l2) → (∀ x, x ∈ l1 → rt_of s x ≤ rt_of s a) →
  (∀ y, y ∈ l2 → rt_of s a < rt_of s y) → sorted s (l1 ++ a :: l2).
Proof.
  rewrite /sorted !StronglySorted_app StronglySorted_cons Forall_forall.
  intros (H12&H1&H2) Hl Hr. split_and!; [|done| |done].
  - intros x y Hx [->|Hy]%elem_of_cons; auto.
  - intros y Hy. specialize (Hr _ Hy). lia.
Qed.
Lemma sorted_remove s l1 l2 a : sorted s (l1 ++ a :: l2) → sorted s (l1 ++ l2).
Proof.
  rewrite /sorted !StronglySorted_app StronglySorted_cons. intros (H12&H1&_&H2).
  split_and!; [|done|done]. intros x y Hx Hy. apply H12; [done|set_solver].
Qed.

(** *** Taking a timer out of its wheel *)
Definition upd_tree tr w t : Z → tree := λ v, if decide (v = w) then t else tr v.

(** The fields [ctime] and [rt] of the timer may have been changed before. *)
Lemma timer_del_tinv s tr xs w a p tm ct r :
  tinv s tr xs → is_wheel w → a ∈ inorder (tr w) → blocks s a p tm → packed ct →
  let s1 := put_app a (MkApp (timer p) ct r) s in
  wp (timer_del a w)
    (λ _ s', ∃ t', let tr' := upd_tree tr w t' in
       tinv s' tr' xs ∧ loose tr' xs a ∧ blocks s' a (MkApp (timer p) ct r) tm ∧
       same_others s tr xs s' tr' xs a ∧ length (inorder (tr w)) = S (length (inorder t')) ∧
       ∃ nd rts, s' = set_trees nd rts s1) s1.
Proof.
  intros Hi Hw Ha Hbl Hk s1. destruct (ti_wheel _ _ _ Hi w Hw) as (Ht&Hrb&Hso).
  destruct (list_elem_of_split _ _ Ha) as (l1&l2&Ho).
  assert (Hnd : NoDup (inorder (tr w))) by (destruct Ht as (_&r'&_&Ht); by eapply is_tree_nodup).
  rewrite Ho in Hnd. assert (Hni : a ∉ l1 ++ l2).
  { apply NoDup_app in Hnd as (_&H1&[H2 _]%NoDup_cons). set_solver. }
  eapply wp_mono; [by eapply (timer_del_run s1 w (tr w))|]. intros [] s' (t'&Hstep&Hrb'&Ho').
  exists t'. cbn zeta. pose proof Hstep as (nd&r'&->&_&_).
  assert (Hin : ∀ v b, is_wheel v → b ≠ a → b ∈ inorder (upd_tree tr w t' v) ↔ b ∈ inorder (tr v)).
  { intros v b Hv Hne. rewrite /upd_tree. case_decide as Hvw; [|done]. subst v.
    rewrite Ho' Ho !elem_of_app elem_of_cons. clear -Hne. naive_solver. }
  assert (Hna : ∀ v, is_wheel v → a ∉ inorder (upd_tree tr w t' v)).
  { intros v Hv. rewrite /upd_tree. case_decide as Hvw; [by rewrite Ho'|].
    intros Hav. apply Hvw. by apply (ti_disj _ _ _ Hi v w a). }
  assert (Hsorted : ∀ l, a ∉ l → sorted s l → sorted (set_trees nd (<[Z.to_nat w := r']> (roots s1)) s1) l).
  { intros l Hal. apply sorted_ext. intros b Hb. rewrite /rt_of /=. rewrite lookup_insert_ne //.
    by intros ->. }
  split_and!; [ |split; [done|by eapply tinv_exp_wheel]|..].
  - eapply (tinv_change _ _ _ _ _ _ a Hi); try done; [|apply Hi| |by intros; apply Hin|..].
    + intros b q tq Hne Hq. exact (blocks_put_app s a (MkApp (timer p) ct r) b q tq Hne Hq).
    + intros v Hv. rewrite /upd_tree. case_decide as Hvw.
      * subst v. split_and!; [exact (wheel_step_self s1 w a (tr w) t' _ Ht Hstep)|done|]. rewrite Ho'.
        apply Hsorted; [done|]. apply (sorted_remove _ _ _ a). by rewrite -Ho.
      * destruct (ti_wheel _ _ _ Hi v Hv) as (Htv&Hrbv&Hsov). split_and!; [|done|].
        -- apply (wheel_step_other s1 w a t' _ v (tr v) Htv Hstep); [apply Hw|done|]. intros b Hb.
           assert (b ∉ inorder (tr w)) as Hbw.
           { intros Hb'. apply Hvw. by apply (ti_disj _ _ _ Hi v w b). }
           rewrite Ho in Hbw. rewrite Ho'. clear -Hbw. set_solver.
        -- apply Hsorted; [|done]. intros Hav. apply Hvw. by apply (ti_disj _ _ _ Hi v w a).
    + intros v w' Hv _ Hav. by destruct (Hna v Hv).
    + intros v Hv Hav. by destruct (Hna v Hv).
    + intros Hax. by destruct (tinv_exp_wheel _ _ _ _ _ Hi Hw Ha).
  - destruct Hbl as (?&?&?&?&?). split_and!; cbn; [by rewrite lookup_insert_eq|done..].
  - apply same_others_intro; [|done|done]. intros b Hne. cbn. by rewrite lookup_insert_ne.
  - rewrite Ho Ho' !length_app /=. lia.
  - eauto.
Qed.

(** *** Putting a timer into the wheel of what is left *)
Lemma timer_add_tinv s tr xs w a p tm :
  tinv s tr xs → is_wheel w → loose tr xs a → valid a → blocks s a p tm →
  is_running tm = 1 → wheel tm = w → (slot (ctime p)).1 = w →
  wp (timer_add a w)
    (λ _ s', ∃ t', let tr' := upd_tree tr w t' in
       tinv s' tr' xs ∧ a ∈ inorder t' ∧ same_others s tr xs s' tr' xs a ∧
       ∃ nd rts, s' = set_trees nd rts s) s.
Proof.
  intros Hi Hw [Hlw Hlx] Hv Hbl Hrun Hwh Hsl. destruct (ti_wheel _ _ _ Hi w Hw) as (Ht&Hrb&Hso).
  pose proof Hbl as (Hp&_).
  eapply wp_mono; [eapply timer_add_run; try done; [by eapply tinv_keyed|by apply Hlw]|].
  intros [] s' (t'&l1&l2&Hstep&Hrb'&Ho&Ho'&Hl&Hr). exists t'. cbn zeta.
  pose proof Hstep as (nd&r&->&_&_).
  assert (Hin : ∀ v b, is_wheel v → b ≠ a → b ∈ inorder (upd_tree tr w t' v) ↔ b ∈ inorder (tr v)).
  { intros v b Hv' Hne. rewrite /upd_tree. case_decide as Hvw; [|done]. subst v.
    rewrite Ho' Ho !elem_of_app elem_of_cons. clear -Hne. naive_solver. }
  assert (Hwa : ∀ v, is_wheel v → a ∈ inorder (upd_tree tr w t' v) → v = w).
  { intros v Hv'. rewrite /upd_tree. case_decide as Hvw; [done|]. intros Hav. by destruct (Hlw v Hv'). }
  assert (Hrt : rt_of s a = rt p) by by rewrite /rt_of Hp.
  split_and!; [|rewrite Ho'; apply elem_of_app; right; left|by apply same_others_intro|eauto].
  eapply (tinv_change _ _ _ _ _ _ a Hi); try done; [apply Hi| |by intros; apply Hin|..].
  - intros v Hv'. rewrite /upd_tree. case_decide as Hvw.
    + subst v. split_and!; [by eapply wheel_step_self|done|]. rewrite Ho'.
      apply sorted_insert; [by rewrite -Ho|..]; change (rt_of (set_trees nd (<[Z.to_nat w:=r]> (roots s)) s)) with (rt_of s);
        by rewrite Hrt.
    + destruct (ti_wheel _ _ _ Hi v Hv') as (Htv&Hrbv&Hsov). split_and!; [|done|done].
      eapply wheel_step_other; [exact Htv|exact Hstep|apply Hw|done|]. intros b Hb.
      assert (b ≠ a) as Hba by (intros ->; by destruct (Hlw v Hv')).
      assert (b ∉ inorder (tr w)) as Hbw.
      { intros Hb'. apply Hvw. by apply (ti_disj _ _ _ Hi v w b). }
      rewrite Ho in Hbw. rewrite Ho'. clear -Hbw Hba. set_solver.
  - intros v w' Hv' Hw' Ha1 Ha2. by rewrite (Hwa v) // (Hwa w').
  - intros v Hv' Hav. rewrite (Hwa v Hv' Hav). exists p, tm. by split_and!.
Qed.

(** Changing the fields of a timer that is in no wheel. *)
Lemma tinv_put s tr xs a p tm ct r tm' :
  tinv s tr xs → loose tr xs a → blocks s a p tm →
  let s' := put_timer (timer p) tm' (put_app a (MkApp (timer p) ct r) s) in
  tinv s' tr xs ∧ same_others s tr xs s' tr xs a.
Proof.
  intros Hi [Hlw Hlx] Hbl. cbn zeta. split.
  - eapply (tinv_change _ _ _ _ _ _ a Hi); try done; [|apply Hi|..].
    + intros b q tq Hne Hq. apply blocks_put_timer; [by eapply blocks_timer_ne|by apply blocks_put_app].
    + intros w Hw. destruct (ti_wheel _ _ _ Hi w Hw) as (Ht&Hrb&Hso). split_and!; [done|done|].
      eapply sorted_ext; [|exact Hso]. intros b Hb. rewrite /rt_of /=.
      rewrite lookup_insert_ne //. intros ->. by destruct (Hlw w Hw).
    + intros v w Hv _ Hav. by destruct (Hlw v Hv).
    + intros v Hv Hav. by destruct (Hlw v Hv).
  - apply same_others_intro; [|done|done]. intros b Hne. cbn. by rewrite lookup_insert_ne.
Qed.

Lemma place_tinv s tr xs a p tm :
  tinv s tr xs → loose tr xs a → blocks s a p tm → valid a → ctime p ≠ 0 →
  wp (find_tmr_slot_and_place a)
    (λ _ s', ∃ t', let w := (slot (ctime p)).1 in let tr' := upd_tree tr w t' in
       tinv s' tr' xs ∧ at_state s' tr' xs a (placed (clk s) (ctime p)) ∧
       same_others s tr xs s' tr' xs a ∧ untouched s s') s.
Proof.
  intros Hi Hl Hbl Hv H0. pose proof Hbl as (Hp&Ht&Ha&He&Hk).
  pose proof (slot_wheel _ Hk H0) as Hw.
  rewrite /find_tmr_slot_and_place /wp (bind_run _ _ _ _ _ (app_ld_run _ _ _ Hp)).
  rewrite /placed. destruct (slot (ctime p)) as [w t] eqn:Hsl. cbn [fst] in Hw |- *.
  rewrite (proj2 (Z.ltb_ge w 0)); [|by destruct Hw].
  set (p' := MkApp (timer p) (ctime p) (u32 (clock (clk s) w + t))).
  set (tm1 := set_wheel w tm). set (tm2 := set_is_running 1 tm1).
  set (s2 := put_timer (timer p) tm2 (put_app a p' s)).
  assert (Hs2 : put_timer (timer p) tm2 (put_timer (timer p) tm1 (put_app a p' s)) = s2).
  { rewrite /s2 /put_timer /set_timers /=. by rewrite insert_insert_eq. }
  destruct (tinv_put s tr xs a p tm (ctime p) (u32 (clock (clk s) w + t)) tm2 Hi Hl Hbl) as [Hi2 Hso2].
  fold p' s2 in Hi2, Hso2.
  assert (Hbl2 : blocks s2 a p' tm2) by (by apply (blocks_self s a p tm)).
  match goal with |- context [(?m ≫= ?k) s] => change (wp (m ≫= k) (λ _ s', ∃ t', let tr' := upd_tree tr w t' in
    tinv s' tr' xs ∧ at_state s' tr' xs a (Running w (u32 (clock (clk s) w + t)) (ctime p)) ∧
    same_others s tr xs s' tr' xs a ∧ untouched s s') s) end.
  apply wp_bind. rewrite /wp (bind_run _ _ _ _ _ (clk_ld_run _ _ _ _ Hi Hw)).
  rewrite (bind_run _ _ _ _ _ (app_st_run _ _ _ p' Hp)).
  rewrite (bind_run _ _ _ _ _ (timer_mod_run (put_app a p' s) _ _ (set_wheel w) Ht)).
  assert (Ht1 : timers (put_timer (timer p) tm1 (put_app a p' s)) !! timer p = Some tm1).
  { cbn. by rewrite lookup_insert_eq. }
  rewrite (bind_run _ _ _ _ _ (timer_mod_run _ _ _ (set_is_running 1) Ht1)).
  fold tm2. rewrite Hs2.
  assert (Hadd : wp (timer_add a w) (λ _ s', ∃ t', let tr' := upd_tree tr w t' in
       tinv s' tr' xs ∧ a ∈ inorder t' ∧ same_others s2 tr xs s' tr' xs a ∧
       ∃ nd rts, s' = set_trees nd rts s2) s2).
  { apply (timer_add_tinv s2 tr xs w a p' tm2); try done. cbn [ctime p']. by rewrite Hsl. }
  apply wp_inv in Hadd as ([]&s3&Hrun&t'&Hi3&Hin&Hso3&nd&rts&->). rewrite Hrun.
  exists t'. cbn zeta. split_and!; [done| |by eapply same_others_trans|done..].
  split_and!; [by destruct Hw..|rewrite /upd_tree decide_True //|].
  exists p'. split; [|done]. cbn. by rewrite lookup_insert_eq.
Qed.

(** *** Moving a timer to the list of the expired *)
Lemma expire_tinv s tr xs a p tm :
  tinv s tr xs → loose tr xs a → blocks s a p tm →
  wp (DEC_TIMER_COUNT;; timer_mod (set_is_running 0) (timer p);;
      on_elst (list_add_tail (E_tmr a) E_hd))
    (λ _ s', tinv s' tr (xs ++ [a]) ∧ same_others s tr xs s' tr (xs ++ [a]) a ∧
       clk s' = clk s ∧ host s' = host s ∧ count s' = u32 (count s - 1)) s.
Proof.
  intros Hi Hl Hbl. pose proof Hl as [Hlw Hlx]. pose proof Hbl as (Hp&Ht&Ha&He&Hk).
  apply wp_bind, wp_modify. apply wp_bind. eapply wp_intro; [by apply timer_mod_run|].
  apply wp_zoom. cbn [elst put_timer set_timers set_count].
  apply (wp_list_add_tail _ _ (E_tmr <$> xs)); [apply Hi| |done|].
  { rewrite not_elem_of_cons. split; [done|]. intros (b&[= ->]&Hb)%list_elem_of_fmap. done. }
  intros el Hdll [_ Hdom].
  split; [|split; [|done]].
  - eapply (tinv_change _ _ _ _ _ _ a Hi); try done.
    + intros b q tq Hne Hq. pose proof (blocks_timer_ne _ _ _ _ _ _ _ Hbl Hq Hne) as Hnt.
      destruct Hq as (?&?&?&?&?). split_and!; cbn; [done|by rewrite lookup_insert_ne|done| |done].
      by apply Hdom.
    + cbn. by rewrite fmap_app.
    + intros w Hw. exact (ti_wheel _ _ _ Hi w Hw).
    + intros b Hne [Hb|Hb%list_elem_of_singleton]%elem_of_app; done.
    + intros v w Hv _ Hav. by destruct (Hlw v Hv).
    + intros w Hw Hav. by destruct (Hlw w Hw).
    + intros _. exists p, (set_is_running 0 tm). split; [|done].
      split_and!; cbn; [done|by rewrite lookup_insert_eq|done|by apply Hdom|done].
  - apply same_others_intro; [done|done|]. intros b Hne. rewrite elem_of_app list_elem_of_singleton.
    naive_solver.
Qed.
End invariant.
