(* ===== verification/TimerPass.v ===== *)
(** * Timer wheels: processing a tick

    [process_timers] performs exactly one [pass] on every timer; the passes of one
    tick make [tick_pass].  With the clock of [update_times], a timer is handed from
    wheel to wheel at the right ticks and expires at [fire_time]. *)

From stdpp Require Import sorting.
From S2P Require Import Prelude ListHead RbTree RbRep RbInsert RbWalk RbErase RbSpec.
From S2P Require Import Timers TimerFormat TimerTree TimerInv.
#[local] Open Scope Z_scope.

Lemma u32_minus_l x y : u32 (u32 x - y) = u32 (x - y).
Proof. rewrite /u32. apply Zminus_mod_idemp_l. Qed.

Lemma s32_s32 x : s32 (s32 x) = s32 x.
Proof. apply s32_small, s32_range. Qed.
Lemma s32_plus_l x y : s32 (s32 x + y) = s32 (x + y).
Proof.
  rewrite /s32. replace ((x + 2 ^ 31) `mod` 2 ^ 32 - 2 ^ 31 + y + 2 ^ 31) with ((x + 2 ^ 31) `mod` 2 ^ 32 + y) by lia.
  rewrite Zplus_mod_idemp_l. do 2 f_equal. lia.
Qed.

Lemma wheel_mask_lookup w : is_wheel w → wheel_mask !! Z.to_nat w = Some (wheel_mask !!! Z.to_nat w).
Proof.
  rewrite /is_wheel /TIMER_WHEEL. intros Hw.
  assert (w = 0 ∨ w = 1 ∨ w = 2 ∨ w = 3) as [->|[->|[->| ->]]] by lia; done.
Qed.
(** A timer that was handed on is not due again in the same wheel. *)
Lemma pass_pass ck w r ct :
  packed ct → (slot ct).1 = w → is_wheel w →
  pass ck w (pass ck w (Running w r ct)) = pass ck w (Running w r ct).
Proof.
  intros Hk Hs Hw. cbn [pass]. rewrite Z.eqb_refl /=. destruct (r =? clock ck w) eqn:Er; [|by rewrite /= Z.eqb_refl Er].
  destruct (truthy _) eqn:Et; [|done]. truth.
  destruct (clear_slot _ _ _ Hk Hs Hw (wheel_mask_lookup _ Hw)) as [_ Hlt]. specialize (Hlt Et).
  rewrite /placed. destruct (slot (Z.land ct _)) as [w' t'] eqn:E'. cbn in Hlt |- *.
  by rewrite (proj2 (Z.eqb_neq w' w)); [|lia].
Qed.
Lemma pass_not_due ck w v r ct : (v ≠ w ∨ r ≠ clock ck w) → pass ck w (Running v r ct) = Running v r ct.
Proof.
  intros Hd. cbn. destruct (Z.eqb_spec v w), (Z.eqb_spec r (clock ck w)); cbn; naive_solver.
Qed.

Lemma wp_seq3 {S A B C D} (m1 : M S A) (m2 : M S B) (m3 : M S C) (k : M S D) Φ s :
  wp (m1;; m2;; m3) (λ _, wp k Φ) s → wp (m1;; m2;; m3;; k) Φ s.
Proof.
  intros Hw%wp_bind_inv. apply wp_bind. eapply wp_mono; [exact Hw|]. cbn. clear s Hw.
  intros _ s Hw%wp_bind_inv. apply wp_bind. eapply wp_mono; [exact Hw|]. cbn. clear s Hw.
  intros _ s Hw. by apply wp_bind.
Qed.

Section passes.
Context {H : Type}.
Implicit Types (s : tms H) (tr : Z → tree) (xs : list Z) (a b w : Z).

Lemma wheel_valid s w t a : wheel_tree s w t → a ∈ inorder t → valid a.
Proof.
  intros (_&r&_&[Hh _]) Ha. apply hp_valid in Hh. cbn in Hh. rewrite app_nil_r tmap_fst in Hh.
  rewrite Forall_forall in Hh. by apply Hh.
Qed.

(** What processing a wheel does to all timers. *)
Record passed (f : tstate → tstate) s tr xs s' tr' xs' : Prop := {
  pd_inv : tinv s' tr' xs';
  pd_clk : clk s' = clk s;
  pd_host : host s' = host s;
  pd_step a st : at_state s tr xs a st → at_state s' tr' xs' a (f st);
  pd_back a st' : at_state s' tr' xs' a st' → ∃ st, at_state s tr xs a st;
  pd_count : ∃ ys, xs' = xs ++ ys ∧ u32 (count s') = u32 (count s - Z.of_nat (length ys))
}.
Lemma passed_trans f g s1 tr1 xs1 s2 tr2 xs2 s3 tr3 xs3 :
  passed f s1 tr1 xs1 s2 tr2 xs2 → passed g s2 tr2 xs2 s3 tr3 xs3 →
  passed (g ∘ f) s1 tr1 xs1 s3 tr3 xs3.
Proof.
  intros [? Hc1 Hh1 Hs1 Hb1 (ys&->&Hy)] [? Hc2 Hh2 Hs2 Hb2 (zs&->&Hz)]. split; [done|congruence|congruence|..].
  - intros a st Hst. by apply Hs2, Hs1.
  - intros a st' Hst. destruct (Hb2 _ _ Hst) as [st Hst2]. by apply (Hb1 _ _ Hst2).
  - exists (ys ++ zs). split; [by rewrite app_assoc|].
    rewrite Hz -u32_minus_l Hy u32_minus_l length_app. f_equal. lia.
Qed.

Lemma pass_one s tr xs w a p :
  tinv s tr xs → is_wheel w → a ∈ inorder (tr w) → apps s !! a = Some p → rt p = clock (clk s) w →
  wp (clear_wheel_timer a;; timer_del a w;; timer_expiry_action a)
    (λ _ s', ∃ tr' xs', tinv s' tr' xs' ∧
       at_state s' tr' xs' a (pass (clk s) w (Running w (rt p) (ctime p))) ∧
       same_others s tr xs s' tr' xs' a ∧ clk s' = clk s ∧ host s' = host s ∧
       length (inorder (tr w)) = S (length (inorder (tr' w))) ∧
       ∃ ys, xs' = xs ++ ys ∧ u32 (count s') = u32 (count s - Z.of_nat (length ys)) ∧ (length ys ≤ 1)%nat) s.
Proof.
  intros Hi Hw Ha Hp Hrt. destruct (ti_run _ _ _ Hi w a Hw Ha) as (p0&tm&Hbl&Hrun&Hwh&Hsl).
  pose proof Hbl as (Hp0&Ht&Hap&_&Hk). rewrite Hp in Hp0. injection Hp0 as <-.
  destruct (ti_wheel _ _ _ Hi w Hw) as (Htw&_&_). pose proof (wheel_valid _ _ _ _ Htw Ha) as Hv.
  set (ct' := Z.land (ctime p) (wheel_mask !!! Z.to_nat w)).
  destruct (clear_slot _ _ _ Hk Hsl Hw (wheel_mask_lookup _ Hw)) as [Hk' Hlt]. fold ct' in Hk', Hlt.
  assert (Hclr : clear_wheel_timer a s = Some (tt, put_app a (MkApp (timer p) ct' (rt p)) s)).
  { rewrite /clear_wheel_timer (bind_run _ _ _ _ _ (app_ld_run _ _ _ Hp)).
    rewrite (bind_run _ _ _ _ _ (timer_ld_run _ _ _ Ht)) Hwh.
    rewrite decide_True; [|by destruct Hw]. rewrite (wheel_mask_lookup _ Hw).
    by rewrite (bind_run (liftO (Some (wheel_mask !!! Z.to_nat w))) _ s _ s eq_refl) (app_st_run _ _ _ _ Hp). }
  rewrite /wp (bind_run _ _ _ _ _ Hclr).
  destruct (wp_inv _ _ _ (timer_del_tinv s tr xs w a p tm ct' (rt p) Hi Hw Ha Hbl Hk'))
    as ([]&s2&Hdel&t2&Hi2&Hl2&Hbl2&Hso2&Hlen&nd&rts&Hs2).
  rewrite (bind_run _ _ _ _ _ Hdel). cbn zeta in *.
  assert (Hck : clk s2 = clk s) by by rewrite Hs2. assert (Hho : host s2 = host s) by by rewrite Hs2.
  assert (Hco : count s2 = count s) by by rewrite Hs2. clear Hs2.
  pose proof Hbl2 as (Hp2&Ht2&_). cbn [timer] in Ht2.
  rewrite /timer_expiry_action (bind_run _ _ _ _ _ (app_ld_run _ _ _ Hp2)). cbn [ctime timer].
  rewrite /pass Z.eqb_refl Hrt Z.eqb_refl /=. fold ct'. destruct (truthy ct') eqn:Et; cbn [negb]; truth.
  - pose proof (place_tinv _ _ _ _ _ _ Hi2 Hl2 Hbl2 Hv Et) as Hpl. cbn [ctime] in Hpl.
    apply wp_inv in Hpl as (?&s3&Hrun3&t3&Hi3&Hst3&Hso3&(Hck3&Hco3&Hho3)).
    rewrite (bind_run _ _ _ _ _ Hrun3). cbn zeta in *. rewrite Hck in Hst3, Hck3.
    eexists _, xs. split_and!; [exact Hi3|exact Hst3|by eapply same_others_trans|done|congruence| |].
    + specialize (Hlt Et). rewrite {1}/upd_tree decide_False; [|lia]. by rewrite /upd_tree decide_True.
    + exists []. split; [by rewrite app_nil_r|]. split; [|cbn; lia]. rewrite Hco3 Hco. f_equal. cbn. lia.
  - pose proof (expire_tinv _ _ _ _ _ _ Hi2 Hl2 Hbl2) as Hex. cbn [timer] in Hex.
    apply wp_inv in Hex as ([]&s3&Hrun3&Hi3&Hso3&Hck3&Hho3&Hco3). rewrite Hrun3.
    eexists _, (xs ++ [a]). split_and!; [exact Hi3| |by eapply same_others_trans|congruence|congruence| |].
    + apply elem_of_app. right. left.
    + by rewrite /upd_tree decide_True.
    + exists [a]. split; [done|]. split; [|done]. rewrite Hco3 Hco /u32. by rewrite Z.mod_mod; [|lia].
Qed.

(** What [process_timers] returns, from [n]: at least the number of timers that expired. *)
Definition served_in tr xs w xs' (n m : Z) : Prop := ∃ j : nat,
  m = s32 (n + Z.of_nat j) ∧ (length xs' ≤ length xs + j)%nat ∧ (j ≤ length (inorder (tr w)))%nat.
Lemma process_loop_run fuel n s tr xs w :
  tinv s tr xs → is_wheel w → (length (inorder (tr w)) ≤ fuel)%nat → s32 n = n →
  wp (process_loop fuel w (clock (clk s) w) n)
    (λ m s', ∃ tr' xs', passed (pass (clk s) w) s tr xs s' tr' xs' ∧ served_in tr xs w xs' n m) s.
Proof.
  revert n s tr xs. induction fuel as [|fuel IH]; intros n s tr xs Hi Hw Hf Hn;
    destruct (ti_wheel _ _ _ Hi w Hw) as (Ht&Hrb&Hso);
    destruct (timer_tree_walk_run _ _ _ (clock (clk s) w) Ht (tinv_keyed _ _ _ _ Hi Hw) Hso)
      as (v&Hwalk&Hv); cbn [process_loop]; rewrite /wp (bind_run _ _ _ _ _ Hwalk);
    destruct Hv as [[-> Hnone]|(Hv0&Hv&Hvr)].
  1,3: exists tr, xs; (split; [|exists 0%nat; rewrite Z.add_0_r; split_and!; [done|lia|lia]]);
    split; [done|done|done| |naive_solver|];
    [|exists []; split; [by rewrite app_nil_r|cbn; f_equal; lia]];
    intros a [u r ct|] Hst; [|done]; rewrite pass_not_due //;
    destruct Hst as (Hu&Ha&p&Hp&<-&<-); destruct (decide (u = w)) as [->|]; [right|by left];
    specialize (Hnone _ Ha); by rewrite /rt_of Hp in Hnone.
  { destruct (inorder (tr w)); [by apply elem_of_nil in Hv|cbn in Hf; lia]. }
  rewrite (proj2 (truthy_true v) Hv0). cbn [negb].
  destruct (tinv_keyed _ _ _ _ Hi Hw v Hv) as [p Hp].
  assert (Hrt : rt p = clock (clk s) w) by by rewrite /rt_of Hp in Hvr.
  apply (wp_seq3 (clear_wheel_timer v) (timer_del v w) (timer_expiry_action v)
    (process_loop fuel w (clock (clk s) w) (s32 (n + 1)))).
  eapply wp_mono; [by eapply pass_one|]. clear Hwalk.
  intros [] s1 (tr1&xs1&Hi1&Hst1&Hso1&Hck1&Hho1&Hlen&ys&->&Hco&Hys).
  specialize (IH (s32 (n + 1)) s1 tr1 _ Hi1 Hw ltac:(lia) (s32_s32 _)). rewrite Hck1 in IH.
  eapply wp_mono; [exact IH|]. intros m s2 (tr2&xs2&[Hi2 Hck2 Hho2 Hstep Hback (zs&->&Hco2)]&j&Hj&Hxl&Hjl).
  exists tr2, ((xs ++ ys) ++ zs). rewrite Hck1 in Hck2. split; last first.
  { exists (S j). split_and!; [|rewrite !length_app in Hxl |- *; lia|lia]. rewrite Hj s32_plus_l. f_equal. lia. }
  destruct (ti_run _ _ _ Hi w v Hw Hv) as (p0&tm&(Hp0&_&_&_&Hk)&_&_&Hsl).
  rewrite Hp in Hp0. injection Hp0 as <-.
  assert (Hv1 : at_state s tr xs v (Running w (rt p) (ctime p))) by (split_and!; [apply Hw..|done|eauto]).
  split; [done|done|congruence|..].
  - intros a st Hst. destruct (decide (a = v)) as [->|Hne]; [|by apply Hstep, Hso1].
    rewrite (at_state_inj _ _ _ _ _ _ Hi Hst Hv1). rewrite -(pass_pass _ _ _ _ Hk Hsl Hw). by apply Hstep.
  - intros a st' Hst. destruct (decide (a = v)) as [->|Hne]; [eauto|].
    destruct (Hback _ _ Hst) as [st Hst']. exists st. by apply Hso1.
  - exists (ys ++ zs). split; [by rewrite app_assoc|].
    rewrite Hco2 -u32_minus_l Hco u32_minus_l length_app. f_equal. lia.
Qed.

Lemma process_wheel_run s tr xs w :
  tinv s tr xs → is_wheel w →
  wp (process_wheel w) (λ m s', ∃ tr' xs', passed (pass (clk s) w) s tr xs s' tr' xs' ∧ served_in tr xs w xs' 0 m) s.
Proof.
  intros Hi Hw. rewrite /process_wheel /wp (bind_run _ _ _ _ _ (clk_ld_run _ _ _ _ Hi Hw)).
  rewrite /process_timers (bind_run (gets _) _ s _ s eq_refl). apply process_loop_run; [done|done| |done].
  destruct (ti_wheel _ _ _ Hi w Hw) as ((_&r&_&Ht)&_). by apply at_pos_size in Ht.
Qed.
End passes.

(** ** One tick *)

(** The passes of [tm_process_tick_and_update_timers], by the clock. *)
Definition next_sec {TR : TickRate} (ck : list Z) : bool := clock ck TICK `mod` tm_get_ticks_per_second =? 0.
Definition next_min (ck : list Z) : bool := negb (clock ck SEC =? 0) && (clock ck SEC `mod` 60 =? 0).
Definition next_hr (ck : list Z) : bool := negb (clock ck MIN =? 0) && (clock ck MIN `mod` 60 =? 0).
Definition tick_pass {TR : TickRate} (ck : list Z) (st : tstate) : tstate :=
  let st := pass ck TICK st in
  if negb (next_sec ck) then st else
  let st := pass ck SEC st in
  if negb (next_min ck) then st else
  let st := pass ck MIN st in
  if negb (next_hr ck) then st else pass ck HRS st.

Section tick.
Context {TR : TickRate} {H : Type}.
Implicit Types (s : tms H) (tr : Z → tree) (xs : list Z).

Lemma wheels : is_wheel TICK ∧ is_wheel SEC ∧ is_wheel MIN ∧ is_wheel HRS.
Proof. done. Qed.
Lemma next_sec_run s tr xs : tinv s tr xs → IS_NXT_SEC_HAPPEND s = Some (next_sec (clk s), s).
Proof.
  intros Hi. rewrite /IS_NXT_SEC_HAPPEND (bind_run _ _ _ _ _ (clk_ld_run _ _ _ TICK Hi (proj1 wheels))).
  rewrite /next_sec /truthy negb_involutive. done.
Qed.
Lemma next_min_run s tr xs : tinv s tr xs → IS_NXT_MIN_HAPPEND s = Some (next_min (clk s), s).
Proof.
  intros Hi. destruct wheels as (_&Hw&_).
  rewrite /IS_NXT_MIN_HAPPEND (bind_run _ _ _ _ _ (clk_ld_run _ _ _ SEC Hi Hw)).
  rewrite /next_min /truthy negb_involutive. by destruct (clock (clk s) SEC =? 0).
Qed.
Lemma next_hr_run s tr xs : tinv s tr xs → IS_NXT_HR_HAPPEND s = Some (next_hr (clk s), s).
Proof.
  intros Hi. destruct wheels as (_&_&Hw&_).
  rewrite /IS_NXT_HR_HAPPEND (bind_run _ _ _ _ _ (clk_ld_run _ _ _ MIN Hi Hw)).
  rewrite /next_hr /truthy negb_involutive. by destruct (clock (clk s) MIN =? 0).
Qed.

(** A timer whose wheel has not come to its time stays. *)
Lemma tick_pass_not_due ck w r ct : r ≠ clock ck w → tick_pass ck (Running w r ct) = Running w r ct.
Proof.
  intros Hr. assert (Hp : ∀ v, pass ck v (Running w r ct) = Running w r ct) by
    (intros v; apply pass_not_due; destruct (decide (w = v)) as [->|]; [by right|by left]).
  rewrite /tick_pass !Hp. by repeat case_match.
Qed.
(** No wheel ever holds more than [K] timers. *)
Definition room s tr xs (K : nat) : Prop :=
  ∀ f s' tr' xs' w, passed f s tr xs s' tr' xs' → is_wheel w → (length (inorder (tr' w)) ≤ K)%nat.
(** [m] counts at least the timers that expired, in [b] wheels. *)
Definition served_by s tr xs (b : nat) xs' (m : Z) : Prop := ∃ j : nat,
  m = s32 (Z.of_nat j) ∧ (length xs' ≤ length xs + j)%nat ∧ ∀ K : nat, room s tr xs K → (j ≤ b * K)%nat.
(** One wheel more. *)
Lemma served_more s tr xs f s1 tr1 xs1 w xs2 m1 m2 b :
  passed f s tr xs s1 tr1 xs1 → is_wheel w → served_in tr1 xs1 w xs2 0 m2 → served_by s tr xs b xs1 m1 →
  served_by s tr xs (S b) xs2 (s32 (m1 + m2)).
Proof.
  intros P Hw (j2&->&Hl2&Hb2) (j&->&Hl1&Hb1). exists (j + j2)%nat. split; [|split; [lia|]].
  - rewrite Z.add_0_l s32_plus_l Z.add_comm s32_plus_l. f_equal. lia.
  - intros K HK. pose proof (Hb1 K HK). pose proof (HK _ _ _ _ _ P Hw). lia.
Qed.
Lemma served_weaken s tr xs b b' xs' m : (b ≤ b')%nat → served_by s tr xs b xs' m → served_by s tr xs b' xs' m.
Proof. intros Hb (j&Hj&Hl&HK). exists j. split; [done|]. split; [done|]. intros K Hr. pose proof (HK K Hr). nia. Qed.
Lemma passed_refl s tr xs : tinv s tr xs → passed id s tr xs s tr xs.
Proof. intros Hi. split; [done..|eauto|]. exists []. rewrite app_nil_r. split; [done|]. cbn. f_equal. lia. Qed.

Lemma tick_serves s tr xs :
  tinv s tr xs →
  wp tm_process_tick_and_update_timers
    (λ m s', ∃ tr' xs', passed (tick_pass (clk s)) s tr xs s' tr' xs' ∧ served_by s tr xs 4 xs' m) s.
Proof.
  intros Hi. destruct wheels as (W0&W1&W2&W3). rewrite /tm_process_tick_and_update_timers.
  apply wp_bind. eapply wp_mono; [by apply process_wheel_run|]. intros n0 s1 (tr1&xs1&P1&V1).
  assert (U1 : served_by s tr xs 1 xs1 n0).
  { replace n0 with (s32 (0 + n0)) by (destruct V1 as (?&->&_); by rewrite !Z.add_0_l s32_s32).
    apply (served_more _ _ _ _ _ _ _ _ _ 0 n0 0 (passed_refl _ _ _ Hi) W0 V1). exists 0%nat. split; [done|]. split; [lia|]. intros K _. lia. }
  pose proof (pd_inv _ _ _ _ _ _ _ P1) as I1. pose proof (pd_clk _ _ _ _ _ _ _ P1) as C1.
  rewrite /wp (bind_run _ _ _ _ _ (next_sec_run _ _ _ I1)) C1.
  destruct (next_sec (clk s)) eqn:E1; cbn [negb].
  2: { exists tr1, xs1. rewrite /tick_pass E1. split; [done|]. eapply served_weaken, U1. lia. }
  apply wp_bind. eapply wp_mono; [by apply process_wheel_run|]. rewrite C1. intros n1 s2 (tr2&xs2&P2&V2).
  pose proof (served_more _ _ _ _ _ _ _ _ _ _ _ _ P1 W1 V2 U1) as U2.
  pose proof (passed_trans _ _ _ _ _ _ _ _ _ _ _ P1 P2) as P12.
  pose proof (pd_inv _ _ _ _ _ _ _ P12) as I2. pose proof (pd_clk _ _ _ _ _ _ _ P12) as C2.
  rewrite /wp (bind_run _ _ _ _ _ (next_min_run _ _ _ I2)) C2.
  destruct (next_min (clk s)) eqn:E2; cbn [negb].
  2: { exists tr2, xs2. rewrite /tick_pass E1 E2. split; [done|]. eapply served_weaken, U2. lia. }
  apply wp_bind. eapply wp_mono; [by apply process_wheel_run|]. rewrite C2. intros n2 s3 (tr3&xs3&P3&V3).
  pose proof (served_more _ _ _ _ _ _ _ _ _ _ _ _ P12 W2 V3 U2) as U3.
  pose proof (passed_trans _ _ _ _ _ _ _ _ _ _ _ P12 P3) as P123.
  pose proof (pd_inv _ _ _ _ _ _ _ P123) as I3. pose proof (pd_clk _ _ _ _ _ _ _ P123) as C3.
  rewrite /wp (bind_run _ _ _ _ _ (next_hr_run _ _ _ I3)) C3.
  destruct (next_hr (clk s)) eqn:E3; cbn [negb].
  2: { exists tr3, xs3. rewrite /tick_pass E1 E2 E3. split; [done|]. eapply served_weaken, U3. lia. }
  apply wp_bind. eapply wp_mono; [by apply process_wheel_run|]. rewrite C3. intros n3 s4 (tr4&xs4&P4&V4).
  pose proof (served_more _ _ _ _ _ _ _ _ _ _ _ _ P123 W3 V4 U3) as U4.
  exists tr4, xs4. pose proof (passed_trans _ _ _ _ _ _ _ _ _ _ _ P123 P4) as P.
  rewrite /tick_pass E1 E2 E3. by split.
Qed.
Lemma tick_run s tr xs :
  tinv s tr xs →
  wp tm_process_tick_and_update_timers
    (λ _ s', ∃ tr' xs', passed (tick_pass (clk s)) s tr xs s' tr' xs') s.
Proof. intros Hi. eapply wp_mono; [by apply tick_serves|]. intros m s' (tr'&xs'&P&_). by exists tr', xs'. Qed.
End tick.
