(* ===== verification/TimerFire.v ===== *)
(** * Timer wheels: when a timer fires

    [clock_at T] are the four counters after [T] ticks; [fire_time] is the tick at
    which a timer in a wheel will expire, and every tick keeps it.  A timer of [n]
    ticks that is started at tick [T] fires at [n + T - T mod U], where [U] is the
    largest unit (hour, minute, second, tick) that fits into [n]. *)

From S2P Require Import Prelude ListHead RbTree RbRep RbInsert RbWalk RbErase RbSpec.
From S2P Require Import Timers TimerFormat TimerTree TimerInv TimerPass.
#[local] Open Scope Z_scope.

Section fire.
Context {TR : TickRate} {OK : RateOk}.
#[local] Notation R := tm_get_ticks_per_second.

Definition clock_at (T : Z) : list Z := [T; T / R; T / (R * 60); T / (R * 3600)].
(** The ticks of one step of a wheel. *)
Definition unit_of (w : Z) : Z :=
  if w =? TICK then 1 else if w =? SEC then R else if w =? MIN then (R * 60) else (R * 3600).
(** The number of ticks a remaining time stands for. *)
Definition ticks_of (ct : Z) : Z :=
  GET_TICK ct + R * GET_SECS ct + (R * 60) * GET_MINS ct + (R * 3600) * GET_HRS ct.
Definition fire_time (w r ct : Z) : Z := r * unit_of w + ticks_of ct - (slot ct).2 * unit_of w.
(** A timer that is where it should be after tick [T]. *)
Definition on_course (T w r ct : Z) : Prop :=
  packed ct ∧ ct ≠ 0 ∧ (slot ct).1 = w ∧ T < r * unit_of w ∧ fire_time w r ct < 2 ^ 32.

Lemma wheel_cases w : is_wheel w → w = TICK ∨ w = SEC ∨ w = MIN ∨ w = HRS.
Proof. rewrite /is_wheel /TIMER_WHEEL /TICK /SEC /MIN /HRS. lia. Qed.
Lemma clock_unit T w : is_wheel w → clock (clock_at T) w = T / unit_of w.
Proof. intros [->|[->|[->| ->]]]%wheel_cases; try done. by rewrite Z.div_1_r. Qed.
Lemma unit_pos w : 0 < unit_of w.
Proof using OK. pose proof rate_pos. rewrite /unit_of. repeat case_match; lia. Qed.
Lemma unit_divide v w : is_wheel v → is_wheel w → v < w → (unit_of v | unit_of w).
Proof.
  intros [->|[->|[->| ->]]]%wheel_cases [->|[->|[->| ->]]]%wheel_cases; rewrite /TICK /SEC /MIN /HRS; try lia;
    intros _; rewrite /unit_of /=; [exists R|exists (R * 60)|exists (R * 3600)|exists 60|exists 3600|exists 60]; lia.
Qed.

Lemma ticks_pk h m s k :
  fields_ok h m s k → ticks_of (pk h m s k) = k + R * s + (R * 60) * m + (R * 3600) * h.
Proof.
  intros Hok. by rewrite /ticks_of (GET_TICK_pk _ _ _ _ Hok) (GET_SECS_pk _ _ _ _ Hok)
    (GET_MINS_pk _ _ _ _ Hok) (GET_HRS_pk _ _ _ _ Hok).
Qed.
(** Clearing the field of the wheel takes its share off; the share is positive. *)
Lemma ticks_clear ct w t c :
  packed ct → ct ≠ 0 → slot ct = (w, t) → wheel_mask !! Z.to_nat w = Some c →
  ticks_of (Z.land ct c) = ticks_of ct - t * unit_of w ∧ 0 < t.
Proof.
  intros (h&m&s&k&Hok&->) H0 Hs Hc. rewrite (slot_pk _ _ _ _ Hok) in Hs.
  rewrite (mask_pk _ _ _ _ Hok _ _ Hc) (ticks_pk _ _ _ _ Hok).
  rewrite (pk_0 _ _ _ _ Hok) in H0. destruct Hok as (?&?&?&?).
  destruct (truthy h) eqn:Eh; [|destruct (truthy m) eqn:Em;
    [|destruct (truthy s) eqn:Es; [|destruct (truthy k) eqn:Ek]]]; truth;
    injection Hs as <- <-; [..|naive_solver].
  all: cbn [Z.to_nat HRS MIN SEC TICK Pos.to_nat Pos.iter_op Nat.add];
    (rewrite ticks_pk; [|rewrite /fields_ok; lia]); split; [|lia]; rewrite /unit_of /=; lia.
Qed.
Lemma ticks_nonneg ct : packed ct → 0 ≤ ticks_of ct.
Proof. intros (h&m&s&k&Hok&->). rewrite (ticks_pk _ _ _ _ Hok). destruct Hok as (?&?&?&?). pose proof rate_pos. nia. Qed.
Lemma ticks_zero : ticks_of 0 = 0.
Proof. rewrite /ticks_of. change (GET_TICK 0) with 0. change (GET_SECS 0) with 0. change (GET_MINS 0) with 0. change (GET_HRS 0) with 0. lia. Qed.

(** The wheels that are processed at a tick are those whose unit divides it. *)
Lemma mod_div T a b : 0 < a → 0 < b → T `mod` (a * b) = 0 ↔ T `mod` a = 0 ∧ (T / a) `mod` b = 0.
Proof.
  intros Ha Hb. rewrite Z.rem_mul_r; [|lia..]. pose proof (Z.mod_pos_bound T a Ha).
  pose proof (Z.mod_pos_bound (T / a) b Hb). nia.
Qed.
Lemma next_sec_at T : next_sec (clock_at T) = true ↔ T `mod` unit_of SEC = 0.
Proof. rewrite /next_sec Z.eqb_eq. done. Qed.
Lemma next_min_at T :
  0 < T → next_sec (clock_at T) && next_min (clock_at T) = true ↔ T `mod` unit_of MIN = 0.
Proof.
  intros HT. pose proof rate_pos. rewrite andb_true_iff next_sec_at /next_min andb_true_iff negb_true_iff Z.eqb_neq Z.eqb_eq.
  change (clock (clock_at T) SEC) with (T / R). change (unit_of SEC) with R.
  change (unit_of MIN) with (R * 60). rewrite mod_div; [|lia..].
  split; [naive_solver|]. intros [H1 H2]. split_and!; [done| |done].
  pose proof (Z.div_mod T R). nia.
Qed.
Lemma next_hr_at T :
  0 < T → next_sec (clock_at T) && next_min (clock_at T) && next_hr (clock_at T) = true ↔
  T `mod` unit_of HRS = 0.
Proof.
  intros HT. pose proof rate_pos. rewrite andb_true_iff next_min_at // /next_hr andb_true_iff negb_true_iff Z.eqb_neq Z.eqb_eq.
  change (clock (clock_at T) MIN) with (T / (R * 60)). change (unit_of MIN) with (R * 60).
  replace (unit_of HRS) with ((R * 60) * 60) by (rewrite /unit_of /=; lia). rewrite (mod_div T (R * 60) 60); [|lia..].
  split; [naive_solver|]. intros [H1 H2]. split; [done|]. split; [|done].
  pose proof (Z.div_mod T (R * 60)). nia.
Qed.

(** A pass of a higher wheel does not see the timer again. *)
Lemma pass_higher ck v w r ct :
  packed ct → (slot ct).1 = w → is_wheel w → w < v →
  pass ck v (pass ck w (Running w r ct)) = pass ck w (Running w r ct).
Proof.
  intros Hk Hs Hw Hv. cbn [pass]. rewrite Z.eqb_refl /=. destruct (r =? clock ck w) eqn:Er.
  2: { cbn. by rewrite (proj2 (Z.eqb_neq w v)); [|lia]. }
  destruct (truthy _) eqn:Et; [|done]. truth.
  destruct (clear_slot _ _ _ Hk Hs Hw (wheel_mask_lookup _ Hw)) as [_ Hlt]. specialize (Hlt Et).
  rewrite /placed. destruct (slot (Z.land ct _)) as [w' t'] eqn:E'. cbn in Hlt |- *.
  by rewrite (proj2 (Z.eqb_neq w' v)); [|lia].
Qed.
Lemma tick_pass_at T w r ct :
  0 < T → packed ct → (slot ct).1 = w → is_wheel w →
  tick_pass (clock_at T) (Running w r ct) =
    if decide (T `mod` unit_of w = 0) then pass (clock_at T) w (Running w r ct) else Running w r ct.
Proof.
  intros HT Hk Hs Hw. pose proof (next_sec_at T) as H1. pose proof (next_min_at T HT) as H2.
  pose proof (next_hr_at T HT) as H3. rewrite /tick_pass.
  assert (Hlow : ∀ v, v ≠ w → pass (clock_at T) v (Running w r ct) = Running w r ct).
  { intros v Hv. apply pass_not_due. left. by apply not_eq_sym. }
  assert (Hup : ∀ v, w < v → pass (clock_at T) v (pass (clock_at T) w (Running w r ct)) =
    pass (clock_at T) w (Running w r ct)) by by intros; apply pass_higher.
  destruct (wheel_cases _ Hw) as [Ew|[Ew|[Ew|Ew]]].
  - rewrite -Ew. rewrite decide_True; [|by rewrite Ew (Z.mod_1_r T : T `mod` unit_of TICK = 0)].
    rewrite !Hup; [|rewrite Ew /TICK /SEC /MIN /HRS; lia..]. by repeat case_match.
  - rewrite (Hlow TICK); [|by rewrite Ew]. destruct (next_sec (clock_at T)); cbn [negb].
    + rewrite -Ew decide_True; [|by rewrite Ew; apply H1].
      rewrite !Hup; [|rewrite Ew /TICK /SEC /MIN /HRS; lia..]. by repeat case_match.
    + rewrite decide_False //. rewrite Ew. intros Hm. by apply H1 in Hm.
  - rewrite (Hlow TICK); [|by rewrite Ew]. rewrite (Hlow SEC); [|by rewrite Ew].
    destruct (next_sec (clock_at T)); cbn [negb andb] in *;
      [destruct (next_min (clock_at T)); cbn [negb andb] in *|].
    + rewrite -Ew decide_True; [|by rewrite Ew; apply H2].
      rewrite !Hup; [|rewrite Ew /TICK /SEC /MIN /HRS; lia..]. by repeat case_match.
    + rewrite decide_False //. rewrite Ew. intros Hm. by apply H2 in Hm.
    + rewrite decide_False //. rewrite Ew. intros Hm. by apply H2 in Hm.
  - rewrite (Hlow TICK); [|by rewrite Ew]. rewrite (Hlow SEC); [|by rewrite Ew].
    rewrite (Hlow MIN); [|by rewrite Ew].
    destruct (next_sec (clock_at T)); cbn [negb andb] in *;
      [destruct (next_min (clock_at T)); cbn [negb andb] in *;
      [destruct (next_hr (clock_at T)); cbn [negb andb] in *|]|].
    + rewrite -Ew decide_True //. rewrite Ew. by apply H3.
    + rewrite decide_False //. rewrite Ew. intros Hm. by apply H3 in Hm.
    + rewrite decide_False //. rewrite Ew. intros Hm. by apply H3 in Hm.
    + rewrite decide_False //. rewrite Ew. intros Hm. by apply H3 in Hm.
Qed.

(** Putting a timer into a wheel at tick [T]. *)
Lemma placed_at T ct :
  0 ≤ T → packed ct → ct ≠ 0 → T + ticks_of ct < 2 ^ 32 →
  let w := (slot ct).1 in
  let r := T / unit_of w + (slot ct).2 in
  placed (clock_at T) ct = Running w r ct ∧ on_course T w r ct ∧
  fire_time w r ct = T - T `mod` unit_of w + ticks_of ct.
Proof.
  intros HT Hk H0 Hb. cbn zeta. rewrite /placed. pose proof (slot_wheel _ Hk H0) as Hw.
  destruct (slot ct) as [w t] eqn:Hs. cbn [fst snd] in *.
  destruct (ticks_clear _ _ _ _ Hk H0 Hs (wheel_mask_lookup _ Hw)) as [Htk Ht].
  assert (0 ≤ ticks_of (Z.land ct (wheel_mask !!! Z.to_nat w))) as Hnn.
  { apply ticks_nonneg. eapply clear_slot; [done| |done|by apply wheel_mask_lookup]. by rewrite Hs. }
  pose proof (unit_pos w) as Hu. pose proof (Z.div_mod T (unit_of w)) as Hdm.
  pose proof (Z.mod_pos_bound T (unit_of w) Hu) as Hm.
  assert (Hf : fire_time w (T / unit_of w + t) ct = T - T `mod` unit_of w + ticks_of ct).
  { rewrite /fire_time Hs /=. nia. }
  rewrite /on_course Hs. split_and!; [|done|done|done|nia|nia|done].
  rewrite (clock_unit T w Hw) u32_small //. split; [|nia].
  pose proof (Z.div_pos T (unit_of w)). lia.
Qed.

(** A tick keeps the time at which a timer fires. *)
Lemma tick_on_course T w r ct :
  0 ≤ T → T + 1 < 2 ^ 32 → on_course T w r ct →
  let st := tick_pass (clock_at (T + 1)) (Running w r ct) in
  (fire_time w r ct = T + 1 ∧ st = Expired) ∨
  (T + 1 < fire_time w r ct ∧ ∃ w' r' ct', st = Running w' r' ct' ∧ on_course (T + 1) w' r' ct' ∧
     fire_time w' r' ct' = fire_time w r ct).
Proof.
  intros HT HT1 (Hk&H0&Hs&Hr&Hf). cbn zeta. pose proof (slot_wheel _ Hk H0) as Hw. rewrite Hs in Hw.
  rewrite tick_pass_at; [|lia|done..]. pose proof (unit_pos w) as Hu.
  destruct (slot ct) as [w0 t] eqn:Hsl. cbn [fst] in Hs. subst w0.
  destruct (ticks_clear _ _ _ _ Hk H0 Hsl (wheel_mask_lookup _ Hw)) as [Htk Ht].
  set (ct' := Z.land ct (wheel_mask !!! Z.to_nat w)) in *.
  destruct (clear_slot ct w _ Hk ltac:(by rewrite Hsl) Hw (wheel_mask_lookup _ Hw)) as [Hk' Hlt].
  fold ct' in Hk', Hlt.
  assert (Hfire : fire_time w r ct = r * unit_of w + ticks_of ct').
  { rewrite /fire_time Hsl /=. lia. }
  pose proof (ticks_nonneg _ Hk') as Hnn.
  assert (Hstay : r * unit_of w ≠ T + 1 → T + 1 < fire_time w r ct ∧
    ∃ w' r' ct'', Running w r ct = Running w' r' ct'' ∧ on_course (T + 1) w' r' ct'' ∧
      fire_time w' r' ct'' = fire_time w r ct).
  { intros Hne. split; [lia|]. exists w, r, ct. rewrite /on_course Hsl. split_and!; [done..|lia|done|done]. }
  destruct (decide ((T + 1) `mod` unit_of w = 0)) as [Hm|Hm].
  2: { right. apply Hstay. intros Heq. apply Hm. rewrite -Heq. apply Z.mod_mul. lia. }
  apply Z.mod_divide in Hm as [q Hq]; [|lia].
  cbn [pass]. rewrite Z.eqb_refl (clock_unit _ _ Hw) /=.
  assert (Hc : (T + 1) / unit_of w = q) by (rewrite Hq Z.div_mul; lia). rewrite Hc.
  destruct (Z.eqb_spec r q) as [->|Hrq]; [|right; apply Hstay; nia].
  fold ct'. destruct (truthy ct') eqn:Et; truth.
  - right. specialize (Hlt Et). pose proof (slot_wheel _ Hk' Et) as Hw'.
    assert (0 < ticks_of ct').
    { destruct (slot ct') as [w' t'] eqn:Hsl'. cbn [fst] in *.
      destruct (ticks_clear _ _ _ _ Hk' Et Hsl' (wheel_mask_lookup _ Hw')) as [Htk' Ht'].
      assert (0 ≤ ticks_of (Z.land ct' (wheel_mask !!! Z.to_nat w'))).
      { apply ticks_nonneg. eapply clear_slot; [done|by rewrite Hsl'|done|by apply wheel_mask_lookup]. }
      pose proof (Z.mul_pos_pos t' (unit_of w') Ht' (unit_pos w')). lia. }
    split; [lia|]. destruct (placed_at (T + 1) ct') as (Hpl&Hoc&Hft); [lia|done..|lia|].
    do 3 eexists. split; [exact Hpl|]. split; [done|]. rewrite Hft Hfire -Hq.
    assert (Hm0 : (T + 1) `mod` unit_of (slot ct').1 = 0).
    { apply Z.mod_divide; [pose proof (unit_pos (slot ct').1); lia|]. rewrite Hq.
      apply Z.divide_mul_r, unit_divide; [done|done|lia]. }
    lia.
  - left. split; [|done]. rewrite Hfire Et ticks_zero. lia.
Qed.

(** ** The clock and the whole system *)
Section system.
Context {H : Type}.
Implicit Types (s : tms H) (tr : Z → tree) (xs : list Z) (a : Z).

(** A tick of the clock, followed by its processing. *)
Definition tick_step : M (tms H) Z := advance_clock;; tm_process_tick_and_update_timers.
Fixpoint ticks (n : nat) : M (tms H) unit :=
  match n with 0%nat => mret tt | S n => tick_step;; ticks n end.

Lemma clk_inc_run s ck (w : nat) c :
  clk s = ck → ck !! w = Some c →
  clk_inc (Z.of_nat w) s = Some (u32 (c + 1), set_clk (<[w := u32 (c + 1)]> ck) s).
Proof.
  intros <- Hc. rewrite /clk_inc /clk_ld decide_True; [|lia].
  rewrite (bind_run (gets clk ≫= _) _ s c s); [by rewrite Nat2Z.id|].
  by rewrite (bind_run (gets clk) _ s _ s eq_refl) /liftO Nat2Z.id Hc.
Qed.
Lemma clk_inc_set s ck (w : nat) c :
  ck !! w = Some c → 0 ≤ c + 1 < 2 ^ 32 →
  clk_inc (Z.of_nat w) (set_clk ck s) = Some (c + 1, set_clk (<[w := c + 1]> ck) s).
Proof. intros Hc Hr. rewrite (clk_inc_run _ ck w c) //. by rewrite u32_small. Qed.
Lemma div_succ T a : 0 < a → 0 ≤ T → (T + 1) / a = if decide ((T + 1) `mod` a = 0) then T / a + 1 else T / a.
Proof.
  intros Ha HT. pose proof (Z.div_mod (T + 1) a). pose proof (Z.div_mod T a).
  pose proof (Z.mod_pos_bound (T + 1) a). pose proof (Z.mod_pos_bound T a).
  case_decide; nia.
Qed.
Lemma advance_clock_run s T :
  clk s = clock_at T → 0 ≤ T → T + 1 < 2 ^ 32 →
  advance_clock s = Some (tt, set_clk (clock_at (T + 1)) s).
Proof.
  intros Hc HT HT1. rewrite /advance_clock.
  rewrite (bind_run _ _ _ _ _ (clk_inc_run s _ 0 _ Hc eq_refl)) u32_small; [|lia].
  pose proof rate_pos as Hr. rewrite /clock_at. set (m := R * 60). set (h := R * 3600).
  assert (Hm : 0 < m) by lia. assert (Hh : 0 < h) by lia.
  assert (Hr0 : 0 < R) by lia. rewrite (div_succ T R) // (div_succ T m) // (div_succ T h) //.
  pose proof (mod_div (T + 1) R 60) as H1. pose proof (mod_div (T + 1) m 60 Hm) as H2.
  pose proof (Z.div_le_upper_bound T R T). pose proof (Z.div_le_upper_bound T m T).
  pose proof (Z.div_le_upper_bound T h T).
  pose proof (Z.div_pos T R). pose proof (Z.div_pos T m). pose proof (Z.div_pos T h).
  rewrite (div_succ T R) // in H1. rewrite (div_succ T m) // in H2.
  fold m in H1. replace (m * 60) with h in H2 by lia.
  specialize (H1 ltac:(lia) ltac:(lia)). specialize (H2 ltac:(lia)).
  assert (B1 : 0 ≤ T / R + 1 < 2 ^ 32) by nia. assert (B2 : 0 ≤ T / m + 1 < 2 ^ 32) by nia.
  assert (B3 : 0 ≤ T / h + 1 < 2 ^ 32) by nia.
  destruct (truthy ((T + 1) `mod` R)) eqn:E1; truth; cbn [negb when].
  { assert ((T + 1) `mod` m ≠ 0) as N1 by naive_solver.
    assert ((T + 1) `mod` h ≠ 0) as N2 by naive_solver. by rewrite !decide_False. }
  rewrite (decide_True _ _ E1) in H1 |- *.
  rewrite (bind_run _ _ _ _ _ (clk_inc_set s [T + 1; T / R; T / m; T / h] 1 _ eq_refl B1)).
  cbn [insert list_insert].
  destruct (truthy ((T / R + 1) `mod` 60)) eqn:E2; truth; cbn [negb when].
  { assert ((T + 1) `mod` m ≠ 0) as N1 by naive_solver.
    assert ((T + 1) `mod` h ≠ 0) as N2 by naive_solver. by rewrite !decide_False. }
  assert (E3 : (T + 1) `mod` m = 0) by by apply H1.
  rewrite (decide_True _ _ E3) in H2 |- *.
  rewrite (bind_run _ _ _ _ _ (clk_inc_set s [T + 1; T / R + 1; T / m; T / h] 2 _ eq_refl B2)).
  cbn [insert list_insert].
  destruct (truthy ((T / m + 1) `mod` 60)) eqn:E4; truth; cbn [negb when].
  { assert ((T + 1) `mod` h ≠ 0) as N2 by naive_solver. by rewrite decide_False. }
  assert (E5 : (T + 1) `mod` h = 0) by by apply H2. rewrite decide_True //.
  by rewrite (bind_run _ _ _ _ _ (clk_inc_set s [T + 1; T / R + 1; T / m + 1; T / h] 3 _ eq_refl B3)).
Qed.

Lemma tinv_clk s tr xs ck : tinv s tr xs → length ck = 4%nat → tinv (set_clk ck s) tr xs.
Proof. intros [H1 H2 H3 H4 H5 H6] Hl. by split. Qed.

(** All timers of the state are on course. *)
Definition all_on_course T s tr xs : Prop :=
  ∀ a w r ct, at_state s tr xs a (Running w r ct) → on_course T w r ct.
(** The state of a timer after the ticks up to [T], if it fires at [F]. *)
Definition state_by (T F : Z) (st : tstate) : Prop :=
  match st with Expired => F ≤ T | Running w r ct => T < F ∧ fire_time w r ct = F end.

(** What a state that was processed at the tick [T + 1] is. *)
Lemma stepped_course s tr xs T s' tr' xs' :
  tinv s' tr' xs' → 0 ≤ T → T + 1 < 2 ^ 32 → all_on_course T s tr xs →
  (∀ a st, at_state s tr xs a st → at_state s' tr' xs' a (tick_pass (clock_at (T + 1)) st)) →
  (∀ a st', at_state s' tr' xs' a st' → ∃ st, at_state s tr xs a st) →
  all_on_course (T + 1) s' tr' xs' ∧
  ∀ a F st, at_state s tr xs a st → state_by T F st → ∃ st', at_state s' tr' xs' a st' ∧ state_by (T + 1) F st'.
Proof.
  intros Hi' HT HT1 Hall Hstep Hback.
  assert (Hone : ∀ a F st, at_state s tr xs a st → state_by T F st →
    ∃ st', at_state s' tr' xs' a st' ∧ state_by (T + 1) F st' ∧
      match st' with Running w r ct => on_course (T + 1) w r ct | Expired => True end).
  { intros a F [w r ct|] Hst HF.
    - destruct (tick_on_course T w r ct HT HT1 (Hall _ _ _ _ Hst)) as [[Hf He]|(Hlt&w'&r'&ct'&He&Hoc&Hf)].
      + exists Expired. rewrite -He. split; [by apply Hstep|]. rewrite He. cbn in *. split; [lia|done].
      + exists (Running w' r' ct'). rewrite -He. split; [by apply Hstep|]. rewrite He. cbn in *.
        split; [lia|done].
    - exists Expired. split; [|cbn in *; split; [lia|done]].
      apply Hstep in Hst. cbn in Hst |- *. rewrite /tick_pass in Hst. by repeat case_match. }
  split.
  - intros a w r ct Hst. destruct (Hback _ _ Hst) as [st Hst0].
    assert (∃ F, state_by T F st) as [F HF].
    { destruct st as [w0 r0 ct0|]; [|exists T; cbn; lia]. exists (fire_time w0 r0 ct0). split; [|done].
      destruct (tick_on_course T w0 r0 ct0 HT HT1 (Hall _ _ _ _ Hst0)); lia. }
    destruct (Hone _ _ _ Hst0 HF) as (st'&Hst'&_&Hoc).
    by rewrite (at_state_inj _ _ _ _ _ _ Hi' Hst' Hst) in Hoc.
  - intros a F st Hst HF. destruct (Hone _ _ _ Hst HF) as (st'&?&?&_). eauto.
Qed.
Lemma tick_step_run s tr xs T :
  tinv s tr xs → clk s = clock_at T → 0 ≤ T → T + 1 < 2 ^ 32 → all_on_course T s tr xs →
  wp tick_step (λ _ s', ∃ tr' xs', tinv s' tr' xs' ∧ clk s' = clock_at (T + 1) ∧
    all_on_course (T + 1) s' tr' xs' ∧ host s' = host s ∧
    ∀ a F st, at_state s tr xs a st → state_by T F st →
      ∃ st', at_state s' tr' xs' a st' ∧ state_by (T + 1) F st') s.
Proof.
  intros Hi Hc HT HT1 Hall. rewrite /tick_step /wp (bind_run _ _ _ _ _ (advance_clock_run _ _ Hc HT HT1)).
  set (s1 := set_clk (clock_at (T + 1)) s).
  assert (Hi1 : tinv s1 tr xs) by by apply tinv_clk.
  eapply (wp_mono _ _ _ s1); [by apply tick_run|]. cbn beta. change (clk s1) with (clock_at (T + 1)).
  intros _ s' (tr'&xs'&[Hi' Hc' Hh' Hstep Hback _]). exists tr', xs'.
  assert (Hs : ∀ a st, at_state s1 tr xs a st ↔ at_state s tr xs a st) by by intros a [].
  destruct (stepped_course s tr xs T s' tr' xs') as [Hoc Hst]; [done..| | |by split_and!].
  - intros a st Hst. by apply Hstep, Hs.
  - intros a st' Hst. destruct (Hback _ _ Hst) as [st Hst0]. exists st. by apply Hs.
Qed.

Lemma ticks_run n s tr xs T :
  tinv s tr xs → clk s = clock_at T → 0 ≤ T → T + Z.of_nat n < 2 ^ 32 → all_on_course T s tr xs →
  wp (ticks n) (λ _ s', ∃ tr' xs', tinv s' tr' xs' ∧ clk s' = clock_at (T + Z.of_nat n) ∧
    all_on_course (T + Z.of_nat n) s' tr' xs' ∧ host s' = host s ∧
    ∀ a F st, at_state s tr xs a st → state_by T F st →
      ∃ st', at_state s' tr' xs' a st' ∧ state_by (T + Z.of_nat n) F st') s.
Proof.
  revert s tr xs T. induction n as [|n IH]; intros s tr xs T Hi Hc HT Hn Hall.
  { apply wp_ret. exists tr, xs. rewrite Z.add_0_r. split_and!; [done..|]. eauto. }
  cbn [ticks]. apply wp_bind. eapply wp_mono; [apply (tick_step_run s tr xs T); [done..|lia|done]|].
  intros _ s1 (tr1&xs1&Hi1&Hc1&Hall1&Hh1&Hst1).
  eapply wp_mono; [apply (IH s1 tr1 xs1 (T + 1) Hi1 Hc1); [lia..|done]|].
  intros [] s2 (tr2&xs2&Hi2&Hc2&Hall2&Hh2&Hst2).
  replace (T + Z.of_nat (S n)) with (T + 1 + Z.of_nat n) by lia.
  exists tr2, xs2. split_and!; [done..|congruence|]. intros a F st Hst HF.
  destruct (Hst1 _ _ _ Hst HF) as (st1&H1&HF1). by apply (Hst2 _ _ _ H1 HF1).
Qed.
End system.
End fire.
