(* ===== verification/TimerSpec.v ===== *)
(** * Timer wheels: what the timers promise *)

From S2P Require Import Prelude ListHead RbTree RbRep RbInsert RbWalk RbErase RbSpec.
From S2P Require Import Timers TimerFormat TimerTree TimerKeep TimerInv TimerPass TimerFire.
#[local] Open Scope Z_scope.

(** Nothing is lost in the time format. *)
Lemma encode_ticks {TR : TickRate} {OK : RateOk} n : 0 ≤ n < max_ticks → ticks_of (encode_time 0 n) = n.
Proof.
  rewrite /max_ticks. intros Hn. rewrite encode_pk; [|lia]. rewrite (ticks_pk _ _ _ _ (encode_ok n ltac:(lia))).
  pose proof (rate_pos (TR:=TR)) as HR. set (R := tm_get_ticks_per_second) in *. set (m := R * 60). set (h := R * 3600) in *.
  rewrite (Z.mod_small (n / h));
    [|split; [apply Z.div_pos; lia|apply Z.div_lt_upper_bound; lia]].
  pose proof (Z.div_mod n R) as D1. pose proof (Z.div_mod (n / R) 60) as D2.
  pose proof (Z.div_mod (n / m) 60) as D3.
  rewrite (Z.div_div n R 60) in D2; [|lia..]. rewrite (Z.div_div n m 60) in D3; [|lia..].
  fold m in D2. replace (m * 60) with h in D3 by lia. specialize (D1 ltac:(lia)). specialize (D2 ltac:(lia)). specialize (D3 ltac:(lia)).
  revert D1 D2 D3. rewrite /h /m. generalize (n / R) (n / (R * 60)) (n / (R * 3600)) (n `mod` R). intros a b c k D1.
  generalize (a `mod` 60) (b `mod` 60). intros d e D2 D3. rewrite D1 D2 D3. ring.
Qed.

Section start.
Context {TR : TickRate} {OK : RateOk} {H : Type} `{T : TmEnv H}.
Implicit Types (s : tms H) (tr : Z → tree) (xs : list Z) (a : Z).

(** The memory handed out next is fresh. *)
Definition fresh s (new a : Z) : Prop :=
  env_talloc (n_alloc s) = new ∧ env_talloc (S (n_alloc s)) = a ∧ new ≠ 0 ∧ valid a ∧
  timers s !! new = None ∧ apps s !! a = None ∧ elst s !! E_tmr a = None.

Lemma alloc_timer_run s p :
  env_talloc (n_alloc s) = p → p ≠ 0 →
  alloc_timer s = Some (p, put_timer p timer_zero
    (set_alloc (u32 (t_alloc s + env_tsizeof "tm_timer")) (S (n_alloc s)) s)).
Proof. intros <- Hp. rewrite /alloc_timer /mbind /M_bind /=. by rewrite (proj2 (truthy_true _) Hp). Qed.
Lemma alloc_app_run s a :
  env_talloc (n_alloc s) = a → a ≠ 0 →
  alloc_app s = Some (a, set_trees (<[a := MkNode 0 0 0]> (tnodes s)) (roots s) (put_app a app_zero
    (set_alloc (u32 (t_alloc s + env_tsizeof "app_timer")) (S (n_alloc s)) s))).
Proof. intros <- Hp. rewrite /alloc_app /mbind /M_bind /=. by rewrite (proj2 (truthy_true _) Hp). Qed.
Lemma calc_time_run s a p t c :
  apps s !! a = Some p → timers s !! timer p = Some t → clk s !! 0%nat = Some c →
  calc_time a s = Some (tt, put_timer (timer p) (set_exp (u32 (rmt t + c)) t)
    (put_app a (MkApp (timer p) (encode_time (ctime p) (rmt t)) (rt p)) s)).
Proof.
  intros Hp Ht Hc. rewrite /calc_time (bind_run _ _ _ _ _ (app_ld_run _ _ _ Hp)).
  rewrite (bind_run _ _ _ _ _ (timer_ld_run _ _ _ Ht)).
  rewrite (bind_run _ _ _ _ _ (app_st_run _ _ _ _ Hp)).
  set (s1 := put_app a _ s). rewrite (bind_run (clk_ld TICK) _ s1 c s1).
  - by rewrite (timer_mod_run s1 _ t).
  - change (clk_ld TICK s1) with (liftO (clk s !! 0%nat) s1). by rewrite Hc.
Qed.

(** A state that differs from one with the invariant by a new timer, in no wheel. *)
Lemma tinv_new s tr xs s' a new p tm :
  tinv s tr xs → apps s !! a = None → timers s !! new = None → elst s !! E_tmr a = None →
  (∀ b, b ≠ a → apps s' !! b = apps s !! b) → (∀ q, q ≠ new → timers s' !! q = timers s !! q) →
  (∀ b, b ≠ a → tnodes s' !! b = tnodes s !! b) → roots s' = roots s → clk s' = clk s →
  (∀ n, n ≠ E_tmr a → elst s' !! n = elst s !! n) → blocks s' a p tm → timer p = new →
  tinv s' tr xs ∧ loose tr xs a ∧ same_others s tr xs s' tr xs a.
Proof.
  intros Hi Hna Hnt Hne Ha Ht Hn Hr Hc He Hbl Hp.
  assert (Hl : loose tr xs a).
  { split.
    - intros w Hw Haw. destruct (tinv_keyed _ _ _ _ Hi Hw a Haw). congruence.
    - intros Hax. destruct (ti_done _ _ _ Hi a Hax) as (?&?&(?&_)&_). congruence. }
  destruct Hl as [Hlw Hlx]. split_and!; [|done|by apply same_others_intro].
  eapply (tinv_change _ _ _ _ _ _ a Hi); try done.
  - intros b q tq Hba (H1&H2&H3&H4&H5). split_and!; [by rewrite Ha| |done|rewrite He //|done].
    + rewrite Ht //. intros Heq. rewrite Heq in H2. congruence.
    + by intros [= ->].
  - eapply dll_frame, (ti_list _ _ _ Hi). intros x Hx. apply He. intros ->.
    destruct (dll_valid _ _ _ _ (ti_list _ _ _ Hi) Hx). congruence.
  - intros w Hw. destruct (ti_wheel _ _ _ Hi w Hw) as ((H0&r&Hr'&Htr)&Hrb&Hso). split_and!; [|done|].
    + split; [done|]. exists r. rewrite Hr. split; [done|]. eapply is_tree_frame; [exact Htr|].
      intros b Hb. apply Hn. intros ->. by destruct (Hlw w Hw).
    + eapply sorted_ext; [|exact Hso]. intros b Hb. rewrite /rt_of Ha //. intros ->. by destruct (Hlw w Hw).
  - intros v w Hv _ Hav. by destruct (Hlw v Hv).
  - intros v Hv Hav. by destruct (Hlw v Hv).
Qed.

Lemma tinv_count s tr xs c : tinv s tr xs → tinv (set_count c s) tr xs.
Proof. intros [H1 H2 H3 H4 H5 H6]. by split. Qed.

(** The new timer has the handler and the argument it was given; the others keep theirs. *)
Definition started s s' (a new handler dat flgs : Z) : Prop :=
  config s' = (<[a := new]> (config s).1,
    <[new := (handler, dat, if truthy flgs then flgs else TIMER_ONCE)]> (config s).2).

Lemma start_timer_placed s tr xs n dat handler flgs new a :
  tinv s tr xs → 0 < n < max_ticks → count s ≤ MAX_TIMERS → s32 (indx s + 1) ≠ 0 → fresh s new a →
  wp (start_timer n dat handler flgs)
    (λ res s', res = new ∧ ∃ tr', tinv s' tr' xs ∧
       at_state s' tr' xs a (placed (clk s) (encode_time 0 n)) ∧ same_others s tr xs s' tr' xs a ∧
       clk s' = clk s ∧ host s' = host s ∧ count s' = u32 (count s + 1) ∧
       started s s' a new handler dat flgs) s.
Proof.
  intros Hi Hn Hcnt Hidx (Hnew&Ha&Hn0&Hva&Hft&Hfa&Hfe).
  assert (Ha0 : a ≠ 0) by apply Hva. rewrite /start_timer.
  assert (Hid : alloc_timer_id s = Some (s32 (indx s + 1), set_indx (s32 (indx s + 1)) s)).
  { rewrite /alloc_timer_id /mbind /M_bind /=. by rewrite (proj2 (Z.ltb_ge _ _)). }
  rewrite /wp (bind_run _ _ _ _ _ Hid) (proj2 (truthy_true _) Hidx). cbn [negb].
  set (s1 := set_indx _ s).
  rewrite (bind_run _ _ _ _ _ (alloc_timer_run s1 new Hnew Hn0)) (proj2 (truthy_true _) Hn0). cbn [negb].
  set (s2 := put_timer new timer_zero _).
  assert (Ht2 : timers s2 !! new = Some timer_zero) by apply lookup_insert_eq.
  rewrite (bind_run _ _ _ _ _ (timer_mod_run _ _ _ _ Ht2)).
  set (tmA := MkTimer n _ _ _ _ _ _ _ _). set (s3 := put_timer new tmA s2).
  rewrite (bind_run _ _ _ _ _ (alloc_app_run s3 a Ha Ha0)) (proj2 (truthy_true _) Ha0). cbn [negb].
  set (s4 := set_trees _ _ _).
  assert (Ha4 : apps s4 !! a = Some app_zero) by apply lookup_insert_eq.
  rewrite (bind_run _ _ _ _ _ (app_ld_run _ _ _ Ha4)) (bind_run _ _ _ _ _ (app_st_run _ _ _ _ Ha4)).
  set (s5 := put_app a _ s4).
  assert (Ht5 : timers s5 !! new = Some tmA) by apply lookup_insert_eq.
  rewrite (bind_run _ _ _ _ _ (timer_mod_run _ _ _ _ Ht5)).
  set (s6 := put_timer new _ s5). set (s7 := set_elst (<[E_tmr a := LH (E_tmr a) (E_tmr a)]> (elst s6)) s6).
  rewrite (bind_run (on_elst (INIT_LIST_HEAD (E_tmr a))) _ s6 tt s7 eq_refl).
  assert (Ha7 : apps s7 !! a = Some (MkApp new 0 0)) by apply lookup_insert_eq.
  assert (Ht7 : timers s7 !! new = Some (set_apptimer a tmA)) by apply lookup_insert_eq.
  destruct (lookup_lt_is_Some_2 (clk s) 0) as [c0 Hc0]; [rewrite (ti_clk _ _ _ Hi); lia|].
  assert (Hc7 : clk s7 !! 0%nat = Some c0) by exact Hc0.
  rewrite (bind_run _ _ _ _ _ (calc_time_run _ _ _ _ _ Ha7 Ht7 Hc7)).
  set (p8 := MkApp new (encode_time 0 n) 0). set (tm8 := set_exp _ _).
  set (s8 := put_timer _ _ _).
  pose proof (encode_ok n ltac:(lia)) as Hok. pose proof (encode_pk n ltac:(lia)) as Hpk.
  assert (Hk : packed (encode_time 0 n)) by (rewrite Hpk; by do 4 eexists).
  pose proof (encode_ticks n (conj (Z.lt_le_incl _ _ (proj1 Hn)) (proj2 Hn))) as Htk.
  assert (H0 : encode_time 0 n ≠ 0) by (intros Hz; rewrite Hz ticks_zero in Htk; lia).
  assert (Hbl : blocks s8 a p8 tm8).
  { split_and!; [apply lookup_insert_eq|apply lookup_insert_eq|done| |done].
    exists (LH (E_tmr a) (E_tmr a)). apply lookup_insert_eq. }
  destruct (tinv_new s tr xs s8 a new p8 tm8) as (Hi8&Hl8&Hso8); try done.
  { intros b Hne. cbn. by rewrite !lookup_insert_ne. }
  { intros q Hne. cbn. by rewrite !lookup_insert_ne. }
  { intros b Hne. cbn. by rewrite !lookup_insert_ne. }
  { intros e Hne. cbn. by rewrite !lookup_insert_ne. }
  destruct (wp_inv _ _ _ (place_tinv s8 tr xs a p8 tm8 Hi8 Hl8 Hbl Hva H0))
    as (x&s9&Hrun&t'&Hi9&Hst9&Hso9&(Hck9&Hco9&Hho9)).
  rewrite (bind_run _ _ _ _ _ Hrun). cbn zeta in *. change (ctime p8) with (encode_time 0 n) in *.
  change (clk s8) with (clk s) in *.
  split; [done|]. eexists. split; [by apply (tinv_count _ _ _ (u32 (count s9 + 1)) Hi9)|].
  split; [exact Hst9|]. split_and!; [by eapply same_others_trans; [exact Hso8|exact Hso9]|done|done| |].
  { cbn. by rewrite Hco9. }
  rewrite /started. change (config (set_count _ s9)) with (config s9). rewrite (kept_place a s8 _ _ Hrun).
  rewrite /config /=. by rewrite !insert_insert_eq !fmap_insert.
Qed.
Lemma start_timer_run s tr xs T0 n dat handler flgs new a :
  tinv s tr xs → clk s = clock_at T0 → 0 ≤ T0 → 0 < n < max_ticks → T0 + n < 2 ^ 32 →
  count s ≤ MAX_TIMERS → s32 (indx s + 1) ≠ 0 → fresh s new a →
  wp (start_timer n dat handler flgs)
    (λ res s', res = new ∧ ∃ tr' w r,
       tinv s' tr' xs ∧ at_state s' tr' xs a (Running w r (encode_time 0 n)) ∧
       on_course T0 w r (encode_time 0 n) ∧
       fire_time w r (encode_time 0 n) = T0 - T0 `mod` unit_of w + n ∧
       same_others s tr xs s' tr' xs a ∧ clk s' = clk s ∧ host s' = host s ∧
       count s' = u32 (count s + 1) ∧ started s s' a new handler dat flgs) s.
Proof.
  intros Hi Hc HT Hn Hb Hcnt Hidx Hfr.
  eapply wp_mono; [exact (start_timer_placed s tr xs n dat handler flgs new a Hi Hn Hcnt Hidx Hfr)|].
  intros res s' (->&tr'&Hi'&Hst&Hso&Hck&Hho&Hco&Hsd). split; [done|].
  pose proof (encode_ok n ltac:(lia)) as Hok. pose proof (encode_pk n ltac:(lia)) as Hpk.
  assert (Hk : packed (encode_time 0 n)) by (rewrite Hpk; do 4 eexists; exact (conj Hok eq_refl)).
  pose proof (encode_ticks n (conj (Z.lt_le_incl _ _ (proj1 Hn)) (proj2 Hn))) as Htk.
  assert (H0 : encode_time 0 n ≠ 0) by (intros Hz; rewrite Hz ticks_zero in Htk; lia).
  destruct (placed_at T0 (encode_time 0 n)) as (Hpl&Hoc&Hft'); [done..|by rewrite Htk|].
  rewrite Hc Hpl in Hst. rewrite Htk in Hft'. do 3 eexists. split; [exact Hi'|]. split; [exact Hst|]. by split_and!.
Qed.
End start.

(** ** Running the handlers *)
Section expired.
Context {TR : TickRate} {OK : RateOk} {H : Type} `{T : TmEnv H}.
Implicit Types (s : tms H) (tr : Z → tree) (xs : list Z) (a : Z).

(** The call of a handler. *)
Definition call (c : Z * Z) : M (tms H) unit := when (truthy c.1) (env_handler c.1 c.2).
(** A handler leaves the timers alone and makes [Ψ] true of the host. *)
Definition calls_to c (Ψ : H → Prop) s : Prop := wp (call c) (λ _ s', ∃ h, s' = set_host h s ∧ Ψ h) s.

Lemma tinv_host s tr xs h : tinv s tr xs → tinv (set_host h s) tr xs.
Proof. intros [H1 H2 H3 H4 H5 H6]. by split. Qed.

(** The blocks of a timer that is in no wheel can be released. *)
Lemma tinv_release s tr a xs0 xs s' :
  tinv s tr xs0 → (∀ w, is_wheel w → a ∉ inorder (tr w)) → a ∉ xs → (∀ b, b ≠ a → b ∈ xs ↔ b ∈ xs0) →
  (∀ b, b ≠ a → apps s' !! b = apps s !! b) →
  (∀ b q tq, b ≠ a → blocks s b q tq → timers s' !! timer q = timers s !! timer q) →
  (∀ b, b ≠ a → tnodes s' !! b = tnodes s !! b) → roots s' = roots s → clk s' = clk s →
  dll (elst s') E_hd (E_tmr <$> xs) →
  (∀ b, b ≠ a → is_Some (elst s !! E_tmr b) → is_Some (elst s' !! E_tmr b)) →
  tinv s' tr xs ∧ same_others s tr xs0 s' tr xs a.
Proof.
  intros Hi Hlw Hx Hxs Ha Ht Hn Hr Hc Hdll He.
  split; [|by apply same_others_intro].
  eapply (tinv_change _ _ _ _ _ _ a Hi); try done.
  - intros b q tq Hne Hq. pose proof (Ht _ _ _ Hne Hq) as Htq. destruct Hq as (?&?&?&?&?).
    split_and!; [by rewrite Ha|by rewrite Htq|done|by apply He|done].
  - intros w Hw. destruct (ti_wheel _ _ _ Hi w Hw) as ((H0&r&Hr'&Htr)&Hrb&Hso). split_and!; [|done|].
    + split; [done|]. exists r. rewrite Hr. split; [done|]. eapply is_tree_frame; [exact Htr|].
      intros b Hb. apply Hn. intros ->. by destruct (Hlw w Hw).
    + eapply sorted_ext; [|exact Hso]. intros b Hb. rewrite /rt_of Ha //. intros ->. by destruct (Hlw w Hw).
  - intros b Hb Hbx. by apply Hxs.
  - intros v w Hv _ Hav. by destruct (Hlw v Hv).
  - intros v Hv Hav. by destruct (Hlw v Hv).
Qed.

Lemma expire_one_run s tr a xs c (Ψ : H → Prop) :
  tinv s tr (a :: xs) → one_shot s a → handler_of s a = Some c → calls_to c Ψ s →
  wp (expire_one (E_tmr a))
    (λ _ s', tinv s' tr xs ∧ Ψ (host s') ∧ apps s' !! a = None ∧
       (∀ b, b ≠ a → apps s' !! b = apps s !! b) ∧
       (∀ b q tq, b ≠ a → blocks s b q tq → timers s' !! timer q = timers s !! timer q) ∧
       same_others s tr (a :: xs) s' tr xs a ∧ clk s' = clk s ∧ count s' = count s ∧
       (size (elst s') < size (elst s))%nat) s.
Proof.
  intros Hi (p&t&Hp&Ht&Hone) Hcl Hcall. destruct (ti_done _ _ _ Hi a ltac:(left)) as (p0&t0&Hbl&_).
  pose proof Hbl as (Hp0&Ht0&Hap&He&_). rewrite Hp in Hp0. injection Hp0 as <-.
  rewrite Ht in Ht0. injection Ht0 as <-. rewrite /handler_of Hp /= Ht /= in Hcl. injection Hcl as <-.
  rewrite /expire_one /wp (bind_run (liftO (Some a)) _ s a s eq_refl).
  rewrite (bind_run _ _ _ _ _ (app_ld_run _ _ _ Hp)) (bind_run _ _ _ _ _ (timer_ld_run _ _ _ Ht)).
  apply wp_inv in Hcall as ([]&s1'&Hh&hst&->&HΨ). rewrite /call /= in Hh. set (s1 := set_host hst s) in Hh.
  rewrite (bind_run _ _ _ _ _ Hh).
  assert (Hdel : wp (on_elst (list_del (E_tmr a))) (λ _ s2, ∃ el, s2 = set_elst el s1 ∧
    dll el E_hd (E_tmr <$> xs) ∧ ∀ x, is_Some (el !! x) ↔ is_Some (elst s !! x)) s1).
  { apply wp_zoom. apply (wp_list_del _ E_hd [] (E_tmr <$> xs)); [exact (ti_list _ _ _ Hi)|].
    intros el Hdll [_ Hdom]. exists el. split; [done|]. split; [done|]. intros x. apply Hdom. }
  apply wp_inv in Hdel as ([]&s2&Hrun&el&->&Hdll&Hdom). rewrite (bind_run _ _ _ _ _ Hrun).
  set (s2 := set_elst el s1).
  rewrite (bind_run _ _ _ _ _ (app_ld_run s2 a p Hp)).
  rewrite (bind_run _ _ _ _ _ (timer_mod_run s2 (timer p) t (set_apptimer 0) Ht)).
  set (s3 := put_timer (timer p) (set_apptimer 0 t) s2).
  assert (Ht3 : timers s3 !! timer p = Some (set_apptimer 0 t)) by apply lookup_insert_eq.
  rewrite (bind_run _ _ _ _ _ (timer_ld_run _ _ _ Ht3)). cbn [flags set_apptimer].
  assert (Hfree : ∃ tms' al, (∀ q, q ≠ timer p → tms' !! q = timers s !! q) ∧
    (if truthy (Z.land (flags t) TIMER_ONCE) then free_timer (timer p)
     else when (truthy (Z.land (flags t) TIMER_REPEAT)) (timer_restart (timer p);; mret tt)) s3 =
    Some (tt, set_timers tms' (set_alloc al (n_alloc s) s3))).
  { destruct (truthy (Z.land (flags t) TIMER_ONCE)) eqn:E1.
    - exists (delete (timer p) (timers s3)), (u32 (t_alloc s - env_tsizeof "tm_timer")). split.
      + intros q Hq. rewrite lookup_delete_ne; [|by apply not_eq_sym]. cbn.
        rewrite lookup_insert_ne; [done|by apply not_eq_sym].
      + rewrite /free_timer (bind_run (modify _) _ s3 tt _ eq_refl).
        set (s4 := set_alloc _ _ s3). by rewrite (bind_run _ _ _ _ _ (timer_ld_run s4 (timer p) _ Ht3)).
    - destruct Hone as [|E2]; [congruence|]. rewrite E2. exists (timers s3), (t_alloc s). split; [|done].
      intros q Hq. cbn. rewrite lookup_insert_ne; [done|by apply not_eq_sym]. }
  destruct Hfree as (tms'&al&Htms&Hf). rewrite (bind_run _ _ _ _ _ Hf).
  set (s4 := set_timers tms' _). rewrite /free_app (bind_run _ _ _ _ _ (app_ld_run s4 a p Hp)).
  set (s5 := set_elst (delete (E_tmr a) el) (set_trees (delete a (tnodes s)) (roots s)
    (set_apps (delete a (apps s)) s4))).
  change (wp (mret tt) (λ (_ : unit) s', tinv s' tr xs ∧ Ψ (host s') ∧ apps s' !! a = None ∧
       (∀ b, b ≠ a → apps s' !! b = apps s !! b) ∧
       (∀ b q tq, b ≠ a → blocks s b q tq → timers s' !! timer q = timers s !! timer q) ∧
       same_others s tr (a :: xs) s' tr xs a ∧ clk s' = clk s ∧ count s' = count s ∧
       (size (elst s') < size (elst s))%nat) s5).
  apply wp_ret.
  assert (Happs : ∀ b, b ≠ a → apps s5 !! b = apps s !! b).
  { intros b Hne. cbn. rewrite lookup_delete_ne; [done|by apply not_eq_sym]. }
  assert (Htim : ∀ b q tq, b ≠ a → blocks s b q tq → timers s5 !! timer q = timers s !! timer q).
  { intros b q tq Hne Hq. apply Htms. by eapply blocks_timer_ne. }
  assert (Hdl : dll (elst s5) E_hd (E_tmr <$> xs)).
  { eapply dll_frame, Hdll. intros x Hx. cbn. rewrite lookup_delete_ne //. intros <-.
    destruct (ti_list _ _ _ Hi) as [Hnd _]. apply NoDup_cons in Hnd as [_ Hnd].
    apply NoDup_cons in Hnd as [Hnd _]. apply elem_of_cons in Hx as [|]; done. }
  assert (Hax : a ∉ xs).
  { destruct (ti_list _ _ _ Hi) as [Hnd _]. apply NoDup_cons in Hnd as [_ Hnd].
    apply NoDup_cons in Hnd as [Hnd _]. intros Hax. apply Hnd, list_elem_of_fmap. eauto. }
  destruct (tinv_release s tr a (a :: xs) xs s5 Hi) as [Hi5 Hso5]; try done.
  { intros w Hw Haw. destruct (tinv_exp_wheel _ _ _ _ _ Hi Hw Haw). left. }
  { intros b Hb. rewrite elem_of_cons. naive_solver. }
  { intros b Hne. cbn. rewrite lookup_delete_ne; [done|by apply not_eq_sym]. }
  { intros b Hne Hb. cbn. rewrite lookup_delete_ne; [by apply Hdom|congruence]. }
  split_and!; [done|done|apply lookup_delete_eq|done|done|done|done|done|].
  cbn [elst s5 set_elst]. destruct He as [e He]. assert (Hel : is_Some (el !! E_tmr a)) by (apply Hdom; eauto).
  assert (Hdd : dom el = dom (elst s)) by (apply set_eq; intros x; rewrite !elem_of_dom; apply Hdom).
  destruct Hel as [e' He']. rewrite -!size_dom -Hdd !size_dom. rewrite map_size_delete_Some //.
  assert (size el ≠ 0%nat); [|lia]. intros Hz%map_size_empty_iff. by rewrite Hz lookup_empty in He'.
Qed.

(** The first two links of a list. *)
Lemma dll_nxt_head m (h x : enode) (ns : list enode) : dll m h (x :: ns) → nxt m h = Some x ∧ nxt m x = Some (hd h ns).
Proof. intros [_ (Hx&_&Hs)]. split; [done|]. by apply seg_nxt in Hs. Qed.

(** [I xs]: what holds of the host as long as the timers [xs] are still to be handled. *)
Context (I : list Z → H → Prop).
Definition all_call s xs : Prop := ∀ pre a rest c s1,
  xs = pre ++ a :: rest → handler_of s a = Some c → I (a :: rest) (host s1) → calls_to c (I rest) s1.
(** What the run over the expired timers [xs] leaves. *)
Definition all_handled s tr xs s' : Prop :=
  tinv s' tr [] ∧ I [] (host s') ∧
  (∀ a, apps s' !! a = if decide (a ∈ xs) then None else apps s !! a) ∧
  clk s' = clk s ∧ count s' = count s ∧
  (∀ w b q tq, is_wheel w → b ∈ inorder (tr w) → blocks s b q tq → timers s' !! timer q = Some tq) ∧
  ∀ b w r ct, at_state s tr xs b (Running w r ct) ↔ at_state s' tr [] b (Running w r ct).

Lemma all_handled_nil s tr : tinv s tr [] → I [] (host s) → all_handled s tr [] s.
Proof.
  intros Hi HI. do 2 (split; [done|]). split.
  - intros a. case_decide as Hin; [by apply elem_of_nil in Hin|done].
  - do 2 (split; [done|]). split; [|done]. by intros w b q tq _ _ (_&Ht&_).
Qed.

Lemma expd_loop_run fuel s tr xs nx :
  tinv s tr xs → (∀ a, a ∈ xs → one_shot s a) → all_call s xs → I xs (host s) → (length xs ≤ fuel)%nat →
  nx = hd E_hd (tail (E_tmr <$> xs)) →
  wp (expd_loop fuel (hd E_hd (E_tmr <$> xs)) nx) (λ _, all_handled s tr xs) s.
Proof.
  revert s xs nx. induction fuel as [|fuel IH]; intros s [|a xs] nx Hi Hone Hcall HI Hf Hnx; cbn in Hf; try lia.
  1,2: cbn; apply wp_ret; by apply all_handled_nil.
  cbn [fmap list_fmap hd tail] in *. subst nx. cbn [expd_loop]. case_decide; [done|].
  destruct (Hone a ltac:(left)) as (pa&ta&Hpa&Hta&_).
  assert (Hcl : handler_of s a = Some (time_out_handler ta, data ta)) by by rewrite /handler_of Hpa /= Hta.
  apply wp_bind. eapply wp_mono; [apply (expire_one_run s tr a xs _ (I xs) Hi (Hone a ltac:(left)) Hcl);
    by apply (Hcall [] a xs)|].
  intros [] s1 (Hi1&HI1&Hn1&Ha1&Ht1&Hso1&Hc1&Hco1&_).
  pose proof (ti_list _ _ _ Hi1) as Hd1.
  assert (Hone1 : ∀ b, b ∈ xs → one_shot s1 b ∧ handler_of s1 b = handler_of s b ∧ b ≠ a).
  { intros b Hb. assert (b ≠ a) as Hba.
    { intros ->. destruct (ti_done _ _ _ Hi1 a Hb) as (?&?&(?&_)&_). congruence. }
    destruct (ti_done _ _ _ Hi b ltac:(by right)) as (q&tq&Hq&_). pose proof (Ht1 _ _ _ Hba Hq) as Htq.
    destruct (Hone b ltac:(by right)) as (q'&t'&Hq'&Ht'&Hfl). pose proof Hq as (Hqa&Hqt&_).
    rewrite Hqa in Hq'. injection Hq' as <-. split; [|split; [|done]].
    - exists q, t'. by rewrite Ha1 // Htq.
    - by rewrite /handler_of Ha1 // Hqa /= Htq. }
  assert (Hcall1 : all_call s1 xs).
  { intros pre b rest cb s2 -> Hcb. apply (Hcall (a :: pre)); [done|].
    rewrite -(proj1 (proj2 (Hone1 b ltac:(set_solver)))). done. }
  assert (Hnx : ∃ ny, on_elst (get_next (hd E_hd (E_tmr <$> xs))) s1 = Some (ny, s1) ∧
    ny = match xs with [] => E_hd | _ :: ys => hd E_hd (E_tmr <$> ys) end).
  { assert (Hz : ∀ x y, nxt (elst s1) x = Some y → on_elst (get_next x) s1 = Some (y, s1)).
    { intros x y Hxy. rewrite /on_elst /zoom (get_next_eq _ _ _ Hxy). by destruct s1. }
    destruct xs as [|b ys]; cbn [fmap list_fmap hd] in *.
    - exists E_hd. split; [|done]. apply Hz. by destruct Hd1 as [_ [? _]].
    - eexists. split; [|done]. apply Hz. by apply dll_nxt_head in Hd1 as [_ ?]. }
  destruct Hnx as (ny&Hrun&->). rewrite /wp (bind_run _ _ _ _ _ Hrun).
  assert (Hgo : ∀ nx, (xs = [] ∨ nx = hd E_hd (tail (E_tmr <$> xs))) →
    wp (expd_loop fuel (hd E_hd (E_tmr <$> xs)) nx) (λ _, all_handled s1 tr xs) s1).
  { intros nx [->| ->]; [|apply IH; [done|by intros b Hb; apply Hone1|done|done|lia|done]].
    destruct fuel; cbn; apply wp_ret; by apply all_handled_nil. }
  eapply wp_mono; [apply Hgo; destruct xs; [by left|by right]|].
  intros [] s2 (Hi2&HI2&Hn2&Hc2&Hco2&Hbl2&Hst2). split_and!; [done|done| |congruence|congruence|..].
  - intros b. rewrite Hn2. destruct (decide (b ∈ xs)) as [Hb|Hb], (decide (b ∈ a :: xs)) as [Hc|Hc].
    + done.
    + by destruct Hc; right.
    + by apply elem_of_cons in Hc as [->|].
    + apply Ha1. intros ->. apply Hc. left.
  - intros w b q tq Hw Hb Hq. assert (Hba : b ≠ a).
    { intros ->. destruct (tinv_exp_wheel _ _ _ _ _ Hi Hw Hb). left. }
    apply (Hbl2 w b q tq Hw Hb). destruct (ti_run _ _ _ Hi1 w b Hw Hb) as (q1&t1&Hq1&_).
    pose proof Hq1 as (Hqa&Hqt&_). pose proof (Ht1 _ _ _ Hba Hq) as Htq. destruct Hq as (Hqa'&Hqt'&_).
    rewrite Ha1 // Hqa' in Hqa. simplify_eq. rewrite Htq Hqt' in Hqt. by simplify_eq.
  - intros b w r ct. rewrite -Hst2. destruct (decide (b = a)) as [->|Hne]; [|by apply Hso1]. split.
    + intros (Hw&Hb&_). destruct (tinv_exp_wheel _ _ _ _ _ Hi Hw Hb). left.
    + intros (Hw&Hb&p&Hp&_). congruence.
Qed.
Lemma process_expd_run s tr xs :
  tinv s tr xs → (∀ a, a ∈ xs → one_shot s a) → all_call s xs → I xs (host s) →
  wp process_expd_timers (λ _, all_handled s tr xs) s.
Proof.
  intros Hi Hone Hcall HI. rewrite /process_expd_timers /wp (bind_run (gets _) _ s _ s eq_refl).
  pose proof (ti_list _ _ _ Hi) as Hd. pose proof (dll_length _ _ _ Hd) as Hlen. rewrite length_fmap in Hlen.
  assert (Hz : ∀ x y, nxt (elst s) x = Some y → on_elst (get_next x) s = Some (y, s)).
  { intros x y Hxy. rewrite /on_elst /zoom (get_next_eq _ _ _ Hxy). by destruct s. }
  assert (H1 : nxt (elst s) E_hd = Some (hd E_hd (E_tmr <$> xs))) by (destruct Hd as [_ Hs]; by apply seg_nxt in Hs).
  assert (H2 : nxt (elst s) (hd E_hd (E_tmr <$> xs)) = Some (hd E_hd (tail (E_tmr <$> xs)))).
  { destruct xs as [|a xs]; [done|]. by apply dll_nxt_head in Hd as [_ ?]. }
  rewrite (bind_run _ _ _ _ _ (Hz _ _ H1)) (bind_run _ _ _ _ _ (Hz _ _ H2)).
  by eapply (expd_loop_run (size (elst s)) s).
Qed.
End expired.

(** ** The promises *)
Section Promises.
Context {TR : TickRate} {OK : RateOk} {H : Type} `{T : TmEnv H}.
Implicit Types (s : tms H) (tr : Z → tree) (xs : list Z) (a w : Z).

(** [timer_add] puts a timer into a wheel behind all timers that are due no later
    and before all that are due later; the wheel stays a red-black tree and the
    nodes of the other wheels are not touched. *)
Theorem timer_add_correct s w t n p :
  wheel_tree s w t → is_rb t → keyed s t → sorted s (inorder t) →
  apps s !! n = Some p → valid n → n ∉ inorder t →
  wp (timer_add n w)
    (λ _ s', ∃ t' xs ys, wheel_tree s' w t' ∧ is_rb t' ∧ sorted s' (inorder t') ∧
       inorder t = xs ++ ys ∧ inorder t' = xs ++ n :: ys ∧
       (∀ x, x ∈ xs → rt_of s x ≤ rt p) ∧ (∀ y, y ∈ ys → rt p < rt_of s y) ∧
       ∀ b, b ∉ inorder t' → tnodes s' !! b = tnodes s !! b) s.
Proof.
  intros Ht Hrb Hk Hso Hn Hv Hni. eapply wp_mono; [by eapply timer_add_run|].
  intros [] s' (t'&xs&ys&Hstep&Hrb'&Ho&Ho'&Hl&Hr). exists t', xs, ys.
  assert (Hrt : rt_of s n = rt p) by by rewrite /rt_of Hn.
  split_and!; [by eapply wheel_step_self|done| |done|done|done|done|].
  - pose proof Hstep as (nd&r&->&_&_). rewrite Ho'.
    apply (sorted_insert s xs ys n); [by rewrite -Ho|by rewrite Hrt..].
  - intros b Hb. destruct Hstep as (nd&r&->&_&Hout). apply Hout; [done|].
    intros ->. apply Hb. rewrite Ho'. apply elem_of_app. right. left.
Qed.

(** [timer_tree_walk] finds a timer that is due exactly at [key] if the wheel has
    one, and returns null otherwise; it changes nothing. *)
Theorem timer_tree_walk_correct s w t key :
  wheel_tree s w t → keyed s t → sorted s (inorder t) →
  ∃ v, timer_tree_walk w key s = Some (v, s) ∧
    (v = 0 ∧ (∀ x, x ∈ inorder t → rt_of s x ≠ key) ∨ v ≠ 0 ∧ v ∈ inorder t ∧ rt_of s v = key).
Proof. apply timer_tree_walk_run. Qed.

(** C21: processing a tick applies the passes of the tick to every timer, each one
    independently: a due timer moves to the wheel of what it has left, or to the
    end of the list of expired timers; no other timer moves and none is lost. *)
Theorem process_tick_correct s tr xs :
  tinv s tr xs →
  wp tm_process_tick_and_update_timers
    (λ _ s', ∃ tr' xs', tinv s' tr' xs' ∧ clk s' = clk s ∧
       (∀ a st, at_state s tr xs a st → at_state s' tr' xs' a (tick_pass (clk s) st)) ∧
       (∀ a st', at_state s' tr' xs' a st' → ∃ st, at_state s tr xs a st)) s.
Proof.
  intros Hi. eapply wp_mono; [by apply tick_run|]. intros _ s' (tr'&xs'&[? ? _ ? ? _]).
  exists tr', xs'. by split_and!.
Qed.

(** C9: a timer of [n] ticks started at tick [T0] has expired after [k] more ticks
    exactly when [n <= k + T0 mod U], where [U] is the largest unit that fits into
    [n]: it fires at the right tick, counted from the last full unit. *)
Theorem timer_fires_on_time s tr xs T0 n dat handler flgs new a (k : nat) :
  tinv s tr xs → all_on_course T0 s tr xs → clk s = clock_at T0 → 0 ≤ T0 →
  0 < n < max_ticks → T0 + n < 2 ^ 32 → T0 + Z.of_nat k < 2 ^ 32 →
  count s ≤ MAX_TIMERS → s32 (indx s + 1) ≠ 0 → fresh s new a →
  wp (start_timer n dat handler flgs;; ticks k)
    (λ _ s', ∃ tr' xs', tinv s' tr' xs' ∧
       (a ∈ xs' ↔ n ≤ Z.of_nat k + T0 `mod` unit_of (slot (encode_time 0 n)).1)) s.
Proof.
  intros Hi Hall Hc HT Hn Hb Hk Hcnt Hidx Hfr. apply wp_bind.
  eapply wp_mono; [by apply (start_timer_run s tr xs T0)|].
  intros res s1 (_&tr1&w&r&Hi1&Hst&Hoc&Hft&Hso&Hc1&_&_&_).
  eapply wp_mono; [apply (ticks_run k s1 tr1 xs T0 Hi1); [by rewrite Hc1|done|done|]|].
  - intros b w' r' ct' Hb'. destruct (decide (b = a)) as [->|Hne].
    + by injection (at_state_inj _ _ _ _ _ _ Hi1 Hb' Hst) as -> -> ->.
    + apply (Hall b). by apply Hso.
  - intros _ s2 (tr2&xs2&Hi2&_&_&_&Hall2). exists tr2, xs2. split; [done|].
    pose proof Hoc as (_&_&<-&Hlt&_). set (w := (slot (encode_time 0 n)).1) in *.
    destruct (Hall2 a (T0 - T0 `mod` unit_of w + n) _ Hst) as (st&Hst2&HF).
    { cbn. split; [|done]. rewrite -Hft /fire_time. destruct Hoc as (Hpk&H0&_).
      destruct (slot (encode_time 0 n)) as [w0 t0] eqn:Hs. cbn in w. subst w. cbn [snd].
      destruct (ticks_clear _ _ _ _ Hpk H0 Hs (wheel_mask_lookup _ ltac:(apply Hst))) as [Htk Ht].
      assert (0 ≤ ticks_of (Z.land (encode_time 0 n) (wheel_mask !!! Z.to_nat w0))); [|lia].
      apply ticks_nonneg. eapply clear_slot; [done|by rewrite Hs|apply Hst|].
      apply wheel_mask_lookup. apply Hst. }
    destruct st as [w2 r2 ct2|]; cbn in HF.
    + destruct Hst2 as (Hw2&Ha2&_). split; [|lia]. intros Hx.
      by destruct (tinv_exp_wheel _ _ _ _ _ Hi2 Hw2 Ha2).
    + split; [lia|done].
Qed.

(** C33: the time format holds every number of ticks below 1024 hours exactly, and its
    fields are the hours, minutes, seconds and ticks. *)
Theorem time_format_roundtrip n :
  0 ≤ n < max_ticks →
  GET_TICK (encode_time 0 n) + tm_get_ticks_per_second * (GET_SECS (encode_time 0 n) + 60 * (GET_MINS (encode_time 0 n) +
    60 * GET_HRS (encode_time 0 n))) = n ∧
  0 ≤ encode_time 0 n < 2 ^ 32 ∧ GET_TICK (encode_time 0 n) < tm_get_ticks_per_second ∧ GET_SECS (encode_time 0 n) < 60 ∧
  GET_MINS (encode_time 0 n) < 60.
Proof.
  intros Hn. pose proof (encode_ok n ltac:(lia)) as Hok. pose proof (encode_pk n ltac:(lia)) as Hpk.
  pose proof (encode_ticks n Hn) as Htk. rewrite /ticks_of in Htk. split; [lia|].
  rewrite Hpk (GET_TICK_pk _ _ _ _ Hok) (GET_SECS_pk _ _ _ _ Hok) (GET_MINS_pk _ _ _ _ Hok).
  destruct Hok as (?&?&?&?). pose proof rate_pos. pose proof (Z.mod_pos_bound n tm_get_ticks_per_second).
  pose proof (Z.mod_pos_bound (n / tm_get_ticks_per_second) 60).
  pose proof (Z.mod_pos_bound (n / (tm_get_ticks_per_second * 60)) 60). split; [rewrite /pk; lia|lia].
Qed.

(** [stop_timer] takes a running timer out of its wheel and releases its
    [app_timer], so that it cannot fire any more; the other timers are not
    affected. *)
Theorem stop_timer_correct s tr xs w a p :
  tinv s tr xs → is_wheel w → a ∈ inorder (tr w) → apps s !! a = Some p →
  wp (stop_timer (timer p))
    (λ res s', res = 0 ∧ ∃ tr', tinv s' tr' xs ∧ loose tr' xs a ∧ apps s' !! a = None ∧
       same_others s tr xs s' tr' xs a ∧ count s' = u32 (count s - 1) ∧ clk s' = clk s ∧
       timer_pending (timer p) s' = Some (0, s')) s.
Proof.
  intros Hi Hw Ha Hp. destruct (ti_run _ _ _ Hi w a Hw Ha) as (p0&tm&Hbl&Hrun&Hwh&Hsl).
  pose proof Hbl as (Hp0&Ht&Hap&_&Hk). rewrite Hp in Hp0. injection Hp0 as <-.
  rewrite /stop_timer /wp (bind_run _ _ _ _ _ (timer_ld_run _ _ _ Ht)) Hap Hwh.
  pose proof (timer_del_tinv s tr xs w a p tm (ctime p) (rt p) Hi Hw Ha Hbl Hk) as Hdel. cbn zeta in Hdel.
  assert (Hps : put_app a (MkApp (timer p) (ctime p) (rt p)) s = s).
  { rewrite /put_app insert_id; [by destruct s|]. by rewrite Hp; destruct p. }
  rewrite Hps in Hdel. apply wp_inv in Hdel as ([]&s1&Hr1&t'&Hi1&[Hlw Hlx]&Hbl1&Hso1&_&nd&rts&Hs1).
  replace (MkApp (timer p) (ctime p) (rt p)) with p in Hbl1 by by destruct p.
  rewrite (bind_run _ _ _ _ _ Hr1). pose proof Hbl1 as (Hp1&Ht1&_).
  rewrite (bind_run _ _ _ _ _ (timer_mod_run _ _ _ (set_is_running 0) Ht1)).
  set (tm2 := set_is_running 0 tm). set (s2 := put_timer (timer p) tm2 s1).
  assert (Ht2 : timers s2 !! timer p = Some tm2) by apply lookup_insert_eq.
  rewrite (bind_run _ _ _ _ _ (timer_ld_run _ _ _ Ht2)). change (apptimer tm2) with (apptimer tm). rewrite Hap.
  set (s3 := set_elst (delete (E_tmr a) (elst s2)) (set_trees (delete a (tnodes s2)) (roots s2)
    (set_apps (delete a (apps s2)) s2))).
  assert (Hr3 : free_app a s2 = Some (tt, s3)).
  { by rewrite /free_app (bind_run _ _ _ _ _ (app_ld_run s2 a p Hp1)). }
  rewrite (bind_run _ _ _ _ _ Hr3).
  destruct (tinv_release s1 (upd_tree tr w t') a xs xs s3 Hi1) as [Hi3 Hso3]; try done.
  { intros b Hne. cbn. rewrite lookup_delete_ne; [done|by apply not_eq_sym]. }
  { intros b q tq Hne Hq. cbn. rewrite lookup_insert_ne //.
    intros Heq. by destruct (blocks_timer_ne _ _ _ _ _ _ _ Hbl1 Hq Hne). }
  { intros b Hne. cbn. rewrite lookup_delete_ne; [done|by apply not_eq_sym]. }
  { eapply dll_frame, (ti_list _ _ _ Hi1). intros x Hx. cbn. rewrite lookup_delete_ne //. intros <-.
    apply elem_of_cons in Hx as [|(b&[= <-]&Hb)%list_elem_of_fmap]; done. }
  { intros b Hne Hb. cbn. rewrite lookup_delete_ne; [done|congruence]. }
  change (wp (mret 0) (λ res s', res = 0 ∧ ∃ tr', tinv s' tr' xs ∧ loose tr' xs a ∧ apps s' !! a = None ∧
       same_others s tr xs s' tr' xs a ∧ count s' = u32 (count s - 1) ∧ clk s' = clk s ∧
       timer_pending (timer p) s' = Some (0, s')) (set_count (u32 (count s3 - 1)) s3)).
  apply wp_ret. split; [done|]. exists (upd_tree tr w t').
  split_and!; [by apply tinv_count|done|apply lookup_delete_eq| |by cbn; rewrite Hs1|by cbn; rewrite Hs1|].
  - eapply same_others_trans; [exact Hso1|]. exact Hso3.
  - rewrite /timer_pending. destruct (truthy (timer p)); [|done]. cbn [negb].
    set (s4 := set_count _ s3). by rewrite (bind_run _ _ _ _ _ (timer_ld_run s4 (timer p) tm2 Ht2)).
Qed.

(** a timer that is not processed at the tick it is due is lost: the search of the
    wheels is for equality, and no later tick finds it. *)
Theorem missed_timer_never_fires s tr xs T0 (k : nat) a w r ct :
  tinv s tr xs → clk s = clock_at T0 → 0 ≤ T0 → T0 + Z.of_nat k < 2 ^ 32 →
  at_state s tr xs a (Running w r ct) → r * unit_of w ≤ T0 →
  wp (ticks k) (λ _ s', ∃ tr' xs', tinv s' tr' xs' ∧ at_state s' tr' xs' a (Running w r ct)) s.
Proof.
  revert s tr xs T0. induction k as [|k IH]; intros s tr xs T0 Hi Hc HT Hk Hst Hr.
  { apply wp_ret. eauto. }
  cbn [ticks]. apply wp_bind. rewrite /tick_step /wp.
  rewrite (bind_run _ _ _ _ _ (advance_clock_run s T0 Hc HT ltac:(lia))).
  set (s1 := set_clk (clock_at (T0 + 1)) s).
  assert (Hi1 : tinv s1 tr xs) by by apply tinv_clk.
  eapply (wp_mono _ _ _ s1); [by apply tick_run|]. cbn beta. change (clk s1) with (clock_at (T0 + 1)).
  intros _ s' (tr'&xs'&[Hi' Hc' _ Hstep _ _]).
  apply (IH s' tr' xs' (T0 + 1)); [done|done|lia|lia| |lia].
  assert (Hw : is_wheel w) by apply Hst. assert (Hsl : packed ct ∧ (slot ct).1 = w).
  { destruct Hst as (_&Ha&p&Hp&<-&<-). destruct (ti_run _ _ _ Hi w a Hw Ha) as (p0&tm&(Hp0&_&_&_&Hk0)&_&_&Hs).
    rewrite Hp in Hp0. by injection Hp0 as <-. }
  destruct Hsl as [Hpk Hsl].
  assert (Htp : tick_pass (clock_at (T0 + 1)) (Running w r ct) = Running w r ct).
  { rewrite tick_pass_at //; [|lia]. case_decide as Hm; [|done]. apply pass_not_due. right.
    rewrite (clock_unit _ _ Hw). pose proof (unit_pos w). pose proof (Z.div_mod (T0 + 1) (unit_of w)). nia. }
  rewrite -Htp. by apply Hstep.
Qed.

(** restarting a repeating timer dereferences a null pointer: the new
    [app_timer] is not connected to the timer. *)
Theorem timer_restart_crashes s p :
  p ≠ 0 → env_talloc (n_alloc s) ≠ 0 → timers s !! 0 = None → timer_restart p s = None.
Proof.
  intros Hp Ha H0. rewrite /timer_restart (proj2 (truthy_true p) Hp). cbn [negb].
  rewrite (bind_run _ _ _ _ _ (alloc_app_run s _ eq_refl Ha)) (proj2 (truthy_true _) Ha). cbn [negb].
  set (a := env_talloc (n_alloc s)). set (s1 := set_trees _ _ _).
  set (s2 := set_elst (<[E_tmr a := LH (E_tmr a) (E_tmr a)]> (elst s1)) s1).
  rewrite (bind_run (on_elst (INIT_LIST_HEAD (E_tmr a))) _ s1 tt s2 eq_refl).
  assert (Ha2 : apps s2 !! a = Some app_zero) by apply lookup_insert_eq.
  rewrite /calc_time /mbind /M_bind (app_ld_run _ _ _ Ha2). cbn [timer app_zero].
  rewrite /timer_ld /mbind /M_bind /gets /liftO /=. by rewrite H0.
Qed.
End Promises.

Section Handlers.
Context {TR : TickRate} {OK : RateOk} {H : Type} `{T : TmEnv H}.
(** What a handler does to the host; it leaves the timers alone. *)
Context (act : Z → Z → H → H).
Context (Hact : ∀ h d (s : tms H), env_handler h d s = Some (tt, set_host (act h d (host s)) s)).
Implicit Types (s : tms H) (tr : Z → tree) (xs : list Z) (a : Z).

(** The effect of the handler of one expired timer. *)
Definition handled s a (h : H) : H :=
  match handler_of s a with Some (f, d) => if truthy f then act f d h else h | None => h end.

(** the bottom half calls the handler of every expired timer once, in the order
    in which they expired, and releases them; the list is empty afterwards and the
    running timers are not affected. *)
Theorem process_expd_timers_correct s tr xs :
  tinv s tr xs → (∀ a, a ∈ xs → one_shot s a) →
  wp process_expd_timers
    (λ _ s', tinv s' tr [] ∧ host s' = foldl (λ h a, handled s a h) (host s) xs ∧
       (∀ a, apps s' !! a = if decide (a ∈ xs) then None else apps s !! a) ∧
       ∀ b w r ct, at_state s tr xs b (Running w r ct) ↔ at_state s' tr [] b (Running w r ct)) s.
Proof.
  intros Hi Hone. set (last := foldl (λ h a, handled s a h) (host s) xs).
  eapply wp_mono; [apply (process_expd_run (λ ys h, foldl (λ h a, handled s a h) h ys = last) s tr xs Hi Hone); [|done]|].
  - intros pre a rest [f d] s1 _ Hc HI. rewrite /calls_to /call. cbn [foldl fst snd] in HI |- *. rewrite /handled Hc in HI.
    apply wp_when=> Hb; rewrite Hb in HI; [|exists (host s1); by destruct s1].
    rewrite /wp Hact. by eexists.
  - intros [] s' (?&?&?&_&_&_&?). done.
Qed.
End Handlers.

(** ** Concrete timers *)
Module TimerWitness.

(** Memory is handed out in steps of four; a handler appends its argument to a log. *)
#[local] Instance log_env : TmEnv (list Z) := {|
  env_talloc k := 4 * (Z.of_nat k + 1);
  env_tsizeof _ := 64;
  env_handler _ d := modify (λ s, set_host (host s ++ [d]) s)
|}.

Definition no_trees (w : Z) : tree := E.
Definition idle_at {H} (T0 : Z) (h : H) : tms H :=
  MkTms _ ∅ ∅ ∅ [0; 0; 0; 0] {[E_hd := LH E_hd E_hd]} (clock_at T0) 0 0 0 0 h.
Notation idle T0 := (idle_at T0 ([] : list Z)).
(** One timer, at the addresses 4 and 8, in the wheel [w]. *)
Definition one_tree (w v : Z) : tree := if v =? w then T Black E 8 E else E.
Definition single_at {H} (T0 w r ct dat hdl : Z) (h : H) : tms H :=
  MkTms _ {[8 := MkApp 4 ct r]} {[4 := MkTimer 0 0 w 1 TIMER_ONCE 1 dat 8 hdl]}
    {[8 := MkNode 1 0 0]} (<[Z.to_nat w := 8]> [0; 0; 0; 0])
    {[E_hd := LH E_hd E_hd; E_tmr 8 := LH (E_tmr 8) (E_tmr 8)]} (clock_at T0) 1 1 0 2 h.
Notation single T0 w r ct := (single_at T0 w r ct 77 9 ([] : list Z)).
(** The same timer after its time is over. *)
Definition rung (T0 : Z) : tms (list Z) :=
  MkTms _ {[8 := MkApp 4 0 T0]} {[4 := MkTimer 0 0 TICK 1 TIMER_ONCE 0 77 8 9]}
    {[8 := MkNode 8 0 0]} [0; 0; 0; 0]
    {[E_hd := LH (E_tmr 8) (E_tmr 8); E_tmr 8 := LH E_hd E_hd]} (clock_at T0) 0 1 0 2 [].

Lemma empty_wheel {H} (s : tms H) w : 0 ≤ w → roots s !! Z.to_nat w = Some 0 → wheel_tree s w E.
Proof.
  intros Hw Hr. split; [done|]. exists 0. split; [done|]. split; [|done].
  split; [constructor|done|..]; [|done]. intros a n Hin. by apply elem_of_nil in Hin.
Qed.
Lemma E_rb : is_rb E.
Proof. split; [done|]. by exists 0%nat. Qed.
Lemma no_wheels {H} (s : tms H) w :
  roots s = [0; 0; 0; 0] → is_wheel w → wheel_tree s w E ∧ is_rb E ∧ sorted s (inorder E).
Proof.
  intros Hr Hw. split_and!; [|exact E_rb|constructor]. apply empty_wheel; [apply Hw|]. rewrite Hr.
  by destruct (wheel_cases _ Hw) as [->|[->|[->| ->]]].
Qed.
Lemma idle_tinv {H} T0 (h : H) : tinv (idle_at T0 h) no_trees [].
Proof.
  split; [intros w Hw; by apply no_wheels|..|done].
  - intros v w a _ _ Ha. by apply elem_of_nil in Ha.
  - intros w a _ Ha. by apply elem_of_nil in Ha.
  - split; [by apply NoDup_singleton|done].
  - intros a Ha. by apply elem_of_nil in Ha.
Qed.

Lemma packed_0 : packed 0.
Proof. exists 0, 0, 0, 0. by rewrite /fields_ok. Qed.
Lemma single_wheel {H} T0 w r ct dat hdl (h : H) :
  is_wheel w → wheel_tree (single_at T0 w r ct dat hdl h) w (T Black E 8 E).
Proof.
  intros Hw. split; [apply Hw|]. exists 8. split.
  - cbn. apply list_lookup_insert_eq. destruct Hw as [? Hw]. rewrite /TIMER_WHEEL in Hw. cbn. lia.
  - split; [|done]. split.
    + apply NoDup_singleton.
    + apply Forall_singleton. done.
    + intros a n Hin. apply list_elem_of_singleton in Hin. by injection Hin as -> ->.
    + intros a Ha. done.
Qed.
Lemma one_in w v a : a ∈ inorder (one_tree w v) → v = w ∧ a = 8.
Proof.
  rewrite /one_tree. destruct (v =? w) eqn:Ev; cbn; intros Ha; [|by apply elem_of_nil in Ha].
  apply list_elem_of_singleton in Ha. by apply Z.eqb_eq in Ev.
Qed.
Lemma single_tinv {H} T0 w r ct dat hdl (h : H) :
  is_wheel w → packed ct → (slot ct).1 = w → tinv (single_at T0 w r ct dat hdl h) (one_tree w) [].
Proof.
  intros Hw Hk Hs. split; [..|done].
  - intros v Hv. rewrite /one_tree. destruct (v =? w) eqn:Ev.
    + apply Z.eqb_eq in Ev as ->. split_and!; [by apply single_wheel| |repeat constructor].
      split; [done|]. by exists 1%nat.
    + apply Z.eqb_neq in Ev. split_and!; [|exact E_rb|constructor].
      apply empty_wheel; [apply Hv|]. cbn. rewrite list_lookup_insert_ne; [|destruct Hv, Hw; lia].
      by destruct (wheel_cases _ Hv) as [->|[->|[->| ->]]].
  - intros v v' a _ _ [-> _]%one_in [-> _]%one_in. done.
  - intros v a _ [-> ->]%one_in. exists (MkApp 4 ct r), (MkTimer 0 0 w 1 TIMER_ONCE 1 dat 8 hdl).
    by split_and!.
  - split; [by apply NoDup_singleton|done].
  - intros a Ha. by apply elem_of_nil in Ha.
Qed.
Lemma rung_tinv T0 : tinv (rung T0) no_trees [8].
Proof.
  split; [intros w Hw; by apply no_wheels|..|done].
  - intros v w a _ _ Ha. by apply elem_of_nil in Ha.
  - intros w a _ Ha. by apply elem_of_nil in Ha.
  - split; [|done]. apply (bool_decide_unpack _). by vm_compute.
  - intros a ->%list_elem_of_singleton. exists (MkApp 4 0 T0), (MkTimer 0 0 TICK 1 TIMER_ONCE 0 77 8 9).
    split; [|done]. split_and!; try done. exact packed_0.
Qed.

(** A second timer, at the addresses 12 and 16, is added to the wheel. *)
Lemma timer_add_witness :
  let s := set_apps (<[16 := MkApp 12 2 102]> (apps (single 100 TICK 103 3))) (single 100 TICK 103 3) in
  let s := set_trees (<[16 := MkNode 0 0 0]> (tnodes s)) (roots s) s in
  wp (timer_add 16 TICK) (λ _ s', ∃ t', wheel_tree s' TICK t' ∧ is_rb t' ∧ inorder t' = [16; 8]) s.
Proof.
  set (s0 := set_apps _ _). cbn zeta. set (s := set_trees _ _ _).
  eapply wp_mono; [apply (timer_add_correct s TICK (T Black E 8 E) 16 (MkApp 12 2 102))|].
  - destruct (single_wheel 100 TICK 103 3 77 9 ([] : list Z) ltac:(done)) as (Hw&r&Hr&Ht). split; [done|]. exists r.
    split; [done|]. eapply is_tree_frame; [exact Ht|]. intros a ->%list_elem_of_singleton. done.
  - split; [done|]. by exists 1%nat.
  - intros a ->%list_elem_of_singleton. by eexists.
  - repeat constructor.
  - done.
  - done.
  - by apply (bool_decide_unpack _).
  - intros [] s' (t'&xs&ys&Ht&Hrb&_&Ho&Ho'&Hl&_). exists t'. split_and!; [done|done|].
    rewrite Ho'. destruct xs as [|x xs]; cbn in Ho.
    + by rewrite -Ho.
    + injection Ho as <- Ho. specialize (Hl 8 ltac:(left)). vm_compute in Hl. done.
Defined.
Lemma timer_tree_walk_witness :
  timer_tree_walk TICK 103 (single 100 TICK 103 3) = Some (8, single 100 TICK 103 3).
Proof.
  destruct (timer_tree_walk_correct (single 100 TICK 103 3) TICK (T Black E 8 E) 103) as (v&Hv&Hc).
  - by apply single_wheel.
  - intros a ->%list_elem_of_singleton. by eexists.
  - repeat constructor.
  - rewrite Hv. destruct Hc as [[-> Hn]|(_&->%list_elem_of_singleton&_)]; [|done].
    by destruct (Hn 8); [left|].
Defined.
(** At the tick 103 the timer expires. *)
Lemma process_tick_witness :
  wp tm_process_tick_and_update_timers (λ _ s', ∃ tr' xs', tinv s' tr' xs' ∧ 8 ∈ xs')
    (single 103 TICK 103 3).
Proof.
  assert (Hi : tinv (single 103 TICK 103 3) (one_tree TICK) []).
  { apply single_tinv; [done| |done]. exists 0, 0, 0, 3. by rewrite /fields_ok. }
  eapply wp_mono; [exact (process_tick_correct _ _ _ Hi)|]. intros n s' (tr'&xs'&Hi'&_&Hst&_).
  exists tr', xs'. split; [done|]. apply (Hst 8 (Running TICK 103 3)).
  split_and!; [done|left|]. by eexists.
Defined.
(** A timer of one second and 3 ticks, started at the tick 120, is due at the tick 153. *)
Lemma timer_fires_witness :
  wp (start_timer 53 77 9 0;; ticks 33) (λ _ s', ∃ tr' xs', tinv s' tr' xs' ∧ 8 ∈ xs') (idle 120) ∧
  wp (start_timer 53 77 9 0;; ticks 32) (λ _ s', ∃ tr' xs', tinv s' tr' xs' ∧ 8 ∉ xs') (idle 120).
Proof.
  assert (Hf : ∀ k : nat, (k < 100)%nat → wp (start_timer 53 77 9 0;; ticks k) (λ _ s', ∃ tr' xs', tinv s' tr' xs' ∧
       (8 ∈ xs' ↔ 53 ≤ Z.of_nat k + 120 `mod` unit_of (slot (encode_time 0 53)).1)) (idle 120)).
  { intros k Hk. apply (timer_fires_on_time (idle 120) no_trees [] 120 53 77 9 0 4 8); try done; try lia.
    - exact (idle_tinv 120 []).
    - intros a w r ct (_&Ha&_). by apply elem_of_nil in Ha. }
  split.
  - eapply wp_mono; [exact (Hf 33%nat ltac:(lia))|]. intros _ s' (tr'&xs'&Hi&Hx). exists tr', xs'.
    split; [done|]. apply Hx. by vm_compute.
  - eapply wp_mono; [exact (Hf 32%nat ltac:(lia))|]. intros _ s' (tr'&xs'&Hi&Hx). exists tr', xs'.
    split; [done|]. intros Hin%Hx. by vm_compute in Hin.
Defined.
Lemma time_format_witness :
  GET_HRS (encode_time 0 184319999) = 1023 ∧
  GET_TICK (encode_time 0 184319999) + 50 * (GET_SECS (encode_time 0 184319999) +
    60 * (GET_MINS (encode_time 0 184319999) + 60 * GET_HRS (encode_time 0 184319999))) = 184319999.
Proof. split; [reflexivity|]. apply (time_format_roundtrip 184319999). split; by vm_compute. Defined.
Lemma stop_timer_witness :
  wp (stop_timer 4) (λ res s', res = 0 ∧ apps s' !! 8 = None ∧ count s' = 0) (single 100 TICK 103 3).
Proof.
  assert (Hi : tinv (single 100 TICK 103 3) (one_tree TICK) []).
  { apply single_tinv; [done| |done]. exists 0, 0, 0, 3. by rewrite /fields_ok. }
  eapply wp_mono; [apply (stop_timer_correct _ _ _ TICK 8 (MkApp 4 3 103) Hi); [done|left|done]|].
  intros res s' (->&tr'&_&_&Ha&_&Hc&_). by rewrite Hc.
Defined.
(** The tick 103 has passed without a service. *)
Lemma missed_timer_witness :
  wp (ticks 1000) (λ _ s', ∃ tr' xs', tinv s' tr' xs' ∧ at_state s' tr' xs' 8 (Running TICK 103 3))
    (single 103 TICK 103 3).
Proof.
  apply (missed_timer_never_fires _ (one_tree TICK) [] 103 1000 8 TICK 103 3); try done.
  - apply single_tinv; [done| |done]. exists 0, 0, 0, 3. by rewrite /fields_ok.
  - split_and!; [done|left|]. by eexists.
Defined.
Lemma timer_restart_witness : timer_restart 4 (rung 103) = None.
Proof. by apply (timer_restart_crashes (rung 103) 4). Defined.
Lemma process_expd_timers_witness :
  wp process_expd_timers (λ _ s', host s' = [77] ∧ apps s' !! 8 = None) (rung 103).
Proof.
  eapply wp_mono; [apply (process_expd_timers_correct (λ _ d h, h ++ [d]) ltac:(done) (rung 103) no_trees [8])|].
  - exact (rung_tinv 103).
  - intros a ->%list_elem_of_singleton. do 2 eexists. split_and!; [done|done|by left].
  - intros [] s' (_&Hh&Ha&_). by rewrite Hh Ha.
Defined.
End TimerWitness.
