(* ===== verification/TimerLive.v ===== *)
(** * The timers that are running, and their number

    [count] is the number of timers in the wheels; a timer can be started with whatever
    memory the host hands out. *)

From S2P Require Import Prelude ListHead RbTree RbRep RbInsert RbWalk RbErase RbSpec.
From S2P Require Import Timers TimerFormat TimerTree TimerKeep TimerInv TimerPass TimerFire TimerSpec.
#[local] Open Scope Z_scope.

(** ** [count] stays an unsigned integer *)
Section count.
Context {TR : TickRate} {OK : RateOk} {H : Type} `{T : TmEnv H}.
Implicit Types (s : tms H) (a w : Z).

Definition count_ok s : Prop := 0 ≤ count s < 2 ^ 32.
Definition keeps_count s s' : Prop := count_ok s → count_ok s'.
#[global] Instance keeps_count_preorder : PreOrder keeps_count.
Proof. split; rewrite /Reflexive /Transitive /keeps_count; auto. Qed.

Lemma count_same {A} (m : M (tms H) A) : (∀ s (x : A) s', m s = Some (x, s') → count s' = count s) → respects keeps_count m.
Proof. intros Hm s a s' Hr%Hm. by rewrite /keeps_count /count_ok Hr. Qed.
Lemma count_modify (f : tms H → tms H) : (∀ s, count (f s) = count s) → respects keeps_count (modify f).
Proof. intros Hf. apply count_same. intros s a s' [= _ <-]. apply Hf. Qed.
Lemma count_set v : respects keeps_count (modify (λ s : tms H, set_count (u32 (v s)) s)).
Proof. apply respects_modify. intros s _. apply u32_range. Qed.
Lemma count_on_root {A} w (m : M rb A) : respects keeps_count (on_root w m : M (tms H) A).
Proof.
  apply count_same. intros s a s'. rewrite /on_root. case_decide; [|done]. destruct (roots s !! _); [|done].
  destruct (m _) as [[b t]|]; [|done]. by intros [= _ <-].
Qed.
Lemma count_on_elst {A} (m : M _ A) : respects keeps_count (on_elst m : M (tms H) A).
Proof. apply respects_zoom. intros s l Hs. exact Hs. Qed.
Lemma sfs_lock_respects R w : PreOrder R → respects R (wheel_lock w : M (tms H) unit).
Proof. intros HR. by apply respects_ret. Qed.
Lemma sfs_unlock_respects R w : PreOrder R → respects R (wheel_unlock w : M (tms H) unit).
Proof. intros HR. by apply respects_ret. Qed.
End count.
#[export] Hint Resolve sfs_lock_respects sfs_unlock_respects : respects.
#[export] Hint Resolve count_set count_on_root count_on_elst : respects.
#[export] Hint Extern 2 (respects keeps_count (modify _)) => apply count_modify; done : respects.

Section tick.
Context {TR : TickRate} {OK : RateOk} {H : Type} `{T : TmEnv H}.
Implicit Types (s : tms H) (a w : Z).

Lemma count_walk w key : respects keeps_count (timer_tree_walk w key : M (tms H) Z).
Proof.
  rewrite /timer_tree_walk. respects_seq; [auto with respects|intros []]. respects_seq; [auto with respects|intros sz]. generalize L_root.
  induction sz as [|sz IH]; intros l; cbn [walk_loop]; rewrite /app_ld; respect.
Qed.
Lemma count_timer_add a w : respects keeps_count (timer_add a w : M (tms H) unit).
Proof.
  rewrite /timer_add /app_ld. respect. generalize L_root 0. rename select nat into sz.
  induction sz as [|sz IH]; intros l par; cbn [add_descend]; rewrite /app_ld; respect.
Qed.
Lemma count_place a : respects keeps_count (find_tmr_slot_and_place a : M (tms H) Z).
Proof.
  rewrite /find_tmr_slot_and_place /update_wheel /timer_mod /timer_ld /app_st /app_ld /clk_ld. respect. apply count_timer_add.
Qed.
Lemma count_process_loop m w e n : respects keeps_count (process_loop m w e n : M (tms H) Z).
Proof.
  revert n. induction m as [|m IH]; intros n; cbn [process_loop];
    rewrite /clear_wheel_timer /timer_del /timer_expiry_action /DEC_TIMER_COUNT /timer_mod /timer_ld /app_st /app_ld;
    respect; first [apply count_walk | apply count_place].
Qed.
Lemma count_tick : respects keeps_count (tm_process_tick_and_update_timers : M (tms H) Z).
Proof.
  rewrite /tm_process_tick_and_update_timers /IS_NXT_SEC_HAPPEND /IS_NXT_MIN_HAPPEND /IS_NXT_HR_HAPPEND.
  rewrite /process_wheel /process_timers /clk_ld. respect; apply count_process_loop.
Qed.
End tick.

(** ** The timers in the wheels *)
Section running.
Context {TR : TickRate} {OK : RateOk} {H : Type} `{T : TmEnv H}.
Implicit Types (s : tms H) (tr : Z → tree) (xs : list Z) (a w : Z).

Definition running tr : list Z := [TICK; SEC; MIN; HRS] ≫= (λ w, inorder (tr w)).
(** Every running timer counts. *)
Definition counted s tr : Prop := count_ok s ∧ count s = Z.of_nat (length (running tr)).

Lemma is_wheel_list w : w ∈ [TICK; SEC; MIN; HRS] ↔ is_wheel w.
Proof.
  split; [|intros Hw; destruct (wheel_cases _ Hw) as [->|[->|[->| ->]]]; set_solver].
  destruct wheels as (?&?&?&?). intros [->|[->|[->|[->|[]%elem_of_nil]%elem_of_cons]%elem_of_cons]%elem_of_cons]%elem_of_cons; done.
Qed.
Lemma elem_of_running tr a : a ∈ running tr ↔ ∃ w, is_wheel w ∧ a ∈ inorder (tr w).
Proof.
  rewrite /running list_elem_of_bind. setoid_rewrite is_wheel_list. split; intros (w&?&?); exists w; done.
Qed.
Lemma expired_NoDup s tr xs : tinv s tr xs → NoDup xs.
Proof. intros Hi. destruct (ti_list _ _ _ Hi) as [[_ Hnd]%NoDup_cons _]. by eapply NoDup_fmap_1. Qed.
Lemma live_NoDup s tr xs : tinv s tr xs → NoDup (running tr ++ xs).
Proof.
  intros Hi. apply NoDup_app. split; [|split; [|by eapply expired_NoDup]].
  - apply NoDup_bind; [|intros w Hw%is_wheel_list|].
    + intros v w a Hv%is_wheel_list Hw%is_wheel_list. by apply (ti_disj _ _ _ Hi).
    + destruct (ti_wheel _ _ _ Hi w Hw) as ((_&r&_&Ht)&_). by eapply is_tree_nodup.
    + apply (bool_decide_unpack _). by vm_compute.
  - intros a (w&Hw&Ha)%elem_of_running. by eapply tinv_exp_wheel.
Qed.
Lemma live_state s tr xs a : tinv s tr xs → a ∈ running tr ++ xs ↔ ∃ st, at_state s tr xs a st.
Proof.
  intros Hi. rewrite elem_of_app elem_of_running. split.
  - intros [(w&Hw&Ha)|Ha]; [|by exists Expired]. destruct (tinv_keyed _ _ _ _ Hi Hw a Ha) as [p Hp].
    exists (Running w (rt p) (ctime p)). split; [done|]. split; [done|]. by exists p.
  - intros [[w r ct|] Hst]; [left|by right]. destruct Hst as (?&?&_). by exists w.
Qed.
Lemma running_state s tr xs a : tinv s tr xs → a ∈ running tr → ∃ w r ct, at_state s tr xs a (Running w r ct).
Proof.
  intros Hi (w&Hw&Ha)%elem_of_running. destruct (tinv_keyed _ _ _ _ Hi Hw a Ha) as [p Hp].
  exists w, (rt p), (ctime p). split; [done|]. split; [done|]. by exists p.
Qed.
Lemma state_running s tr xs a w r ct : at_state s tr xs a (Running w r ct) → a ∈ running tr.
Proof. intros (Hw&Ha&_). apply elem_of_running. by exists w. Qed.

(** Two states of the same timers. *)
Lemma live_length s tr xs s' tr' xs' :
  tinv s tr xs → tinv s' tr' xs' → (∀ a, (∃ st, at_state s tr xs a st) ↔ ∃ st, at_state s' tr' xs' a st) →
  length (running tr ++ xs) = length (running tr' ++ xs').
Proof.
  intros Hi Hi' Hiff. apply Permutation_length, NoDup_Permutation; [by eapply live_NoDup|by eapply live_NoDup|].
  intros a. by rewrite (live_state _ _ _ _ Hi) (live_state _ _ _ _ Hi') Hiff.
Qed.
Lemma counted_running s tr xs a w r ct : counted s tr → at_state s tr xs a (Running w r ct) → count s ≠ 0.
Proof.
  intros [_ ->] Ha%state_running. assert (length (running tr) ≠ 0%nat); [|lia].
  intros Hz%nil_length_inv. rewrite Hz in Ha. by apply elem_of_nil in Ha.
Qed.

(** A tick takes those that expire out of the count. *)
Lemma passed_live f s tr xs s' tr' xs' :
  tinv s tr xs → passed f s tr xs s' tr' xs' → length (running tr ++ xs) = length (running tr' ++ xs').
Proof.
  intros Hi P. apply (live_length s _ _ s'); [done|apply P|]. intros a. split; intros [st Hst].
  - eexists. by apply (pd_step _ _ _ _ _ _ _ P).
  - by eapply (pd_back _ _ _ _ _ _ _ P).
Qed.
Lemma passed_counted f s tr xs s' tr' xs' :
  tinv s tr xs → counted s tr → count_ok s' → passed f s tr xs s' tr' xs' → counted s' tr'.
Proof.
  intros Hi [Hok Hc] Hok' P. split; [done|]. pose proof (passed_live _ _ _ _ _ _ _ Hi P) as Hl.
  destruct (pd_count _ _ _ _ _ _ _ P) as (ys&Hxs&Hy). rewrite Hxs (length_app (running tr)) (length_app (running tr')) (length_app xs) in Hl.
  rewrite (u32_small (count s')) // u32_small in Hy; rewrite /count_ok in Hok; lia.
Qed.

(** When the number that a tick reports is 0 no timer has expired. *)
Lemma length_wheel tr w : is_wheel w → (length (inorder (tr w)) ≤ length (running tr))%nat.
Proof.
  intros Hw. rewrite /running. destruct (wheel_cases _ Hw) as [->|[->|[->| ->]]]; cbn; rewrite !length_app; lia.
Qed.
Lemma tick_expires s tr xs :
  tinv s tr xs → 4 * Z.of_nat (length (running tr ++ xs)) < 2 ^ 31 →
  wp tm_process_tick_and_update_timers
    (λ m s', ∃ tr' xs', passed (tick_pass (clk s)) s tr xs s' tr' xs' ∧ (m = 0 → xs' = xs)) s.
Proof.
  intros Hi Hb. eapply wp_mono; [by apply tick_serves|]. intros m s' (tr'&xs'&P&j&Hm&Hl&HK). exists tr', xs'. split; [done|].
  intros Hm0. assert (Hj : (j ≤ 4 * length (running tr ++ xs))%nat).
  { apply HK. intros f s1 tr1 xs1 w P1 Hw. rewrite (passed_live _ _ _ _ _ _ _ Hi P1) (length_app (running tr1)).
    pose proof (length_wheel tr1 w Hw). lia. }
  rewrite s32_small in Hm; [|lia]. destruct (pd_count _ _ _ _ _ _ _ P) as (ys&->&_). rewrite length_app in Hl.
  destruct ys; [by rewrite app_nil_r|]. cbn in Hl. lia.
Qed.
End running.

(** ** Starting a timer, whatever the memory *)
Section start.
Context {TR : TickRate} {OK : RateOk} {H : Type} `{T : TmEnv H}.
Implicit Types (s : tms H) (tr : Z → tree) (xs : list Z) (a w : Z).

(** Memory that is handed out is not in use. *)
Definition timer_memory s : Prop :=
  (env_talloc (n_alloc s) ≠ 0 → timers s !! env_talloc (n_alloc s) = None) ∧
  let a := env_talloc (S (n_alloc s)) in
  (a ≠ 0 → valid a ∧ apps s !! a = None ∧ elst s !! E_tmr a = None).
(** The cases in which no timer is started: too many, no identifier, no memory. *)
Definition start_fails s : Prop :=
  MAX_TIMERS < count s ∨ s32 (indx s + 1) = 0 ∨ env_talloc (n_alloc s) = 0 ∨ env_talloc (S (n_alloc s)) = 0.
#[global] Instance start_fails_dec s : Decision (start_fails s).
Proof. rewrite /start_fails. apply _. Defined.
(** Only counters of the allocation changed. *)
Record same_wheels s s' : Prop := {
  sw_apps : apps s' = apps s;
  sw_timers : timers s' = timers s;
  sw_nodes : tnodes s' = tnodes s;
  sw_roots : roots s' = roots s;
  sw_elst : elst s' = elst s;
  sw_clk : clk s' = clk s;
  sw_count : count s' = count s;
  sw_host : host s' = host s
}.
Lemma same_wheels_eq s s' : same_wheels s s' → s' = set_indx (indx s') (set_alloc (t_alloc s') (n_alloc s') s).
Proof. destruct s, s'. intros [H1 H2 H3 H4 H5 H6 H7 H8]. cbn in *. by subst. Qed.
Lemma tinv_same s s' tr xs : same_wheels s s' → tinv s tr xs → tinv s' tr xs.
Proof. intros ->%same_wheels_eq [H1 H2 H3 H4 H5 H6]. by split. Qed.
Lemma at_state_same s s' tr xs a st : same_wheels s s' → at_state s tr xs a st → at_state s' tr xs a st.
Proof. intros ->%same_wheels_eq. by destruct st. Qed.
Lemma config_same s s' : same_wheels s s' → config s' = config s.
Proof. by intros ->%same_wheels_eq. Qed.

Lemma start_timer_fails s n dat handler flgs :
  timer_memory s → start_fails s →
  wp (start_timer n dat handler flgs) (λ res s', res = -1 ∧ same_wheels s s') s.
Proof.
  intros [Hm _] Hf. rewrite /start_timer /alloc_timer_id.
  apply wp_bind, wp_bind, wp_gets. destruct (Z.ltb_spec MAX_TIMERS (count s)) as [Hc|Hc]; [by apply wp_ret, wp_ret|].
  apply wp_bind, wp_modify, wp_gets. cbn [indx set_indx].
  destruct (truthy (s32 (indx s + 1))) eqn:Hi; cbn [negb]; [|by apply wp_ret].
  apply truthy_true in Hi. set (s1 := set_indx _ s).
  destruct (decide (env_talloc (n_alloc s) = 0)) as [Hz|Hz].
  { rewrite /alloc_timer /tm_calloc_t. apply wp_bind, wp_bind, wp_bind, wp_gets, wp_bind, wp_modify, wp_ret.
    change (n_alloc s1) with (n_alloc s). rewrite Hz. cbn [truthy negb Z.eqb when]. apply wp_bind, wp_ret, wp_ret. by apply wp_ret. }
  rewrite /wp (bind_run _ _ _ _ _ (alloc_timer_run s1 _ eq_refl Hz)). cbn [n_alloc s1 set_indx].
  rewrite (proj2 (truthy_true _) Hz). cbn [negb]. set (new := env_talloc (n_alloc s)) in *. set (s2 := put_timer new timer_zero _).
  assert (Ht2 : timers s2 !! new = Some timer_zero) by apply lookup_insert_eq.
  rewrite (bind_run _ _ _ _ _ (timer_mod_run _ _ _ _ Ht2)). set (tmA := MkTimer n _ _ _ _ _ _ _ _). set (s3 := put_timer new tmA s2).
  assert (Ha : env_talloc (S (n_alloc s)) = 0) by (destruct Hf as [?|[?|[?|?]]]; [lia|done|done|done]).
  assert (Hal : alloc_app s3 = Some (0, set_alloc (u32 (t_alloc s3 + env_tsizeof "app_timer")) (S (S (n_alloc s))) s3)).
  { rewrite /alloc_app /tm_calloc_t /mbind /M_bind /=. by rewrite Ha. }
  rewrite (bind_run _ _ _ _ _ Hal). cbn [truthy negb Z.eqb]. rewrite /free_timer. apply wp_bind, wp_bind, wp_modify.
  apply wp_bind. set (s4 := set_alloc _ _ _). assert (Ht4 : timers s4 !! new = Some tmA) by apply lookup_insert_eq.
  eapply wp_intro; [exact (timer_ld_run _ _ _ Ht4)|]. apply wp_modify. split; [done|]. split; try done.
  cbn. by rewrite !delete_insert_eq delete_id; [|apply Hm].
Qed.

(** Either a new timer is placed and counted, or nothing happens to the timers. *)
Lemma start_timer_any s tr xs n dat handler :
  tinv s tr xs → counted s tr → 0 < n < max_ticks → timer_memory s →
  wp (start_timer n dat handler 0) (λ _ s', start_fails s ∧ same_wheels s s' ∨ ∃ a new tr', timers s !! new = None ∧
     a ∉ running tr ++ xs ∧ tinv s' tr' xs ∧ counted s' tr' ∧ at_state s' tr' xs a (placed (clk s) (encode_time 0 n)) ∧
     same_others s tr xs s' tr' xs a ∧ clk s' = clk s ∧ host s' = host s ∧ started s s' a new handler dat 0) s.
Proof.
  intros Hi [Hok Hct] Hn Hm. pose proof Hm as [Hnew Ha].
  destruct (decide (start_fails s)) as [Hf|Hf].
  { eapply wp_mono; [by apply start_timer_fails|]. intros res s' [_ Hsw]. left. exact (conj Hf Hsw). }
  rewrite /start_fails in Hf.
  set (new := env_talloc (n_alloc s)) in *. set (a := env_talloc (S (n_alloc s))) in *.
  assert (Hc : count s ≤ MAX_TIMERS) by lia. assert (Hx : s32 (indx s + 1) ≠ 0) by tauto.
  assert (Hn0 : new ≠ 0) by tauto. assert (Ha0 : a ≠ 0) by tauto. destruct (Ha Ha0) as (Hv&Hap&Hel).
  assert (Hfr : fresh s new a) by (split_and!; try done; by apply Hnew).
  eapply wp_mono; [exact (start_timer_placed s tr xs n dat handler 0 new a Hi Hn Hc Hx Hfr)|].
  intros res s' (_&tr'&Hi'&Hst&Hso&Hck&Hho&Hco&Hsd). right. exists a, new, tr'.
  assert (Hna : a ∉ running tr ++ xs).
  { intros Har%(live_state _ _ _ _ Hi). destruct Har as [[w r ct|] Hst'].
    - destruct Hst' as (_&_&p&Hp&_). rewrite Hap in Hp. discriminate.
    - destruct (ti_done _ _ _ Hi a Hst') as (p&tm&(Hp&_)&_). rewrite Hap in Hp. discriminate. }
  split; [by apply Hnew|]. split; [exact Hna|]. split; [exact Hi'|]. split; [|by split_and!].
  assert (Hl : length (running tr' ++ xs) = length (a :: running tr ++ xs)).
  { apply Permutation_length, NoDup_Permutation; [exact (live_NoDup _ _ _ Hi')|constructor; [exact Hna|exact (live_NoDup _ _ _ Hi)]|].
    intros b. rewrite (live_state _ _ _ _ Hi') elem_of_cons (live_state _ _ _ _ Hi). destruct (decide (b = a)) as [->|Hne].
    - split; [by left|]. intros _. by eexists.
    - split; [intros [st Hst']; right|intros [?|[st Hst']]; [by destruct Hne|]]; exists st; by apply (Hso b). }
  rewrite /counted /count_ok Hco. rewrite length_cons (length_app (running tr)) (length_app (running tr')) in Hl. rewrite /count_ok in Hok.
  rewrite /MAX_TIMERS in Hc. rewrite u32_small; [|lia]. split; lia.
Qed.
(** The other timers keep their handlers when one is started. *)
Lemma started_other s s' a new hdl dat b q t :
  started s s' a new hdl dat 0 → timers s !! new = None → b ≠ a → apps s !! b = Some q → timers s !! timer q = Some t →
  ∃ q' t', apps s' !! b = Some q' ∧ timers s' !! timer q' = Some t' ∧
    (time_out_handler t', data t', flags t') = (time_out_handler t, data t, flags t).
Proof.
  rewrite /started. intros Hc Hn Hb Hq Ht. destruct (config_lookup _ _ _ _ Hq Ht) as [H1 H2].
  destruct (config_back s' b (timer q) (time_out_handler t, data t, flags t)) as (q'&t'&?&?&_&?); [by rewrite Hc lookup_insert_ne| |by exists q', t'].
  rewrite Hc lookup_insert_ne; [done|]. intros ->. by rewrite Ht in Hn.
Qed.
(** A timer whose blocks are as before. *)
Lemma same_blocks s s' a (c : Z * Z) :
  apps s' !! a = apps s !! a → (∀ q, apps s !! a = Some q → timers s' !! timer q = timers s !! timer q) →
  handler_of s a = Some c → handler_of s' a = Some c ∧ (one_shot s a → one_shot s' a).
Proof.
  intros Ha Ht. rewrite /handler_of /one_shot Ha. destruct (apps s !! a) as [q|] eqn:Hq; [|done]. cbn.
  rewrite (Ht q eq_refl). intros Hc. split; [done|]. intros (q'&t&[= <-]&Ht'&Ho). exists q, t. by rewrite Ht.
Qed.
End start.
