(* ===== verification/TimerPending.v ===== *)
(** * Whether a service of the timers is due

    [timers_pending_for_service] looks at the wheels that the tick can touch: it sees every
    timer that the tick moves ([due_pending]), and when it sees none the tick changes none
    ([not_pending_pass]). *)

From S2P Require Import Prelude ListHead RbTree RbRep RbInsert RbWalk RbErase RbSpec.
From S2P Require Import Timers TimerFormat TimerTree TimerKeep TimerInv TimerPass TimerFire TimerSpec TimerLive.
#[local] Open Scope Z_scope.

Section pending.
Context {TR : TickRate} {H : Type}.
Implicit Types (s : tms H) (tr : Z → tree) (xs : list Z) (w : Z).

#[global] Instance tstate_eq_dec : EqDecision tstate.
Proof. solve_decision. Defined.

(** The wheels that [timers_pending_for_service] looks at. *)
Definition looked_at (ck : list Z) w : bool :=
  if w =? TICK then true else if w =? SEC then next_sec ck else if w =? MIN then next_min ck else next_hr ck.
Definition due_wheel (ck : list Z) tr w : bool := looked_at ck w && negb (bool_decide (inorder (tr w) = [])).

Lemma root_first s tr xs w :
  tinv s tr xs → is_wheel w → ∃ v, wheel_first w s = Some (v, s) ∧
    truthy v = negb (bool_decide (inorder (tr w) = [])).
Proof.
  intros Hi Hw. destruct (ti_wheel _ _ _ Hi w Hw) as (Ht&_&_). pose proof Ht as (H0&r&Hr&Htr). eexists. split.
  - by rewrite /wheel_first (bind_run _ _ _ _ _ (sfs_lock_run w s)) (bind_run _ _ _ _ _ (on_root_read _ _ _ _ _ H0 Hr (first_run _ _ _ Htr))).
  - destruct (inorder (tr w)) as [|a l] eqn:Ho; [done|]. cbn.
    apply truthy_true. assert (Hv : valid a); [|apply Hv].
    apply (wheel_valid _ _ _ _ Ht). rewrite Ho. left.
Qed.
Lemma pending_run s tr xs :
  tinv s tr xs → timers_pending_for_service s =
    Some (b2z (truthy (count s) && existsb (due_wheel (clk s) tr) [TICK; SEC; MIN; HRS]), s).
Proof.
  intros Hi. rewrite /timers_pending_for_service (bind_run (gets count) _ s _ s eq_refl).
  destruct (truthy (count s)); [|done]. cbn [negb andb existsb].
  destruct wheels as (W0&W1&W2&W3).
  destruct (root_first _ _ _ _ Hi W0) as (v0&R0&T0), (root_first _ _ _ _ Hi W1) as (v1&R1&T1),
    (root_first _ _ _ _ Hi W2) as (v2&R2&T2), (root_first _ _ _ _ Hi W3) as (v3&R3&T3).
  rewrite (bind_run _ _ _ _ _ R0) T0. rewrite /due_wheel.
  change (looked_at (clk s) TICK) with true. change (looked_at (clk s) SEC) with (next_sec (clk s)).
  change (looked_at (clk s) MIN) with (next_min (clk s)). change (looked_at (clk s) HRS) with (next_hr (clk s)).
  destruct (negb (bool_decide (inorder (tr TICK) = []))); [done|].
  rewrite (bind_run _ _ _ _ _ (next_sec_run _ _ _ Hi)).
  assert (Hif : ∀ (b : bool) w v, wheel_first w s = Some (v, s) →
    (if b then wheel_first w else mret 0) s = Some (if b then v else 0, s)) by by intros [] w v Hv.
  rewrite (bind_run _ _ _ _ _ (Hif (next_sec (clk s)) _ _ R1)).
  replace (truthy (if next_sec (clk s) then v1 else 0))
    with (next_sec (clk s) && negb (bool_decide (inorder (tr SEC) = []))) by by destruct (next_sec (clk s)).
  destruct (next_sec (clk s) && _); [done|]. rewrite (bind_run _ _ _ _ _ (next_min_run _ _ _ Hi)).
  rewrite (bind_run _ _ _ _ _ (Hif (next_min (clk s)) _ _ R2)).
  replace (truthy (if next_min (clk s) then v2 else 0))
    with (next_min (clk s) && negb (bool_decide (inorder (tr MIN) = []))) by by destruct (next_min (clk s)).
  destruct (next_min (clk s) && _); [done|]. rewrite (bind_run _ _ _ _ _ (next_hr_run _ _ _ Hi)).
  rewrite (bind_run _ _ _ _ _ (Hif (next_hr (clk s)) _ _ R3)).
  replace (truthy (if next_hr (clk s) then v3 else 0))
    with (next_hr (clk s) && negb (bool_decide (inorder (tr HRS) = []))) by by destruct (next_hr (clk s)).
  by destruct (next_hr (clk s) && _).
Qed.

(** A timer that a tick moves is in a wheel that is looked at. *)
Lemma moved_looked_at ck w r ct :
  is_wheel w → tick_pass ck (Running w r ct) ≠ Running w r ct → looked_at ck w = true.
Proof.
  intros Hw Hne. destruct (looked_at ck w) eqn:Hl; [done|]. exfalso. apply Hne. rewrite /tick_pass.
  assert (Hnd : ∀ v, v ≠ w → pass ck v (Running w r ct) = Running w r ct).
  { intros v Hv. apply pass_not_due. left. by apply not_eq_sym. }
  destruct (wheel_cases _ Hw) as [->|[->|[->| ->]]]; cbn in Hl; [done|..]; rewrite ?Hl; cbn [negb].
  - by apply Hnd.
  - rewrite (Hnd TICK) //. destruct (next_sec ck); [|done]. by apply Hnd.
  - rewrite (Hnd TICK) //. destruct (next_sec ck); [|done]. cbn [negb]. rewrite (Hnd SEC) //.
    destruct (next_min ck); [|done]. by apply Hnd.
Qed.
Lemma tick_pass_expired ck : tick_pass ck Expired = Expired.
Proof. rewrite /tick_pass. by destruct (next_sec ck), (next_min ck), (next_hr ck). Qed.
Lemma due_pending s tr xs a w r ct :
  tinv s tr xs → count s ≠ 0 → at_state s tr xs a (Running w r ct) →
  tick_pass (clk s) (Running w r ct) ≠ Running w r ct → timers_pending_for_service s = Some (1, s).
Proof.
  intros Hi Hc (Hw&Ha&_) Hne. rewrite (pending_run _ _ _ Hi) (proj2 (truthy_true _) Hc).
  assert (He : existsb (due_wheel (clk s) tr) [TICK; SEC; MIN; HRS] = true); [|by rewrite He].
  apply existsb_exists. exists w. split.
  - destruct (wheel_cases _ Hw) as [->|[->|[->| ->]]]; cbn; auto.
  - rewrite /due_wheel (moved_looked_at _ _ _ _ Hw Hne). rewrite bool_decide_eq_false_2 //.
    intros Hn. rewrite Hn in Ha. by apply elem_of_nil in Ha.
Qed.
(** When nothing is pending the tick changes no timer. *)
Lemma not_pending_pass s tr xs a st :
  tinv s tr xs → counted s tr → timers_pending_for_service s = Some (0, s) → at_state s tr xs a st → tick_pass (clk s) st = st.
Proof.
  intros Hi Hct Hp Hst. destruct (decide (tick_pass (clk s) st = st)) as [|Hne]; [done|].
  destruct st as [w r ct|]; [|by rewrite tick_pass_expired in Hne].
  by rewrite (due_pending _ _ _ _ _ _ _ Hi (counted_running _ _ _ _ _ _ _ Hct Hst) Hst Hne) in Hp.
Qed.
End pending.
