(* ===== verification/Task.v ===== *)
(** * Tasks and the global state of the SFS scheduler

    The data of src/cmn/sched_sfs.h and the file-scope variables of
    src/core/sched.c, thread_lib.c, soft_irq.c and iostream.c.  One record
    [sys] holds them all; a C function over these globals is a computation in
    [M sys].

    - Task control blocks live in [tasks], indexed by their address; an access
      to an address that is not allocated is undefined behaviour.
    - The [hd] field of a task and every queue head are nodes of one store of
      intrusive lists, [lst]; the other list fields of a task that the code
      uses ([sig_hd]) are nodes of [slst].
    - [stacks] is the set of allocated task stacks.
    - What the library asks of the operating system ([times], [calloc], [backtrace]) is the
      interface [Env]; calls that leave the library (a user's signal handler, a
      pthread, a message on the terminal) are recorded in [trace]. *)

From stdpp Require Export strings.
From S2P Require Import Prelude ListHead.

(** ** Constants of sched_sfs.h and sched.c *)
Definition MAX_PRIO : Z := 20.
Definition MAX_TASK_NAME : nat := 10.
Definition DEFAULT_TIME_SLICE : Z := 60.
Definition DEFAULT_STACK_SIZE : Z := 10 * 1024.
Definition LOAD_THRESHOLD : Z := 40.
Definition DEF_HPT_TSLICE : Z := 60.
Definition DEF_LOW_TSLICE : Z := 30.
Definition MAX_FDS : Z := 16.

(** Signal numbers, as the comment of sched_sfs.h lists them. *)
Definition SIGSEGV : Z := 11.
Definition SIGALRM : Z := 14.
Definition SIGIO : Z := 29.

(** ** Data types *)
Inductive tsk_state :=
  | TASK_INIT | TASK_RUNNING | TASK_RUNNABLE | TASK_STOPPED
  | TASK_INTERRUPTIBLE | TASK_UNINTERRUPTIBLE | TASK_DEBUG.

(** Where a saved context resumes: nowhere yet (zeroed memory), at the
    [nsetjmp] of a function, or at [clone_thread] with the arguments
    [spawn_task] put on the new stack. *)
Inductive call_site := in_spawn_task | in_context_switch | in_switch_to_os_threading.
Inductive jmp_buf :=
  | JB_zero
  | JB_at (site : call_site)
  | JB_clone_thread (tsk_wrapper : positive) (arg : Z).

#[global] Instance tsk_state_eq_dec : EqDecision tsk_state.
Proof. solve_decision. Defined.
#[global] Instance call_site_eq_dec : EqDecision call_site.
Proof. solve_decision. Defined.
#[global] Instance jmp_buf_eq_dec : EqDecision jmp_buf.
Proof. solve_decision. Defined.

Record attr := MkAttr { attr_stksze : Z; attr_prio : Z; attr_schedalgo : Z }.

Record tsk := MkTsk {
  taskname : string;
  stk : option positive;
  ptid : Z;
  tid : Z;
  onrq : Z;
  stksize : Z;
  currt : Z;
  trt : Z;
  stime : Z;
  state : tsk_state;
  tslice : Z;
  cpuusage : Z;
  prio : Z;
  swct : Z;
  needsched : Z;
  signals : Z;
  sig_pending : Z;
  event : Z;
  bt_size : Z;
  stk_trc_sym : option (list string);
  stick : Z;
  etick : Z;
  regs : jmp_buf
}.

(** [memset (p, 0, sizeof (struct tsk))]. *)
Definition tsk_zero : tsk :=
  MkTsk "" None 0 0 0 0 0 0 0 TASK_INIT 0 0 0 0 0 0 0 0 0 None 0 0 JB_zero.

Record signal_s := MkSignal { sg_sig : Z; sg_handler : option positive }.

Record lock_t := MkLock { lk_owner : option positive; lk_lock : Z; lk_prio : Z }.

(** The nodes of the task queues: the heads [rq.hd[i]], [wq.hd],
    [io_Q.io_wait_task[fd]] and [lock->wq], and the field [hd] of a task. *)
Inductive lnode :=
  | N_rq (i : Z) | N_wq | N_io (fd : Z) | N_lock (l : positive) | N_tsk (p : positive).
(** The nodes of the signal-handler lists: [tsk->sig_hd] and [signal_s.next]. *)
Inductive snode := S_tsk (p : positive) | S_sig (s : positive).

#[global] Instance lnode_eq_dec : EqDecision lnode.
Proof. solve_decision. Defined.
#[global] Instance snode_eq_dec : EqDecision snode.
Proof. solve_decision. Defined.
#[global] Program Instance lnode_countable : Countable lnode :=
  inj_countable'
    (λ n, match n with
          | N_rq i => inl (inl i) | N_wq => inl (inr tt)
          | N_io fd => inr (inl fd) | N_lock l => inr (inr (inl l))
          | N_tsk p => inr (inr (inr p)) end)
    (λ s, match s with
          | inl (inl i) => N_rq i | inl (inr tt) => N_wq
          | inr (inl fd) => N_io fd | inr (inr (inl l)) => N_lock l
          | inr (inr (inr p)) => N_tsk p end) _.
Next Obligation. by intros []. Qed.
#[global] Program Instance snode_countable : Countable snode :=
  inj_countable' (λ n, match n with S_tsk p => inl p | S_sig s => inr s end)
                 (λ s, match s with inl p => S_tsk p | inr s => S_sig s end) _.
Next Obligation. by intros []. Qed.

(** [list_entry (ptr, struct tsk, hd)]: only the address of a task's [hd]. *)
Definition list_entry_tsk (n : lnode) : option positive :=
  match n with N_tsk p => Some p | _ => None end.

(** Calls that leave the library. *)
Inductive event_t :=
  | Ev_handler (h : positive) (signo : Z)
  | Ev_raise (signo : Z)
  | Ev_print (msg : string)
  | Ev_printf (fmt : string) (words : list string) (nums : list Z)
  | Ev_host (call : string) (words : list string) (nums : list Z)
  | Ev_pthread_create (p : positive)
  | Ev_pthread_cancel (ptid : Z).

(** ** The global variables *)
Record sys := MkSys {
  tasks : gmap positive tsk;
  lst : gmap lnode (list_head lnode);
  slst : gmap snode (list_head snode);
  sigs : gmap positive signal_s;
  locks : gmap positive lock_t;
  current : option positive;
  idle : option positive;
  parent : option positive;
  nxt_imm_task : option positive;
  softirq_d : option positive;
  nrp : Z;
  nwp : Z;
  tswc : Z;
  jiffies : Z;
  sched_need : Z;
  os_sched_enabled : Z;
  switch_bk : Z;
  im_count : Z;
  not_im_count : Z;
  task_count : Z;
  taskid : Z;
  alloc_size : Z;
  reg_signals : Z;
  blocked : gset Z;
  os_handlers : gset Z;
  trace : list event_t;
  stacks : gset positive;
  n_times : nat;
  n_calloc : nat
}.

(** [unsigned long] and [size_t] of the i386 target of the SFS build. *)
Definition ulong : Z → Z := u32.
(** [long], hence [clock_t], of the same target. *)
Definition slong : Z → Z := s32.

(** Zero-initialised globals, nothing allocated. *)
Definition sys_zero : sys :=
  MkSys ∅ ∅ ∅ ∅ ∅ None None None None None
    0 0 0 0 0 0 0 0 0 0 0 0 0 ∅ ∅ [] ∅ 0 0.

(** ** The operating system

    [env_times k] is the value of the [k]-th call of [times (NULL)];
    [env_calloc k] the address the [k]-th allocation returned, [None] for a
    null pointer; [env_backtrace s] the number of frames [backtrace] finds,
    [env_backtrace_symbols s] their names, [None] for a null pointer;
    [env_sizeof x] the size the compiler gives to [struct x]. *)
Class Env := {
  env_times : nat → Z;
  env_calloc : nat → option positive;
  env_backtrace : sys → Z;
  env_backtrace_symbols : sys → option (list string);
  env_sizeof : string → Z
}.

(** ** Field updates *)
Definition eta_tsk (t : tsk) : tsk :=
  MkTsk (taskname t) (stk t) (ptid t) (tid t) (onrq t) (stksize t) (currt t)
    (trt t) (stime t) (state t) (tslice t) (cpuusage t) (prio t) (swct t)
    (needsched t) (signals t) (sig_pending t) (event t) (bt_size t) (stk_trc_sym t) (stick t)
    (etick t) (regs t).
Definition eta_sys (s : sys) : sys :=
  MkSys (tasks s) (lst s) (slst s) (sigs s) (locks s) (current s) (idle s) (parent s)
    (nxt_imm_task s) (softirq_d s) (nrp s) (nwp s) (tswc s) (jiffies s) (sched_need s)
    (os_sched_enabled s) (switch_bk s) (im_count s) (not_im_count s) (task_count s)
    (taskid s) (alloc_size s) (reg_signals s) (blocked s) (os_handlers s) (trace s)
    (stacks s) (n_times s) (n_calloc s).

(** The record [eta r] with the field [proj] replaced by [v]. *)
Ltac upd eta r proj v :=
  let b := eval cbv beta delta [eta] in (eta r) in
  lazymatch b with
  | context C [proj r] => let u := context C [v] in exact u
  end.

Definition set_taskname v t : tsk := ltac:(upd eta_tsk t taskname v).
Definition set_stk v t : tsk := ltac:(upd eta_tsk t stk v).
Definition set_tid v t : tsk := ltac:(upd eta_tsk t tid v).
Definition set_onrq v t : tsk := ltac:(upd eta_tsk t onrq v).
Definition set_stksize v t : tsk := ltac:(upd eta_tsk t stksize v).
Definition set_currt v t : tsk := ltac:(upd eta_tsk t currt v).
Definition set_trt v t : tsk := ltac:(upd eta_tsk t trt v).
Definition set_stime v t : tsk := ltac:(upd eta_tsk t stime v).
Definition set_state v t : tsk := ltac:(upd eta_tsk t state v).
Definition set_tslice v t : tsk := ltac:(upd eta_tsk t tslice v).
Definition set_cpuusage v t : tsk := ltac:(upd eta_tsk t cpuusage v).
Definition set_prio v t : tsk := ltac:(upd eta_tsk t prio v).
Definition set_swct v t : tsk := ltac:(upd eta_tsk t swct v).
Definition set_needsched v t : tsk := ltac:(upd eta_tsk t needsched v).
Definition set_signals v t : tsk := ltac:(upd eta_tsk t signals v).
Definition set_sig_pending v t : tsk := ltac:(upd eta_tsk t sig_pending v).
Definition set_event v t : tsk := ltac:(upd eta_tsk t event v).
Definition set_bt_size v t : tsk := ltac:(upd eta_tsk t bt_size v).
Definition set_stk_trc_sym v t : tsk := ltac:(upd eta_tsk t stk_trc_sym v).
Definition set_stick v t : tsk := ltac:(upd eta_tsk t stick v).
Definition set_etick v t : tsk := ltac:(upd eta_tsk t etick v).
Definition set_regs v t : tsk := ltac:(upd eta_tsk t regs v).

Definition set_tasks v s : sys := ltac:(upd eta_sys s tasks v).
Definition set_lst v s : sys := ltac:(upd eta_sys s lst v).
Definition set_slst v s : sys := ltac:(upd eta_sys s slst v).
Definition set_sigs v s : sys := ltac:(upd eta_sys s sigs v).
Definition set_locks v s : sys := ltac:(upd eta_sys s locks v).
Definition set_current v s : sys := ltac:(upd eta_sys s current v).
Definition set_idle v s : sys := ltac:(upd eta_sys s idle v).
Definition set_parent v s : sys := ltac:(upd eta_sys s parent v).
Definition set_nxt_imm_task v s : sys := ltac:(upd eta_sys s nxt_imm_task v).
Definition set_softirq_d v s : sys := ltac:(upd eta_sys s softirq_d v).
Definition set_nrp v s : sys := ltac:(upd eta_sys s nrp v).
Definition set_nwp v s : sys := ltac:(upd eta_sys s nwp v).
Definition set_tswc v s : sys := ltac:(upd eta_sys s tswc v).
Definition set_jiffies v s : sys := ltac:(upd eta_sys s jiffies v).
Definition set_sched_need v s : sys := ltac:(upd eta_sys s sched_need v).
Definition set_os_sched_enabled v s : sys := ltac:(upd eta_sys s os_sched_enabled v).
Definition set_switch_bk v s : sys := ltac:(upd eta_sys s switch_bk v).
Definition set_im_count v s : sys := ltac:(upd eta_sys s im_count v).
Definition set_not_im_count v s : sys := ltac:(upd eta_sys s not_im_count v).
Definition set_task_count v s : sys := ltac:(upd eta_sys s task_count v).
Definition set_taskid v s : sys := ltac:(upd eta_sys s taskid v).
Definition set_alloc_size v s : sys := ltac:(upd eta_sys s alloc_size v).
Definition set_reg_signals v s : sys := ltac:(upd eta_sys s reg_signals v).
Definition set_blocked v s : sys := ltac:(upd eta_sys s blocked v).
Definition set_os_handlers v s : sys := ltac:(upd eta_sys s os_handlers v).
Definition set_trace v s : sys := ltac:(upd eta_sys s trace v).
Definition set_stacks v s : sys := ltac:(upd eta_sys s stacks v).
Definition set_n_times v s : sys := ltac:(upd eta_sys s n_times v).
Definition set_n_calloc v s : sys := ltac:(upd eta_sys s n_calloc v).

(** ** Accesses *)

(** Dereference of a task pointer. *)
Definition tsk_ld (p : positive) : M sys tsk := λ s,
  match tasks s !! p with Some t => Some (t, s) | None => None end.
(** [p->field op= v]: a read-modify-write of one task. *)
Definition tsk_mod (f : tsk → tsk) (p : positive) : M sys unit := λ s,
  match tasks s !! p with
  | Some t => Some (tt, set_tasks (<[p := f t]> (tasks s)) s)
  | None => None
  end.
(** A nullable pointer that is dereferenced. *)
Definition nonnull (o : option positive) : M sys positive := liftO o.
(** The current task, as [get_current ()] in sched.c. *)
Definition get_current : M sys (option positive) := gets current.
Definition cur : M sys positive := p ← get_current; nonnull p.

(** List operations on the task queues and on the signal lists. *)
Definition onl {A} (m : M (gmap lnode (list_head lnode)) A) : M sys A := zoom lst set_lst m.
Definition onsl {A} (m : M (gmap snode (list_head snode)) A) : M sys A := zoom slst set_slst m.

(** [&rq.hd[i]] and [&io_Q.io_wait_task[fd]] with the array bounds. *)
Definition rq_hd (i : Z) : M sys lnode :=
  if decide (0 ≤ i < MAX_PRIO)%Z then mret (N_rq i) else ub.
Definition io_hd (fd : Z) : M sys lnode :=
  if decide (0 ≤ fd < MAX_FDS)%Z then mret (N_io fd) else ub.

Definition emit (e : event_t) : M sys unit := modify (λ s, set_trace (trace s ++ [e]) s).

(** [times (NULL)] and [calloc]. *)
Definition times `{Env} : M sys Z :=
  k ← gets n_times;
  modify (set_n_times (S k));;
  mret (env_times k).
Definition calloc `{Env} : M sys (option positive) :=
  k ← gets n_calloc;
  modify (set_n_calloc (S k));;
  mret (env_calloc k).

(** [0x1 << n] on an [int]; shifting by 32 or more is undefined. *)
Definition shl1 (n : Z) : M sys Z :=
  if decide (0 ≤ n < 32)%Z then mret (s32 (Z.shiftl 1 n)) else ub.

(** [sigprocmask] as [signals_block] and [signals_unblock] of interrupt.c use it. *)
Definition signals_block (signo : Z) : M sys unit :=
  modify (λ s, set_blocked ({[signo]} ∪ blocked s) s).
Definition signals_unblock (signo : Z) : M sys unit :=
  modify (λ s, set_blocked (blocked s ∖ {[signo]}) s).

(** ** Triples of the accesses *)
Section access.
Context `{E : Env}.
Implicit Types (s : sys) (p : positive) (t : tsk).

Lemma wp_tsk_ld p t Φ s : tasks s !! p = Some t → Φ t s → wp (tsk_ld p) Φ s.
Proof. intros Hp HΦ. by rewrite /wp /tsk_ld Hp. Qed.
Lemma wp_tsk_mod f p t (Φ : unit → sys → Prop) s :
  tasks s !! p = Some t → Φ tt (set_tasks (<[p := f t]> (tasks s)) s) → wp (tsk_mod f p) Φ s.
Proof. intros Hp HΦ. by rewrite /wp /tsk_mod Hp. Qed.
Lemma wp_onl {A} (m : M _ A) a l (Φ : A → sys → Prop) s :
  m (lst s) = Some (a, l) → Φ a (set_lst l s) → wp (onl m) Φ s.
Proof. intros Hm HΦ. by rewrite /wp /onl /zoom Hm. Qed.
Lemma wp_rq_hd i Φ s : (0 ≤ i < MAX_PRIO)%Z → Φ (N_rq i) s → wp (rq_hd i) Φ s.
Proof. intros Hi HΦ. by rewrite /wp /rq_hd decide_True. Qed.
Lemma wp_io_hd i Φ s : (0 ≤ i < MAX_FDS)%Z → Φ (N_io i) s → wp (io_hd i) Φ s.
Proof. intros Hi HΦ. by rewrite /wp /io_hd decide_True. Qed.
Lemma wp_cur c Φ s : current s = Some c → Φ c s → wp cur Φ s.
Proof. intros Hc HΦ. rewrite /wp /cur /get_current /mbind /M_bind /= Hc //. Qed.
Lemma wp_times (Φ : Z → sys → Prop) s :
  Φ (env_times (n_times s)) (set_n_times (S (n_times s)) s) → wp times Φ s.
Proof. done. Qed.
Lemma wp_emit e (Φ : unit → sys → Prop) s :
  Φ tt (set_trace (trace s ++ [e]) s) → wp (emit e) Φ s.
Proof. done. Qed.
Lemma wp_nonnull p Φ s : Φ p s → wp (nonnull (Some p)) Φ s.
Proof. done. Qed.

Lemma set_lst_id s : set_lst (lst s) s = s.
Proof. by destruct s. Qed.
End access.

(** One step of a computation over [sys]: the accesses whose side conditions are
    in the context, after evaluating the fields of the state. *)
Ltac sys_look :=
  cbn [tasks lst slst sigs locks current idle parent nxt_imm_task softirq_d nrp nwp
       sched_need n_times trace set_tasks set_lst set_slst set_sigs set_locks
       set_current set_idle set_parent set_nxt_imm_task set_softirq_d set_nrp set_nwp
       set_tswc set_jiffies set_sched_need set_os_sched_enabled set_switch_bk
       set_im_count set_not_im_count set_task_count set_taskid set_alloc_size
       set_reg_signals set_blocked set_os_handlers set_trace set_stacks set_n_times
       set_n_calloc];
  first [ eassumption | reflexivity | by rewrite lookup_insert_eq
        | rewrite !lookup_insert_ne; [eassumption|first [done|congruence]..] ].
Ltac sys_step :=
  lazymatch goal with
  | |- wp times _ _ => apply wp_times
  | |- wp (emit _) _ _ => apply wp_emit
  | |- wp (nonnull (Some _)) _ _ => apply wp_nonnull
  | |- wp (signals_block _) _ _ => apply wp_modify
  | |- wp (signals_unblock _) _ _ => apply wp_modify
  | |- wp cur _ _ => eapply wp_cur; [sys_look|]
  | |- wp (tsk_ld _) _ _ => eapply wp_tsk_ld; [sys_look|]
  | |- wp (tsk_mod _ _) _ _ => eapply wp_tsk_mod; [sys_look|]
  | |- wp (rq_hd _) _ _ => apply wp_rq_hd; [by eauto|]
  | |- wp (io_hd _) _ _ => apply wp_io_hd; [by eauto|]
  | |- wp (_ ≫= _) _ _ => apply wp_bind
  | |- wp (mret _) _ _ => apply wp_ret
  | |- wp (gets _) _ _ => apply wp_gets
  | |- wp (modify _) _ _ => apply wp_modify
  end; cbn beta.
Ltac sys_steps := repeat sys_step.

(** The same for [wlp], as long as the next step cannot fail. *)
Ltac sys_wlp :=
  repeat (lazymatch goal with
  | |- wlp (_ ≫= _) _ _ => apply wlp_bind
  | |- wlp _ _ _ => apply wlp_of_wp; sys_step
  end; cbn beta).
