(* ===== verification/Signal.v ===== *)
(** * Signals of tasks

    The signal masks of a task (src/core/sched.c, [sig_pending] and the
    [set_*_signal_*] functions), the handlers a task registers with [tm_signal]
    (src/core/thread_lib.c), and their delivery when the task is scheduled
    (src/core/interrupt.c, [process_signal]). *)

From S2P Require Import Prelude ListHead Task.

Section Signal.
Context `{E : Env}.

(** sched.c *)
Definition sig_pending_p : M sys bool :=
  c ← cur;
  t ← tsk_ld c;
  mret (truthy (Z.land (signals t) (sig_pending t))).

Definition set_current_signal_mask (sig_no : Z) : M sys unit :=
  c ← cur;
  tsk_mod (λ t, set_signals (Z.lor (signals t) (s32 sig_no)) t) c.

Definition set_current_signal_pend_mask (sig_no : Z) : M sys unit :=
  c ← cur;
  tsk_mod (λ t, set_sig_pending (Z.lor (sig_pending t) (s32 sig_no)) t) c.

Definition set_idle_signal_mask (sig_no : Z) : M sys unit :=
  i ← gets idle;
  i ← nonnull i;
  tsk_mod (λ t, set_signals (Z.lor (signals t) (s32 sig_no)) t) i.

(** thread_lib.c: the first registered handler of [signo] is called.  The
    loop stops at the first entry that matches and has a handler. *)
Definition list_entry_sig (n : snode) : option positive :=
  match n with S_sig s => Some s | _ => None end.

Fixpoint invoke_loop (signo : Z) (nodes : list snode) : M sys unit :=
  match nodes with
  | [] => mret tt
  | n :: nodes =>
      sp ← liftO (list_entry_sig n);
      ss ← gets sigs;
      sg ← liftO (ss !! sp);
      match sg_handler sg with
      | Some h => if (sg_sig sg =? signo)%Z then emit (Ev_handler h signo)
                  else invoke_loop signo nodes
      | None => invoke_loop signo nodes
      end
  end.

Definition invoke_signal_hanlder (signo : Z) : M sys unit :=
  c ← cur;
  nodes ← onsl (list_for_each (S_tsk c));
  invoke_loop signo nodes.

(** interrupt.c: [do { if (res && 0x1) invoke (i); i++; } while (res >>= 0x1)].
    [res] has 32 bits, so 32 rounds are enough. *)
Fixpoint process_signal_loop (fuel : nat) (res i : Z) : M sys unit :=
  match fuel with
  | 0%nat => ub
  | S fuel =>
      when (truthy res && truthy 1) (invoke_signal_hanlder i);;
      let res := Z.shiftr res 1 in
      if truthy res then process_signal_loop fuel res (i + 1) else mret tt
  end.

Definition process_signal (p : positive) : M sys unit :=
  t ← tsk_ld p;
  process_signal_loop 32 (u32 (Z.land (signals t) (sig_pending t))) 1;;
  tsk_mod (set_sig_pending 0) p.

(** interrupt.c: the handler the library installs for a user's signal. *)
Definition generic_sig_handler (sig : Z) : M sys unit :=
  b ← shl1 (sig - 1);
  let bit_pos := u32 b in
  signals_block sig;;
  set_current_signal_pend_mask bit_pos;;
  signals_unblock sig.

Definition os_register_signal_handler (signo : Z) : M sys unit :=
  modify (λ s, set_os_handlers ({[signo]} ∪ os_handlers s) s).

(** thread_lib.c *)
Definition tm_calloc (nmemb size : Z) : M sys (option positive) :=
  modify (λ s, set_alloc_size (ulong (alloc_size s + size)) s);;
  calloc.
Definition tm_malloc (size : Z) : M sys (option positive) := tm_calloc 1 size.

Definition tm_signal (signo : Z) (handler : option positive) : M sys Z :=
  b ← shl1 (signo - 1);
  let bit_pos := u32 b in
  sig ← tm_malloc (env_sizeof "signal_s");
  match sig with
  | None => mret (-1)%Z
  | Some sig =>
      modify (λ s, set_sigs (<[sig := MkSignal signo handler]> (sigs s)) s);;
      onsl (INIT_LIST_HEAD (S_sig sig));;
      c ← cur;
      onsl (list_add (S_sig sig) (S_tsk c));;
      set_current_signal_mask bit_pos;;
      set_idle_signal_mask bit_pos;;
      rs ← gets reg_signals;
      when (negb (truthy (Z.land rs bit_pos)))
        (os_register_signal_handler signo;;
         modify (set_reg_signals (Z.lor rs bit_pos)));;
      mret 0%Z
  end.

Definition tm_raise (sig : Z) : M sys Z :=
  b ← shl1 (sig - 1);
  set_current_signal_pend_mask b;;
  mret 0%Z.
End Signal.

(** ** Delivery *)
Section delivery.
Context `{E : Env}.
Implicit Types (s : sys) (p : positive).

(** The registrations of task [p], in list order. *)
Definition sig_list (s : sys) (p : positive) (xs : list positive) : Prop :=
  dll (slst s) (S_tsk p) (S_sig <$> xs) ∧ Forall (λ x, is_Some (sigs s !! x)) xs.

(** The handler that [invoke_signal_hanlder] calls: that of the first
    registration for the signal that has a handler. *)
Fixpoint handler_for (ss : gmap positive signal_s) (signo : Z) (xs : list positive)
  : option positive :=
  match xs with
  | [] => None
  | x :: xs =>
      match ss !! x with
      | Some (MkSignal n (Some h)) => if (n =? signo)%Z then Some h else handler_for ss signo xs
      | _ => handler_for ss signo xs
      end
  end.

Definition call (s : sys) (xs : list positive) (signo : Z) : list event_t :=
  match handler_for (sigs s) signo xs with
  | Some h => [Ev_handler h signo]
  | None => []
  end.

Lemma set_trace_nil s : set_trace (trace s ++ []) s = s.
Proof. destruct s. by rewrite /set_trace /= app_nil_r. Qed.
Lemma set_slst_id s : set_slst (slst s) s = s.
Proof. by destruct s. Qed.

Lemma invoke_loop_run s signo xs :
  Forall (λ x, is_Some (sigs s !! x)) xs →
  invoke_loop signo (S_sig <$> xs) s = Some (tt, set_trace (trace s ++ call s xs signo) s).
Proof.
  rewrite /call. induction 1 as [|x xs [[n h] Hx] Hxs IH]; simpl.
  { by rewrite set_trace_nil. }
  rewrite /mbind /M_bind /= Hx /=. destruct h as [h|]; [|done].
  by destruct (n =? signo)%Z.
Qed.

Lemma invoke_signal_hanlder_run s c xs signo :
  current s = Some c → sig_list s c xs →
  invoke_signal_hanlder signo s = Some (tt, set_trace (trace s ++ call s xs signo) s).
Proof.
  intros Hc [Hd Hv].
  rewrite /invoke_signal_hanlder /cur /get_current /mbind /M_bind /= Hc /=.
  rewrite /onsl /zoom (list_for_each_spec _ _ _ Hd) set_slst_id.
  by apply invoke_loop_run.
Qed.

Definition calls (s : sys) (xs : list positive) (i n : Z) : list event_t :=
  seqZ i n ≫= call s xs.

Lemma shiftr1_lt res k : (0 ≤ res < 2 ^ Z.of_nat (S k))%Z → (0 ≤ Z.shiftr res 1 < 2 ^ Z.of_nat k)%Z.
Proof.
  rewrite Nat2Z.inj_succ Z.pow_succ_r; [|lia]. rewrite Z.shiftr_div_pow2 //.
  intros. split; [apply Z.div_pos; lia|apply Z.div_lt_upper_bound; lia].
Qed.
Lemma log2_shiftr1 res : (1 < res)%Z → Z.log2 res = (Z.log2 (Z.shiftr res 1) + 1)%Z.
Proof.
  intros. rewrite Z.log2_shiftr; [|lia].
  pose proof (Z.log2_le_mono 2 res). change (Z.log2 2) with 1%Z in *. lia.
Qed.

(** The loop calls the handler of every signal number up to the highest
    pending bit. *)
Lemma process_signal_loop_run k s c xs res i :
  current s = Some c → sig_list s c xs → (0 < res < 2 ^ Z.of_nat k)%Z →
  process_signal_loop k res i s =
    Some (tt, set_trace (trace s ++ calls s xs i (Z.log2 res + 1)) s).
Proof.
  intros Hc Hxs. revert s res i Hc Hxs. induction k as [|k IH]; intros s res i Hc Hxs Hres.
  { simpl in Hres. lia. }
  cbn [process_signal_loop]. rewrite (proj2 (truthy_true res)); [|lia].
  change (truthy 1) with true. cbn [andb when]. rewrite /mbind /M_bind.
  rewrite (invoke_signal_hanlder_run _ _ _ _ Hc Hxs).
  destruct (truthy (Z.shiftr res 1)) eqn:Ht.
  - apply truthy_true in Ht.
    destruct (shiftr1_lt res k) as [? ?]; [lia|].
    assert (1 < res)%Z.
    { destruct (decide (res = 1)%Z) as [->|]; [done|lia]. }
    rewrite IH; [|done|done|lia]. do 2 f_equal.
    rewrite (log2_shiftr1 res) // /calls (seqZ_cons i); [|pose proof (Z.log2_nonneg (Z.shiftr res 1)); lia].
    cbn [mbind list_bind]. rewrite app_assoc Z.pred_succ. done.
  - apply truthy_false in Ht.
    assert (res = 1)%Z as ->.
    { rewrite Z.shiftr_div_pow2 // in Ht. apply Z.div_small_iff in Ht; lia. }
    rewrite /calls /= app_nil_r. done.
Qed.

(** Delivering the pending signals of the current task. *)
Definition delivered (s : sys) (t : tsk) (xs : list positive) : list event_t :=
  let res := u32 (Z.land (signals t) (sig_pending t)) in
  if (res =? 0)%Z then [] else calls s xs 1 (Z.log2 res + 1).

Lemma process_signal_run s c t xs :
  current s = Some c → tasks s !! c = Some t → sig_list s c xs →
  process_signal c s =
    Some (tt, set_tasks (<[c := set_sig_pending 0 t]> (tasks s))
                (set_trace (trace s ++ delivered s t xs) s)).
Proof.
  intros Hc Ht Hxs. rewrite /process_signal /mbind /M_bind /tsk_ld Ht /delivered.
  set (res := u32 _). pose proof (u32_range (Z.land (signals t) (sig_pending t))) as Hr.
  fold res in Hr. destruct (Z.eqb_spec res 0) as [->|Hres].
  - simpl. by rewrite /tsk_mod Ht app_nil_r.
  - rewrite (process_signal_loop_run 32 s c xs); [|done|done|lia].
    by rewrite /tsk_mod /= Ht.
Qed.
End delivery.
