(* ===== verification/Sched.v ===== *)
(** * The scheduler (src/core/sched.c)

    Run queues per priority, the wait queue and the I/O wait queues, the choice
    of the next task, the context switch, and the accounting of time slices. *)

From S2P Require Import Prelude ListHead Task Signal.

Section Sched.
Context `{E : Env}.

(** ** Run queue and wait queue *)
Definition init_scheduler : M sys unit :=
  (fix go (n : nat) : M sys unit :=
     match n with
     | 0%nat => mret tt
     | S n => h ← rq_hd (Z.of_nat n); onl (INIT_LIST_HEAD h);; go n
     end) (Z.to_nat MAX_PRIO);;
  onl (INIT_LIST_HEAD N_wq).

Definition task_find_right_RQ (ntsk : positive) : M sys unit :=
  t ← tsk_ld ntsk;
  h ← rq_hd (prio t);
  onl (list_add_tail (N_tsk ntsk) h);;
  tsk_mod (set_onrq 1) ntsk;;
  modify (λ s, set_nrp (s32 (nrp s + 1)) s).

Definition rm_n_move_task_new_rq (p : positive) : M sys unit :=
  onl (list_del (N_tsk p));;
  t ← tsk_ld p;
  h ← rq_hd (prio t);
  onl (list_add_tail (N_tsk p) h).

Definition bug_wait_q : event_t :=
  Ev_print "BUG:  WAIT_Q task -> WAIT_Q TASK - It should be RQ->WQ".
Definition bug_wakeup : event_t :=
  Ev_print "BUG: Trying to wake up the task more the one time .......".

Definition add_task_to_wait_Q (ntsk : positive) : M sys unit :=
  t ← tsk_ld ntsk;
  if truthy (onrq t) then
    onl (list_del (N_tsk ntsk));;
    modify (λ s, set_nrp (s32 (nrp s - 1)) s);;
    onl (list_add_tail (N_tsk ntsk) N_wq);;
    tsk_mod (set_state TASK_INTERRUPTIBLE) ntsk;;
    tsk_mod (set_onrq 0) ntsk;;
    now ← times;
    tsk_mod (set_stime now) ntsk;;
    modify (λ s, set_nwp (s32 (nwp s + 1)) s)
  else emit bug_wait_q.

(** The update of [nxt_imm_task] that [wakeup_task] and [wakeup_new_task] share:
    the woken task is cached unless a task of the same or a better priority is. *)
Definition note_imm_task (p : positive) : M sys unit :=
  nx ← gets nxt_imm_task;
  match nx with
  | Some q =>
      tq ← tsk_ld q;
      tp ← tsk_ld p;
      when (prio tp <? prio tq)%Z (modify (set_nxt_imm_task (Some p)))
  | None => modify (set_nxt_imm_task (Some p))
  end.

(** [#ifndef RT_CONSTRAINT]: ask for a reschedule when the woken task has a
    better priority than the current one. *)
Definition note_sched_need (p : positive) : M sys unit :=
  c ← cur;
  tc ← tsk_ld c;
  tp ← tsk_ld p;
  when (prio tp <? prio tc)%Z (modify (set_sched_need 1)).

Definition wakeup_task (p : positive) : M sys unit :=
  t ← tsk_ld p;
  when (truthy (onrq t)) (emit bug_wakeup);;
  when (negb (truthy (onrq t)))
    (onl (list_del (N_tsk p));;
     h ← rq_hd (prio t);
     onl (list_add (N_tsk p) h);;
     tsk_mod (set_onrq 1) p;;
     modify (λ s, set_nrp (s32 (nrp s + 1)) s);;
     modify (λ s, set_nwp (s32 (nwp s - 1)) s));;
  note_sched_need p;;
  note_imm_task p;;
  now ← times;
  tsk_mod (λ t, set_stime (slong (now - stime t)) t) p.

Definition wakeup_new_task (ntsk : positive) : M sys unit :=
  note_sched_need ntsk;;
  task_find_right_RQ ntsk;;
  note_imm_task ntsk;;
  now ← times;
  tsk_mod (set_stime now) ntsk.

(** ** Choice of the next task *)

(** The [while (prio < MAX_PRIO)] loop; [n] counts the priorities left. *)
Fixpoint next_task_loop (n : nat) (i : Z) : M sys (option positive) :=
  match n with
  | 0%nat => mret None
  | S n =>
      h ← rq_hd i;
      e ← onl (list_empty h);
      if negb e then
        f ← onl (get_next h);
        p ← liftO (list_entry_tsk f);
        c ← gets current;
        when (bool_decide (Some p ≠ c)) (rm_n_move_task_new_rq p);;
        mret (Some p)
      else next_task_loop n (i + 1)
  end.

Definition next_task_ready_to_run : M sys (option positive) :=
  n ← gets nrp;
  if negb (truthy n) then mret None
  else next_task_loop (Z.to_nat MAX_PRIO) 0.

Definition get_next_eligible_task_to_run : M sys (option positive) :=
  nx ← gets nxt_imm_task;
  n ← gets nrp;
  if negb (truthy n) then
    modify (λ s, set_im_count (s32 (im_count s + 1)) s);;
    gets idle
  else match nx with
  | Some p =>
      c ← gets current;
      when (bool_decide (c ≠ Some p))
        (modify (λ s, set_im_count (s32 (im_count s + 1)) s);;
         modify (set_nxt_imm_task None));;
      mret nx
  | None =>
      nx ← next_task_ready_to_run;
      when (bool_decide (nx ≠ None))
        (modify (λ s, set_not_im_count (s32 (not_im_count s + 1)) s));;
      mret nx
  end.

(** ** Time accounting *)
Definition rq_task_count : M sys Z := n ← gets nrp; mret (u32 n).

(** The value of the assignment to [cpuusage]: [currt] is an [int], [tslice]
    an [unsigned int], so the division is unsigned. *)
Definition cpu_usage_of (cr ts : Z) : Z :=
  if truthy ts then
    let u := s32 (u32 (s32 (cr * 100)) / ts) in
    if (100 <? u)%Z then 100%Z else u
  else 100%Z.

Definition calc_current_cpu_usage : M sys unit :=
  c ← cur;
  tsk_mod (λ t, set_cpuusage (cpu_usage_of (currt t) (tslice t)) t) c.

Definition update_stats : M sys unit :=
  modify (λ s, set_tswc (ulong (tswc s + 1)) s);;
  calc_current_cpu_usage;;
  c ← cur;
  tsk_mod (set_currt 0) c;;
  tsk_mod (λ t, set_swct (s32 (swct t + 1)) t) c;;
  now ← times;
  tsk_mod (set_etick now) c;;
  tsk_mod (λ t, set_trt (s32 (trt t + slong (slong (etick t - stick t) * 10))) t) c.

(** Unsigned division; a zero divisor is undefined behaviour. *)
Definition udiv (a b : Z) : M sys Z := if (b =? 0)%Z then ub else mret (a / b)%Z.

Definition get_load_on_system : M sys Z :=
  n ← rq_task_count;
  tc ← gets task_count;
  q ← udiv (u32 (n * 100)) tc;
  mret (s32 q).

Definition share_load_across_system (load : Z) : M sys Z :=
  let msec := 1000%Z in
  let load := if negb (truthy load) then 1%Z else load in
  let share := Z.quot (s32 (msec * load)) 100 in
  n ← rq_task_count;
  q ← udiv (u32 share) (u32 (n + 1));
  mret (s32 q).

Definition TASK_HIGH_PRIO (t : tsk) : bool := (prio t <? 5)%Z.

Definition calculate_time_slice (tk : option positive) : M sys unit :=
  i ← gets idle;
  c ← gets current;
  if bool_decide (tk = i) || bool_decide (tk = c) then mret tt else
  load ← get_load_on_system;
  when (LOAD_THRESHOLD <? load)%Z
    (p ← nonnull tk;
     t ← tsk_ld p;
     when (LOAD_THRESHOLD <? cpuusage t)%Z (tsk_mod (set_prio 19) p));;
  task_share ← share_load_across_system load;
  p ← nonnull tk;
  tsk_mod (set_tslice (u32 task_share)) p;;
  t ← tsk_ld p;
  if TASK_HIGH_PRIO t
  then tsk_mod (λ t, set_tslice (u32 (tslice t + DEF_HPT_TSLICE)) t) p
  else tsk_mod (λ t, set_tslice (u32 (tslice t + DEF_LOW_TSLICE)) t) p.

Definition account_task_time_stats : M sys unit :=
  c ← cur;
  now ← times;
  tsk_mod (set_etick now) c;;
  tsk_mod (λ t, set_currt (s32 (slong (slong (etick t - stick t) * 10))) t) c;;
  t ← tsk_ld c;
  when (tslice t <=? u32 (currt t))%Z (modify (set_sched_need 1)).

Definition update_process_time : M sys unit := account_task_time_stats.

Definition set_current_task_time_slice (ts : Z) : M sys unit :=
  c ← cur; tsk_mod (set_tslice ts) c.
Definition get_current_task_tslice : M sys Z :=
  c ← cur; t ← tsk_ld c; mret (s32 (tslice t)).
Definition get_current_task_id : M sys Z :=
  c ← cur; t ← tsk_ld c; mret (ulong (tid t)).

(** ** The context switch *)

Definition collect_stack_trace (p : positive) : M sys unit :=
  t ← tsk_ld p;
  when (bool_decide (is_Some (stk_trc_sym t))) (tsk_mod (set_stk_trc_sym None) p);;
  n ← gets env_backtrace;
  tsk_mod (set_bt_size n) p;;
  sym ← gets env_backtrace_symbols;
  tsk_mod (set_stk_trc_sym sym) p.

(** [nlongjmp (p->regs, 1)]: a context that was never saved cannot be resumed. *)
Definition nlongjmp (p : positive) : M sys unit :=
  t ← tsk_ld p;
  match regs t with JB_zero => ub | _ => mret tt end.

(** Up to the [nlongjmp]; the code after it belongs to [next]. *)
Definition context_switch (curr : positive) (next : option positive) : M sys unit :=
  tsk_mod (set_regs (JB_at in_context_switch)) curr;;
  modify (set_current next);;
  c ← cur;
  tsk_mod (set_state TASK_RUNNING) c;;
  now ← times;
  tsk_mod (set_stick now) c;;
  signals_unblock SIGALRM;;
  p ← nonnull next;
  nlongjmp p.

Definition bug_os_sched : event_t :=
  Ev_print "[BUG] : Ooops !!!! ..... OS SCHED MODE SCHEDULER Got the trigger ... ".

Definition schedule : M sys unit :=
  os ← gets os_sched_enabled;
  if negb (truthy os) then
    sp ← sig_pending_p;
    when sp (c ← cur; process_signal c);;
    etsk ← get_next_eligible_task_to_run;
    modify (set_sched_need 0);;
    c ← cur;
    if bool_decide (Some c ≠ etsk) then
      collect_stack_trace c;;
      update_stats;;
      calculate_time_slice etsk;;
      tsk_mod (set_state TASK_INTERRUPTIBLE) c;;
      context_switch c etsk
    else calc_current_cpu_usage
  else emit bug_os_sched.

Definition cpu_yield : M sys unit := schedule.

Definition add_current_task_wait_Q : M sys unit :=
  os ← gets os_sched_enabled;
  when (negb (truthy os)) (c ← cur; add_task_to_wait_Q c).

Definition set_task_not_rq : M sys unit :=
  c ← cur;
  tsk_mod (set_onrq 0) c;;
  modify (λ s, set_nwp (s32 (nwp s + 1)) s).

(** ** I/O wait queues (src/core/iostream.c) *)
Definition init_io : M sys unit :=
  (fix go (n : nat) (idx : Z) : M sys unit :=
     match n with
     | 0%nat => mret tt
     | S n => h ← io_hd idx; onl (INIT_LIST_HEAD h);; go n (idx + 1)%Z
     end) (Z.to_nat MAX_FDS) 0%Z.

Definition add_task_to_IO_wait_Q (n : lnode) (fd : Z) : M sys unit :=
  h ← io_hd fd;
  onl (list_add_tail n h).

Definition wait_on_fd (fd : Z) : M sys Z :=
  c ← cur;
  onl (list_del (N_tsk c));;
  modify (λ s, set_nrp (s32 (nrp s - 1)) s);;
  add_task_to_IO_wait_Q (N_tsk c) fd;;
  modify (λ s, set_nwp (s32 (nwp s + 1)) s);;
  tsk_mod (set_onrq 0) c;;
  schedule;;
  mret 0%Z.

(** [list_for_each_safe] of [wake_io_task]: [pos] and [n] are the two cursors. *)
Fixpoint wake_io_loop (fuel : nat) (pos n head : lnode) : M sys unit :=
  if bool_decide (pos = head) then mret tt
  else match fuel with
       | 0%nat => ub
       | S fuel =>
           p ← liftO (list_entry_tsk pos);
           onl (list_del (N_tsk p));;
           wakeup_task p;;
           n' ← onl (get_next n);
           wake_io_loop fuel n n' head
       end.

Definition wake_io_task (fd : Z) : M sys unit :=
  h ← io_hd fd;
  e ← onl (list_empty h);
  when (negb e)
    (sz ← gets (λ s, size (lst s));
     pos ← onl (get_next h);
     n ← onl (get_next pos);
     wake_io_loop sz pos n h).

(** ** Task lookup *)

(** The first task of a traversal with the given id. *)
Fixpoint find_tid (t0 : Z) (nodes : list lnode) : M sys (option positive) :=
  match nodes with
  | [] => mret None
  | n :: nodes =>
      p ← liftO (list_entry_tsk n);
      t ← tsk_ld p;
      if (tid t =? t0)%Z then mret (Some p) else find_tid t0 nodes
  end.

(** A loop over an array of list heads, as in [io_wait_task_lookup] and in the
    run-queue part of [find_task]. *)
Fixpoint find_in_array (hd : Z → M sys lnode) (n : nat) (i t0 : Z)
  : M sys (option positive) :=
  match n with
  | 0%nat => mret None
  | S n =>
      h ← hd i;
      e ← onl (list_empty h);
      r ← (if negb e then nodes ← onl (list_for_each h); find_tid t0 nodes
           else mret None);
      match r with
      | Some p => mret (Some p)
      | None => find_in_array hd n (i + 1) t0
      end
  end.

Definition io_wait_task_lookup (t0 : Z) : M sys (option positive) :=
  find_in_array io_hd (Z.to_nat MAX_FDS) 0 t0.

Definition find_task (t0 : Z) : M sys (option positive) :=
  r ← io_wait_task_lookup t0;
  match r with
  | Some p => mret (Some p)
  | None =>
      nodes ← onl (list_for_each N_wq);
      r ← find_tid t0 nodes;
      match r with
      | Some p => mret (Some p)
      | None =>
          n ← gets nrp;
          if truthy n then find_in_array rq_hd (Z.to_nat MAX_PRIO) 0 t0
          else mret None
      end
  end.

(** [memset] comes before [free (p->stk)], so the stack pointer is already null. *)
Definition task_exit (p : positive) : M sys unit :=
  onl (list_del (N_tsk p));;
  tsk_mod (λ _, tsk_zero) p;;
  t ← tsk_ld p;
  match stk t with
  | Some k => modify (λ s, set_stacks (stacks s ∖ {[k]}) s)
  | None => mret tt
  end;;
  modify (λ s, set_tasks (delete p (tasks s)) s);;
  modify (λ s, set_lst (delete (N_tsk p) (lst s)) s);;
  modify (λ s, set_slst (delete (S_tsk p) (slst s)) s);;
  modify (λ s, set_task_count (u32 (task_count s - 1)) s).
End Sched.
