(* ===== verification/SchedInv.v ===== *)
(** * The queues of the scheduler

    The abstract view of the queues: every queue head holds a list of tasks
    ([queues]), no task is on two queues, and every task on a queue is
    allocated.  The operations of sched.c and iostream.c are shown to implement
    the queue operations [qrem], [qapp] and [qcons] on this view. *)

From S2P Require Import Prelude ListHead Task Signal Sched.

(** ** Abstract queues *)
Definition qmap := lnode → list positive.

(** The queue heads that exist. *)
Definition is_head (LK : gset positive) (h : lnode) : Prop :=
  match h with
  | N_rq i => (0 ≤ i < MAX_PRIO)%Z
  | N_wq => True
  | N_io fd => (0 ≤ fd < MAX_FDS)%Z
  | N_lock l => l ∈ LK
  | N_tsk _ => False
  end.

Definition qrem (p : positive) (Q : qmap) : qmap := λ h, filter (λ q, q ≠ p) (Q h).
Definition qapp (p : positive) (h : lnode) (Q : qmap) : qmap :=
  λ h', if decide (h' = h) then Q h' ++ [p] else Q h'.
Definition qcons (p : positive) (h : lnode) (Q : qmap) : qmap :=
  λ h', if decide (h' = h) then p :: Q h' else Q h'.

(** [l] represents the queues [Q]; [T] are the allocated tasks, [LK] the locks. *)
Record queues (l : gmap lnode (list_head lnode)) (T LK : gset positive) (Q : qmap) : Prop := {
  q_dll h : is_head LK h → dll l h (N_tsk <$> Q h);
  q_uniq h1 h2 p : is_head LK h1 → is_head LK h2 → p ∈ Q h1 → p ∈ Q h2 → h1 = h2;
  q_task h p : is_head LK h → p ∈ Q h → p ∈ T;
  q_node p : p ∈ T → is_Some (l !! N_tsk p)
}.

Definition sys_queues (s : sys) (Q : qmap) : Prop :=
  queues (lst s) (dom (tasks s)) (dom (locks s)) Q.

(** On no queue. *)
Definition free_task (LK : gset positive) (p : positive) (Q : qmap) : Prop :=
  ∀ h, is_head LK h → p ∉ Q h.

(** ** List operations act on the abstract queues *)
Section queues.
Implicit Types (l : gmap lnode (list_head lnode)) (T LK : gset positive) (Q : qmap).

Lemma elem_of_tsk_nodes (p : positive) (xs : list positive) : N_tsk p ∈ N_tsk <$> xs ↔ p ∈ xs.
Proof. rewrite list_elem_of_fmap. naive_solver. Qed.
Lemma head_not_tsk LK h p : is_head LK h → h ≠ N_tsk p.
Proof. by destruct h. Qed.

(** The ring of a queue: its head, then task nodes. *)
Lemma ring_nodes LK h xs n :
  is_head LK h → n ∈ h :: (N_tsk <$> xs) →
  n = h ∨ ∃ p, n = N_tsk p ∧ p ∈ xs.
Proof. intros _ [->|Hn]%elem_of_cons; [by left|]. apply list_elem_of_fmap in Hn. naive_solver. Qed.

Lemma queues_NoDup l T LK Q h : queues l T LK Q → is_head LK h → NoDup (Q h).
Proof.
  intros Hq Hh. destruct (q_dll _ _ _ _ Hq h Hh) as [[_ Hnd]%NoDup_cons _].
  by eapply NoDup_fmap_1.
Qed.

Lemma queues_ext l T LK Q Q' :
  (∀ h, is_head LK h → Q h = Q' h) → queues l T LK Q → queues l T LK Q'.
Proof.
  intros HQ [H1 H2 H3 H4]. split.
  - intros h Hh. rewrite -HQ //. auto.
  - intros h1 h2 p ??. rewrite -!HQ //. eauto.
  - intros h p Hh. rewrite -HQ //. eauto.
  - done.
Qed.

Lemma filter_ne_id (p : positive) (xs : list positive) : p ∉ xs → filter (λ q, q ≠ p) xs = xs.
Proof.
  induction xs as [|x xs IH]; [done|]. intros [??]%not_elem_of_cons.
  rewrite filter_cons_True; [|done]. by rewrite IH.
Qed.
Lemma filter_ne_mid (p : positive) (xs ys : list positive) :
  NoDup (xs ++ p :: ys) → filter (λ q, q ≠ p) (xs ++ p :: ys) = xs ++ ys.
Proof.
  intros (_&Hx&[Hy _]%NoDup_cons)%NoDup_app. rewrite filter_app filter_cons_False; [|naive_solver].
  rewrite !filter_ne_id //. intros Hp. apply (Hx p Hp). set_solver.
Qed.

Lemma qrem_free l T LK Q p :
  queues l T LK Q → free_task LK p (qrem p Q).
Proof. intros Hq h Hh. rewrite /qrem list_elem_of_filter. naive_solver. Qed.
Lemma qrem_elem p q Q h : q ∈ qrem p Q h ↔ q ≠ p ∧ q ∈ Q h.
Proof. by rewrite /qrem list_elem_of_filter. Qed.

(** Two queues are disjoint rings. *)
Lemma queues_disjoint l T LK Q h1 h2 n :
  queues l T LK Q → is_head LK h1 → is_head LK h2 → h1 ≠ h2 →
  n ∈ h1 :: (N_tsk <$> Q h1) → n ∉ h2 :: (N_tsk <$> Q h2).
Proof.
  intros Hq Hh1 Hh2 Hne Hn1 Hn2.
  destruct (ring_nodes _ _ _ _ Hh1 Hn1) as [->|(p&->&Hp)],
    (ring_nodes _ _ _ _ Hh2 Hn2) as [E|(p'&E&Hp')]; subst; try done.
  injection E as <-. apply Hne. by eapply (q_uniq _ _ _ _ Hq).
Qed.

Lemma list_del_queues l T LK Q p h :
  queues l T LK Q → is_head LK h → p ∈ Q h →
  ∃ l', list_del (N_tsk p) l = Some (tt, l') ∧ queues l' T LK (qrem p Q).
Proof.
  intros Hq Hh Hp. pose proof (queues_NoDup _ _ _ _ _ Hq Hh) as Hnd.
  pose proof (q_dll _ _ _ _ Hq h Hh) as Hd.
  apply list_elem_of_split in Hp as (xs&ys&E). rewrite E in Hnd.
  assert (wp (list_del (N_tsk p)) (λ _ l', queues l' T LK (qrem p Q)) l)
    as ([]&l'&?&?)%wp_inv; [|by eauto].
  rewrite E fmap_app fmap_cons in Hd. eapply wp_list_del; [exact Hd|].
  intros l' Hd' Ho. split.
  - intros h' Hh'. destruct (decide (h' = h)) as [->|Hne].
    { rewrite /qrem E filter_ne_mid // fmap_app //. }
    rewrite /qrem filter_ne_id.
    2:{ intros Hp'. apply Hne. eapply (q_uniq _ _ _ _ Hq _ _ p); [done..|].
        rewrite E. set_solver. }
    eapply dll_only; [exact Ho| |by apply (q_dll _ _ _ _ Hq)].
    intros n Hn Hn'. eapply (queues_disjoint _ _ _ _ h' h n); [done..|].
    rewrite E fmap_app fmap_cons. by apply remove_mid_incl.
  - intros h1 h2 q ?? [_ ?]%qrem_elem [_ ?]%qrem_elem. by eapply (q_uniq _ _ _ _ Hq).
  - intros h' q ? [_ ?]%qrem_elem. by eapply (q_task _ _ _ _ Hq).
  - intros q Hq'. apply Ho, (q_node _ _ _ _ Hq), Hq'.
Qed.

Lemma qapp_elem p h Q h' q : q ∈ qapp p h Q h' ↔ q ∈ Q h' ∨ (h' = h ∧ q = p).
Proof. rewrite /qapp. case_decide; rewrite ?elem_of_app ?list_elem_of_singleton; naive_solver. Qed.
Lemma qcons_elem p h Q h' q : q ∈ qcons p h Q h' ↔ q ∈ Q h' ∨ (h' = h ∧ q = p).
Proof. rewrite /qcons. case_decide; rewrite ?elem_of_cons; naive_solver. Qed.

(** What both ways of linking a free task have in common. *)
Lemma queues_link l l' T LK Q Q' p h :
  queues l T LK Q → is_head LK h → p ∈ T → free_task LK p Q →
  dll l' h (N_tsk <$> Q' h) → only (N_tsk p :: h :: (N_tsk <$> Q h)) l l' →
  (∀ h', h' ≠ h → Q' h' = Q h') →
  (∀ h' q, q ∈ Q' h' ↔ q ∈ Q h' ∨ (h' = h ∧ q = p)) →
  queues l' T LK Q'.
Proof.
  intros Hq Hh Hp Hf Hd Ho Hother Helem. split.
  - intros h' Hh'. destruct (decide (h' = h)) as [->|Hne]; [done|].
    rewrite Hother //. eapply dll_only; [exact Ho| |by apply (q_dll _ _ _ _ Hq)].
    intros n Hn [->|Hn']%elem_of_cons; [|by eapply (queues_disjoint _ _ _ _ h' h n)].
    destruct (ring_nodes _ _ _ _ Hh' Hn) as [<-|(q&[= <-]&Hq')]; [done|].
    by apply (Hf h').
  - intros h1 h2 q Hh1 Hh2 [?|[-> ->]]%Helem [?|[-> E]]%Helem; try done.
    + by eapply (q_uniq _ _ _ _ Hq).
    + subst. by destruct (Hf h1).
    + by destruct (Hf h2).
  - intros h' q Hh' [?|[-> ->]]%Helem; [|done]. by eapply (q_task _ _ _ _ Hq).
  - intros q Hq'. apply Ho, (q_node _ _ _ _ Hq), Hq'.
Qed.

Lemma free_not_ring l T LK Q p h :
  queues l T LK Q → is_head LK h → free_task LK p Q → N_tsk p ∉ h :: (N_tsk <$> Q h).
Proof.
  intros Hq Hh Hf [<-|Hn%elem_of_tsk_nodes]%elem_of_cons; [done|]. by apply (Hf h).
Qed.

Lemma list_add_tail_queues l T LK Q p h :
  queues l T LK Q → is_head LK h → p ∈ T → free_task LK p Q →
  ∃ l', list_add_tail (N_tsk p) h l = Some (tt, l') ∧ queues l' T LK (qapp p h Q).
Proof.
  intros Hq Hh Hp Hf.
  assert (wp (list_add_tail (N_tsk p) h) (λ _ l', queues l' T LK (qapp p h Q)) l)
    as ([]&l'&?&?)%wp_inv; [|by eauto].
  eapply wp_list_add_tail; [by apply (q_dll _ _ _ _ Hq)|by eapply free_not_ring
    |by eapply (q_node _ _ _ _ Hq)|].
  intros l' Hd Ho. eapply queues_link; [done..| |done| |].
  - by rewrite /qapp decide_True // fmap_app.
  - intros. by rewrite /qapp decide_False.
  - intros. apply qapp_elem.
Qed.
Lemma list_add_queues l T LK Q p h :
  queues l T LK Q → is_head LK h → p ∈ T → free_task LK p Q →
  ∃ l', list_add (N_tsk p) h l = Some (tt, l') ∧ queues l' T LK (qcons p h Q).
Proof.
  intros Hq Hh Hp Hf.
  assert (wp (list_add (N_tsk p) h) (λ _ l', queues l' T LK (qcons p h Q)) l)
    as ([]&l'&?&?)%wp_inv; [|by eauto].
  eapply wp_list_add; [by apply (q_dll _ _ _ _ Hq)|by eapply free_not_ring
    |by eapply (q_node _ _ _ _ Hq)|].
  intros l' Hd Ho. eapply queues_link; [done..| |done| |].
  - by rewrite /qcons decide_True.
  - intros. by rewrite /qcons decide_False.
  - intros. apply qcons_elem.
Qed.
End queues.

(** ** Unlinking at the level of the scheduler *)

(** [list_del (&p->hd)] is defined in [s] and leaves the queues [Q], with [p] on
    none of them: [p] is queued, or it was just unlinked, or its node is its own
    neighbour. *)
Definition unlinks (s : sys) (p : positive) (Q : qmap) : Prop :=
  ∃ l, list_del (N_tsk p) (lst s) = Some (tt, l) ∧
       queues l (dom (tasks s)) (dom (locks s)) Q ∧ free_task (dom (locks s)) p Q.

Section unlinks.
Implicit Types (s : sys) (p : positive) (Q : qmap).

Lemma unlinks_queued s p Q h :
  sys_queues s Q → is_head (dom (locks s)) h → p ∈ Q h → unlinks s p (qrem p Q).
Proof.
  intros Hq Hh Hp. destruct (list_del_queues _ _ _ _ _ _ Hq Hh Hp) as (l&?&?).
  exists l. eauto using qrem_free.
Qed.
Lemma unlinks_self s p Q :
  sys_queues s Q → free_task (dom (locks s)) p Q →
  lst s !! N_tsk p = Some (LH (N_tsk p) (N_tsk p)) → unlinks s p Q.
Proof. intros Hq Hf Hl. exists (lst s). eauto using list_del_self. Qed.
Lemma unlinks_again s p Q h l :
  sys_queues s Q → is_head (dom (locks s)) h → p ∈ Q h →
  list_del (N_tsk p) (lst s) = Some (tt, l) → unlinks (set_lst l s) p (qrem p Q).
Proof.
  intros Hq Hh Hp Hl. destruct (list_del_queues _ _ _ _ _ _ Hq Hh Hp) as (l'&Hl'&Hq').
  rewrite Hl in Hl'. injection Hl' as <-. exists l. simpl.
  split; [|eauto using qrem_free].
  pose proof (q_dll _ _ _ _ Hq h Hh) as Hd.
  apply list_elem_of_split in Hp as (xs&ys&EQ). rewrite EQ fmap_app fmap_cons in Hd.
  by eapply list_del_twice.
Qed.
End unlinks.

(** ** Moving between the run queue and the wait queue *)
Section moves.
Context `{E : Env}.
Implicit Types (s : sys) (p : positive) (Q : qmap).

(** A task that goes to sleep at time [now]. *)
Definition slept (now : Z) (t : tsk) : tsk :=
  set_stime now (set_onrq 0 (set_state TASK_INTERRUPTIBLE t)).

(** The state after a task went to sleep, up to the list store. *)
Definition after_sleep (p : positive) (t : tsk) (s : sys) : sys :=
  set_tasks (<[p := slept (env_times (n_times s)) t]> (tasks s))
    (set_nrp (s32 (nrp s - 1)) (set_nwp (s32 (nwp s + 1))
      (set_n_times (S (n_times s)) s))).

Lemma add_task_to_wait_Q_run s p t Q :
  tasks s !! p = Some t → onrq t ≠ 0%Z → unlinks s p Q →
  ∃ l, add_task_to_wait_Q p s = Some (tt, set_lst l (after_sleep p t s)) ∧
       queues l (dom (tasks s)) (dom (locks s)) (qapp p N_wq Q).
Proof.
  intros Ht Hon (l1&Hl1&Hq1&Hf1).
  destruct (list_add_tail_queues _ _ _ _ p N_wq Hq1) as (l2&Hl2&Hq2);
    [done|by eapply elem_of_dom_2|done|].
  assert (wp (add_task_to_wait_Q p) (λ _ s', s' = set_lst l2 (after_sleep p t s)) s)
    as ([]&s'&?&->)%wp_inv; [|by eauto].
  rewrite /add_task_to_wait_Q. sys_steps. rewrite (proj2 (truthy_true _) Hon).
  apply wp_bind. eapply wp_onl; [exact Hl1|]. sys_steps.
  eapply wp_onl; [exact Hl2|]. sys_steps. by rewrite !insert_insert_eq.
Qed.

(** Parking a task that is not on the run queue only reports the misuse. *)
Lemma add_task_to_wait_Q_bug s p t :
  tasks s !! p = Some t → onrq t = 0%Z →
  add_task_to_wait_Q p s = Some (tt, set_trace (trace s ++ [bug_wait_q]) s).
Proof.
  intros Ht Hon. rewrite /add_task_to_wait_Q /mbind /M_bind /tsk_ld Ht /=.
  by rewrite (proj2 (truthy_false _) Hon).
Qed.

(** The two decisions of a wakeup: whether a reschedule is needed, and which
    task the next [schedule] takes without looking at the run queue. *)
Definition need_after (tp tc : tsk) (sn : Z) : Z := if (prio tp <? prio tc)%Z then 1%Z else sn.
Definition imm_after (T : gmap positive tsk) (nx : option positive) (p : positive) (tp : tsk)
  : option positive :=
  match nx with
  | Some q =>
      match T !! q with
      | Some tq => if (prio tp <? prio tq)%Z then Some p else Some q
      | None => Some q
      end
  | None => Some p
  end.

Lemma set_sched_need_id s : set_sched_need (sched_need s) s = s.
Proof. by destruct s. Qed.
Lemma set_nxt_imm_task_id s : set_nxt_imm_task (nxt_imm_task s) s = s.
Proof. by destruct s. Qed.

Lemma wp_note_sched_need p c tp tc (Φ : unit → sys → Prop) s :
  current s = Some c → tasks s !! c = Some tc → tasks s !! p = Some tp →
  Φ tt (set_sched_need (need_after tp tc (sched_need s)) s) → wp (note_sched_need p) Φ s.
Proof.
  intros Hc Htc Htp HΦ. rewrite /note_sched_need. sys_steps. rewrite /need_after in HΦ.
  apply wp_when=> Hlt; rewrite Hlt in HΦ; [by apply wp_modify|].
  by rewrite set_sched_need_id in HΦ.
Qed.
Lemma wp_note_imm_task p tp (Φ : unit → sys → Prop) s :
  tasks s !! p = Some tp →
  (∀ q, nxt_imm_task s = Some q → is_Some (tasks s !! q)) →
  Φ tt (set_nxt_imm_task (imm_after (tasks s) (nxt_imm_task s) p tp) s) →
  wp (note_imm_task p) Φ s.
Proof.
  intros Htp Hv HΦ. rewrite /note_imm_task. sys_steps. rewrite /imm_after in HΦ.
  destruct (nxt_imm_task s) as [q|] eqn:Enx; [|by sys_steps].
  destruct (Hv q eq_refl) as [tq Htq]. rewrite Htq in HΦ. sys_steps.
  apply wp_when=> Hlt; rewrite Hlt in HΦ; [by apply wp_modify|].
  by rewrite -Enx set_nxt_imm_task_id in HΦ.
Qed.

(** Only priorities matter to these decisions. *)
Lemma imm_after_insert (T : gmap positive tsk) nx p t t' :
  T !! p = Some t → prio t' = prio t →
  imm_after (<[p := t']> T) nx p t' = imm_after T nx p t.
Proof.
  intros Hp Hpr. destruct nx as [q|]; [|done]. simpl. rewrite lookup_insert Hpr.
  case_decide; [|done]. subst. by rewrite Hp Hpr.
Qed.
Lemma lookup_insert_prio (T : gmap positive tsk) p t t' c tc :
  T !! p = Some t → prio t' = prio t → T !! c = Some tc →
  ∃ tc', <[p := t']> T !! c = Some tc' ∧ prio tc' = prio tc.
Proof.
  intros Hp Hpr Hc. rewrite lookup_insert. case_decide; [subst|by eauto].
  rewrite Hp in Hc. injection Hc as <-. eauto.
Qed.

(** A task that wakes up at time [now]: [stime] becomes the time it slept. *)
Definition woken (now : Z) (t : tsk) : tsk := set_stime (slong (now - stime t)) (set_onrq 1 t).

Definition after_wakeup (p : positive) (t tc : tsk) (s : sys) : sys :=
  set_tasks (<[p := woken (env_times (n_times s)) t]> (tasks s))
    (set_nrp (s32 (nrp s + 1)) (set_nwp (s32 (nwp s - 1))
      (set_sched_need (need_after t tc (sched_need s))
        (set_nxt_imm_task (imm_after (tasks s) (nxt_imm_task s) p t)
          (set_n_times (S (n_times s)) s))))).

Lemma wakeup_task_run s p t c tc Q :
  tasks s !! p = Some t → onrq t = 0%Z → (0 ≤ prio t < MAX_PRIO)%Z →
  current s = Some c → tasks s !! c = Some tc →
  (∀ q, nxt_imm_task s = Some q → is_Some (tasks s !! q)) →
  unlinks s p Q →
  ∃ l, wakeup_task p s = Some (tt, set_lst l (after_wakeup p t tc s)) ∧
       queues l (dom (tasks s)) (dom (locks s)) (qcons p (N_rq (prio t)) Q).
Proof.
  intros Ht Hon Hpr Hc Htc Hnx (l1&Hl1&Hq1&Hf1).
  destruct (list_add_queues _ _ _ _ p (N_rq (prio t)) Hq1) as (l2&Hl2&Hq2);
    [done|by eapply elem_of_dom_2|done|].
  assert (wp (wakeup_task p) (λ _ s', s' = set_lst l2 (after_wakeup p t tc s)) s)
    as ([]&s'&?&->)%wp_inv; [|by eauto].
  destruct (lookup_insert_prio (tasks s) p t (set_onrq 1 t) c tc) as (tc'&Htc'&Hptc);
    [done..|].
  rewrite /wakeup_task. sys_steps. rewrite (proj2 (truthy_false _) Hon).
  cbn [when negb]. sys_steps. eapply wp_onl; [exact Hl1|]. sys_steps.
  eapply wp_onl; [exact Hl2|]. sys_steps.
  eapply wp_note_sched_need; [done|exact Htc'|by apply lookup_insert_eq|]. sys_steps.
  eapply wp_note_imm_task; [by apply lookup_insert_eq| |].
  { intros q Hq%Hnx. simpl. rewrite lookup_insert_is_Some'. auto. }
  sys_steps. rewrite /after_wakeup /need_after Hptc. simpl.
  by rewrite insert_insert_eq (imm_after_insert _ _ _ t).
Qed.
End moves.

(** ** The choice of the next task *)
Section choice.
Context `{E : Env}.
Implicit Types (s : sys) (p : positive) (Q : qmap).

(** The tasks of the run queues of priority [i], [i+1], ..., in order. *)
Definition run_order (Q : qmap) (i n : Z) : list positive :=
  seqZ i n ≫= λ j, Q (N_rq j).
(** The ready task with the best priority; the oldest one of that priority. *)
Definition first_ready (Q : qmap) : option positive := head (run_order Q 0 MAX_PRIO).

(** Queues after [rm_n_move_task_new_rq]: the task goes to the back of the
    queue of its priority. *)
Definition rotate (p : positive) (t : tsk) (Q : qmap) : qmap :=
  qapp p (N_rq (prio t)) (qrem p Q).

Lemma run_order_cons Q i n :
  (0 < n)%Z → run_order Q i n = Q (N_rq i) ++ run_order Q (i + 1) (n - 1).
Proof. intros. rewrite /run_order seqZ_cons //. Qed.

Lemma rm_n_move_run s p t Q :
  tasks s !! p = Some t → (0 ≤ prio t < MAX_PRIO)%Z → unlinks s p Q →
  ∃ l, rm_n_move_task_new_rq p s = Some (tt, set_lst l s) ∧
       queues l (dom (tasks s)) (dom (locks s)) (qapp p (N_rq (prio t)) Q).
Proof.
  intros Ht Hpr (l1&Hl1&Hq1&Hf1).
  destruct (list_add_tail_queues _ _ _ _ p (N_rq (prio t)) Hq1) as (l2&Hl2&Hq2);
    [done|by eapply elem_of_dom_2|done|].
  assert (wp (rm_n_move_task_new_rq p) (λ _ s', s' = set_lst l2 s) s)
    as ([]&s'&?&->)%wp_inv; [|by eauto].
  rewrite /rm_n_move_task_new_rq. sys_steps. eapply wp_onl; [exact Hl1|]. sys_steps.
  by eapply wp_onl; [exact Hl2|].
Qed.

(** [list_empty] and the first entry of a queue. *)
Lemma wp_queue_empty h Q (Φ : bool → sys → Prop) s :
  sys_queues s Q → is_head (dom (locks s)) h →
  Φ (bool_decide (Q h = [])) s → wp (onl (list_empty h)) Φ s.
Proof.
  intros Hq Hh HΦ. eapply wp_onl; [by apply list_empty_spec, (q_dll _ _ _ _ Hq)|].
  rewrite set_lst_id. erewrite bool_decide_ext; [exact HΦ|].
  by destruct (Q h).
Qed.
Lemma wp_queue_first h Q p xs (Φ : lnode → sys → Prop) s :
  sys_queues s Q → is_head (dom (locks s)) h → Q h = p :: xs →
  Φ (N_tsk p) s → wp (onl (get_next h)) Φ s.
Proof.
  intros Hq Hh HQ HΦ. pose proof (q_dll _ _ _ _ Hq h Hh) as [_ Hs]. rewrite HQ in Hs.
  eapply wp_onl; [by apply get_next_eq, (seg_nxt _ _ _ _ Hs)|]. by rewrite set_lst_id.
Qed.

(** What the search returns, and the queues it leaves. *)
Definition searched (s : sys) (Q : qmap) (o : option positive) (s' : sys) : Prop :=
  match o with
  | None => s' = s
  | Some p => ∃ t l, tasks s !! p = Some t ∧ s' = set_lst l s ∧
      queues l (dom (tasks s)) (dom (locks s))
        (if decide (current s = Some p) then Q else rotate p t Q)
  end.

Lemma next_task_loop_run s Q n i :
  sys_queues s Q → (0 ≤ i)%Z → (i + Z.of_nat n = MAX_PRIO)%Z →
  (∀ p t, tasks s !! p = Some t → (0 ≤ prio t < MAX_PRIO)%Z) →
  wp (next_task_loop n i)
     (λ o s', o = head (run_order Q i (Z.of_nat n)) ∧ searched s Q o s') s.
Proof.
  intros Hq Hi Hn Hprio. revert i Hi Hn. induction n as [|n IH]; intros i Hi Hn.
  { apply wp_ret. done. }
  rewrite run_order_cons; [|lia]. cbn [next_task_loop].
  assert (Hh : is_head (dom (locks s)) (N_rq i)) by (simpl; lia).
  apply wp_bind, wp_rq_hd; [done|]. apply wp_bind.
  eapply wp_queue_empty; [done..|].
  destruct (Q (N_rq i)) as [|p xs] eqn:HQ.
  { rewrite bool_decide_eq_true_2 //. cbn [negb app].
    replace (Z.of_nat (S n) - 1)%Z with (Z.of_nat n) by lia. apply IH; lia. }
  rewrite bool_decide_eq_false_2 //. cbn [negb app].
  apply wp_bind. eapply wp_queue_first; [done..|]. apply wp_bind, wp_ret, wp_bind, wp_gets.
  assert (Hp : p ∈ Q (N_rq i)) by (rewrite HQ; set_solver).
  pose proof (q_task _ _ _ _ Hq _ _ Hh Hp) as [t Ht]%elem_of_dom.
  apply wp_bind, wp_when; intros Hcur.
  - apply bool_decide_eq_true in Hcur.
    destruct (rm_n_move_run s p t (qrem p Q)) as (l&Hrun&Hql);
      [done|eauto|by eapply unlinks_queued|].
    eapply wp_intro; [exact Hrun|]. apply wp_ret. split; [done|]. exists t, l.
    rewrite decide_False //.
  - apply bool_decide_eq_false in Hcur. apply wp_ret. split; [done|]. exists t, (lst s).
    rewrite set_lst_id decide_True //. apply dec_stable in Hcur. congruence.
Qed.

(** [next_task_ready_to_run] returns the first ready task and rotates it to the
    back of its queue, unless it is the current task. *)
Lemma next_task_ready_to_run_run s Q :
  sys_queues s Q → nrp s ≠ 0%Z →
  (∀ p t, tasks s !! p = Some t → (0 ≤ prio t < MAX_PRIO)%Z) →
  wp next_task_ready_to_run (λ o s', o = first_ready Q ∧ searched s Q o s') s.
Proof.
  intros Hq Hn Hprio. rewrite /next_task_ready_to_run. apply wp_bind, wp_gets.
  rewrite (proj2 (truthy_true _) Hn). cbn [negb].
  apply (next_task_loop_run s Q (Z.to_nat MAX_PRIO) 0); [done|lia|done|done].
Qed.
End choice.

(** ** What the accounting part of [schedule] leaves alone *)

(** A task keeps its place in the scheduler; only its priority may drop to 19. *)
Record tkeep (t t' : tsk) : Prop := {
  tk_onrq : onrq t' = onrq t;
  tk_regs : regs t' = regs t;
  tk_tid : tid t' = tid t;
  tk_event : event t' = event t;
  tk_prio : prio t' = prio t ∨ prio t' = 19%Z
}.
Record keeps (s s' : sys) : Prop := {
  kp_lst : lst s' = lst s;
  kp_slst : slst s' = slst s;
  kp_sigs : sigs s' = sigs s;
  kp_locks : locks s' = locks s;
  kp_current : current s' = current s;
  kp_idle : idle s' = idle s;
  kp_parent : parent s' = parent s;
  kp_imm : nxt_imm_task s' = nxt_imm_task s;
  kp_nrp : nrp s' = nrp s;
  kp_nwp : nwp s' = nwp s;
  kp_count : task_count s' = task_count s;
  kp_os : os_sched_enabled s' = os_sched_enabled s;
  kp_need : sched_need s' = sched_need s;
  kp_tasks p : option_Forall2 tkeep (tasks s !! p) (tasks s' !! p)
}.

#[global] Instance tkeep_refl : Reflexive tkeep.
Proof. split; auto. Qed.
#[global] Instance tkeep_trans : Transitive tkeep.
Proof.
  intros t1 t2 t3 [????[]] [????[]]; split; try congruence; (left; congruence) || (right; congruence).
Qed.
#[global] Instance keeps_refl : Reflexive keeps.
Proof. split; auto. intros p. by destruct (tasks x !! p); constructor. Qed.
#[global] Instance keeps_trans : Transitive keeps.
Proof.
  intros s1 s2 s3 [] []; split; try congruence. intros p.
  specialize (kp_tasks0 p); specialize (kp_tasks1 p). etrans; eauto.
Qed.

(** Closing a [keeps] goal after straight-line code on one task. *)
Ltac keeps_tac Ht :=
  split; [done..|]; let q := fresh "q" in intros q; simpl;
  rewrite ?insert_insert_eq ?lookup_insert; repeat case_decide; subst;
  rewrite ?Ht; try constructor; try (by split; auto); reflexivity.

Section accounting.
Context `{E : Env}.
Implicit Types (s : sys) (p c : positive) (t : tsk).

Lemma keeps_lookup s s' p t :
  keeps s s' → tasks s !! p = Some t → ∃ t', tasks s' !! p = Some t' ∧ tkeep t t'.
Proof. intros Hk Ht. pose proof (kp_tasks _ _ Hk p) as H. rewrite Ht in H. inversion H; eauto. Qed.
Lemma keeps_lookup_inv s s' p t' :
  keeps s s' → tasks s' !! p = Some t' → ∃ t, tasks s !! p = Some t ∧ tkeep t t'.
Proof. intros Hk Ht. pose proof (kp_tasks _ _ Hk p) as H. rewrite Ht in H. inversion H; eauto. Qed.
Lemma keeps_dom s s' : keeps s s' → dom (tasks s') = dom (tasks s).
Proof.
  intros Hk. apply set_eq. intros p. rewrite !elem_of_dom.
  pose proof (kp_tasks _ _ Hk p) as H. by inversion H.
Qed.

Lemma update_stats_keeps s c t :
  current s = Some c → tasks s !! c = Some t → wp update_stats (λ _ s', keeps s s') s.
Proof.
  intros Hc Ht. rewrite /update_stats /calc_current_cpu_usage. sys_steps. keeps_tac Ht.
Qed.
Lemma calc_usage_keeps s c t :
  current s = Some c → tasks s !! c = Some t → wp calc_current_cpu_usage (λ _ s', keeps s s') s.
Proof. intros Hc Ht. rewrite /calc_current_cpu_usage. sys_steps. keeps_tac Ht. Qed.
Lemma collect_stack_trace_keeps s p t :
  tasks s !! p = Some t → wp (collect_stack_trace p) (λ _ s', keeps s s') s.
Proof.
  intros Ht. rewrite /collect_stack_trace. sys_steps. case_bool_decide; cbn [when]; sys_steps; keeps_tac Ht.
Qed.
Lemma process_signal_keeps s c t xs :
  current s = Some c → tasks s !! c = Some t → sig_list s c xs →
  wp (process_signal c) (λ _ s', keeps s s') s.
Proof.
  intros Hc Ht Hxs. eapply wp_intro; [by apply process_signal_run|]. keeps_tac Ht.
Qed.

Lemma wp_udiv a b (Φ : Z → sys → Prop) s : b ≠ 0%Z → Φ (a / b)%Z s → wp (udiv a b) Φ s.
Proof. intros Hb HΦ. rewrite /udiv. by destruct (Z.eqb_spec b 0). Qed.

Lemma calculate_time_slice_keeps s p t :
  tasks s !! p = Some t → task_count s ≠ 0%Z → u32 (u32 (nrp s) + 1) ≠ 0%Z →
  wp (calculate_time_slice (Some p)) (λ _ s', keeps s s') s.
Proof.
  intros Ht Htc Hn. rewrite /calculate_time_slice. sys_steps.
  destruct (_ || _); [by apply wp_ret|].
  rewrite /get_load_on_system /rq_task_count. sys_steps. apply wp_udiv; [done|]. sys_steps.
  apply wp_when; intros Hl; [sys_steps; apply wp_when; intros Hu; sys_steps|];
    rewrite /share_load_across_system /rq_task_count; sys_steps;
    apply wp_udiv; try done; sys_steps;
    destruct (TASK_HIGH_PRIO _); sys_steps; keeps_tac Ht.
Qed.
End accounting.

(** ** The invariant of the scheduler *)
Record kinv (s : sys) (Q : qmap) : Prop := {
  ki_queues : sys_queues s Q;
  ki_prio p t : tasks s !! p = Some t → (0 ≤ prio t < MAX_PRIO)%Z;
  ki_cur : ∃ c t, current s = Some c ∧ tasks s !! c = Some t;
  ki_idle : ∃ i t, idle s = Some i ∧ tasks s !! i = Some t;
  ki_imm q : nxt_imm_task s = Some q → is_Some (tasks s !! q);
  ki_regs p t : tasks s !! p = Some t → current s ≠ Some p → regs t ≠ JB_zero;
  ki_count : (0 < task_count s)%Z;
  ki_nrp : (0 ≤ nrp s < 2 ^ 31 - 1)%Z;
  ki_sig p t : tasks s !! p = Some t → ∃ xs, sig_list s p xs
}.

Section schedule.
Context `{E : Env}.
Implicit Types (s : sys) (p c n : positive) (t : tsk) (Q : qmap).

Lemma keeps_kinv s s' Q : keeps s s' → kinv s Q → kinv s' Q.
Proof.
  intros Hk [Hq Hp (c&tc&Hc&Htc) (i&ti&Hi&Hti) Him Hr Hct Hn Hsg]. split.
  - rewrite /sys_queues (keeps_dom _ _ Hk) (kp_lst _ _ Hk) (kp_locks _ _ Hk). done.
  - intros p t' Ht'. destruct (keeps_lookup_inv _ _ _ _ Hk Ht') as (t&Ht&Htk).
    destruct (tk_prio _ _ Htk) as [->| ->]; [eauto|done].
  - rewrite (kp_current _ _ Hk). destruct (keeps_lookup _ _ _ _ Hk Htc) as (?&?&_). eauto.
  - rewrite (kp_idle _ _ Hk). destruct (keeps_lookup _ _ _ _ Hk Hti) as (?&?&_). eauto.
  - rewrite (kp_imm _ _ Hk). intros q [t Ht]%Him.
    destruct (keeps_lookup _ _ _ _ Hk Ht) as (?&->&_). eauto.
  - rewrite (kp_current _ _ Hk). intros p t' Ht' Hne.
    destruct (keeps_lookup_inv _ _ _ _ Hk Ht') as (t&Ht&Htk). rewrite (tk_regs _ _ Htk). eauto.
  - by rewrite (kp_count _ _ Hk).
  - by rewrite (kp_nrp _ _ Hk).
  - intros p t' Ht'. destruct (keeps_lookup_inv _ _ _ _ Hk Ht') as (t&Ht&_).
    destruct (Hsg p t Ht) as [xs Hxs]. exists xs. rewrite /sig_list (kp_slst _ _ Hk) (kp_sigs _ _ Hk).
    done.
Qed.

Lemma kinv_nrp s Q : kinv s Q → u32 (u32 (nrp s) + 1) ≠ 0%Z.
Proof. intros Hk. pose proof (ki_nrp _ _ Hk). rewrite !u32_small; lia. Qed.

(** The task [schedule] switches to, and the queues it leaves. *)
Definition chosen (s : sys) (Q : qmap) : option positive :=
  if (nrp s =? 0)%Z then idle s else
  match nxt_imm_task s with Some p => Some p | None => first_ready Q end.
Definition sched_queues (s : sys) (Q : qmap) : qmap :=
  if (nrp s =? 0)%Z then Q else
  match nxt_imm_task s, first_ready Q with
  | None, Some p => match tasks s !! p with
      | Some t => if decide (current s = Some p) then Q else rotate p t Q
      | None => Q end
  | _, _ => Q
  end.

Lemma chosen_valid s Q n : kinv s Q → chosen s Q = Some n → is_Some (tasks s !! n).
Proof.
  intros Hk. rewrite /chosen. destruct (nrp s =? 0)%Z.
  { destruct (ki_idle _ _ Hk) as (i&t&->&Ht). naive_solver. }
  destruct (nxt_imm_task s) as [q|] eqn:Him; [intros [= <-]; by apply (ki_imm _ _ Hk)|].
  rewrite /first_ready /run_order => Hn.
  assert (n ∈ seqZ 0 MAX_PRIO ≫= λ j, Q (N_rq j)) as (j&Hj&Hin)%list_elem_of_bind.
  { destruct (seqZ _ _ ≫= _); [done|]. injection Hn as ->. set_solver. }
  apply elem_of_seqZ in Hin. apply elem_of_dom.
  eapply (q_task _ _ _ _ (ki_queues _ _ Hk) (N_rq j)); [simpl; lia|done].
Qed.

(** [get_next_eligible_task_to_run] only touches the queues and its own cache. *)
Definition picked (s s' : sys) : Prop :=
  tasks s' = tasks s ∧ slst s' = slst s ∧ sigs s' = sigs s ∧ locks s' = locks s ∧
  current s' = current s ∧ idle s' = idle s ∧ parent s' = parent s ∧
  nrp s' = nrp s ∧ nwp s' = nwp s ∧ task_count s' = task_count s ∧
  os_sched_enabled s' = os_sched_enabled s ∧
  (nxt_imm_task s' = None ∨ nxt_imm_task s' = nxt_imm_task s).

Lemma picked_kinv s s' Q Q' : picked s s' → sys_queues s' Q' → kinv s Q → kinv s' Q'.
Proof.
  intros (Ht&Hsl&Hsg&Hl&Hc&Hi&_&Hn&_&Htc&_&Him) Hq [_ ?? ? Hi' ????].
  split; rewrite ?Ht ?Hc ?Hi ?Hn ?Htc //.
  - intros q Hq'. apply Hi'. destruct Him as [Him|Him]; congruence.
  - rewrite /sig_list Hsl Hsg. done.
Qed.

Lemma get_next_run s Q :
  kinv s Q →
  wp get_next_eligible_task_to_run (λ o s', o = chosen s Q ∧ picked s s' ∧
    sys_queues s' (sched_queues s Q)) s.
Proof.
  intros Hk. rewrite /get_next_eligible_task_to_run /chosen /sched_queues.
  apply wp_bind, wp_gets, wp_bind, wp_gets. rewrite /truthy.
  destruct (Z.eqb_spec (nrp s) 0) as [Hn|Hn]; cbn [negb].
  { apply wp_bind, wp_modify, wp_gets. split_and!; [done|repeat split; auto|].
    exact (ki_queues _ _ Hk). }
  destruct (nxt_imm_task s) as [q|] eqn:Him.
  - apply wp_bind, wp_gets, wp_bind, wp_when; intros Hc.
    + apply wp_bind, wp_modify, wp_modify, wp_ret.
      split_and!; [done|repeat split; auto|]. exact (ki_queues _ _ Hk).
    + apply wp_ret. split_and!; [done|repeat split; auto|]. exact (ki_queues _ _ Hk).
  - apply wp_bind. eapply wp_mono.
    { by apply next_task_ready_to_run_run; [apply Hk| |apply Hk]. }
    intros o s' [-> Hs']. apply wp_bind. destruct (first_ready Q) as [p|]; simpl in Hs'.
    + destruct Hs' as (t&l&Ht&->&Hql). apply wp_when; intros _; [apply wp_modify|]; apply wp_ret.
      all: split_and!; [done|repeat split; auto|]; by rewrite Ht.
    + subst s'. apply wp_when; intros _; [apply wp_modify|]; apply wp_ret.
      all: split_and!; [done|repeat split; auto|]; exact (ki_queues _ _ Hk).
Qed.

Lemma keeps_chosen s s' Q : keeps s s' → chosen s' Q = chosen s Q.
Proof. intros Hk. by rewrite /chosen (kp_nrp _ _ Hk) (kp_idle _ _ Hk) (kp_imm _ _ Hk). Qed.

(** The pending signals of the current task are delivered first. *)
Lemma schedule_signals s Q c :
  kinv s Q → current s = Some c →
  wp (sp ← sig_pending_p; when sp (c ← cur; process_signal c))
     (λ _ s', keeps s s' ∧ sched_queues s' Q = sched_queues s Q) s.
Proof.
  intros Hk Hc. destruct (ki_cur _ _ Hk) as (?&t&Hc'&Ht). rewrite Hc in Hc'. injection Hc' as <-.
  destruct (ki_sig _ _ Hk c t Ht) as [xs Hxs].
  rewrite /sig_pending_p. sys_steps. apply wp_when; intros _; [|done]. sys_steps.
  eapply wp_intro; [by apply process_signal_run|]. split; [keeps_tac Ht|].
  rewrite /sched_queues. simpl. destruct (nrp s =? 0)%Z; [done|].
  destruct (nxt_imm_task s); [done|]. destruct (first_ready Q) as [p|]; [|done].
  rewrite lookup_insert. case_decide; [subst|done]. by rewrite Ht.
Qed.

(** The switch itself, from the current task [c] to another task [n]. *)
Definition switched (c n : positive) (s s' : sys) : Prop :=
  current s' = Some n ∧ SIGALRM ∉ blocked s' ∧
  (∃ tn, tasks s' !! n = Some tn ∧ state tn = TASK_RUNNING) ∧
  (∃ tc, tasks s' !! c = Some tc ∧ state tc = TASK_INTERRUPTIBLE ∧
         regs tc = JB_at in_context_switch).

Definition after_switch (c n : positive) (tc tn : tsk) (s : sys) : sys :=
  set_blocked (blocked s ∖ {[SIGALRM]})
    (set_n_times (S (n_times s)) (set_current (Some n)
      (set_tasks (<[n := set_stick (env_times (n_times s)) (set_state TASK_RUNNING tn)]>
        (<[c := set_regs (JB_at in_context_switch) (set_state TASK_INTERRUPTIBLE tc)]>
          (tasks s))) s))).

Lemma context_switch_run s c n tc tn :
  tasks s !! c = Some tc → tasks s !! n = Some tn → c ≠ n → regs tn ≠ JB_zero →
  wp (tsk_mod (set_state TASK_INTERRUPTIBLE) c;; context_switch c (Some n))
     (λ _ s', s' = after_switch c n tc tn s) s.
Proof.
  intros Htc Htn Hne Hr. rewrite /context_switch. sys_steps. rewrite /nlongjmp. sys_steps.
  simpl. destruct (regs tn); [done|..]; apply wp_ret; by rewrite !insert_insert_eq.
Qed.

Lemma switch_kinv s Q c n tc tn :
  kinv s Q → current s = Some c → tasks s !! c = Some tc → tasks s !! n = Some tn → c ≠ n →
  kinv (after_switch c n tc tn s) Q.
Proof.
  intros Hk Hc Htc Htn Hne.
  assert (Hdom : dom (tasks (after_switch c n tc tn s)) = dom (tasks s)).
  { simpl. rewrite !dom_insert_L. apply elem_of_dom_2 in Htc, Htn. set_solver. }
  assert (Hv : ∀ q, is_Some (tasks s !! q) → is_Some (tasks (after_switch c n tc tn s) !! q)).
  { intros q. by rewrite -!elem_of_dom Hdom. }
  assert (Hl : ∀ p t, tasks (after_switch c n tc tn s) !! p = Some t →
    ∃ t0, tasks s !! p = Some t0 ∧ prio t = prio t0 ∧
      (p ≠ n → (p ≠ c ∧ regs t = regs t0) ∨ regs t = JB_at in_context_switch)).
  { intros p t. simpl. rewrite !lookup_insert. repeat case_decide; subst; naive_solver. }
  split.
  - rewrite /sys_queues Hdom. exact (ki_queues _ _ Hk).
  - intros p t (t0&Ht0&->&_)%Hl. by eapply (ki_prio _ _ Hk).
  - exists n, (set_stick (env_times (n_times s)) (set_state TASK_RUNNING tn)).
    split; [done|]. simpl. by rewrite lookup_insert_eq.
  - destruct (ki_idle _ _ Hk) as (i&t&Hi&Ht). destruct (Hv i) as [t' Ht']; eauto.
  - intros q Hq. apply Hv. by apply (ki_imm _ _ Hk).
  - intros p t (t0&Ht0&_&Hr)%Hl Hp. simpl in Hp.
    destruct (Hr ltac:(congruence)) as [[? ->]| ->]; [|done].
    by eapply (ki_regs _ _ Hk); [done|congruence].
  - exact (ki_count _ _ Hk).
  - exact (ki_nrp _ _ Hk).
  - intros p t (t0&Ht0&_&_)%Hl. by eapply (ki_sig _ _ Hk).
Qed.

(** What every part of [schedule] leaves alone. *)
Record carried (s s' : sys) : Prop := {
  ca_nrp : nrp s' = nrp s;
  ca_nwp : nwp s' = nwp s;
  ca_tasks p t : tasks s !! p = Some t → ∃ t', tasks s' !! p = Some t' ∧ onrq t' = onrq t ∧
    tid t' = tid t ∧ event t' = event t;
  ca_dom : dom (tasks s') = dom (tasks s);
  ca_locks : locks s' = locks s;
  ca_idle : idle s' = idle s;
  ca_parent : parent s' = parent s;
  ca_count : task_count s' = task_count s;
  ca_os : os_sched_enabled s' = os_sched_enabled s;
  ca_imm : nxt_imm_task s' = None ∨ nxt_imm_task s' = nxt_imm_task s
}.
#[global] Instance carried_trans : Transitive carried.
Proof.
  intros s1 s2 s3 [?? Ht1 ?????? Hi1] [?? Ht2 ?????? Hi2]. split; try congruence.
  - intros p t (t1&(t2&?&?&?&?)%Ht2&?&?&?)%Ht1. exists t2. split_and!; congruence.
  - destruct Hi1, Hi2; [left|left|left|right]; congruence.
Qed.
Lemma keeps_carried s s' : keeps s s' → carried s s'.
Proof.
  intros Hk. split; try apply Hk; [|by apply keeps_dom|by right; apply Hk].
  intros p t Ht. destruct (keeps_lookup _ _ _ _ Hk Ht) as (t'&?&[]). eauto 10.
Qed.
Lemma picked_carried s s' : picked s s' → carried s s'.
Proof.
  intros (Ht&?&?&?&?&?&?&?&?&?&?&?). split; try done; [|by rewrite Ht].
  intros p t Hp. rewrite Ht. eauto 10.
Qed.
Lemma after_switch_carried c n tc tn s :
  tasks s !! c = Some tc → tasks s !! n = Some tn → carried s (after_switch c n tc tn s).
Proof.
  intros Hc Hn. split; try done; [| |by right].
  - intros p t Hp. simpl. rewrite !lookup_insert. repeat case_decide; subst; naive_solver.
  - simpl. rewrite !dom_insert_L. apply elem_of_dom_2 in Hc, Hn. set_solver.
Qed.

(** What a call of [schedule] that chooses [n] guarantees. *)
Record scheduled (c n : positive) (s s' : sys) : Prop := {
  sc_current : current s' = Some n;
  sc_need : sched_need s' = 0%Z;
  sc_switch : c ≠ n → switched c n s s';
  sc_carried : carried s s'
}.

(** The accounting of [schedule] when the task changes. *)
Lemma schedule_accounts s Q c n :
  kinv s Q → current s = Some c → is_Some (tasks s !! n) →
  wp (collect_stack_trace c;; update_stats;; calculate_time_slice (Some n))
     (λ _ s', keeps s s') s.
Proof.
  intros Hk Hc [tn Htn].
  destruct (ki_cur _ _ Hk) as (?&tc&Hc'&Htc). rewrite Hc in Hc'. injection Hc' as <-.
  apply wp_bind. eapply wp_mono; [by eapply collect_stack_trace_keeps|]. intros [] s1 Hk1.
  destruct (keeps_lookup _ _ _ _ Hk1 Htc) as (tc1&Htc1&_).
  apply wp_bind. eapply wp_mono.
  { eapply update_stats_keeps; [by rewrite (kp_current _ _ Hk1)|done]. }
  intros [] s2 Hk2. assert (Hk12 : keeps s s2) by by etrans.
  destruct (keeps_lookup _ _ _ _ Hk12 Htn) as (tn2&Htn2&_).
  eapply wp_mono; [eapply calculate_time_slice_keeps; [done|..]|].
  - rewrite (kp_count _ _ Hk12). pose proof (ki_count _ _ Hk). lia.
  - rewrite (kp_nrp _ _ Hk12). by eapply kinv_nrp.
  - intros [] s3 Hk3. by etrans.
Qed.

Lemma bind_assoc3 {A} (m1 m2 m3 : M sys unit) (k : M sys A) s :
  (m1;; m2;; m3;; k) s = ((m1;; m2;; m3);; k) s.
Proof.
  rewrite /mbind /M_bind. destruct (m1 s) as [[? s1]|]; [|done].
  by destruct (m2 s1) as [[? s2]|].
Qed.

Lemma schedule_switch s Q c n :
  kinv s Q → current s = Some c → c ≠ n → is_Some (tasks s !! n) →
  wp (collect_stack_trace c;; update_stats;; calculate_time_slice (Some n);;
      tsk_mod (set_state TASK_INTERRUPTIBLE) c;; context_switch c (Some n))
     (λ _ s', kinv s' Q ∧ ∃ s1 tc tn, keeps s s1 ∧ tasks s1 !! c = Some tc ∧
        tasks s1 !! n = Some tn ∧ s' = after_switch c n tc tn s1) s.
Proof.
  intros Hk Hc Hne Hn. rewrite /wp bind_assoc3. apply wp_bind.
  eapply wp_mono; [by eapply schedule_accounts|]. intros [] s1 Hk1.
  destruct (ki_cur _ _ Hk) as (?&tc&Hc'&Htc). rewrite Hc in Hc'. injection Hc' as <-.
  destruct Hn as [tn Htn].
  destruct (keeps_lookup _ _ _ _ Hk1 Htc) as (tc1&Htc1&_).
  destruct (keeps_lookup _ _ _ _ Hk1 Htn) as (tn1&Htn1&Htk).
  pose proof (keeps_kinv _ _ _ Hk1 Hk) as Hk'.
  assert (current s1 = Some c) by by rewrite (kp_current _ _ Hk1).
  eapply wp_mono; [eapply context_switch_run; [done..|]|].
  { by eapply (ki_regs _ _ Hk'); [done|congruence]. }
  intros [] s' ->. split; [by apply switch_kinv|]. by exists s1, tc1, tn1.
Qed.

Lemma after_switch_switched c n tc tn s s0 :
  c ≠ n → switched c n s0 (after_switch c n tc tn s).
Proof.
  intros Hne. split_and!; [done|simpl; set_solver| |].
  - eexists. simpl. rewrite lookup_insert_eq. done.
  - eexists. simpl. rewrite lookup_insert_ne // lookup_insert_eq. done.
Qed.
(** The decision, and the switch or the accounting that follows it. *)
Lemma schedule_decide s Q c n :
  kinv s Q → current s = Some c → sched_need s = 0%Z → is_Some (tasks s !! n) →
  wp (if bool_decide (Some c ≠ Some n) then
        collect_stack_trace c;; update_stats;; calculate_time_slice (Some n);;
        tsk_mod (set_state TASK_INTERRUPTIBLE) c;; context_switch c (Some n)
      else calc_current_cpu_usage)
     (λ _ s', kinv s' Q ∧ scheduled c n s s') s.
Proof.
  intros Hk Hc Hsn Hn. case_bool_decide as Hne.
  - assert (c ≠ n) by congruence. eapply wp_mono; [by eapply schedule_switch|].
    intros [] s' (Hk'&s1&tc&tn&Hk1&Htc&Htn&->). split; [done|]. split; [done| | |].
    + by rewrite -Hsn -(kp_need _ _ Hk1).
    + by intros; apply after_switch_switched.
    + etrans; [by apply keeps_carried|]. by apply after_switch_carried.
  - assert (c = n) as <- by congruence. destruct Hn as [t Ht].
    eapply wp_mono; [by eapply calc_usage_keeps|]. intros [] s' Hk'.
    split; [by eapply keeps_kinv|]. split; [by rewrite (kp_current _ _ Hk')|
      by rewrite (kp_need _ _ Hk')|done|by apply keeps_carried].
Qed.

(** A call of [schedule] in a good state with a task to run. *)
Lemma schedule_run s Q c n :
  kinv s Q → os_sched_enabled s = 0%Z → current s = Some c → chosen s Q = Some n →
  wp schedule (λ _ s', kinv s' (sched_queues s Q) ∧ scheduled c n s s') s.
Proof.
  intros Hk Hos Hc Hn. rewrite /schedule. apply wp_bind, wp_gets. rewrite Hos.
  change (negb (truthy 0)) with true. cbv iota. rewrite /wp bind_assoc2. apply wp_bind.
  eapply wp_mono; [by eapply schedule_signals|]. intros [] s1 [Hk1 Hsq].
  apply wp_bind. eapply wp_mono; [by apply get_next_run, (keeps_kinv _ _ _ Hk1 Hk)|].
  intros o s2 (->&Hpk&Hq2). rewrite (keeps_chosen _ _ _ Hk1) Hn Hsq in Hq2 |- *.
  pose proof (picked_kinv _ _ _ _ Hpk Hq2 (keeps_kinv _ _ _ Hk1 Hk)) as Hki2.
  pose proof (keeps_carried _ _ Hk1) as Hc1. pose proof (picked_carried _ _ Hpk) as Hc2.
  assert (Hcar : carried s s2) by by etrans. destruct Hpk as (_&_&_&_&Hcur&_).
  apply wp_bind, wp_modify, wp_bind. eapply wp_cur; [by simpl; rewrite Hcur (kp_current _ _ Hk1)|].
  eapply wp_mono.
  - apply (schedule_decide (set_sched_need 0 s2) (sched_queues s Q) c n).
    + by destruct Hki2.
    + by simpl; rewrite Hcur (kp_current _ _ Hk1).
    + done.
    + apply elem_of_dom. simpl. rewrite (ca_dom _ _ Hcar). apply elem_of_dom. by eapply chosen_valid.
  - intros [] s' [Hk' [Hx1 Hx2 Hx3 Hc3]]. split; [done|]. split; [done|done|done|].
    etrans; [exact Hcar|]. split; apply Hc3.
Qed.
End schedule.
