(* ===== verification/SchedProps.v ===== *)
(** * Sleeping, waking and looking up tasks

    The operations of the scheduler preserve its invariant [kinv]; what sleeping,
    waking, waking all waiters of a descriptor and looking up a task do to the
    queues; the bounds of the accounting. *)

From S2P Require Import Prelude ListHead Task Signal Sched SchedInv.

(** ** Deciding the invariant on a concrete state *)
#[global] Instance seg_dec `{Countable A} (m : gmap A (list_head A)) a xs b :
  Decision (seg m a xs b).
Proof. revert a. induction xs as [|x xs IH]; intros a; simpl; apply _. Defined.
#[global] Instance dll_dec `{Countable A} (m : gmap A (list_head A)) h xs :
  Decision (dll m h xs).
Proof. rewrite /dll. apply _. Defined.

Definition heads (LK : gset positive) : list lnode :=
  N_wq :: (N_rq <$> seqZ 0 MAX_PRIO) ++ (N_io <$> seqZ 0 MAX_FDS) ++ (N_lock <$> elements LK).

Lemma is_head_heads LK h : is_head LK h → h ∈ heads LK.
Proof.
  rewrite /heads elem_of_cons !elem_of_app !list_elem_of_fmap.
  destruct h as [i| |fd|l|p]; simpl; intros Hh; [|by left| | |done]; right.
  - left. exists i. by rewrite elem_of_seqZ.
  - right; left. exists fd. by rewrite elem_of_seqZ.
  - right; right. exists l. by rewrite elem_of_elements.
Qed.

Lemma NoDup_bind_uniq {A B} (f : A → list B) xs x1 x2 b :
  NoDup (xs ≫= f) → x1 ∈ xs → x2 ∈ xs → b ∈ f x1 → b ∈ f x2 → x1 = x2.
Proof.
  induction xs as [|x xs IH]; [set_solver|]. cbn [mbind list_bind].
  intros (_&Hd&Hnd)%NoDup_app H1 H2 Hb1 Hb2.
  assert (Hin : ∀ y, y ∈ xs → b ∈ f y → b ∈ xs ≫= f) by (intros; apply list_elem_of_bind; eauto).
  apply elem_of_cons in H1 as [->|H1], H2 as [->|H2]; auto; exfalso; eapply Hd; eauto.
Qed.

Lemma queues_check l T LK Q :
  Forall (λ h, dll l h (N_tsk <$> Q h)) (heads LK) → NoDup (heads LK ≫= Q) →
  Forall (λ p, p ∈ T) (heads LK ≫= Q) → Forall (λ p, is_Some (l !! N_tsk p)) (elements T) →
  queues l T LK Q.
Proof.
  rewrite !Forall_forall. intros Hd Hnd HT Hn. split.
  - intros h Hh%is_head_heads. auto.
  - intros h1 h2 p Hh1%is_head_heads Hh2%is_head_heads. by apply (NoDup_bind_uniq Q _ _ _ p Hnd).
  - intros h p Hh%is_head_heads Hp. apply HT, list_elem_of_bind. eauto.
  - intros p Hp. by apply Hn, elem_of_elements.
Qed.

(** ** Updating one task preserves the invariant *)
Section preserve.
Context `{E : Env}.
Implicit Types (s : sys) (p c n : positive) (t : tsk) (Q : qmap).

(** [s'] is [s] with the task [p] changed to [t'] and other queues. *)
Record moved (p : positive) (t t' : tsk) (s s' : sys) : Prop := {
  mv_tasks : tasks s' = <[p := t']> (tasks s);
  mv_old : tasks s !! p = Some t;
  mv_prio : prio t' = prio t;
  mv_regs : regs t' = regs t;
  mv_slst : slst s' = slst s;
  mv_sigs : sigs s' = sigs s;
  mv_locks : locks s' = locks s;
  mv_current : current s' = current s;
  mv_idle : idle s' = idle s;
  mv_count : task_count s' = task_count s;
  mv_imm q : nxt_imm_task s' = Some q → q = p ∨ nxt_imm_task s = Some q
}.

Lemma moved_dom p t t' s s' : moved p t t' s s' → dom (tasks s') = dom (tasks s).
Proof.
  intros Hm. rewrite (mv_tasks _ _ _ _ _ Hm) dom_insert_L.
  pose proof (elem_of_dom_2 _ _ _ (mv_old _ _ _ _ _ Hm)). set_solver.
Qed.
Lemma moved_kinv p t t' s s' Q Q' :
  moved p t t' s s' → kinv s Q →
  queues (lst s') (dom (tasks s)) (dom (locks s)) Q' → (0 ≤ nrp s' < 2 ^ 31 - 1)%Z →
  kinv s' Q'.
Proof.
  intros Hm Hk Hq Hn. pose proof (moved_dom _ _ _ _ _ Hm) as Hdom.
  assert (Hv : ∀ q, is_Some (tasks s !! q) → is_Some (tasks s' !! q)).
  { intros q. by rewrite -!elem_of_dom Hdom. }
  destruct Hm as [Ht Hold Hp Hr Hsl Hsg Hl Hc Hi Hct Him].
  assert (Hlk : ∀ q tq, tasks s' !! q = Some tq →
    ∃ t0, tasks s !! q = Some t0 ∧ prio tq = prio t0 ∧ regs tq = regs t0).
  { intros q tq. rewrite Ht lookup_insert. case_decide; naive_solver. }
  split; [by rewrite /sys_queues Hdom Hl|..].
  - intros q tq (t0&?&->&_)%Hlk. by eapply (ki_prio _ _ Hk).
  - rewrite Hc. destruct (ki_cur _ _ Hk) as (c&tc&?&?). destruct (Hv c); eauto.
  - rewrite Hi. destruct (ki_idle _ _ Hk) as (c&tc&?&?). destruct (Hv c); eauto.
  - intros q [->|Hq']%Him; apply Hv; [by eauto|by apply (ki_imm _ _ Hk)].
  - rewrite Hc. intros q tq (t0&?&_&->)%Hlk. by apply (ki_regs _ _ Hk).
  - rewrite Hct. apply Hk.
  - done.
  - intros q tq (t0&?&_&_)%Hlk. rewrite /sig_list Hsl Hsg. by eapply (ki_sig _ _ Hk).
Qed.

Lemma sleep_moved s p t l :
  tasks s !! p = Some t →
  moved p t (slept (env_times (n_times s)) t) s (set_lst l (after_sleep p t s)).
Proof. intros. split; simpl; auto. Qed.
Lemma imm_after_cases (T : gmap positive tsk) nx p t q :
  imm_after T nx p t = Some q → q = p ∨ nx = Some q.
Proof.
  rewrite /imm_after. destruct nx as [r|]; [|naive_solver].
  destruct (T !! r) as [tr|]; [|naive_solver]. destruct (_ <? _)%Z; naive_solver.
Qed.
Lemma wakeup_moved s p t tc l :
  tasks s !! p = Some t →
  moved p t (woken (env_times (n_times s)) t) s (set_lst l (after_wakeup p t tc s)).
Proof. intros. split; simpl; eauto using imm_after_cases. Qed.

(** A queued task goes to sleep. *)
Lemma sleep_kinv s Q p t h :
  kinv s Q → is_head (dom (locks s)) h → p ∈ Q h → tasks s !! p = Some t →
  onrq t ≠ 0%Z → (0 < nrp s)%Z →
  ∃ l, add_task_to_wait_Q p s = Some (tt, set_lst l (after_sleep p t s)) ∧
       kinv (set_lst l (after_sleep p t s)) (qapp p N_wq (qrem p Q)).
Proof.
  intros Hk Hh Hp Ht Hon Hn.
  destruct (add_task_to_wait_Q_run s p t (qrem p Q)) as (l&Hrun&Hq); [done..| |].
  { eapply unlinks_queued; [apply Hk|done..]. }
  exists l. split; [done|]. eapply moved_kinv; [by apply sleep_moved|done|done|].
  simpl. pose proof (ki_nrp _ _ Hk). rewrite s32_small; lia.
Qed.

(** A task whose node can be unlinked wakes up. *)
Lemma wakeup_kinv s Q Q0 p t c tc :
  kinv s Q0 → unlinks s p Q → tasks s !! p = Some t → onrq t = 0%Z →
  current s = Some c → tasks s !! c = Some tc → (nrp s < 2 ^ 31 - 2)%Z →
  ∃ l, wakeup_task p s = Some (tt, set_lst l (after_wakeup p t tc s)) ∧
       kinv (set_lst l (after_wakeup p t tc s)) (qcons p (N_rq (prio t)) Q).
Proof.
  intros Hk Hu Ht Hon Hc Htc Hn.
  destruct (wakeup_task_run s p t c tc Q) as (l&Hrun&Hq);
    [done|done|by eapply (ki_prio _ _ Hk)|done|done|apply Hk|done|].
  exists l. split; [done|]. eapply moved_kinv; [by apply wakeup_moved|exact Hk|done|].
  simpl. pose proof (ki_nrp _ _ Hk). rewrite s32_small; lia.
Qed.
End preserve.

(** ** The run count *)

(** Number of tasks on the run queues. *)
Definition run_count (Q : qmap) : Z := Z.of_nat (length (run_order Q 0 MAX_PRIO)).

(** The invariant with an exact [rq.nrp]. *)
Record kgood (s : sys) (Q : qmap) : Prop := {
  kg_inv : kinv s Q;
  kg_nrp : nrp s = run_count Q
}.

Section count.
Implicit Types (p : positive) (Q : qmap) (h : lnode).

Lemma length_bind_change {A B} (f g : A → list B) xs x n :
  NoDup xs → x ∈ xs → (∀ y, y ≠ x → g y = f y) → length (g x) = n + length (f x) →
  length (xs ≫= g) = n + length (xs ≫= f).
Proof.
  intros Hnd Hx Hne Hg. induction Hnd as [|y xs Hy Hnd IH]; [set_solver|].
  cbn [mbind list_bind]. rewrite !length_app. apply elem_of_cons in Hx as [<-|Hx].
  - rewrite Hg (Forall_bind_ext g f xs); [lia|].
    apply Forall_forall. intros z Hz. apply Hne. by intros ->.
  - rewrite (Hne y); [|by intros ->]. specialize (IH Hx). unfold mbind in *. lia.
Qed.

Definition is_run (h : lnode) : bool :=
  match h with N_rq i => bool_decide (0 ≤ i < MAX_PRIO)%Z | _ => false end.

Lemma run_count_add Q Q' h :
  (∀ h', h' ≠ h → Q' h' = Q h') → length (Q' h) = S (length (Q h)) →
  run_count Q' = (run_count Q + if is_run h then 1 else 0)%Z.
Proof.
  intros Hne Hh. rewrite /run_count /run_order.
  assert (Hsame : (∀ j, (0 ≤ j < MAX_PRIO)%Z → N_rq j ≠ h) →
    (seqZ 0 MAX_PRIO ≫= λ j, Q' (N_rq j)) = seqZ 0 MAX_PRIO ≫= λ j, Q (N_rq j)).
  { intros Hj. apply Forall_bind_ext, Forall_forall. intros j Hin%elem_of_seqZ. apply Hne, Hj. lia. }
  destruct h as [i| | | |]; cbn [is_run]; try (rewrite Hsame; [lia|done]).
  case_bool_decide as Hi; [|rewrite Hsame; [lia|by intros j ? [= ->]]].
  rewrite (length_bind_change (λ j, Q (N_rq j)) (λ j, Q' (N_rq j)) (seqZ 0 MAX_PRIO) i 1).
  - lia.
  - apply NoDup_seqZ.
  - by apply elem_of_seqZ.
  - intros j Hj. apply Hne. congruence.
  - lia.
Qed.

Lemma run_count_qapp p h Q : run_count (qapp p h Q) = (run_count Q + if is_run h then 1 else 0)%Z.
Proof.
  apply run_count_add; intros; rewrite /qapp; [by rewrite decide_False|].
  rewrite decide_True // length_app /=. lia.
Qed.
Lemma run_count_qcons p h Q :
  run_count (qcons p h Q) = (run_count Q + if is_run h then 1 else 0)%Z.
Proof.
  apply run_count_add; intros; rewrite /qcons; [by rewrite decide_False|].
  by rewrite decide_True.
Qed.
Lemma run_count_ext Q Q' :
  (∀ j, (0 ≤ j < MAX_PRIO)%Z → Q (N_rq j) = Q' (N_rq j)) → run_count Q = run_count Q'.
Proof.
  intros HQ. rewrite /run_count /run_order. do 2 f_equal. apply Forall_bind_ext, Forall_forall.
  intros j ?%elem_of_seqZ. apply HQ. lia.
Qed.
Lemma run_count_qrem l T LK Q p h :
  queues l T LK Q → is_head LK h → p ∈ Q h →
  run_count (qrem p Q) = (run_count Q - if is_run h then 1 else 0)%Z.
Proof.
  intros Hq Hh Hp.
  assert (Hlen : length (Q h) = S (length (qrem p Q h))).
  { pose proof (queues_NoDup _ _ _ _ _ Hq Hh) as Hnd.
    apply list_elem_of_split in Hp as (xs&ys&EQ). rewrite /qrem EQ in Hnd |- *.
    rewrite filter_ne_mid // !length_app /=. lia. }
  rewrite (run_count_add (λ h', if decide (h' = h) then qrem p Q h' else Q h') Q h).
  - rewrite (run_count_ext (qrem p Q) (λ h', if decide (h' = h) then qrem p Q h' else Q h'));
      [lia|].
    intros j Hj. case_decide as Ej; [done|]. rewrite /qrem filter_ne_id //.
    intros Hp'. apply Ej. by apply (q_uniq _ _ _ _ Hq _ _ p).
  - intros h' Hne. by rewrite decide_False.
  - by rewrite decide_True.
Qed.
End count.

(** ** The operations keep the run count exact *)
Section good.
Context `{E : Env}.
Implicit Types (s : sys) (p c n : positive) (t : tsk) (Q : qmap).

(** A good state always has a task to run. *)
Lemma kgood_chosen s Q : kgood s Q → ∃ n, chosen s Q = Some n.
Proof.
  intros [Hk Hn]. rewrite /chosen. destruct (Z.eqb_spec (nrp s) 0) as [|Hne].
  { destruct (ki_idle _ _ Hk) as (i&?&->&_). eauto. }
  destruct (nxt_imm_task s); [eauto|]. rewrite /first_ready.
  rewrite Hn /run_count in Hne. destruct (run_order Q 0 MAX_PRIO); [done|by eauto].
Qed.

Lemma first_ready_queue Q p :
  first_ready Q = Some p → ∃ i, (0 ≤ i < MAX_PRIO)%Z ∧ p ∈ Q (N_rq i).
Proof.
  rewrite /first_ready /run_order. intros Hp.
  assert (p ∈ seqZ 0 MAX_PRIO ≫= λ j, Q (N_rq j)) as (j&Hj&Hin)%list_elem_of_bind.
  { destruct (seqZ _ _ ≫= _); [done|]. injection Hp as ->. set_solver. }
  apply elem_of_seqZ in Hin. exists j. split; [lia|done].
Qed.

Lemma rotate_count s Q p t :
  kinv s Q → first_ready Q = Some p → tasks s !! p = Some t →
  run_count (rotate p t Q) = run_count Q.
Proof.
  intros Hk (i&Hi&Hp)%first_ready_queue Ht. rewrite /rotate run_count_qapp.
  rewrite (run_count_qrem _ _ _ _ _ (N_rq i) (ki_queues _ _ Hk)) //=.
  rewrite !bool_decide_eq_true_2; [lia|first [done|by eapply (ki_prio _ _ Hk)]..].
Qed.
Lemma sched_queues_count s Q : kinv s Q → run_count (sched_queues s Q) = run_count Q.
Proof.
  intros Hk. rewrite /sched_queues. destruct (nrp s =? 0)%Z; [done|].
  destruct (nxt_imm_task s); [done|]. destruct (first_ready Q) as [p|] eqn:Hp; [|done].
  destruct (tasks s !! p) as [t|] eqn:Ht; [|done]. case_decide; [done|].
  by eapply rotate_count.
Qed.

Lemma schedule_good s Q c n :
  kgood s Q → os_sched_enabled s = 0%Z → current s = Some c → chosen s Q = Some n →
  wp schedule (λ _ s', kgood s' (sched_queues s Q) ∧ scheduled c n s s') s.
Proof.
  intros [Hk Hn] Hos Hc Hch. eapply wp_mono; [by eapply schedule_run|].
  intros [] s' [Hk' Hs]. split; [|done]. split; [done|].
  by rewrite (ca_nrp _ _ (sc_carried _ _ _ _ Hs)) sched_queues_count.
Qed.

Lemma sleep_good s Q p t i :
  kgood s Q → (0 ≤ i < MAX_PRIO)%Z → p ∈ Q (N_rq i) → tasks s !! p = Some t → onrq t ≠ 0%Z →
  ∃ l, add_task_to_wait_Q p s = Some (tt, set_lst l (after_sleep p t s)) ∧
       kgood (set_lst l (after_sleep p t s)) (qapp p N_wq (qrem p Q)).
Proof.
  intros [Hk Hn] Hi Hp Ht Hon.
  pose proof (run_count_qrem _ _ _ _ p (N_rq i) (ki_queues _ _ Hk) Hi Hp) as Hc.
  cbn [is_run] in Hc. rewrite bool_decide_eq_true_2 // in Hc.
  assert (0 ≤ run_count (qrem p Q))%Z by (rewrite /run_count; lia).
  destruct (sleep_kinv s Q p t (N_rq i)) as (l&Hrun&Hk'); [done..|lia|].
  exists l. split; [done|]. split; [done|]. pose proof (ki_nrp _ _ Hk).
  rewrite run_count_qapp Hc /= s32_small; lia.
Qed.

(** Waking a task that waits on the queue [h]. *)
Lemma wakeup_good s Q p t c tc h :
  kgood s Q → is_head (dom (locks s)) h → is_run h = false → p ∈ Q h →
  tasks s !! p = Some t → onrq t = 0%Z →
  current s = Some c → tasks s !! c = Some tc → (nrp s < 2 ^ 31 - 2)%Z →
  ∃ l, wakeup_task p s = Some (tt, set_lst l (after_wakeup p t tc s)) ∧
       kgood (set_lst l (after_wakeup p t tc s)) (qcons p (N_rq (prio t)) (qrem p Q)).
Proof.
  intros [Hk Hn] Hh Hr Hp Ht Hon Hc Htc Hlt.
  destruct (wakeup_kinv s (qrem p Q) Q p t c tc) as (l&Hrun&Hk'); [done| |done..|].
  { eapply unlinks_queued; [apply Hk|done..]. }
  exists l. split; [done|]. split; [done|]. pose proof (ki_nrp _ _ Hk).
  rewrite run_count_qcons (run_count_qrem _ _ _ _ p h (ki_queues _ _ Hk)) // Hr /=.
  rewrite bool_decide_eq_true_2; [|by eapply (ki_prio _ _ Hk)].
  rewrite s32_small; lia.
Qed.
End good.

(** ** Waking all waiters of a descriptor *)
Section wake_io.
Context `{E : Env}.
Implicit Types (s : sys) (p c n : positive) (t : tsk) (Q : qmap) (ps : list positive).

Lemma kinv_set_lst s Q l Q' :
  kinv s Q → queues l (dom (tasks s)) (dom (locks s)) Q' → kinv (set_lst l s) Q'.
Proof. intros [] Hq. split; simpl; auto. Qed.

(** Queues after the tasks [ps] were woken, one after the other. *)
Definition wake1 (T : gmap positive tsk) (Q : qmap) (p : positive) : qmap :=
  match T !! p with Some t => qcons p (N_rq (prio t)) (qrem p Q) | None => Q end.
Definition wake_all (T : gmap positive tsk) (ps : list positive) (Q : qmap) : qmap :=
  foldl (wake1 T) Q ps.

(** A task that waits, is unlinked, and then woken. *)
Lemma unlink_wakeup_good s Q p t c tc h (Φ : unit → sys → Prop) :
  kgood s Q → is_head (dom (locks s)) h → is_run h = false → p ∈ Q h →
  tasks s !! p = Some t → onrq t = 0%Z →
  current s = Some c → tasks s !! c = Some tc → (nrp s < 2 ^ 31 - 2)%Z →
  (∀ l, kgood (set_lst l (after_wakeup p t tc s)) (qcons p (N_rq (prio t)) (qrem p Q)) →
     Φ tt (set_lst l (after_wakeup p t tc s))) →
  wp (onl (list_del (N_tsk p));; wakeup_task p) Φ s.
Proof.
  intros Hg Hh Hr Hp Ht Hon Hc Htc Hlt HΦ.
  pose proof (ki_queues _ _ (kg_inv _ _ Hg)) as Hq.
  destruct (list_del_queues _ _ _ _ _ _ Hq Hh Hp) as (l1&Hl1&Hq1).
  apply wp_bind. eapply wp_onl; [exact Hl1|].
  pose proof (unlinks_again _ _ _ _ _ Hq Hh Hp Hl1) as Hu.
  destruct (wakeup_kinv (set_lst l1 s) (qrem p Q) (qrem p Q) p t c tc) as (l2&Hrun&Hk2);
    [by eapply kinv_set_lst; [apply Hg|]|done..|].
  eapply wp_intro; [exact Hrun|]. apply (HΦ l2). split; [done|]. simpl.
  pose proof (ki_nrp _ _ (kg_inv _ _ Hg)).
  rewrite run_count_qcons (run_count_qrem _ _ _ _ p h Hq) // Hr /=.
  rewrite bool_decide_eq_true_2; [|by eapply (ki_prio _ _ (kg_inv _ _ Hg))].
  pose proof (kg_nrp _ _ Hg). rewrite s32_small; lia.
Qed.

(** What waking [ps] leaves: everybody else as before, the woken tasks on the
    run queue with their old priority. *)
Record io_woken (ps : list positive) (s s' : sys) : Prop := {
  iw_current : current s' = current s;
  iw_nrp : nrp s' = (nrp s + Z.of_nat (length ps))%Z;
  iw_locks : locks s' = locks s;
  iw_idle : idle s' = idle s;
  iw_os : os_sched_enabled s' = os_sched_enabled s;
  iw_other p : p ∉ ps → tasks s' !! p = tasks s !! p;
  iw_woken p : p ∈ ps → ∃ t t', tasks s !! p = Some t ∧ tasks s' !! p = Some t' ∧
    onrq t' = 1%Z ∧ prio t' = prio t
}.

Lemma wake_all_ext T T' ps Q :
  (∀ p, p ∈ ps → prio <$> T !! p = prio <$> T' !! p) → wake_all T ps Q = wake_all T' ps Q.
Proof.
  revert Q. induction ps as [|p ps IH]; intros Q HT; [done|].
  rewrite /wake_all /=.
  assert (wake1 T Q p = wake1 T' Q p) as ->.
  { rewrite /wake1. specialize (HT p ltac:(set_solver)).
    destruct (T !! p), (T' !! p); simplify_eq/=; congruence. }
  apply IH. intros. apply HT. set_solver.
Qed.

Lemma io_queue_next s Q fd ps (p : lnode) :
  sys_queues s Q → (0 ≤ fd < MAX_FDS)%Z → Q (N_io fd) = ps →
  p = hd (N_io fd) (N_tsk <$> ps) →
  get_next p (lst s) = Some (hd (N_io fd) (N_tsk <$> tl ps), lst s).
Proof.
  intros Hq Hfd HQ ->. destruct (q_dll _ _ _ _ Hq (N_io fd) Hfd) as [_ Hs]. rewrite HQ in Hs.
  destruct ps as [|q ps]; [by apply get_next_eq, (seg_nxt _ _ _ _ Hs)|].
  destruct Hs as (_&_&Hs). by apply get_next_eq, (seg_nxt _ _ _ _ Hs).
Qed.

Lemma wake_io_loop_run fuel s Q fd ps :
  kgood s Q → (0 ≤ fd < MAX_FDS)%Z → Q (N_io fd) = ps → length ps ≤ fuel →
  (∀ p, p ∈ ps → ∃ t, tasks s !! p = Some t ∧ onrq t = 0%Z) →
  (nrp s + Z.of_nat (length ps) < 2 ^ 31 - 1)%Z →
  wp (wake_io_loop fuel (hd (N_io fd) (N_tsk <$> ps)) (hd (N_io fd) (N_tsk <$> tl ps)) (N_io fd))
     (λ _ s', kgood s' (wake_all (tasks s) ps Q) ∧ io_woken ps s s') s.
Proof.
  revert s Q ps. induction fuel as [|fuel IH]; intros s Q [|p ps] Hg Hfd HQ Hf Hw Hn.
  all: cbn [length] in Hf, Hn; try lia.
  1,2: cbn; rewrite bool_decide_eq_true_2 //; cbn; split; [done|].
  1,2: split; try done; cbn; first [lia|set_solver].
  cbn [fmap list_fmap hd tl wake_io_loop].
  rewrite bool_decide_eq_false_2 //. apply wp_bind, wp_ret.
  destruct (Hw p ltac:(set_solver)) as (t&Ht&Hon).
  destruct (ki_cur _ _ (kg_inv _ _ Hg)) as (c&tc&Hc&Htc).
  assert (Hnd : NoDup (p :: ps)).
  { rewrite -HQ. eapply queues_NoDup; [apply Hg|done]. }
  apply NoDup_cons in Hnd as [Hp Hnd].
  rewrite /wp bind_assoc2. apply wp_bind.
  apply (unlink_wakeup_good s Q p t c tc (N_io fd));
    [done|done|done|by rewrite HQ; set_solver|done..|lia|].
  intros l Hg'. set (s1 := set_lst l (after_wakeup p t tc s)) in *.
  set (Q1 := qcons p (N_rq (prio t)) (qrem p Q)) in *.
  assert (HQ1 : Q1 (N_io fd) = ps).
  { rewrite /Q1 /qcons /= /qrem HQ.
    rewrite filter_cons_False; [|naive_solver]. by apply filter_ne_id. }
  apply wp_bind. eapply wp_onl.
  { by eapply (io_queue_next s1 Q1 fd); [apply Hg'|..]. }
  rewrite set_lst_id. eapply wp_mono.
  { apply (IH s1 Q1 ps Hg' Hfd HQ1); [lia| |].
    - intros q Hq. destruct (Hw q ltac:(set_solver)) as (tq&?&?). exists tq. simpl.
      rewrite lookup_insert_ne //. by intros ->.
    - simpl. pose proof (ki_nrp _ _ (kg_inv _ _ Hg)). rewrite s32_small; lia. }
  intros [] s' [Hg2 [Hc2 Hn2 Hl2 Hi2 Hos2 Ho2 Hw2]]. split.
  - rewrite /wake_all /= {2}/wake1 Ht.
    rewrite -/(wake_all (tasks s) ps Q1) (wake_all_ext _ (tasks s1)) //.
    intros q Hq. simpl. rewrite lookup_insert_ne //. by intros ->.
  - pose proof (ki_nrp _ _ (kg_inv _ _ Hg)). split; [done| |done|done|done| |].
    + rewrite Hn2 /= s32_small; lia.
    + intros q Hq. rewrite Ho2; [|set_solver]. simpl. rewrite lookup_insert_ne //. set_solver.
    + intros q [->|Hq]%elem_of_cons.
      * exists t, (woken (env_times (n_times s)) t). rewrite Ho2 //= lookup_insert_eq. done.
      * destruct (Hw2 q Hq) as (tq&tq'&H1&?&?&?). exists tq, tq'.
        rewrite /= lookup_insert_ne in H1; [done|]. by intros ->.
Qed.
End wake_io.

(** ** Looking up a task *)
Section lookup.
Context `{E : Env}.
Implicit Types (s : sys) (p : positive) (Q : qmap) (ps : list positive).

Definition has_tid (s : sys) (t0 : Z) (p : positive) : Prop := tid <$> tasks s !! p = Some t0.
#[global] Instance has_tid_dec s t0 p : Decision (has_tid s t0 p).
Proof. rewrite /has_tid. apply _. Defined.
(** The first task of a list with the id [t0]. *)
Definition first_tid (s : sys) (t0 : Z) (ps : list positive) : option positive :=
  head (filter (has_tid s t0) ps).

Lemma first_tid_app s t0 ps qs :
  first_tid s t0 (ps ++ qs) =
    match first_tid s t0 ps with Some p => Some p | None => first_tid s t0 qs end.
Proof. rewrite /first_tid filter_app. by destruct (filter _ ps). Qed.
Lemma first_tid_Some s t0 ps p :
  first_tid s t0 ps = Some p → p ∈ ps ∧ has_tid s t0 p.
Proof.
  rewrite /first_tid. intros Hp.
  assert (p ∈ filter (has_tid s t0) ps) as [??]%list_elem_of_filter; [|done].
  destruct (filter _ _); [done|]. injection Hp as ->. set_solver.
Qed.
Lemma first_tid_None s t0 ps : first_tid s t0 ps = None → ∀ p, p ∈ ps → ¬ has_tid s t0 p.
Proof.
  rewrite /first_tid. intros Hn p Hp Ht.
  assert (p ∈ filter (has_tid s t0) ps) by by apply list_elem_of_filter.
  destruct (filter _ _); set_solver.
Qed.

Lemma find_tid_run s t0 ps :
  (∀ p, p ∈ ps → is_Some (tasks s !! p)) →
  find_tid t0 (N_tsk <$> ps) s = Some (first_tid s t0 ps, s).
Proof.
  induction ps as [|p ps IH]; intros Hv; [done|]. cbn [fmap list_fmap find_tid].
  destruct (Hv p ltac:(set_solver)) as [t Ht].
  rewrite /mbind /M_bind /= /tsk_ld Ht /first_tid.
  destruct (Z.eqb_spec (tid t) t0) as [Heq|Hne].
  - rewrite filter_cons_True /=; [done|]. by rewrite /has_tid Ht /= Heq.
  - rewrite filter_cons_False; [|rewrite /has_tid Ht /=; congruence].
    apply IH. set_solver.
Qed.

Definition in_order (f : Z → lnode) (Q : qmap) (i n : Z) : list positive :=
  seqZ i n ≫= λ j, Q (f j).

Lemma queue_empty_run s Q h :
  sys_queues s Q → is_head (dom (locks s)) h →
  onl (list_empty h) s = Some (bool_decide (Q h = []), s).
Proof.
  intros Hq Hh. rewrite /onl /zoom (list_empty_spec _ _ _ (q_dll _ _ _ _ Hq _ Hh)) set_lst_id.
  do 2 f_equal. apply bool_decide_ext. by destruct (Q h).
Qed.
Lemma queue_walk_run s Q h :
  sys_queues s Q → is_head (dom (locks s)) h →
  onl (list_for_each h) s = Some (N_tsk <$> Q h, s).
Proof.
  intros Hq Hh.
  by rewrite /onl /zoom (list_for_each_spec _ _ _ (q_dll _ _ _ _ Hq _ Hh)) set_lst_id.
Qed.

Lemma find_in_array_run s t0 Q (f : Z → lnode) (hd : Z → M sys lnode) n i :
  sys_queues s Q →
  (∀ j, (i ≤ j < i + Z.of_nat n)%Z → hd j s = Some (f j, s) ∧ is_head (dom (locks s)) (f j)) →
  find_in_array hd n i t0 s = Some (first_tid s t0 (in_order f Q i (Z.of_nat n)), s).
Proof.
  intros Hq. revert i. induction n as [|n IH]; intros i Hhd; [done|].
  destruct (Hhd i ltac:(lia)) as [Hi Hh]. cbn [find_in_array].
  rewrite (bind_run _ _ _ _ _ Hi) (bind_run _ _ _ _ _ (queue_empty_run _ _ _ Hq Hh)).
  rewrite (bind_run _ _ _ (first_tid s t0 (Q (f i))) s).
  - rewrite /in_order (seqZ_cons i); [|lia]. cbn [mbind list_bind]. rewrite first_tid_app.
    destruct (first_tid s t0 (Q (f i))); [done|].
    rewrite IH; [|intros; apply Hhd; lia].
    by replace (Z.pred (Z.of_nat (S n))) with (Z.of_nat n) by lia.
  - case_bool_decide as HQ; simpl; [by rewrite HQ|].
    rewrite (bind_run _ _ _ _ _ (queue_walk_run _ _ _ Hq Hh)).
    apply find_tid_run. intros q Hq'. apply elem_of_dom. by apply (q_task _ _ _ _ Hq (f i)).
Qed.

(** The tasks [find_task] looks at, in its order. *)
Definition search_order (s : sys) (Q : qmap) : list positive :=
  in_order N_io Q 0 MAX_FDS ++ Q N_wq ++
  (if truthy (nrp s) then in_order N_rq Q 0 MAX_PRIO else []).

Lemma find_task_run s Q t0 :
  sys_queues s Q → find_task t0 s = Some (first_tid s t0 (search_order s Q), s).
Proof.
  intros Hq. rewrite /find_task /search_order.
  rewrite (first_tid_app s t0 (in_order N_io Q 0 MAX_FDS)) (first_tid_app s t0 (Q N_wq)).
  rewrite (bind_run _ _ _ (first_tid s t0 (in_order N_io Q 0 MAX_FDS)) s).
  2:{ apply (find_in_array_run s t0 Q N_io io_hd (Z.to_nat MAX_FDS) 0 Hq). intros j Hj.
      rewrite /io_hd decide_True //. }
  destruct (first_tid s t0 (in_order N_io Q 0 MAX_FDS)); [done|].
  rewrite (bind_run _ _ _ _ _ (queue_walk_run s Q N_wq Hq I)).
  rewrite (bind_run _ _ _ (first_tid s t0 (Q N_wq)) s).
  2:{ apply find_tid_run. intros p Hp. apply elem_of_dom. by apply (q_task _ _ _ _ Hq N_wq). }
  destruct (first_tid s t0 (Q N_wq)); [done|].
  rewrite (bind_run _ _ _ (nrp s) s); [|done]. destruct (truthy (nrp s)); [|done].
  apply (find_in_array_run s t0 Q N_rq rq_hd (Z.to_nat MAX_PRIO) 0 Hq). intros j Hj.
  rewrite /rq_hd decide_True //.
Qed.
End lookup.

(** ** Bounds of the accounting *)
Section bounds.
Context `{E : Env}.
Implicit Types (s : sys) (p : positive) (t : tsk).

Lemma cpu_usage_range cr ts : (2 ≤ ts < 2 ^ 32)%Z → (0 ≤ cpu_usage_of cr ts ≤ 100)%Z.
Proof.
  intros Hts. rewrite /cpu_usage_of (proj2 (truthy_true ts)); [|lia]. cbv zeta.
  pose proof (u32_range (s32 (cr * 100))) as Hu.
  assert (0 ≤ u32 (s32 (cr * 100)) / ts < 2 ^ 31)%Z as Hd.
  { split; [apply Z.div_pos; lia|]. apply Z.div_lt_upper_bound; lia. }
  rewrite s32_small; [|lia]. destruct (Z.ltb_spec 100 (u32 (s32 (cr * 100)) / ts)); lia.
Qed.
Lemma cpu_usage_exact cr ts :
  (0 ≤ cr)%Z → (cr * 100 < 2 ^ 31)%Z → (0 < ts < 2 ^ 32)%Z →
  cpu_usage_of cr ts = Z.min 100 (cr * 100 / ts).
Proof.
  intros. rewrite /cpu_usage_of (proj2 (truthy_true ts)); [|lia]. cbv zeta.
  rewrite (s32_small (cr * 100)); [|lia]. rewrite u32_small; [|lia].
  assert (0 ≤ cr * 100 / ts < 2 ^ 31)%Z.
  { split; [apply Z.div_pos; lia|]. apply Z.div_lt_upper_bound; nia. }
  rewrite s32_small; [|lia]. destruct (Z.ltb_spec 100 (cr * 100 / ts)); lia.
Qed.

(** The load in percent, and the share of a second each ready task gets. *)
Definition load_of (s : sys) : Z := (nrp s * 100 / task_count s)%Z.
Definition share_of (s : sys) : Z := (10 * Z.max 1 (load_of s) / (nrp s + 1))%Z.
(** The priority a task is given: a CPU-bound task is demoted under load. *)
Definition demoted (s : sys) (t : tsk) : Z :=
  if (LOAD_THRESHOLD <? load_of s)%Z && (LOAD_THRESHOLD <? cpuusage t)%Z then 19%Z else prio t.
Definition slice_of (s : sys) (t : tsk) : Z :=
  (share_of s + if (demoted s t <? 5)%Z then DEF_HPT_TSLICE else DEF_LOW_TSLICE)%Z.

(** The counters are in the range where no computation wraps. *)
Definition small_counts (s : sys) : Prop :=
  (0 ≤ nrp s ≤ task_count s)%Z ∧ (0 < task_count s)%Z ∧ (nrp s < 1000000)%Z.

Lemma load_range s : small_counts s → (0 ≤ load_of s ≤ 100)%Z.
Proof.
  intros (?&?&?). rewrite /load_of. split; [apply Z.div_pos; lia|].
  transitivity (task_count s * 100 / task_count s)%Z; [apply Z.div_le_mono; lia|].
  rewrite Z.mul_comm Z.div_mul; lia.
Qed.
Lemma share_range s : small_counts s → (0 ≤ share_of s ≤ 1000)%Z.
Proof.
  intros Hs. pose proof (load_range s Hs). destruct Hs as (?&?&?). rewrite /share_of.
  split; [apply Z.div_pos; lia|]. apply Z.div_le_upper_bound; nia.
Qed.

Lemma get_load_run s : small_counts s → get_load_on_system s = Some (load_of s, s).
Proof.
  intros Hs. pose proof (load_range s Hs). destruct Hs as (?&?&?).
  rewrite /get_load_on_system /rq_task_count /mbind /M_bind /= /udiv.
  destruct (Z.eqb_spec (task_count s) 0); [lia|]. cbn.
  by rewrite (u32_small (nrp s)) ?(u32_small (nrp s * 100)) -/(load_of s) ?s32_small; try lia.
Qed.
Lemma share_load_run s s' :
  small_counts s → nrp s' = nrp s →
  share_load_across_system (load_of s) s' = Some (share_of s, s').
Proof.
  intros Hs Hn. pose proof (load_range s Hs). pose proof (share_range s Hs).
  destruct Hs as (?&?&?).
  assert (Hl : (if negb (truthy (load_of s)) then 1 else load_of s)%Z = Z.max 1 (load_of s)).
  { rewrite /truthy. destruct (Z.eqb_spec (load_of s) 0) as [->|]; simpl; lia. }
  rewrite /share_load_across_system Hl /rq_task_count /mbind /M_bind /= Hn /udiv.
  rewrite (u32_small (nrp s)) ?(u32_small (nrp s + 1)); [|lia..].
  destruct (Z.eqb_spec (nrp s + 1) 0); [lia|]. cbn.
  rewrite (s32_small (1000 * _)); [|lia].
  replace (1000 * Z.max 1 (load_of s))%Z with (10 * Z.max 1 (load_of s) * 100)%Z by lia.
  rewrite Z.quot_mul // u32_small; [|lia]. fold (share_of s). by rewrite s32_small; [|lia].
Qed.

Lemma calculate_time_slice_run s p t :
  small_counts s → tasks s !! p = Some t → idle s ≠ Some p → current s ≠ Some p →
  calculate_time_slice (Some p) s =
    Some (tt, set_tasks (<[p := set_tslice (slice_of s t) (set_prio (demoted s t) t)]> (tasks s)) s).
Proof.
  intros Hs Ht Hi Hc. pose proof (share_range s Hs) as Hr.
  assert (wp (calculate_time_slice (Some p)) (λ _ s', s' = set_tasks (<[p := set_tslice
    (slice_of s t) (set_prio (demoted s t) t)]> (tasks s)) s) s) as (?&?&->)%wp_unit_inv; [|done].
  assert (Hu : ∀ k, (0 ≤ k ≤ 60)%Z → u32 (u32 (share_of s) + k) = (share_of s + k)%Z).
  { intros. rewrite (u32_small (share_of s)) ?u32_small; lia. }
  rewrite /calculate_time_slice. sys_steps.
  rewrite !bool_decide_eq_false_2 //=. apply wp_bind.
  eapply wp_intro; [by apply get_load_run|]. apply wp_bind.
  assert (Hrest : ∀ s1 t1, tasks s1 !! p = Some t1 → nrp s1 = nrp s →
    set_tasks (<[p := set_tslice (slice_of s t) t1]> (tasks s1)) s1 =
      set_tasks (<[p := set_tslice (slice_of s t) (set_prio (demoted s t) t)]> (tasks s)) s →
    prio t1 = demoted s t →
    wp (task_share ← share_load_across_system (load_of s); p0 ← nonnull (Some p);
      tsk_mod (set_tslice (u32 task_share)) p0;; t0 ← tsk_ld p0;
      if TASK_HIGH_PRIO t0 then tsk_mod (λ t2, set_tslice (u32 (tslice t2 + DEF_HPT_TSLICE)) t2) p0
      else tsk_mod (λ t2, set_tslice (u32 (tslice t2 + DEF_LOW_TSLICE)) t2) p0)
     (λ _ s', s' = set_tasks (<[p := set_tslice (slice_of s t) (set_prio (demoted s t) t)]>
        (tasks s)) s) s1).
  { intros s1 t1 Ht1 Hn1 <- Hp1. apply wp_bind.
    eapply wp_intro; [by apply share_load_run|]. sys_steps. rewrite /TASK_HIGH_PRIO /= Hp1.
    rewrite /slice_of. destruct (demoted s t <? 5)%Z; sys_steps; rewrite insert_insert_eq /=;
      by rewrite /set_tslice /= Hu. }
  rewrite /demoted in Hrest |- *.
  apply wp_when=> Hl; rewrite Hl /= in Hrest |- *.
  - sys_steps. apply wp_when=> Hcu; rewrite Hcu /= in Hrest |- *.
    + sys_step. eapply Hrest; [by apply lookup_insert_eq|done| |done].
      by rewrite /= insert_insert_eq.
    + eapply Hrest; [done|done| |done]. by destruct t.
  - eapply Hrest; [done|done| |done]. by destruct t.
Qed.
End bounds.

(** ** Facts about the search orders and the woken queues *)
Section orders.
Context `{E : Env}.
Implicit Types (s : sys) (p : positive) (Q : qmap) (ps : list positive) (h : lnode).

Lemma kgood_nrp_pos s Q p i :
  kgood s Q → (0 ≤ i < MAX_PRIO)%Z → p ∈ Q (N_rq i) → (0 < nrp s)%Z.
Proof.
  intros [Hk Hn] Hi Hp.
  pose proof (run_count_qrem _ _ _ _ p (N_rq i) (ki_queues _ _ Hk) Hi Hp) as Hc.
  cbn [is_run] in Hc. rewrite bool_decide_eq_true_2 // in Hc.
  assert (0 ≤ run_count (qrem p Q))%Z by (rewrite /run_count; lia). lia.
Qed.

Lemma run_order_split Q n i :
  match head (run_order Q i (Z.of_nat n)) with
  | Some p => ∃ j xs, (i ≤ j < i + Z.of_nat n)%Z ∧ Q (N_rq j) = p :: xs ∧
      ∀ k, (i ≤ k < j)%Z → Q (N_rq k) = []
  | None => ∀ j, (i ≤ j < i + Z.of_nat n)%Z → Q (N_rq j) = []
  end.
Proof.
  revert i. induction n as [|n IH]; intros i; [by simpl; lia|].
  rewrite run_order_cons; [|lia]. replace (Z.of_nat (S n) - 1)%Z with (Z.of_nat n) by lia.
  specialize (IH (i + 1)%Z). destruct (Q (N_rq i)) as [|p xs] eqn:HQ; simpl.
  - destruct (head (run_order Q (i + 1) (Z.of_nat n))) as [p|].
    + destruct IH as (j&xs&?&?&Hb). exists j, xs. split_and!; [lia|lia|done|].
      intros k ?. destruct (decide (k = i)) as [->|]; [done|]. apply Hb. lia.
    + intros j ?. destruct (decide (j = i)) as [->|]; [done|]. apply IH. lia.
  - exists i, xs. split_and!; [lia|lia|done|]. lia.
Qed.
Lemma first_ready_split Q :
  match first_ready Q with
  | Some p => ∃ i xs, (0 ≤ i < MAX_PRIO)%Z ∧ Q (N_rq i) = p :: xs ∧
      ∀ j, (0 ≤ j < i)%Z → Q (N_rq j) = []
  | None => ∀ i, (0 ≤ i < MAX_PRIO)%Z → Q (N_rq i) = []
  end.
Proof. exact (run_order_split Q (Z.to_nat MAX_PRIO) 0). Qed.

Lemma in_order_elem f Q n p : p ∈ in_order f Q 0 n ↔ ∃ j, (0 ≤ j < n)%Z ∧ p ∈ Q (f j).
Proof.
  rewrite /in_order list_elem_of_bind. split.
  - intros (j&?&?%elem_of_seqZ). exists j. split; [lia|done].
  - intros (j&?&?). exists j. split; [done|]. by apply elem_of_seqZ.
Qed.
Lemma search_order_head s Q p :
  p ∈ search_order s Q → ∃ h, is_head (dom (locks s)) h ∧ p ∈ Q h.
Proof.
  rewrite /search_order elem_of_app in_order_elem elem_of_app. intros [(j&?&?)|[?|Hp]].
  - by exists (N_io j).
  - by exists N_wq.
  - destruct (truthy (nrp s)); [|set_solver]. apply in_order_elem in Hp as (j&?&?).
    by exists (N_rq j).
Qed.
Lemma search_order_complete s Q h p :
  is_head (dom (locks s)) h → p ∈ Q h → p ∉ search_order s Q →
  (∃ l, h = N_lock l) ∨ (nrp s = 0%Z ∧ is_run h = true).
Proof.
  rewrite /search_order elem_of_app in_order_elem elem_of_app. intros Hh Hp Hn.
  destruct h as [i| |fd|l|q]; simpl in Hh; [right|..].
  - destruct (truthy (nrp s)) eqn:Ht; [|by apply truthy_false in Ht; rewrite /= bool_decide_eq_true_2].
    destruct Hn. right; right. apply in_order_elem. eauto.
  - destruct Hn. by right; left.
  - destruct Hn. left. eauto.
  - eauto.
  - done.
Qed.

Lemma wake_all_io T ps Q fd :
  NoDup ps → wake_all T ps Q (N_io fd) ⊆ Q (N_io fd).
Proof.
  intros Hnd. revert Q. induction Hnd as [|p ps Hp Hnd IH]; intros Q; [done|].
  rewrite /wake_all /=. etrans; [apply IH|]. rewrite /wake1.
  destruct (T !! p); [|done]. rewrite /qcons /=. intros q Hq%qrem_elem. naive_solver.
Qed.
Lemma wake_all_gone T ps Q fd q :
  q ∈ ps → is_Some (T !! q) → NoDup ps → q ∉ wake_all T ps Q (N_io fd).
Proof.
  intros Hq [t Ht] Hnd. revert Q Hq. induction Hnd as [|p ps Hp Hnd IH]; intros Q Hq; [set_solver|].
  apply elem_of_cons in Hq as [->|Hq]; [|by apply IH].
  rewrite /wake_all /= /wake1 Ht. intros Hin%(wake_all_io _ _ _ _ Hnd).
  rewrite /qcons /= in Hin. by apply qrem_elem in Hin as [? _].
Qed.
Lemma wake_all_empty s Q fd :
  NoDup (Q (N_io fd)) → (0 ≤ fd < MAX_FDS)%Z →
  (∀ p, p ∈ Q (N_io fd) → onrq <$> tasks s !! p = Some 0%Z) →
  wake_all (tasks s) (Q (N_io fd)) Q (N_io fd) = [].
Proof.
  intros Hnd Hfd Hw. apply elem_of_nil_inv. intros q Hq.
  pose proof (wake_all_io _ _ _ _ Hnd _ Hq) as Hin. revert Hq.
  apply wake_all_gone; [done| |done]. specialize (Hw q Hin). by destruct (tasks s !! q).
Qed.

Lemma wake_io_task_run s Q fd :
  kgood s Q → (0 ≤ fd < MAX_FDS)%Z →
  (∀ p, p ∈ Q (N_io fd) → onrq <$> tasks s !! p = Some 0%Z) →
  (nrp s + Z.of_nat (length (Q (N_io fd))) < 2 ^ 31 - 1)%Z →
  wp (wake_io_task fd)
     (λ _ s', kgood s' (wake_all (tasks s) (Q (N_io fd)) Q) ∧ io_woken (Q (N_io fd)) s s') s.
Proof.
  intros Hg Hfd Hw Hn. pose proof (ki_queues _ _ (kg_inv _ _ Hg)) as Hq.
  rewrite /wake_io_task. apply wp_bind, wp_io_hd; [done|].
  apply wp_bind. eapply wp_intro; [by apply (queue_empty_run _ _ _ Hq)|].
  apply wp_when=> He.
  - apply wp_bind, wp_gets, wp_bind.
    destruct (q_dll _ _ _ _ Hq (N_io fd) Hfd) as [Hnd Hs].
    eapply wp_onl; [by apply get_next_eq, (seg_nxt _ _ _ _ Hs)|]. rewrite set_lst_id.
    apply wp_bind. eapply wp_onl; [by eapply io_queue_next|]. rewrite set_lst_id.
    apply wake_io_loop_run; [done..| | |done].
    + pose proof (dll_length _ _ _ (q_dll _ _ _ _ Hq (N_io fd) Hfd)) as Hl.
      by rewrite length_fmap in Hl.
    + intros p Hp. specialize (Hw p Hp). destruct (tasks s !! p); naive_solver.
  - apply negb_false_iff, bool_decide_eq_true in He. rewrite He. split; [done|].
    split; try done; [simpl; lia|set_solver].
Qed.
End orders.
