(* ===== verification/ThreadLib.v ===== *)
(** * Tasks, events and start-up

    The task interface of src/core/thread_lib.c, the creation of the first tasks
    (src/core/sched.c, [create_parent_task] and [create_idle_task]; the daemon of
    src/core/soft_irq.c) and the locks of src/core/lock.c.

    A function that blocks is modelled one turn at a time: a turn that calls
    [schedule] returns [None], and the task repeats the turn when it runs
    again. *)

From S2P Require Import Prelude ListHead Task Signal Sched.

(** The functions that become tasks. *)
Definition fn_idle_task : positive := 1.
Definition fn_softirqd : positive := 2.

Section ThreadLib.
Context `{E : Env}.

(** ** Thread attributes *)
Definition thread_attr_init : attr := MkAttr DEFAULT_STACK_SIZE 100 (-1).
Definition thread_attr_setstacksize (a : attr) (v : Z) : attr :=
  MkAttr v (attr_prio a) (attr_schedalgo a).
Definition thread_attr_setschedpolicy (a : attr) (v : Z) : attr :=
  MkAttr (attr_stksze a) (attr_prio a) v.
Definition thread_attr_setschedprio (a : attr) (v : Z) : attr :=
  MkAttr (attr_stksze a) v (attr_schedalgo a).

(** ** Creation and deletion *)
Definition alloc_tid : M sys Z :=
  modify (λ s, set_taskid (s32 (taskid s + 1)) s);;
  gets taskid.

Definition tm_free_size (size : Z) : M sys unit :=
  modify (λ s, set_alloc_size (ulong (alloc_size s - size)) s).

Definition free_tsk (p : positive) : M sys unit :=
  modify (λ s, set_tasks (delete p (tasks s)) s);;
  modify (λ s, set_lst (delete (N_tsk p) (lst s)) s);;
  modify (λ s, set_slst (delete (S_tsk p) (slst s)) s).

(** The fields [spawn_task] sets before the stack is allocated. *)
Definition new_tsk (t0 : Z) (a : attr) : tsk :=
  set_tslice DEFAULT_TIME_SLICE (set_stksize (attr_stksze a) (set_prio (attr_prio a)
    (set_needsched 1 (set_tid t0 tsk_zero)))).

Definition spawn_task (name : string) (a : attr) (tsk_wrapper : option positive) (arg : Z)
  : M sys (option positive) :=
  new_task ← tm_calloc 1 (env_sizeof "tsk");
  match new_task with
  | None => mret None
  | Some p =>
      onl (INIT_LIST_HEAD (N_tsk p));;
      onsl (INIT_LIST_HEAD (S_tsk p));;
      t0 ← alloc_tid;
      modify (λ s, set_tasks (<[p := new_tsk t0 a]> (tasks s)) s);;
      k ← tm_malloc (attr_stksze a);
      match k with
      | None => free_tsk p;; mret None
      | Some k =>
          modify (λ s, set_stacks ({[k]} ∪ stacks s) s);;
          tsk_mod (set_stk (Some k)) p;;
          tsk_mod (set_taskname (String.substring 0 MAX_TASK_NAME name)) p;;
          tsk_mod (set_regs (JB_at in_spawn_task)) p;;
          match tsk_wrapper with
          | None => mret (Some p)
          | Some w =>
              t ← tsk_ld p;
              (if (stksize t <? 8)%Z then ub else mret tt);;
              tsk_mod (set_regs (JB_clone_thread w arg)) p;;
              modify (λ s, set_task_count (u32 (task_count s + 1)) s);;
              wakeup_new_task p;;
              mret (Some p)
          end
      end
  end.

(** [clone_thread] after the task's function returned. *)
Definition clone_thread_exit : M sys unit :=
  c ← cur;
  task_exit c;;
  schedule.

Definition kill_task (t0 : Z) : M sys Z :=
  p ← find_task t0;
  match p with
  | None => mret (-1)%Z
  | Some p => task_exit p;; mret 0%Z
  end.

Definition task_cancel (t0 : Z) : M sys Z :=
  kill_task t0;;
  mret 0%Z.

Definition task_selfid : M sys Z := c ← cur; t ← tsk_ld c; mret (tid t).

(** ** Events *)
Definition wait_for_event_turn (events : Z) : M sys (option Z) :=
  c ← cur;
  t ← tsk_ld c;
  if negb (truthy (Z.land (u32 (event t)) events)) then
    add_current_task_wait_Q;;
    schedule;;
    mret None
  else
    let evt := event t in
    tsk_mod (set_event 0) c;;
    mret (Some evt).

Definition post_event (t0 : Z) (ev : Z) : M sys Z :=
  p ← find_task t0;
  match p with
  | None => mret (-1)%Z
  | Some p =>
      tsk_mod (λ t, set_event (Z.lor (event t) ev) t) p;;
      wakeup_task p;;
      mret 0%Z
  end.

Definition sleep_forever : M sys unit :=
  c ← cur;
  add_task_to_wait_Q c;;
  schedule.

(** ** Start-up *)
Definition create_parent_task (sticks : Z) : M sys unit :=
  p ← spawn_task "Main" (MkAttr 10000 1 0) None 0;
  modify (set_current p);;
  modify (set_parent p);;
  c ← cur;
  tsk_mod (set_stick sticks) c;;
  tsk_mod (set_onrq 1) c;;
  tsk_mod (set_state TASK_RUNNING) c.

Definition create_idle_task : M sys unit :=
  p ← spawn_task "IDLE" (MkAttr (32 * 1024) 19 0) (Some fn_idle_task) 0;
  modify (set_idle p);;
  i ← nonnull p;
  tsk_mod (set_state TASK_INTERRUPTIBLE) i;;
  onl (list_del (N_tsk i)).

(** The daemon's task; the list of soft irqs is not part of this state. *)
Definition init_soft_irq : M sys unit :=
  p ← spawn_task "SIRQ" (MkAttr (20 * 1024) 1 0) (Some fn_softirqd) 0;
  modify (set_softirq_d p).

Definition softirq_wakeup : M sys unit :=
  d ← gets softirq_d;
  p ← nonnull d;
  wakeup_task p.

(** The SFS part of [tmlib_init] that concerns tasks (src/core/tmlibinit.c). *)
Definition tmlib_init_tasks : M sys unit :=
  init_ticks ← times;
  init_scheduler;;
  create_parent_task init_ticks;;
  create_idle_task;;
  init_soft_irq;;
  init_io.

(** ** Locks (src/core/lock.c, SFS_WANTED) *)
Definition lock_ld (l : positive) : M sys lock_t :=
  ls ← gets locks;
  liftO (ls !! l).
Definition lock_st (l : positive) (k : lock_t) : M sys unit :=
  modify (λ s, set_locks (<[l := k]> (locks s)) s).

Definition create_lock (l : positive) : M sys Z :=
  lock_st l (MkLock None 0 0);;
  onl (INIT_LIST_HEAD (N_lock l));;
  mret 0%Z.

(** One turn of the [while (lock->lock)] loop. *)
Definition lock_turn (l : positive) : M sys (option Z) :=
  k ← lock_ld l;
  if truthy (lk_lock k) then
    c ← cur;
    onl (list_del (N_tsk c));;
    onl (list_add_tail (N_tsk c) (N_lock l));;
    set_task_not_rq;;
    signals_block SIGALRM;;
    schedule;;
    mret None
  else
    let n := s32 (lk_lock k + 1) in
    lock_st l (MkLock (lk_owner k) n (lk_prio k));;
    when (1 <? n)%Z (emit (Ev_raise SIGSEGV));;
    c ← get_current;
    lock_st l (MkLock c n (lk_prio k));;
    mret (Some 0%Z).

Definition unlock (l : positive) : M sys Z :=
  k ← lock_ld l;
  c ← get_current;
  if bool_decide (lk_owner k ≠ c) then mret (-1)%Z else
  let n := s32 (lk_lock k - 1) in
  lock_st l (MkLock (lk_owner k) n (lk_prio k));;
  when (n <? 0)%Z (emit (Ev_raise SIGSEGV));;
  lock_st l (MkLock None n (lk_prio k));;
  e ← onl (list_empty (N_lock l));
  when (negb e)
    (f ← onl (get_next (N_lock l));
     p ← liftO (list_entry_tsk f);
     wakeup_task p);;
  mret 0%Z.
End ThreadLib.

(** ** Execution on a concrete operating system *)
Module Run.
(** [times] counts up, [calloc] returns fresh addresses. *)
#[local] Instance demo_env : Env := {|
  env_times := λ k, Z.of_nat k;
  env_calloc := λ k, Some (Pos.of_succ_nat k);
  env_backtrace := λ _, 3%Z;
  env_backtrace_symbols := λ _, Some ["prog"; "frame"; "[(nil)]"];
  env_sizeof := λ _, 128%Z
|}.
Definition boot : option (unit * sys) := tmlib_init_tasks sys_zero.
(** The state in which the program's [main] starts. *)
Definition main_state : sys := match boot with Some (_, s) => s | None => sys_zero end.
End Run.
