(* ===== verification/SchedFrame.v ===== *)
(** * What the scheduler leaves alone

    The operations of Sched.v, Signal.v and ThreadLib.v respect every relation between
    states that their assignments respect.  [Frame R]: a preorder that looks only at the
    tasks, the current task, the idle task and the daemon, and does not mind what accounting
    does to a task.  The few assignments that matter (a priority, [onrq], the current task) are
    hypotheses of the lemmas about the operations that make them. *)

From S2P Require Import Prelude ListHead Task Signal Sched ThreadLib.
#[local] Open Scope Z_scope.

Class Frame (R : sys → sys → Prop) := {
  frame_preorder :: PreOrder R;
  frame_rest s s' : tasks s' = tasks s → current s' = current s → idle s' = idle s →
    softirq_d s' = softirq_d s → R s s';
  frame_task s p t t' : tasks s !! p = Some t → prio t' = prio t → onrq t' = onrq t →
    R s (set_tasks (<[p := t']> (tasks s)) s)
}.
#[export] Hint Extern 0 (Frame _) => apply _ : respects.

(** Assignments that no [Frame] minds. *)
Definition mild (f : tsk → tsk) : Prop := ∀ t, prio (f t) = prio t ∧ onrq (f t) = onrq t.

Section frame.
Context `{E : Env} (R : sys → sys → Prop) `{F : !Frame R}.
Implicit Types (s : sys) (p q c : positive).

Lemma frame_modify (f : sys → sys) :
  (∀ s, tasks (f s) = tasks s ∧ current (f s) = current s ∧ idle (f s) = idle s ∧ softirq_d (f s) = softirq_d s) →
  respects R (modify f).
Proof. intros Hf. apply respects_modify. intros s. destruct (Hf s) as (?&?&?&?). by apply frame_rest. Qed.
Lemma frame_tsk_ld p : respects R (tsk_ld p).
Proof. refine (respects_same R _ _). intros s a s'. rewrite /tsk_ld. destruct (tasks s !! p); [|done]. by intros [= _ <-]. Qed.
Lemma frame_tsk_mod f p : mild f → respects R (tsk_mod f p).
Proof.
  intros Hf s a s'. rewrite /tsk_mod. destruct (tasks s !! p) as [t|] eqn:Ht; [|done]. intros [= _ <-].
  destruct (Hf t). by apply (frame_task s p t).
Qed.
Lemma frame_onl {A} (m : M _ A) : respects R (onl m).
Proof. apply respects_zoom. intros s l. by apply frame_rest. Qed.
Lemma frame_onsl {A} (m : M _ A) : respects R (onsl m).
Proof. apply respects_zoom. intros s l. by apply frame_rest. Qed.
End frame.
#[export] Hint Resolve frame_tsk_ld frame_onl frame_onsl : respects.
#[export] Hint Extern 2 (respects _ (modify _)) => apply frame_modify; [apply _|]; done : respects.
#[export] Hint Extern 2 (respects _ (tsk_mod _ _)) => apply frame_tsk_mod; [apply _|]; done : respects.

Section accesses.
Context `{E : Env} (R : sys → sys → Prop) `{F : !Frame R}.
Implicit Types (s : sys) (p q c : positive).

Lemma frame_cur : respects R cur.
Proof. rewrite /cur /get_current /nonnull. respect. Qed.
Lemma frame_times : respects R times.
Proof. rewrite /times. respect. Qed.
Lemma frame_calloc : respects R calloc.
Proof. rewrite /calloc. respect. Qed.
Lemma frame_emit e : respects R (emit e).
Proof. rewrite /emit. respect. Qed.
Lemma frame_rq_hd i : respects R (rq_hd i).
Proof. rewrite /rq_hd. respect. Qed.
Lemma frame_io_hd i : respects R (io_hd i).
Proof. rewrite /io_hd. respect. Qed.
Lemma frame_shl1 n : respects R (shl1 n).
Proof. rewrite /shl1. respect. Qed.
Lemma frame_signals_block n : respects R (signals_block n).
Proof. rewrite /signals_block. respect. Qed.
Lemma frame_signals_unblock n : respects R (signals_unblock n).
Proof. rewrite /signals_unblock. respect. Qed.
End accesses.
#[export] Hint Resolve frame_cur frame_times frame_calloc frame_emit frame_rq_hd frame_io_hd frame_shl1
  frame_signals_block frame_signals_unblock : respects.

(** ** The operations *)
Section parts.
Context `{E : Env} (R : sys → sys → Prop) `{F : !Frame R}.
Implicit Types (s : sys) (p q c : positive).

Lemma frame_invoke signo : respects R (invoke_signal_hanlder signo).
Proof.
  rewrite /invoke_signal_hanlder. respects_seq; [auto with respects|intros c]. respects_seq; [auto with respects|intros nodes].
  induction nodes as [|x nodes IH]; cbn [invoke_loop]; respect.
Qed.
Lemma frame_next_loop m i : respects R (next_task_loop m i).
Proof. revert i. induction m as [|m IH]; intros i; cbn [next_task_loop]; rewrite /rm_n_move_task_new_rq; respect. Qed.
Lemma frame_udiv a b : respects R (udiv a b).
Proof. rewrite /udiv. respect. Qed.
Lemma frame_calc_usage : respects R calc_current_cpu_usage.
Proof. rewrite /calc_current_cpu_usage. respect. Qed.
Lemma frame_stack_trace p : respects R (collect_stack_trace p).
Proof. rewrite /collect_stack_trace. respect. Qed.
Lemma frame_account : respects R account_task_time_stats.
Proof. rewrite /account_task_time_stats. respect. Qed.
Lemma frame_nlongjmp p : respects R (nlongjmp p).
Proof. rewrite /nlongjmp. respect. Qed.
Lemma frame_note_imm p : respects R (note_imm_task p).
Proof. rewrite /note_imm_task. respect. Qed.
Lemma frame_note_need p : respects R (note_sched_need p).
Proof. rewrite /note_sched_need. respect. Qed.
Lemma frame_find_tid t0 nodes : respects R (find_tid t0 nodes).
Proof. induction nodes as [|x nodes IH]; cbn [find_tid]; respect. Qed.
Lemma frame_find_in_array hd m i t0 : (∀ j, respects R (hd j)) → respects R (find_in_array hd m i t0).
Proof.
  intros Hh. revert i. induction m as [|m IH]; intros i; cbn [find_in_array]; respect. apply frame_find_tid.
Qed.
End parts.
#[export] Hint Resolve frame_invoke frame_next_loop frame_udiv frame_calc_usage frame_stack_trace frame_account frame_nlongjmp
  frame_note_imm frame_note_need frame_find_tid : respects.
#[export] Hint Extern 2 (respects _ (find_in_array _ _ _ _)) =>
  apply frame_find_in_array; [apply _|intros ?; auto with respects] : respects.

Section scheduler.
Context `{E : Env} (R : sys → sys → Prop) `{F : !Frame R}.
Implicit Types (s : sys) (p q c : positive).

Lemma frame_process_signal p : respects R (process_signal p).
Proof.
  rewrite /process_signal. respects_seq; [respect|intros t]. respects_seq; [|intros _; respect].
  generalize (u32 (Z.land (signals t) (sig_pending t))) 1 32%nat. intros res i fuel. revert res i.
  induction fuel as [|fuel IH]; intros res i; cbn [process_signal_loop]; respect.
Qed.
Lemma frame_get_next : respects R get_next_eligible_task_to_run.
Proof. rewrite /get_next_eligible_task_to_run /next_task_ready_to_run. respect. Qed.
Lemma frame_update_stats : respects R update_stats.
Proof. rewrite /update_stats. respect. Qed.
Lemma frame_find_task t0 : respects R (find_task t0).
Proof. rewrite /find_task /io_wait_task_lookup. respect. Qed.
End scheduler.
#[export] Hint Resolve frame_process_signal frame_get_next frame_update_stats frame_find_task : respects.

Section operations.
Context `{E : Env} (R : sys → sys → Prop) `{F : !Frame R}.
Implicit Types (s : sys) (p q c : positive).

(** A task that uses too much gets the worst priority when it is chosen. *)
Lemma frame_time_slice o :
  (∀ p, o = Some p → respects R (tsk_mod (set_prio 19) p)) → respects R (calculate_time_slice o).
Proof.
  intros Ho. rewrite /calculate_time_slice /get_load_on_system /share_load_across_system /rq_task_count /nonnull. respect.
Qed.
Lemma frame_context_switch c o : respects R (modify (set_current o)) → respects R (context_switch c o).
Proof. intros Ho. rewrite /context_switch. respect. Qed.
Lemma frame_wakeup p : respects R (tsk_mod (set_onrq 1) p) → respects R (wakeup_task p).
Proof. intros Hp. rewrite /wakeup_task. respect. Qed.
Lemma frame_add_wait p : respects R (tsk_mod (set_onrq 0) p) → respects R (add_task_to_wait_Q p).
Proof. intros Hp. rewrite /add_task_to_wait_Q. respect. Qed.
Section waking.
Hypothesis Hwake : ∀ p, respects R (tsk_mod (set_onrq 1) p).
Lemma frame_wake_io_loop m pos nx h : respects R (wake_io_loop m pos nx h).
Proof.
  revert pos nx. induction m as [|m IH]; intros pos nx; cbn [wake_io_loop]; respect. by apply frame_wakeup.
Qed.
Lemma frame_wake_io fd : respects R (wake_io_task fd).
Proof. rewrite /wake_io_task. respect. apply frame_wake_io_loop. Qed.
Lemma frame_post_event t0 ev : respects R (post_event t0 ev).
Proof. rewrite /post_event. respect. by apply frame_wakeup. Qed.
Lemma frame_unlock l : respects R (unlock l).
Proof. rewrite /unlock /lock_ld /lock_st /get_current. respect. by apply frame_wakeup. Qed.
End waking.
Lemma frame_raise n : respects R (tm_raise n).
Proof. rewrite /tm_raise /set_current_signal_pend_mask. respect. Qed.
Lemma frame_signal n : respects R (generic_sig_handler n).
Proof. rewrite /generic_sig_handler /set_current_signal_pend_mask. respect. Qed.

Section switching.
Hypothesis Hcur : ∀ o, respects R (modify (set_current o)).
Hypothesis Hprio : ∀ p, respects R (tsk_mod (set_prio 19) p).
Lemma frame_schedule : respects R schedule.
Proof.
  rewrite /schedule /sig_pending_p. respect; [apply frame_time_slice|apply frame_context_switch]; auto.
Qed.
Hypothesis Hsleep : ∀ p, respects R (tsk_mod (set_onrq 0) p).
Lemma frame_park : respects R add_current_task_wait_Q.
Proof. rewrite /add_current_task_wait_Q. respect. by apply frame_add_wait. Qed.
Lemma frame_wait_on_fd fd : respects R (wait_on_fd fd).
Proof. rewrite /wait_on_fd /add_task_to_IO_wait_Q. respect. apply frame_schedule. Qed.
Lemma frame_wait_for_event ev : respects R (wait_for_event_turn ev).
Proof. rewrite /wait_for_event_turn. respect; [apply frame_park|apply frame_schedule]. Qed.
Lemma frame_lock l : respects R (lock_turn l).
Proof.
  rewrite /lock_turn /lock_ld /lock_st /set_task_not_rq /get_current. respect. apply frame_schedule.
Qed.
End switching.
End operations.

(** ** Two frames *)

(** [p] counts as running. *)
Definition ready (s : sys) (p : positive) : Prop := ∃ t, tasks s !! p = Some t ∧ onrq t ≠ 0.
Definition prio_of (s : sys) (q : positive) : option Z := prio <$> tasks s !! q.
Lemma cur_run (y : sys) (c : positive) : current y = Some c → cur y = Some (c, y).
Proof. intros Hc. by rewrite /cur (bind_run get_current _ _ (Some c) y); [|rewrite /get_current /gets Hc]. Qed.

Section frames.
Implicit Types (s : sys) (p q c : positive).

(** The current task and the priorities of the tasks in [P] stay. *)
Definition calmed (P : positive → Prop) s s' : Prop :=
  current s' = current s ∧ ∀ q, P q → prio_of s' q = prio_of s q.
#[global] Instance calmed_preorder P : PreOrder (calmed P).
Proof. split; [done|]. intros s1 s2 s3 [H1 H2] [H3 H4]. split; [congruence|]. intros q Hq. rewrite H4 // H2 //. Qed.
#[global] Instance calmed_frame P : Frame (calmed P).
Proof.
  split; [apply _|intros s s' Ht Hc _ _; split; [done|intros q _; by rewrite /prio_of Ht]|].
  intros s p t t' Ht Hp _. split; [done|]. intros q _. rewrite /prio_of /= lookup_insert. case_decide; [|done].
  subst q. by rewrite Ht /= Hp.
Qed.
Lemma calmed_tsk_mod P f p : ¬ P p → respects (calmed P) (tsk_mod f p).
Proof.
  intros Hp s a s'. rewrite /tsk_mod. destruct (tasks s !! p) as [t|] eqn:Ht; [|done]. intros [= _ <-]. split; [done|].
  intros q Hq. rewrite /prio_of /= lookup_insert_ne //. by intros ->.
Qed.

(** The idle task and the daemon stay, the tasks in [K] stay allocated and the ready tasks in [P]
    stay ready. *)
Definition grows (K P : positive → Prop) s s' : Prop :=
  idle s' = idle s ∧ softirq_d s' = softirq_d s ∧ (∀ p, K p → is_Some (tasks s !! p) → is_Some (tasks s' !! p)) ∧
  ∀ p, P p → ready s p → ready s' p.
#[global] Instance grows_preorder K P : PreOrder (grows K P).
Proof.
  split; [done|]. intros s1 s2 s3 (H1&H2&H3&H4) (H5&H6&H7&H8). split; [congruence|]. split; [congruence|]. split; auto.
Qed.
Lemma ready_insert s p t t' q :
  tasks s !! p = Some t → (p = q → onrq t ≠ 0 → onrq t' ≠ 0) → ready s q → ready (set_tasks (<[p := t']> (tasks s)) s) q.
Proof.
  intros Ht Ho (tq&Hq&Hon). rewrite /ready /= lookup_insert. case_decide as Hp; [|by exists tq].
  subst q. exists t'. split; [done|]. simplify_eq. by apply Ho.
Qed.
Lemma grows_insert K P s p t t' :
  tasks s !! p = Some t → (P p → onrq t ≠ 0 → onrq t' ≠ 0) → grows K P s (set_tasks (<[p := t']> (tasks s)) s).
Proof.
  intros Ht Ho. split; [done|]. split; [done|]. split.
  - intros q _ Hq. apply lookup_insert_is_Some'. by right.
  - intros q HP. apply (ready_insert s p t); [done|]. intros ->. by apply Ho.
Qed.
#[global] Instance grows_frame K P : Frame (grows K P).
Proof.
  split; [apply _|intros s s' Ht _ Hi Hd|].
  - split; [done|]. split; [done|]. split; [by rewrite Ht|]. intros p _. by rewrite /ready Ht.
  - intros s p t t' Ht _ Ho. apply (grows_insert _ _ _ _ t); [done|]. by rewrite Ho.
Qed.
Lemma grows_tsk_mod K P f p : (∀ t, P p → onrq t ≠ 0 → onrq (f t) ≠ 0) → respects (grows K P) (tsk_mod f p).
Proof.
  intros Hf s a s'. rewrite /tsk_mod. destruct (tasks s !! p) as [t|] eqn:Ht; [|done]. intros [= _ <-].
  apply (grows_insert _ _ _ _ t); auto.
Qed.
End frames.

(** *** Creating a task, out of memory that none of the tasks uses *)
Section spawn.
Context `{E : Env} (K P : positive → Prop).
Implicit Types (s : sys) (p q c : positive).

Lemma grows_put p f : ¬ P p → respects (grows K P) (modify (λ s, set_tasks (<[p := f s]> (tasks s)) s)).
Proof.
  intros Hp. apply respects_modify. intros s. split; [done|]. split; [done|]. split.
  - intros q _ Hq. apply lookup_insert_is_Some'. by right.
  - intros q HP (t&Ht&Ho). exists t. rewrite /= lookup_insert_ne //. by intros ->.
Qed.
Lemma grows_drop p : ¬ K p → ¬ P p → respects (grows K P) (modify (λ s, set_tasks (delete p (tasks s)) s)).
Proof.
  intros Hk Hp. apply respects_modify. intros s. split; [done|]. split; [done|]. split.
  - intros q Hq. rewrite /= lookup_delete_ne //. by intros ->.
  - intros q HP (t&Ht&Ho). exists t. rewrite /= lookup_delete_ne //. by intros ->.
Qed.
Lemma grows_spawn name a w arg s o s' :
  spawn_task name a w arg s = Some (o, s') → (∀ p, env_calloc (n_calloc s) = Some p → ¬ K p ∧ ¬ P p) → grows K P s s'.
Proof.
  rewrite /spawn_task. intros Hr Hp. apply bind_inv in Hr as (r&s1&Hc&Hr).
  assert (Hr1 : r = env_calloc (n_calloc s) ∧ grows K P s s1).
  { split; [by revert Hc; rewrite /tm_calloc /calloc; intros [= <- _]|].
    assert (Hm : respects (grows K P) (tm_calloc 1 (env_sizeof "tsk"))) by (rewrite /tm_calloc; respect).
    by apply (Hm _ _ _ Hc). }
  destruct Hr1 as [-> H1]. etrans; [exact H1|]. clear H1 Hc. revert s1 o s' Hr.
  destruct (env_calloc (n_calloc s)) as [p|] eqn:Hcp; [|by intros s1 o s' [= _ <-]].
  destruct (Hp p eq_refl) as [HK HP]. intros s1 o s'.
  match goal with |- ?m _ = _ → _ => cut (respects (grows K P) m); [intros Hm Hr; exact (Hm s1 o s' Hr)|] end.
  rewrite /alloc_tid /tm_malloc /tm_calloc /free_tsk /wakeup_new_task /task_find_right_RQ.
  pose proof (grows_drop p HK HP). pose proof (λ f, grows_put p f HP).
  assert (∀ f, respects (grows K P) (tsk_mod f p)) by (intros f; by apply grows_tsk_mod).
  respect.
Qed.
End spawn.
