(* ===== verification/SchedSpec.v ===== *)
(** * What the scheduler promises

    The theorems about sched.c and the I/O wait queues of iostream.c, each with
    the run of the program that shows its hypotheses can hold. *)

From S2P Require Import Prelude ListHead Task Signal Sched SchedInv SchedProps ThreadLib.

(** ** Concrete states *)
Module States.
Import Run.
#[export] Existing Instance demo_env.

(** The state a program leads to. *)
Definition after {A} (m : M sys A) (s : sys) : sys :=
  match m s with Some (_, s') => s' | None => sys_zero end.

(** The queues of a state, read off its store. *)
Definition queues_of (s : sys) : qmap := λ h,
  match list_for_each h (lst s) with
  | Some (ns, _) => omap list_entry_tsk ns
  | None => []
  end.

(** [main] went to sleep for the first time: the soft-irq daemon runs. *)
Definition asleep : sys := after (add_current_task_wait_Q;; schedule) main_state.
(** The daemon waits for input on descriptor 3: the idle task runs. *)
Definition waiting : sys := after (wait_on_fd 3) asleep.

(** A decidable form of the invariant, for tasks without signal handlers. *)
Definition task_ok (s : sys) (p : positive) (t : tsk) : Prop :=
  (0 ≤ prio t < MAX_PRIO)%Z ∧ (current s = Some p ∨ regs t ≠ JB_zero) ∧
  dll (slst s) (S_tsk p) [].
Definition kinv_ok (s : sys) (Q : qmap) : Prop :=
  Forall (λ h, dll (lst s) h (N_tsk <$> Q h)) (heads (dom (locks s))) ∧
  NoDup (heads (dom (locks s)) ≫= Q) ∧
  Forall (λ p, p ∈ dom (tasks s)) (heads (dom (locks s)) ≫= Q) ∧
  Forall (λ p, is_Some (lst s !! N_tsk p)) (elements (dom (tasks s))) ∧
  map_Forall (task_ok s) (tasks s) ∧
  is_Some (current s ≫= λ c, tasks s !! c) ∧ is_Some (idle s ≫= λ c, tasks s !! c) ∧
  (nxt_imm_task s = None ∨ is_Some (nxt_imm_task s ≫= λ q, tasks s !! q)) ∧
  (0 < task_count s)%Z ∧ (0 ≤ nrp s < 2 ^ 31 - 1)%Z.
#[global] Instance kinv_ok_dec s Q : Decision (kinv_ok s Q).
Proof. rewrite /kinv_ok /task_ok. apply _. Defined.

Lemma kinv_ok_kinv s Q : kinv_ok s Q → kinv s Q.
Proof.
  intros (H1&H2&H3&H4&Ht&Hc&Hi&Him&Hct&Hn). split; [by apply queues_check|..].
  - intros p t Hp. apply (Ht p t Hp).
  - destruct Hc as [t Hc], (current s) as [c|]; [eauto|done].
  - destruct Hi as [t Hi], (idle s) as [c|]; [eauto|done].
  - intros q Hq. rewrite Hq in Him. by destruct Him.
  - intros p t Hp. destruct (Ht p t Hp) as (_&[?|?]&_); done.
  - done.
  - done.
  - intros p t Hp. exists []. split; [apply (Ht p t Hp)|done].
Qed.
Definition kgood_ok (s : sys) (Q : qmap) : Prop := kinv_ok s Q ∧ nrp s = run_count Q.
Lemma kgood_ok_kgood s Q : kgood_ok s Q → kgood s Q.
Proof. intros [Hk Hn]. split; [by apply kinv_ok_kinv|done]. Qed.

Ltac decide_now := apply (bool_decide_unpack _); vm_compute; exact I.
Lemma main_kinv : kinv main_state (queues_of main_state).
Proof. apply kinv_ok_kinv. decide_now. Qed.
Lemma asleep_good : kgood asleep (queues_of asleep).
Proof. apply kgood_ok_kgood. decide_now. Qed.
Lemma waiting_good : kgood waiting (queues_of waiting).
Proof. apply kgood_ok_kgood. decide_now. Qed.
End States.

(** ** Theorems *)
Section Spec.
Context `{E : Env}.
Implicit Types (s : sys) (p c n : positive) (t : tsk) (Q : qmap).

(** The choice of [schedule]: the idle task when every run queue is empty; otherwise the task that the last wake-up
    cached, whatever queue it is on by now; with no cached task the head of the first run queue that is not empty. *)
Definition no_ready Q : Prop := ∀ i, (0 ≤ i < MAX_PRIO)%Z → Q (N_rq i) = [].
Definition best_ready_task Q n : Prop :=
  ∃ i xs, (0 ≤ i < MAX_PRIO)%Z ∧ Q (N_rq i) = n :: xs ∧ ∀ j, (0 ≤ j < i)%Z → Q (N_rq j) = [].
Definition elected s Q n : Prop :=
  no_ready Q ∧ idle s = Some n ∨
  ¬ no_ready Q ∧ nxt_imm_task s = Some n ∨
  nxt_imm_task s = None ∧ best_ready_task Q n.
Lemma chosen_elected s Q n : kgood s Q → chosen s Q = Some n → elected s Q n.
Proof.
  intros Hg. rewrite /chosen. pose proof (first_ready_split Q) as Hf.
  assert (Hno : nrp s = 0%Z ↔ no_ready Q).
  { split.
    - intros Hn i Hi. destruct (Q (N_rq i)) as [|q xs] eqn:HQ; [done|].
      assert (Hq : q ∈ Q (N_rq i)) by (rewrite HQ; left). pose proof (kgood_nrp_pos _ _ _ _ Hg Hi Hq). lia.
    - intros Hn. rewrite (kg_nrp _ _ Hg) /run_count. rewrite /first_ready in Hf.
      destruct (run_order Q 0 MAX_PRIO) as [|q xs]; [done|]. destruct Hf as (i&ys&Hi&HQ&_). by rewrite Hn in HQ. }
  destruct (Z.eqb_spec (nrp s) 0) as [H0|H0]; [left; naive_solver|].
  destruct (nxt_imm_task s) eqn:Him; intros Hn; [right; left; naive_solver|].
  rewrite Hn in Hf. right; right. by split.
Qed.

(** C1: with an exact run count, [schedule] always finds a task, never runs
    into undefined behaviour, and leaves the task it elects as the current,
    running one: the idle task when nothing is ready; otherwise the cached task if there
    is one, which may be a task that went to sleep after it was cached; with no cached task the first
    ready task of the best priority.  So the new current task is ready or the idle one
    unless the cache is stale.  The task that gives up the processor is
    saved and [TASK_INTERRUPTIBLE], the invariant and the run count still
    hold, and no task changes its queue status, id or events. *)
Theorem schedule_correct s Q c :
  kgood s Q → os_sched_enabled s = 0%Z → current s = Some c →
  ∃ n s', elected s Q n ∧ schedule s = Some (tt, s') ∧
    kgood s' (sched_queues s Q) ∧ scheduled c n s s' ∧
    ((∀ q, nxt_imm_task s = Some q → ∃ i, (0 ≤ i < MAX_PRIO)%Z ∧ q ∈ Q (N_rq i)) →
       idle s = Some n ∨ ∃ i, (0 ≤ i < MAX_PRIO)%Z ∧ n ∈ Q (N_rq i)).
Proof.
  intros Hg Hos Hc. destruct (kgood_chosen s Q Hg) as [n Hn].
  destruct (wp_unit_inv _ _ _ (schedule_good s Q c n Hg Hos Hc Hn)) as (s'&Hr&Hg'&Hs).
  pose proof (chosen_elected s Q n Hg Hn) as Hel. exists n, s'. split_and!; [done..|].
  intros Hq. destruct Hel as [[_ Hi]|[[_ Hi]|[_ (i&xs&Hi&HQ&_)]]]; [by left|right; by apply Hq|].
  right. exists i. split; [done|]. rewrite HQ. left.
Qed.

(** C11: the search for the next task returns the head of the first run
    queue that is not empty, so no ready task has a better priority; unless
    it is the current task it moves to the back of the queue of its
    priority, and every other queue keeps its order. *)
Theorem next_task_best_priority s Q :
  kinv s Q → nrp s ≠ 0%Z →
  wp next_task_ready_to_run (λ o s',
    match o with
    | None => s' = s ∧ ∀ i, (0 ≤ i < MAX_PRIO)%Z → Q (N_rq i) = []
    | Some p => ∃ i xs t Q', (0 ≤ i < MAX_PRIO)%Z ∧ Q (N_rq i) = p :: xs ∧
        (∀ j, (0 ≤ j < i)%Z → Q (N_rq j) = []) ∧
        tasks s !! p = Some t ∧ sys_queues s' Q' ∧
        (current s = Some p → Q' = Q) ∧
        (current s ≠ Some p → ∀ h, Q' h = filter (λ q, q ≠ p) (Q h) ++
           (if decide (h = N_rq (prio t)) then [p] else []))
    end) s.
Proof.
  intros Hk Hn. eapply wp_mono.
  { apply next_task_ready_to_run_run; [apply Hk|done|apply Hk]. }
  intros o s' [-> Hs]. pose proof (first_ready_split Q) as Hf. rewrite /searched in Hs.
  destruct (first_ready Q) as [p|]; [|by rewrite Hs].
  destruct Hf as (i&xs&[Hi1 Hi2]&HQ&Hb), Hs as (t&l&Ht&->&Hq).
  exists i, xs, t. case_decide as Hc.
  - exists Q. split_and!; done.
  - exists (rotate p t Q). split_and!; try done.
    intros _ h. rewrite /rotate /qapp /qrem. case_decide; [done|by rewrite app_nil_r].
Qed.

(** C17: a ready task that goes to sleep leaves its run queue for the back of
    the wait queue; both counters follow, the task is [TASK_INTERRUPTIBLE],
    and the state stays good.  A task that is not on the run queue is only
    reported. *)
Theorem add_task_to_wait_Q_correct s Q p t i :
  kgood s Q → tasks s !! p = Some t → (0 ≤ i < MAX_PRIO)%Z → p ∈ Q (N_rq i) →
  (onrq t ≠ 0%Z → ∃ s', add_task_to_wait_Q p s = Some (tt, s') ∧
     kgood s' (qapp p N_wq (qrem p Q)) ∧
     nrp s' = (nrp s - 1)%Z ∧ nwp s' = s32 (nwp s + 1) ∧ current s' = current s ∧
     ∃ t', tasks s' = <[p := t']> (tasks s) ∧ onrq t' = 0%Z ∧ state t' = TASK_INTERRUPTIBLE ∧
       prio t' = prio t) ∧
  (onrq t = 0%Z → ∃ s', add_task_to_wait_Q p s = Some (tt, s') ∧
     trace s' = trace s ++ [bug_wait_q] ∧ tasks s' = tasks s ∧ lst s' = lst s).
Proof.
  intros Hg Ht Hi Hp. split; intros Hon.
  - destruct (sleep_good s Q p t i) as (l&?&Hg'); [done..|]. eexists; split_and!; try done.
    + pose proof (ki_nrp _ _ (kg_inv _ _ Hg)). pose proof (kgood_nrp_pos _ _ _ _ Hg Hi Hp).
      simpl. rewrite s32_small; lia.
    + eexists. simpl. done.
  - eexists. split; [by eapply add_task_to_wait_Q_bug|done].
Qed.

(** C18: waking a task that waits on the wait queue, on a descriptor or on a
    lock puts it in front of the run queue of its priority and moves it from the
    count of waiting tasks to the count of ready ones, asks for a
    reschedule exactly when it beats the current task, and caches it as the
    next task unless a cached task is at least as urgent. *)
Theorem wakeup_task_correct s Q p t c tc h :
  kgood s Q → is_head (dom (locks s)) h → is_run h = false → p ∈ Q h →
  tasks s !! p = Some t → onrq t = 0%Z →
  current s = Some c → tasks s !! c = Some tc → (nrp s < 2 ^ 31 - 2)%Z →
  ∃ s', wakeup_task p s = Some (tt, s') ∧ kgood s' (qcons p (N_rq (prio t)) (qrem p Q)) ∧
    nrp s' = (nrp s + 1)%Z ∧ nwp s' = s32 (nwp s - 1) ∧ current s' = Some c ∧
    sched_need s' = (if (prio t <? prio tc)%Z then 1%Z else sched_need s) ∧
    nxt_imm_task s' = imm_after (tasks s) (nxt_imm_task s) p t ∧
    ∃ t', tasks s' = <[p := t']> (tasks s) ∧ onrq t' = 1%Z ∧ prio t' = prio t ∧
      stime t' = slong (env_times (n_times s) - stime t).
Proof.
  intros Hg Hh Hr Hp Ht Hon Hc Htc Hlt.
  destruct (wakeup_good s Q p t c tc h) as (l&?&?); [done..|].
  pose proof (ki_nrp _ _ (kg_inv _ _ Hg)).
  eexists; split_and!; try done; [simpl; rewrite s32_small; lia|].
  by eexists.
Qed.

(** a woken task that beats the cached one gets the processor at the
    next call of [schedule]. *)
Theorem wakeup_preempts s Q p t c h :
  kgood s Q → is_head (dom (locks s)) h → is_run h = false → p ∈ Q h →
  tasks s !! p = Some t → onrq t = 0%Z → current s = Some c →
  os_sched_enabled s = 0%Z → (nrp s < 2 ^ 31 - 2)%Z →
  imm_after (tasks s) (nxt_imm_task s) p t = Some p →
  ∃ s', (wakeup_task p;; schedule) s = Some (tt, s') ∧ current s' = Some p ∧
    kgood s' (qcons p (N_rq (prio t)) (qrem p Q)).
Proof.
  intros Hg Hh Hr Hp Ht Hon Hc Hos Hlt Him.
  destruct (ki_cur _ _ (kg_inv _ _ Hg)) as (?&tc&Hc'&Htc). rewrite Hc in Hc'. injection Hc' as <-.
  destruct (wakeup_good s Q p t c tc h) as (l&Hrun&Hg'); [done..|].
  rewrite (bind_run _ _ _ _ _ Hrun). set (s1 := set_lst _ _) in *.
  assert (Hn1 : nrp s1 ≠ 0%Z).
  { pose proof (ki_nrp _ _ (kg_inv _ _ Hg)). simpl. rewrite s32_small; lia. }
  assert (chosen s1 (qcons p (N_rq (prio t)) (qrem p Q)) = Some p ∧
    sched_queues s1 (qcons p (N_rq (prio t)) (qrem p Q)) = qcons p (N_rq (prio t)) (qrem p Q))
    as [Hch Hsq].
  { rewrite /chosen /sched_queues. destruct (Z.eqb_spec (nrp s1) 0); [done|].
    change (nxt_imm_task s1) with (imm_after (tasks s) (nxt_imm_task s) p t).
    rewrite Him. done. }
  destruct (wp_unit_inv _ _ _ (schedule_good s1 _ c p Hg' Hos Hc Hch)) as (s'&?&Hg2&Hs).
  rewrite Hsq in Hg2. exists s'. split_and!; [done|apply Hs|done].
Qed.

(** when a descriptor becomes ready every task that waits for it is woken:
    its queue is empty afterwards, each waiter is on the run queue of its
    priority, and the others are untouched. *)
Theorem wake_io_task_correct s Q fd :
  kgood s Q → (0 ≤ fd < MAX_FDS)%Z →
  (∀ p, p ∈ Q (N_io fd) → onrq <$> tasks s !! p = Some 0%Z) →
  (nrp s + Z.of_nat (length (Q (N_io fd))) < 2 ^ 31 - 1)%Z →
  ∃ s', wake_io_task fd s = Some (tt, s') ∧
    kgood s' (wake_all (tasks s) (Q (N_io fd)) Q) ∧ io_woken (Q (N_io fd)) s s' ∧
    wake_all (tasks s) (Q (N_io fd)) Q (N_io fd) = [].
Proof.
  intros Hg Hfd Hw Hn.
  destruct (wp_unit_inv _ _ _ (wake_io_task_run s Q fd Hg Hfd Hw Hn)) as (s'&?&?&?).
  exists s'. split_and!; try done. eapply wake_all_empty; [|done|done].
  eapply queues_NoDup; [apply Hg|done].
Qed.

(** [find_task] changes nothing; a task it returns has the id asked for,
    and when it returns null no task on the I/O queues, on the wait queue or, if
    [rq.nrp] is not zero, on a run queue has it. *)
Theorem find_task_correct s Q (t0 : Z) :
  kinv s Q →
  ∃ o, find_task t0 s = Some (o, s) ∧
    match o with
    | Some p => (∃ h, is_head (dom (locks s)) h ∧ p ∈ Q h) ∧
        ∃ t, tasks s !! p = Some t ∧ tid t = t0
    | None => ∀ h p t, is_head (dom (locks s)) h → p ∈ Q h → tasks s !! p = Some t → tid t = t0 →
        (∃ l, h = N_lock l) ∨ (nrp s = 0%Z ∧ is_run h = true)
    end.
Proof.
  intros Hk. eexists. split; [by apply find_task_run, Hk|].
  destruct (first_tid s t0 (search_order s Q)) as [p|] eqn:Hf.
  - apply first_tid_Some in Hf as [Hp Ht]. split; [by eapply search_order_head|].
    rewrite /has_tid in Ht. destruct (tasks s !! p); naive_solver.
  - intros h p t Hh Hp Ht Htid. apply (search_order_complete s Q h p); [done..|].
    intros Hin. apply (first_tid_None _ _ _ Hf p Hin). by rewrite /has_tid Ht /= Htid.
Qed.

(** the CPU usage the accounting stores is a percentage for every time
    slice of at least two milliseconds, whatever [currt] is, and it is the
    ratio of the time used to the slice, capped at 100, while [currt * 100] does
    not overflow. *)
Theorem cpu_usage_correct s c t :
  current s = Some c → tasks s !! c = Some t → (2 ≤ tslice t < 2 ^ 32)%Z →
  ∃ s' t', calc_current_cpu_usage s = Some (tt, s') ∧ tasks s' = <[c := t']> (tasks s) ∧
    (0 ≤ cpuusage t' ≤ 100)%Z ∧
    ((0 ≤ currt t)%Z → (currt t * 100 < 2 ^ 31)%Z →
       cpuusage t' = Z.min 100 (currt t * 100 / tslice t)).
Proof.
  intros Hc Ht Hts. rewrite /calc_current_cpu_usage (bind_run _ _ _ c s).
  2:{ by rewrite /cur /get_current /mbind /M_bind /= Hc. }
  rewrite /tsk_mod Ht. do 2 eexists. split_and!; [done|done|..]; cbn [cpuusage set_cpuusage].
  - by apply cpu_usage_range.
  - by apply cpu_usage_range.
  - intros. apply cpu_usage_exact; lia.
Qed.

(** the time slice given to the next task lies between 30 and 1060 ticks, it
    is the task's share of a second under the present load plus the bonus of
    its priority class, and the task is demoted to priority 19 exactly when
    the load and its own usage exceed 40 percent. *)
Theorem time_slice_correct s p t :
  small_counts s → tasks s !! p = Some t → idle s ≠ Some p → current s ≠ Some p →
  ∃ s' t', calculate_time_slice (Some p) s = Some (tt, s') ∧ tasks s' = <[p := t']> (tasks s) ∧
    (30 ≤ tslice t' ≤ 1060)%Z ∧ tslice t' = slice_of s t ∧ prio t' = demoted s t.
Proof.
  intros Hs Ht Hi Hc. pose proof (share_range s Hs).
  rewrite (calculate_time_slice_run s p t) //. do 2 eexists.
  split_and!; [done|done|..]; simpl; rewrite /slice_of; try done;
    rewrite /DEF_HPT_TSLICE /DEF_LOW_TSLICE; destruct (_ <? _)%Z; lia.
Qed.
End Spec.

(** ** The theorems at work *)
Module SchedWitness.
Import Run States.
#[local] Open Scope positive_scope.

(** Descriptor 3 is ready again, the idle task still runs. *)
Definition woke : sys := after (wake_io_task 3) waiting.
Lemma woke_good : kgood woke (queues_of woke).
Proof. apply kgood_ok_kgood. decide_now. Qed.

(** The task at an address. *)
Definition the (s : sys) (p : positive) : tsk := default tsk_zero (tasks s !! p).

Ltac compute_now := clear; vm_compute; first [reflexivity | discriminate | by auto].

Lemma schedule_witness : ∃ s', schedule woke = Some (tt, s') ∧ current s' = Some 5.
Proof.
  destruct (schedule_correct woke (queues_of woke) 3 woke_good) as (n&s'&Hn&Hs&_&Hd&_);
    [compute_now..|].
  exists s'. split; [exact Hs|]. rewrite (sc_current _ _ _ _ Hd). destruct Hn as [[Hn _]|[[_ Hn]|[Hn _]]].
  - exfalso. specialize (Hn 1%Z ltac:(clear; done)). clear -Hn. vm_compute in Hn. discriminate Hn.
  - rewrite -Hn. compute_now.
  - exfalso. clear -Hn. vm_compute in Hn. discriminate Hn.
Defined.

Lemma next_task_witness : ∃ p s', next_task_ready_to_run asleep = Some (Some p, s') ∧
  ∃ i xs, (0 ≤ i < MAX_PRIO)%Z ∧ queues_of asleep (N_rq i) = p :: xs.
Proof.
  destruct (wp_inv _ _ _ (next_task_best_priority asleep (queues_of asleep)
    (kg_inv _ _ asleep_good) ltac:(compute_now))) as ([p|]&s'&Hrun&Ho).
  - destruct Ho as (i&xs&t&Q'&Hi&HQ&_). exists p, s'. split; [exact Hrun|].
    exists i, xs. exact (conj Hi HQ).
  - destruct Ho as [_ Ho]. specialize (Ho 1%Z ltac:(clear; done)). clear Hrun.
    vm_compute in Ho. discriminate Ho.
Defined.

Lemma add_task_to_wait_Q_witness :
  ∃ s', add_task_to_wait_Q 5 asleep = Some (tt, s') ∧ nrp s' = (nrp asleep - 1)%Z.
Proof.
  destruct (add_task_to_wait_Q_correct asleep (queues_of asleep) 5 (the asleep 5) 1 asleep_good)
    as [H _]; [compute_now|clear; done|decide_now|].
  destruct H as (s'&Hr&_&Hn&_); [compute_now|]. exists s'. exact (conj Hr Hn).
Defined.

Lemma wakeup_task_witness :
  ∃ s', wakeup_task 5 waiting = Some (tt, s') ∧ nxt_imm_task s' = Some 5 ∧ sched_need s' = 1%Z.
Proof.
  destruct (wakeup_task_correct waiting (queues_of waiting) 5 (the waiting 5) 3 (the waiting 3)
    (N_io 3) waiting_good) as (s'&Hr&_&_&_&_&Hsn&Him&_);
    [clear; done|compute_now|decide_now|compute_now..|].
  exists s'. split; [exact Hr|]. rewrite Hsn Him. split; compute_now.
Defined.

Lemma wakeup_preempts_witness : ∃ s', (wakeup_task 5;; schedule) waiting = Some (tt, s') ∧
  current s' = Some 5.
Proof.
  destruct (wakeup_preempts waiting (queues_of waiting) 5 (the waiting 5) 3 (N_io 3) waiting_good)
    as (s'&Hr&Hc&_); [clear; done|compute_now|decide_now|compute_now..|].
  exists s'. exact (conj Hr Hc).
Defined.

Lemma wake_io_task_witness : ∃ s', wake_io_task 3 waiting = Some (tt, s') ∧
  kgood s' (wake_all (tasks waiting) (queues_of waiting (N_io 3)) (queues_of waiting)).
Proof.
  destruct (wake_io_task_correct waiting (queues_of waiting) 3 waiting_good) as (s'&Hr&Hg&_).
  - clear; done.
  - intros p Hp. assert (Hq : p ∈ [5]) by exact Hp. clear Hp.
    apply list_elem_of_singleton in Hq as ->. compute_now.
  - compute_now.
  - exists s'. exact (conj Hr Hg).
Defined.

Lemma find_task_witness : ∃ p t, find_task 3 waiting = Some (Some p, waiting) ∧
  tasks waiting !! p = Some t ∧ tid t = 3%Z.
Proof.
  destruct (find_task_correct waiting (queues_of waiting) 3 (kg_inv _ _ waiting_good))
    as ([p|]&Hf&Ho).
  - destruct Ho as (_&t&Ht&Hi). exists p, t. exact (conj Hf (conj Ht Hi)).
  - exfalso. clear Ho. vm_compute in Hf. discriminate Hf.
Defined.

Lemma cpu_usage_witness : ∃ s', calc_current_cpu_usage waiting = Some (tt, s').
Proof.
  destruct (cpu_usage_correct waiting 3 (the waiting 3)) as (s'&t'&Hr&_);
    [compute_now|compute_now|split; compute_now|].
  exists s'. exact Hr.
Defined.

Lemma time_slice_witness : ∃ s', calculate_time_slice (Some 5) woke = Some (tt, s').
Proof.
  destruct (time_slice_correct woke 5 (the woke 5)) as (s'&t'&Hr&_);
    [repeat split; compute_now|compute_now..|].
  exists s'. exact Hr.
Defined.
End SchedWitness.
