(* ===== verification/ThreadSpec.v ===== *)
(** * What the task interface promises

    Creating tasks, events, locks and signals: thread_lib.c, lock.c and
    process_signal of interrupt.c; and the runs of the library that go wrong. *)

From S2P Require Import Prelude ListHead Task Signal Sched SchedInv SchedProps ThreadLib SchedSpec.

(** ** Creating a task *)
Section spawn.
Context `{E : Env}.
Implicit Types (s : sys) (p c n : positive) (t : tsk) (Q : qmap).

Lemma queues_fresh l T LK Q p :
  queues l T LK Q → p ∉ T →
  queues (<[N_tsk p := LH (N_tsk p) (N_tsk p)]> l) ({[p]} ∪ T) LK Q.
Proof.
  intros [H1 H2 H3 H4] Hp. split.
  - intros h Hh. eapply dll_frame, H1, Hh. intros n Hn. apply lookup_insert_ne. intros <-.
    destruct (ring_nodes _ _ _ _ Hh Hn) as [<-|(q&[= <-]&Hq)]; [done|]. apply Hp. eauto.
  - done.
  - intros h q Hh Hq. apply elem_of_union_r. eauto.
  - intros q [->%elem_of_singleton|Hq]%elem_of_union; [by rewrite lookup_insert_eq|].
    apply lookup_insert_is_Some'. eauto.
Qed.

(** A new task enters the run queue of its priority at the back. *)
Definition after_new (p : positive) (t tc : tsk) (s : sys) : sys :=
  set_tasks (<[p := set_stime (env_times (n_times s)) (set_onrq 1 t)]> (tasks s))
    (set_nrp (s32 (nrp s + 1))
      (set_sched_need (need_after t tc (sched_need s))
        (set_nxt_imm_task (imm_after (tasks s) (nxt_imm_task s) p t)
          (set_n_times (S (n_times s)) s)))).

Lemma wakeup_new_task_run s p t c tc Q :
  tasks s !! p = Some t → (0 ≤ prio t < MAX_PRIO)%Z →
  current s = Some c → tasks s !! c = Some tc →
  (∀ q, nxt_imm_task s = Some q → is_Some (tasks s !! q)) →
  sys_queues s Q → free_task (dom (locks s)) p Q →
  ∃ l, wakeup_new_task p s = Some (tt, set_lst l (after_new p t tc s)) ∧
       queues l (dom (tasks s)) (dom (locks s)) (qapp p (N_rq (prio t)) Q).
Proof.
  intros Ht Hpr Hc Htc Hnx Hq Hf.
  destruct (list_add_tail_queues _ _ _ _ p (N_rq (prio t)) Hq) as (l2&Hl2&Hq2);
    [done|by eapply elem_of_dom_2|done|].
  assert (wp (wakeup_new_task p) (λ _ s', s' = set_lst l2 (after_new p t tc s)) s)
    as ([]&s'&?&->)%wp_inv; [|by eauto].
  rewrite /wakeup_new_task. apply wp_bind. eapply wp_note_sched_need; [done..|].
  rewrite /task_find_right_RQ. sys_steps. eapply wp_onl; [exact Hl2|]. sys_steps.
  eapply wp_note_imm_task; [by apply lookup_insert_eq| |].
  { intros q Hq'%Hnx. simpl. rewrite lookup_insert_is_Some'. auto. }
  sys_steps. rewrite /after_new. simpl.
  by rewrite insert_insert_eq (imm_after_insert _ _ _ t).
Qed.

(** The control block [spawn_task] fills in. *)
Definition spawned_tsk (t0 : Z) (name : string) (a : attr) (k w : positive) (arg now : Z) : tsk :=
  set_stime now (set_onrq 1 (set_regs (JB_clone_thread w arg)
    (set_regs (JB_at in_spawn_task) (set_taskname (String.substring 0 MAX_TASK_NAME name)
      (set_stk (Some k) (new_tsk t0 a)))))).

Record spawned (p k w : positive) (name : string) (a : attr) (arg : Z) (s s' : sys) : Prop := {
  sp_tasks : tasks s' = <[p := spawned_tsk (s32 (taskid s + 1)) name a k w arg
                                 (env_times (n_times s))]> (tasks s);
  sp_stack : stacks s' = {[k]} ∪ stacks s;
  sp_slst : slst s' = <[S_tsk p := LH (S_tsk p) (S_tsk p)]> (slst s);
  sp_sigs : sigs s' = sigs s;
  sp_locks : locks s' = locks s;
  sp_current : current s' = current s;
  sp_idle : idle s' = idle s;
  sp_nrp : nrp s' = s32 (nrp s + 1);
  sp_count : task_count s' = u32 (task_count s + 1);
  sp_os : os_sched_enabled s' = os_sched_enabled s;
  sp_imm q : nxt_imm_task s' = Some q → q = p ∨ nxt_imm_task s = Some q
}.

(** A successful call, from a task [c], on fresh memory. *)
Lemma spawn_task_run s Q name a w arg p k c tc :
  sys_queues s Q → current s = Some c → tasks s !! c = Some tc →
  (∀ q, nxt_imm_task s = Some q → is_Some (tasks s !! q)) →
  env_calloc (n_calloc s) = Some p → env_calloc (S (n_calloc s)) = Some k →
  p ∉ dom (tasks s) → (0 ≤ attr_prio a < MAX_PRIO)%Z → (8 ≤ attr_stksze a)%Z →
  wp (spawn_task name a (Some w) arg) (λ o s', o = Some p ∧ spawned p k w name a arg s s' ∧
    sys_queues s' (qapp p (N_rq (attr_prio a)) Q)) s.
Proof.
  intros Hq Hc Htc Him Hp Hk Hfr Hpr Hst.
  assert (Hcp : p ≠ c) by (intros ->; apply Hfr; by eapply elem_of_dom_2).
  pose proof (queues_fresh _ _ _ _ p Hq Hfr) as Hq1.
  rewrite /spawn_task /tm_calloc /calloc. sys_steps. simpl. rewrite Hp. sys_steps.
  eapply wp_onl; [done|]. sys_steps.
  rewrite /onsl. apply wp_zoom, wp_modify. rewrite /alloc_tid. sys_steps.
  rewrite /tm_malloc /tm_calloc /calloc. sys_steps. simpl. rewrite Hk. sys_steps. simpl.
  rewrite (proj2 (Z.ltb_ge (attr_stksze a) 8) Hst). sys_steps. rewrite !insert_insert_eq.
  set (t1 := set_regs _ _). set (s1 := set_task_count _ _).
  assert (Hlk : tasks s1 = <[p := t1]> (tasks s)) by done.
  destruct (wakeup_new_task_run s1 p t1 c tc Q) as (l&Hrun&Hq2).
  - by rewrite Hlk lookup_insert_eq.
  - done.
  - done.
  - by rewrite Hlk lookup_insert_ne.
  - intros q Hq'. rewrite Hlk lookup_insert_is_Some'. right. by apply Him.
  - rewrite /sys_queues Hlk dom_insert_L. exact Hq1.
  - intros h Hh Hin. apply Hfr. by eapply (q_task _ _ _ _ Hq).
  - eapply wp_intro; [exact Hrun|]. apply wp_ret. split; [done|]. split.
    + split; [|reflexivity..|intros q; apply imm_after_cases].
      cbn [tasks set_lst set_tasks after_new]. rewrite Hlk insert_insert_eq. reflexivity.
    + rewrite Hlk dom_insert_L in Hq2.
      rewrite /sys_queues /= insert_insert_eq dom_insert_L. exact Hq2.
Qed.
End spawn.

Section spawn_good.
Context `{E : Env}.
Implicit Types (s : sys) (p k c w : positive) (t : tsk) (Q : qmap).

Lemma sig_list_fresh s s' p q xs :
  slst s' = <[S_tsk p := LH (S_tsk p) (S_tsk p)]> (slst s) → sigs s' = sigs s → q ≠ p →
  sig_list s q xs → sig_list s' q xs.
Proof.
  intros Hsl Hsg Hne [Hd Hv]. split; [|by rewrite Hsg].
  eapply dll_frame, Hd. intros n Hn. rewrite Hsl. apply lookup_insert_ne. intros <-.
  apply elem_of_cons in Hn as [[= ->]|Hn]; [done|]. apply list_elem_of_fmap in Hn. naive_solver.
Qed.
Lemma sig_list_new s s' p :
  slst s' = <[S_tsk p := LH (S_tsk p) (S_tsk p)]> (slst s) → sig_list s' p [].
Proof.
  intros Hsl. split; [|done]. split; [by apply NoDup_singleton|].
  by rewrite /= /nxt /prv Hsl lookup_insert_eq.
Qed.

Lemma spawned_kinv s Q s' p k w name a arg Q' :
  kinv s Q → spawned p k w name a arg s s' → sys_queues s' Q' → p ∉ dom (tasks s) →
  (0 ≤ attr_prio a < MAX_PRIO)%Z → (nrp s < 2 ^ 31 - 2)%Z → (task_count s < 2 ^ 32 - 1)%Z →
  kinv s' Q'.
Proof.
  intros Hk Hs Hq Hfr Hpr Hn Hct. pose proof (sp_tasks _ _ _ _ _ _ _ _ Hs) as Ht.
  assert (Hv : ∀ q, is_Some (tasks s !! q) → is_Some (tasks s' !! q)).
  { intros q. rewrite Ht lookup_insert_is_Some'. auto. }
  split; [done|..].
  - intros q t. rewrite Ht lookup_insert. case_decide; [intros [= <-]; done|].
    apply (ki_prio _ _ Hk).
  - rewrite (sp_current _ _ _ _ _ _ _ _ Hs). destruct (ki_cur _ _ Hk) as (c&tc&?&?).
    destruct (Hv c); eauto.
  - rewrite (sp_idle _ _ _ _ _ _ _ _ Hs). destruct (ki_idle _ _ Hk) as (c&tc&?&?).
    destruct (Hv c); eauto.
  - intros q [->|Hq']%(sp_imm _ _ _ _ _ _ _ _ Hs); [by rewrite Ht lookup_insert_eq|].
    by apply Hv, (ki_imm _ _ Hk).
  - rewrite (sp_current _ _ _ _ _ _ _ _ Hs). intros q t. rewrite Ht lookup_insert.
    case_decide; [intros [= <-]; done|]. apply (ki_regs _ _ Hk).
  - rewrite (sp_count _ _ _ _ _ _ _ _ Hs). pose proof (ki_count _ _ Hk). rewrite u32_small; lia.
  - rewrite (sp_nrp _ _ _ _ _ _ _ _ Hs). pose proof (ki_nrp _ _ Hk). rewrite s32_small; lia.
  - intros q t. rewrite Ht lookup_insert. case_decide as Hqp; [subst; intros _|].
    + exists []. eapply sig_list_new, Hs.
    + intros [xs Hxs]%(ki_sig _ _ Hk). exists xs. eapply sig_list_fresh; [apply Hs..| |done]; done.
Qed.

Lemma spawned_good s Q s' p k w name a arg :
  kgood s Q → spawned p k w name a arg s s' →
  sys_queues s' (qapp p (N_rq (attr_prio a)) Q) → p ∉ dom (tasks s) →
  (0 ≤ attr_prio a < MAX_PRIO)%Z → (nrp s < 2 ^ 31 - 2)%Z → (task_count s < 2 ^ 32 - 1)%Z →
  kgood s' (qapp p (N_rq (attr_prio a)) Q).
Proof.
  intros [Hk Hn] Hs Hq Hfr Hpr Hlt Hct. split; [by eapply spawned_kinv|].
  pose proof (ki_nrp _ _ Hk). rewrite (sp_nrp _ _ _ _ _ _ _ _ Hs) run_count_qapp.
  cbn [is_run]. rewrite bool_decide_eq_true_2 // s32_small; lia.
Qed.
End spawn_good.

(** ** Locks *)
Section locks.
Context `{E : Env}.
Implicit Types (s : sys) (p c n l : positive) (t : tsk) (k : lock_t) (Q : qmap).

(** A lock is free, or held once by a task. *)
Definition lock_ok (k : lock_t) : Prop :=
  (lk_lock k = 0%Z ∧ lk_owner k = None) ∨ (lk_lock k = 1%Z ∧ is_Some (lk_owner k)).

Lemma kinv_set_locks s Q l k :
  kinv s Q → is_Some (locks s !! l) → kinv (set_locks (<[l := k]> (locks s)) s) Q.
Proof.
  intros [] Hl. split; simpl; auto. rewrite /sys_queues /= dom_insert_L.
  replace ({[l]} ∪ dom (locks s)) with (dom (locks s)); [done|].
  apply elem_of_dom in Hl. set_solver.
Qed.

(** The state of a task that queues up for the lock, just before [schedule]. *)
Definition parked (c : positive) (t : tsk) (m : gmap lnode (list_head lnode)) (s : sys) : sys :=
  set_blocked ({[SIGALRM]} ∪ blocked s) (set_nwp (s32 (nwp s + 1))
    (set_tasks (<[c := set_onrq 0 t]> (tasks s)) (set_lst m s))).

Lemma park_run s Q c t l h :
  kinv s Q → current s = Some c → tasks s !! c = Some t → is_Some (locks s !! l) →
  is_head (dom (locks s)) h → c ∈ Q h →
  ∃ m, kinv (parked c t m s) (qapp c (N_lock l) (qrem c Q)) ∧
    ∀ (Φ : option Z → sys → Prop), wp schedule (λ _, Φ None) (parked c t m s) →
    wp (onl (list_del (N_tsk c));; onl (list_add_tail (N_tsk c) (N_lock l));; set_task_not_rq;;
        signals_block SIGALRM;; schedule;; mret None) Φ s.
Proof.
  intros Hk Hc Ht Hl Hh Hp. pose proof (ki_queues _ _ Hk) as Hq.
  destruct (list_del_queues _ _ _ _ _ _ Hq Hh Hp) as (m1&Hm1&Hq1).
  destruct (list_add_tail_queues _ _ _ _ c (N_lock l) Hq1) as (m2&Hm2&Hq2);
    [by apply elem_of_dom|by eapply elem_of_dom_2|by eapply qrem_free|].
  exists m2. split.
  - eapply (moved_kinv c t (set_onrq 0 t)); [by split; eauto|done|done|apply Hk].
  - intros Φ HΦ. apply wp_bind. eapply wp_onl; [exact Hm1|]. apply wp_bind.
    eapply wp_onl; [exact Hm2|]. rewrite /set_task_not_rq.
    apply wp_bind. sys_steps. exact HΦ.
Qed.

(** A task that finds the lock held gives up the processor. *)
Lemma lock_turn_held s Q c t l k h n :
  kinv s Q → os_sched_enabled s = 0%Z → current s = Some c → tasks s !! c = Some t →
  locks s !! l = Some k → lk_lock k ≠ 0%Z → is_head (dom (locks s)) h → c ∈ Q h →
  chosen s (qapp c (N_lock l) (qrem c Q)) = Some n →
  wp (lock_turn l) (λ o s', o = None ∧ locks s' = locks s ∧ current s' = Some n ∧ nrp s' = nrp s) s.
Proof.
  intros Hk Hos Hc Ht Hl Hheld Hh Hp Hn.
  destruct (park_run s Q c t l h) as (m&Hk1&Hrun); [done|done|done|by eauto|done|done|].
  rewrite /lock_turn /lock_ld. sys_steps. eapply wp_liftO; [exact Hl|].
  rewrite (proj2 (truthy_true _) Hheld). sys_step. sys_step.
  apply Hrun. eapply wp_mono.
  { apply (schedule_run _ _ c n Hk1); done. }
  intros [] s' [_ [Hcur _ _ Hcar]].
  by rewrite (ca_locks _ _ Hcar) (ca_nrp _ _ Hcar).
Qed.

Lemma lock_turn_free s c l k :
  current s = Some c → locks s !! l = Some k → lk_lock k = 0%Z →
  lock_turn l s = Some (Some 0%Z,
    set_locks (<[l := MkLock (Some c) 1 (lk_prio k)]> (locks s)) s).
Proof.
  intros Hc Hl Hfree. rewrite /lock_turn /lock_ld /mbind /M_bind /= Hl /= Hfree /=.
  by rewrite /get_current /= Hc insert_insert_eq.
Qed.

Lemma unlock_other s c l k :
  current s = Some c → locks s !! l = Some k → lk_owner k ≠ Some c →
  unlock l s = Some ((-1)%Z, s).
Proof.
  intros Hc Hl Ho. rewrite /unlock /lock_ld /mbind /M_bind /= Hl /get_current /= Hc.
  by rewrite bool_decide_eq_true_2.
Qed.

(** The owner releases the lock, then wakes the first waiter, if there is one. *)
Lemma unlock_run s Q c l k :
  kinv s Q → current s = Some c → locks s !! l = Some k → lk_owner k = Some c → lk_lock k = 1%Z →
  let s1 := set_locks (<[l := MkLock None 0 (lk_prio k)]> (locks s)) s in
  kinv s1 Q ∧ is_head (dom (locks s1)) (N_lock l) ∧
  unlock l s = match Q (N_lock l) with [] => Some (0%Z, s1) | p :: _ => (wakeup_task p;; mret 0%Z) s1 end.
Proof.
  intros Hk Hc Hl Ho Hone s1.
  pose proof (kinv_set_locks s Q l (MkLock None 0 (lk_prio k)) Hk (mk_is_Some _ _ Hl)) as Hk1.
  assert (Hh : is_head (dom (locks s1)) (N_lock l)) by (simpl; rewrite dom_insert_L; set_solver).
  split; [done|]. split; [done|]. pose proof (ki_queues _ _ Hk1) as Hq1.
  rewrite /unlock /lock_ld. rewrite (bind_run _ _ s k s); [|by rewrite /mbind /M_bind /= Hl].
  rewrite (bind_run get_current _ s (Some c) s); [|by rewrite /get_current /gets Hc].
  rewrite Ho bool_decide_eq_false_2; [|by intros ?]. rewrite Hone.
  change (s32 (1 - 1)) with 0%Z. cbn [Z.ltb Z.compare when]. rewrite /lock_st.
  assert (Hs : set_locks (<[l := MkLock None 0 (lk_prio k)]> (<[l := MkLock (Some c) 0 (lk_prio k)]> (locks s)))
    (set_locks (<[l := MkLock (Some c) 0 (lk_prio k)]> (locks s)) s) = s1).
  { by rewrite insert_insert_eq. }
  rewrite (bind_run (modify _) _ s tt (set_locks (<[l := MkLock (Some c) 0 (lk_prio k)]> (locks s)) s)) //.
  rewrite (bind_run (mret tt) _ _ tt _ eq_refl). rewrite (bind_run (modify _) _ _ tt s1); [|by rewrite -Hs].
  rewrite (bind_run _ _ _ _ _ (queue_empty_run s1 Q (N_lock l) Hq1 Hh)).
  destruct (Q (N_lock l)) as [|p xs] eqn:HQ; [by rewrite bool_decide_eq_true_2|].
  rewrite bool_decide_eq_false_2 //. cbn [negb when]. rewrite -bind_assoc2.
  assert (Hf : onl (get_next (N_lock l)) s1 = Some (N_tsk p, s1)).
  { destruct (wp_inv (onl (get_next (N_lock l))) (λ x s', x = N_tsk p ∧ s' = s1) s1) as (x&s'&Hr&->&->); [|done].
    by eapply wp_queue_first. }
  by rewrite (bind_run _ _ _ _ _ Hf).
Qed.
Lemma unlock_nobody s Q c l k :
  kinv s Q → current s = Some c → locks s !! l = Some k → lk_owner k = Some c →
  lk_lock k = 1%Z → Q (N_lock l) = [] →
  unlock l s = Some (0%Z, set_locks (<[l := MkLock None 0 (lk_prio k)]> (locks s)) s).
Proof.
  intros Hk Hc Hl Ho Hone HQ. destruct (unlock_run s Q c l k) as (_&_&->); [done..|]. by rewrite HQ.
Qed.
Lemma unlock_owner s Q c tc l k :
  kinv s Q → current s = Some c → tasks s !! c = Some tc →
  locks s !! l = Some k → lk_owner k = Some c → lk_lock k = 1%Z → (nrp s < 2 ^ 31 - 2)%Z →
  (∀ p, head (Q (N_lock l)) = Some p → onrq <$> tasks s !! p = Some 0%Z) →
  wp (unlock l) (λ r s', r = 0%Z ∧ locks s' = <[l := MkLock None 0 (lk_prio k)]> (locks s) ∧
    match Q (N_lock l) with
    | [] => kinv s' Q ∧ tasks s' = tasks s
    | p :: _ => ∃ t, tasks s !! p = Some t ∧ kinv s' (qcons p (N_rq (prio t)) (qrem p Q)) ∧
        nxt_imm_task s' = imm_after (tasks s) (nxt_imm_task s) p t
    end) s.
Proof.
  intros Hk Hc Htc Hl Ho Hone Hn Hw. destruct (unlock_run s Q c l k) as (Hk1&Hh&Hrun); [done..|].
  rewrite /wp Hrun. set (s1 := set_locks _ s) in *. destruct (Q (N_lock l)) as [|p xs] eqn:HQ; [done|].
  specialize (Hw p eq_refl). destruct (tasks s !! p) as [t|] eqn:Ht; [|done].
  injection Hw as Hon. destruct (wakeup_kinv s1 (qrem p Q) Q p t c tc) as (m&Hrun1&Hk2); try done.
  { eapply unlinks_queued; [apply Hk1|exact Hh|]. rewrite HQ. set_solver. }
  rewrite (bind_run _ _ _ _ _ Hrun1). split_and!; [done|done|]. by exists t.
Qed.
End locks.

(** ** Exit, bad priorities and delivered signals *)
Section aux.
Context `{E : Env}.
Implicit Types (s : sys) (p c l w : positive) (t : tsk).

Lemma task_exit_gone p s s' :
  task_exit p s = Some (tt, s') →
  tasks s' !! p = None ∧ current s' = current s ∧
  os_sched_enabled s' = os_sched_enabled s ∧ stacks s' = stacks s.
Proof.
  intros He. destruct (list_del (N_tsk p) (lst s)) as [[[] m]|] eqn:Hm; last first.
  { by rewrite /task_exit {1}/mbind /M_bind {1}/onl /zoom Hm in He. }
  destruct (tasks s !! p) as [t|] eqn:Ht; last first.
  { rewrite /task_exit (bind_run _ _ _ tt (set_lst m s)) in He; [|by rewrite /onl /zoom Hm].
    by rewrite {1}/mbind /M_bind {1}/tsk_mod /= Ht in He. }
  assert (wp (task_exit p) (λ _ s', tasks s' !! p = None ∧ current s' = current s ∧
    os_sched_enabled s' = os_sched_enabled s ∧ stacks s' = stacks s) s) as Hw.
  { rewrite /task_exit. apply wp_bind. eapply wp_onl; [exact Hm|]. sys_steps.
    cbn [stk tsk_zero]. sys_steps. split; [|done].
    cbn [tasks set_task_count set_slst set_lst set_tasks]. by rewrite lookup_delete_eq. }
  by rewrite /wp He in Hw.
Qed.

(** A new task whose priority is out of range. *)
Lemma wakeup_new_task_bad_prio s p t Φ :
  tasks s !! p = Some t → (MAX_PRIO ≤ prio t)%Z → wlp (wakeup_new_task p) Φ s.
Proof.
  intros Ht Hpr. rewrite /wakeup_new_task. apply wlp_bind. intros [] s1 Hs1.
  assert (tasks s1 = tasks s) as Hs.
  { revert Hs1. rewrite /note_sched_need /cur /get_current /mbind /M_bind /=.
    destruct (current s) as [c|]; [|done]. rewrite /= /tsk_ld.
    destruct (tasks s !! c) as [tc|]; [|done]. rewrite Ht.
    destruct (_ <? prio tc)%Z; by intros [= <-]. }
  apply wlp_bind. rewrite /task_find_right_RQ.
  apply wlp_bind, wlp_of_wp. eapply wp_tsk_ld; [by rewrite Hs|]. apply wlp_bind.
  rewrite /rq_hd decide_False; [apply wlp_ub|lia].
Qed.
Lemma spawn_task_bad_prio s name a w arg p k :
  env_calloc (n_calloc s) = Some p → env_calloc (S (n_calloc s)) = Some k →
  (MAX_PRIO ≤ attr_prio a)%Z → spawn_task name a (Some w) arg s = None.
Proof.
  intros Hp Hk Hpr. apply wlp_fails. rewrite /spawn_task.
  rewrite /tm_calloc /calloc. sys_wlp. cbn [n_calloc set_alloc_size]. rewrite Hp.
  sys_wlp. apply wlp_of_wp. eapply wp_onl; [done|]. sys_wlp. apply wlp_of_wp, wp_zoom, wp_modify.
  rewrite /alloc_tid. sys_wlp. rewrite /tm_malloc /tm_calloc /calloc. sys_wlp.
  cbn [n_calloc set_alloc_size set_tasks set_taskid set_slst set_lst set_n_calloc]. rewrite Hk.
  sys_wlp.
  match goal with |- wlp _ _ ?st =>
    assert (∃ t, tasks st !! p = Some t ∧ prio t = attr_prio a) as (t&Ht&Hpt);
      [eexists; split; [sys_look|done]|generalize dependent st] end.
  intros s1 Ht. destruct (_ <? 8)%Z; [apply wlp_ub|]. sys_wlp.
  eapply wakeup_new_task_bad_prio; [sys_look|]. simpl. by rewrite Hpt.
Qed.

Lemma call_handler s xs (n : Z) h :
  handler_for (sigs s) n xs = Some h → Ev_handler h n ∈ call s xs n.
Proof. intros Hh. rewrite /call Hh. set_solver. Qed.
Lemma delivered_below s t xs (n : Z) h :
  let res := u32 (Z.land (signals t) (sig_pending t)) in
  (0 < res)%Z → (1 ≤ n ≤ Z.log2 res + 1)%Z → handler_for (sigs s) n xs = Some h →
  Ev_handler h n ∈ delivered s t xs.
Proof.
  intros res Hres Hn Hh. rewrite /delivered -/res. destruct (Z.eqb_spec res 0); [lia|].
  rewrite /calls. apply list_elem_of_bind. exists n.
  split; [by apply call_handler|]. apply elem_of_seqZ. lia.
Qed.
Lemma delivered_pending s t xs (n : Z) h :
  (1 ≤ n ≤ 32)%Z → Z.testbit (Z.land (signals t) (sig_pending t)) (n - 1) = true →
  handler_for (sigs s) n xs = Some h → Ev_handler h n ∈ delivered s t xs.
Proof.
  intros Hn Hb Hh.
  assert (Hb' : Z.testbit (u32 (Z.land (signals t) (sig_pending t))) (n - 1) = true).
  { rewrite /u32 Z.mod_pow2_bits_low; [done|lia]. }
  pose proof (u32_range (Z.land (signals t) (sig_pending t))).
  apply (delivered_below s t xs n h); [| |done].
  - destruct (decide (u32 (Z.land (signals t) (sig_pending t)) = 0%Z)) as [E0|]; [|lia].
    by rewrite E0 Z.bits_0 in Hb'.
  - destruct (decide (n - 1 ≤ Z.log2 (u32 (Z.land (signals t) (sig_pending t))))%Z); [lia|].
    rewrite Z.bits_above_log2 in Hb'; [done|lia|lia].
Qed.
End aux.

(** ** Theorems *)
Section Spec.
Context `{E : Env}.
Implicit Types (s : sys) (p c n l w : positive) (t : tsk) (k : lock_t) (Q : qmap).

(** [spawn_task] on fresh memory creates a task with the next id that
    starts in its function, ready at the back of the run queue of its
    priority, and keeps the state good; when the control block or the stack
    cannot be allocated it returns null and no task or queue has changed. *)
Theorem spawn_task_correct s Q name a w arg :
  kgood s Q → (0 ≤ attr_prio a < MAX_PRIO)%Z → (8 ≤ attr_stksze a)%Z →
  (nrp s < 2 ^ 31 - 2)%Z → (task_count s < 2 ^ 32 - 1)%Z →
  (∀ p, env_calloc (n_calloc s) = Some p → p ∉ dom (tasks s) ∧ lst s !! N_tsk p = None) →
  match env_calloc (n_calloc s), env_calloc (S (n_calloc s)) with
  | Some p, Some k => ∃ s', spawn_task name a (Some w) arg s = Some (Some p, s') ∧
      spawned p k w name a arg s s' ∧ kgood s' (qapp p (N_rq (attr_prio a)) Q)
  | _, _ => ∃ s', spawn_task name a (Some w) arg s = Some (None, s') ∧
      tasks s' = tasks s ∧ lst s' = lst s ∧ stacks s' = stacks s ∧ nrp s' = nrp s
  end.
Proof.
  intros Hg Hpr Hst Hn Hct Hfr.
  destruct (env_calloc (n_calloc s)) as [p|] eqn:Hp; last first.
  { rewrite /spawn_task /tm_calloc /calloc /mbind /M_bind /= Hp. eexists. by split_and!. }
  destruct (Hfr p eq_refl) as [Hfr1 Hfr2].
  destruct (env_calloc (S (n_calloc s))) as [k|] eqn:Hk; last first.
  { rewrite /spawn_task /tm_malloc /tm_calloc /calloc /mbind /M_bind /= Hp /= Hk /=.
    eexists. split_and!; [done| |by apply delete_insert_id|done|done].
    apply delete_insert_id. by apply not_elem_of_dom. }
  destruct (ki_cur _ _ (kg_inv _ _ Hg)) as (c&tc&Hc&Htc).
  destruct (wp_inv _ _ _ (spawn_task_run s Q name a w arg p k c tc
    (ki_queues _ _ (kg_inv _ _ Hg)) Hc Htc (ki_imm _ _ (kg_inv _ _ Hg)) Hp Hk Hfr1 Hpr Hst))
    as (o&s'&Hrun&->&Hs&Hq).
  exists s'. split_and!; [done|done|]. by eapply spawned_good.
Qed.

(** [post_event] to a waiting task adds the event to its pending events and
    wakes it; to an id nobody has it returns -1 and changes nothing. *)
Theorem post_event_correct s Q (t0 ev : Z) :
  kgood s Q → (nrp s < 2 ^ 31 - 2)%Z →
  match first_tid s t0 (search_order s Q) with
  | None => post_event t0 ev s = Some ((-1)%Z, s)
  | Some p => ∀ t h, tasks s !! p = Some t → onrq t = 0%Z →
      is_head (dom (locks s)) h → is_run h = false → p ∈ Q h →
      ∃ s' t', post_event t0 ev s = Some (0%Z, s') ∧
        kgood s' (qcons p (N_rq (prio t)) (qrem p Q)) ∧
        tasks s' !! p = Some t' ∧ event t' = Z.lor (event t) ev ∧ onrq t' = 1%Z
  end.
Proof.
  intros Hg Hn. pose proof (kg_inv _ _ Hg) as Hk.
  pose proof (find_task_run s Q t0 (ki_queues _ _ Hk)) as Hf.
  rewrite /post_event. destruct (first_tid s t0 (search_order s Q)) as [p|];
    [|by rewrite (bind_run _ _ _ _ _ Hf)].
  intros t h Ht Hon Hh Hr Hp. destruct (ki_cur _ _ Hk) as (c&tc&Hc&Htc).
  rewrite (bind_run _ _ _ _ _ Hf).
  set (t1 := set_event (Z.lor (event t) ev) t).
  set (s1 := set_tasks (<[p := t1]> (tasks s)) s).
  assert (Hg1 : kgood s1 Q).
  { split; [|apply Hg]. eapply (moved_kinv p t t1); [by split; eauto|done|apply Hk|apply Hk]. }
  rewrite (bind_run _ _ _ tt s1); [|by rewrite /tsk_mod Ht].
  assert (∃ tc1, tasks s1 !! c = Some tc1) as [tc1 Htc1].
  { simpl. rewrite lookup_insert. case_decide; eauto. }
  destruct (wakeup_good s1 Q p t1 c tc1 h) as (m&Hrun&Hg2); [done..| |done|done|done|done|].
  { by rewrite /s1 /= lookup_insert_eq. }
  rewrite (bind_run _ _ _ _ _ Hrun). do 2 eexists.
  split_and!; [done|exact Hg2|by apply lookup_insert_eq|done|done].
Qed.

(** a free lock is taken at once and recorded with its owner; the owner's
    [unlock] gives back exactly the state before when nobody waits, and
    anybody else's [unlock] is refused and changes nothing. *)
Theorem lock_unlock_correct s Q c l k :
  kinv s Q → current s = Some c → locks s !! l = Some k → lock_ok k → lk_lock k = 0%Z →
  ∃ s1, lock_turn l s = Some (Some 0%Z, s1) ∧
    locks s1 !! l = Some (MkLock (Some c) 1 (lk_prio k)) ∧
    (Q (N_lock l) = [] → unlock l s1 = Some (0%Z, s)) ∧
    (∀ d, d ≠ c → unlock l (set_current (Some d) s1) = Some ((-1)%Z, set_current (Some d) s1)).
Proof.
  intros Hk Hc Hl Hok Hfree. eexists. split; [by apply lock_turn_free|].
  split; [by simpl; rewrite lookup_insert_eq|]. split.
  - intros HQ. pose proof (kinv_set_locks s Q l (MkLock (Some c) 1 (lk_prio k)) Hk
      (mk_is_Some _ _ Hl)) as Hk1.
    rewrite (unlock_nobody _ Q c l (MkLock (Some c) 1 (lk_prio k)) Hk1);
      [|done|by apply lookup_insert_eq|done..]. do 2 f_equal. simpl.
    rewrite insert_insert_eq insert_id; [by destruct s|]. rewrite Hl.
    destruct k as [o z pr], Hok as [[??]|[??]]; simpl in *; congruence.
  - intros d Hd. eapply unlock_other; [done|by simpl; rewrite lookup_insert_eq|].
    intros [= ->]. done.
Qed.

(** a task that finds the lock held never gets it: it is parked behind
    the other waiters of the lock, the owner keeps the lock, and another task runs. *)
Theorem lock_contention_blocks s Q c t l k h n :
  kinv s Q → os_sched_enabled s = 0%Z → current s = Some c → tasks s !! c = Some t →
  locks s !! l = Some k → lk_lock k ≠ 0%Z → is_head (dom (locks s)) h → c ∈ Q h →
  chosen s (qapp c (N_lock l) (qrem c Q)) = Some n →
  ∃ s', lock_turn l s = Some (None, s') ∧ locks s' = locks s ∧ current s' = Some n ∧
    nrp s' = nrp s.
Proof.
  intros. destruct (wp_inv _ _ _ (lock_turn_held s Q c t l k h n ltac:(done) ltac:(done)
    ltac:(done) ltac:(done) ltac:(done) ltac:(done) ltac:(done) ltac:(done) ltac:(done)))
    as (o&s'&?&->&?). eauto.
Qed.

(** C34: releasing a lock wakes its longest waiter, in front of the run queue
    of its priority, and leaves the lock free for it. *)
Theorem unlock_wakes_first s Q c tc l k p xs :
  kinv s Q → current s = Some c → tasks s !! c = Some tc →
  locks s !! l = Some k → lk_owner k = Some c → lk_lock k = 1%Z → (nrp s < 2 ^ 31 - 2)%Z →
  Q (N_lock l) = p :: xs → onrq <$> tasks s !! p = Some 0%Z →
  ∃ s' t, unlock l s = Some (0%Z, s') ∧ locks s' !! l = Some (MkLock None 0 (lk_prio k)) ∧
    tasks s !! p = Some t ∧ kinv s' (qcons p (N_rq (prio t)) (qrem p Q)).
Proof.
  intros Hk Hc Htc Hl Ho Hone Hn HQ Hon.
  destruct (wp_inv _ _ _ (unlock_owner s Q c tc l k Hk Hc Htc Hl Ho Hone Hn
    ltac:(rewrite HQ; by intros ? [= <-]))) as (r&s'&Hrun&->&Hlk&Hrest).
  rewrite HQ in Hrest. destruct Hrest as (t&?&?&_). exists s', t.
  by rewrite Hlk lookup_insert_eq.
Qed.

(** when [process_signal] runs, the handler registered for every signal
    that is both pending and enabled is called, and nothing stays pending. *)
Theorem pending_signals_handled s c t xs (n : Z) h :
  current s = Some c → tasks s !! c = Some t → sig_list s c xs → (1 ≤ n ≤ 32)%Z →
  Z.testbit (Z.land (signals t) (sig_pending t)) (n - 1) = true →
  handler_for (sigs s) n xs = Some h →
  ∃ s' t', process_signal c s = Some (tt, s') ∧ Ev_handler h n ∈ trace s' ∧
    tasks s' !! c = Some t' ∧ sig_pending t' = 0%Z.
Proof.
  intros Hc Ht Hxs Hn Hb Hh. do 2 eexists.
  split; [by apply process_signal_run|]. split_and!; [|by apply lookup_insert_eq|done].
  simpl. apply elem_of_app. right. by eapply delivered_pending.
Qed.

(** [process_signal] calls the handler of every signal number up to the
    highest pending one, whether that signal is pending or not. *)
Theorem process_signal_calls_lower s c t xs (n : Z) h :
  current s = Some c → tasks s !! c = Some t → sig_list s c xs →
  let res := u32 (Z.land (signals t) (sig_pending t)) in
  (0 < res)%Z → (1 ≤ n ≤ Z.log2 res + 1)%Z → handler_for (sigs s) n xs = Some h →
  ∃ s', process_signal c s = Some (tt, s') ∧ Ev_handler h n ∈ trace s'.
Proof.
  intros Hc Ht Hxs res Hres Hn Hh. eexists. split; [by apply process_signal_run|].
  simpl. apply elem_of_app. right. by eapply delivered_below.
Qed.

(** a task whose function returns is freed and then dereferenced by the
    call of [schedule] that follows: the exit path always ends in undefined
    behaviour. *)
Theorem clone_thread_exit_uses_freed s c :
  current s = Some c → os_sched_enabled s = 0%Z → clone_thread_exit s = None.
Proof.
  intros Hc Hos. rewrite /clone_thread_exit.
  rewrite (bind_run _ _ _ c s); [|by rewrite /cur /get_current /mbind /M_bind /= Hc].
  rewrite {1}/mbind /M_bind. destruct (task_exit c s) as [[[] s']|] eqn:He; [|done].
  destruct (task_exit_gone _ _ _ He) as (Hgone&Hcur&Hos'&_).
  rewrite /schedule /mbind /M_bind /= Hos' Hos /= /sig_pending_p /cur /get_current /mbind /M_bind /=.
  by rewrite Hcur Hc /= /tsk_ld Hgone.
Qed.

(** [task_exit] never frees the stack of the task: it clears the control
    block before it reads the pointer. *)
Theorem task_exit_leaks_stack s p :
  ∀ s', task_exit p s = Some (tt, s') → stacks s' = stacks s ∧ tasks s' !! p = None.
Proof. intros s' He. destruct (task_exit_gone _ _ _ He) as (?&?&?&?). done. Qed.

(** a task created with the attributes of [thread_attr_init] indexes the run
    queues out of range: its default priority is 100. *)
Theorem default_attr_out_of_range s name w arg p (k : positive) :
  env_calloc (n_calloc s) = Some p → env_calloc (S (n_calloc s)) = Some k →
  spawn_task name thread_attr_init (Some w) arg s = None.
Proof. intros Hp Hk. by apply (spawn_task_bad_prio s name thread_attr_init w arg p k). Qed.

(** when the cached next task is the current one the cache is not cleared, so
    a task that goes to sleep then keeps the processor although it is on the
    wait queue. *)
Theorem stale_cache_defeats_sleep s Q c t i :
  kgood s Q → os_sched_enabled s = 0%Z → current s = Some c → nxt_imm_task s = Some c →
  tasks s !! c = Some t → (0 ≤ i < MAX_PRIO)%Z → c ∈ Q (N_rq i) → onrq t ≠ 0%Z → nrp s ≠ 1%Z →
  ∃ s', (add_task_to_wait_Q c;; schedule) s = Some (tt, s') ∧ current s' = Some c ∧
    kgood s' (qapp c N_wq (qrem c Q)).
Proof.
  intros Hg Hos Hc Him Ht Hi Hin Hon Hn.
  destruct (sleep_good s Q c t i) as (m&Hrun&Hg1); [done..|].
  rewrite (bind_run _ _ _ _ _ Hrun). set (s1 := set_lst _ _) in *.
  set (Q1 := qapp c N_wq (qrem c Q)) in *.
  assert (chosen s1 Q1 = Some c ∧ sched_queues s1 Q1 = Q1) as [Hch Hsq].
  { rewrite /chosen /sched_queues. pose proof (ki_nrp _ _ (kg_inv _ _ Hg)).
    change (nrp s1) with (s32 (nrp s - 1)). change (nxt_imm_task s1) with (nxt_imm_task s).
    rewrite Him s32_small; [|lia]. destruct (Z.eqb_spec (nrp s - 1) 0); [lia|done]. }
  destruct (wp_unit_inv _ _ _ (schedule_good s1 Q1 c c Hg1 Hos Hc Hch)) as (s'&?&Hg2&Hs).
  rewrite Hsq in Hg2. exists s'. split_and!; [done|apply Hs|done].
Qed.
End Spec.

(** ** Runs of the library *)
Module ThreadWitness.
Import Run States SchedWitness.
#[local] Open Scope positive_scope.

(** A lock at address 9. *)
Definition with_lock : sys := after (create_lock 9) asleep.
(** [main] takes the lock and sleeps; the daemon runs. *)
Definition held : sys :=
  after (create_lock 9;; lock_turn 9;; add_current_task_wait_Q;; schedule) main_state.
(** The daemon creates a worker, then blocks on the lock: the worker runs. *)
Definition worker : sys := after (spawn_task "W" (MkAttr 4096 2 0) (Some 7) 0) held.
Definition blocked_on_lock : sys := after (lock_turn 9) worker.
(** The worker wakes [main], the owner, which runs again. *)
Definition owner_back : sys := after (post_event 1 1;; schedule) blocked_on_lock.
(** The daemon goes to sleep, is woken before it calls [schedule], keeps the
    processor, and [main] is ready too. *)
Definition stale : sys :=
  after (add_task_to_wait_Q 5;; wakeup_task 5;; schedule;; wakeup_task 1) asleep.
(** Handlers for the signals 1 and 3; 3 is raised. *)
Definition signalled : sys :=
  after (tm_signal 1 (Some 101);; tm_signal 3 (Some 103);; tm_raise 3) asleep.

(** the first task switch may not come before [main] first sleeps: [main]
    is never put on a run queue while [rq.nrp] counts the idle task instead,
    so when the daemon runs before and goes to sleep [schedule] takes a null
    task and dereferences it. *)
Theorem preempted_main_crashes :
  kinv main_state (queues_of main_state) ∧
  (∃ s, schedule main_state = Some (tt, s) ∧ current s = softirq_d s ∧
    (add_current_task_wait_Q;; schedule) s = None).
Proof.
  split; [exact main_kinv|]. eexists. split; [vm_compute; reflexivity|].
  split; vm_compute; reflexivity.
Qed.

(** a task that blocks on a lock stays in the count [rq.nrp] of ready tasks:
    if it was the only ready one, [schedule] finds no task and crashes. *)
Theorem lock_contention_crashes :
  kgood held (queues_of held) ∧ lk_lock <$> locks held !! 9 = Some 1%Z ∧ lock_turn 9 held = None.
Proof.
  split; [apply kgood_ok_kgood; decide_now|]. split; vm_compute; reflexivity.
Qed.

Lemma spawn_task_witness : ∃ s',
  spawn_task "W" (MkAttr 4096 2 0) (Some 7) 0 asleep = Some (Some 7, s') ∧
  kgood s' (qapp 7 (N_rq 2) (queues_of asleep)).
Proof.
  assert (H := spawn_task_correct asleep (queues_of asleep) "W" (MkAttr 4096 2 0) 7 0 asleep_good).
  assert (E1 : env_calloc (n_calloc asleep) = Some 7) by compute_now.
  assert (E2 : env_calloc (S (n_calloc asleep)) = Some 8) by compute_now.
  rewrite E1 E2 in H. destruct H as (s'&Hr&_&Hg).
  - clear; done.
  - clear; done.
  - compute_now.
  - compute_now.
  - intros p [= <-]. split; [decide_now|compute_now].
  - exists s'. exact (conj Hr Hg).
Defined.

Lemma post_event_witness : ∃ s', post_event 1 4 asleep = Some (0%Z, s').
Proof.
  assert (H := post_event_correct asleep (queues_of asleep) 1 4 asleep_good ltac:(compute_now)).
  assert (E : first_tid asleep 1 (search_order asleep (queues_of asleep)) = Some 1) by compute_now.
  rewrite E in H.
  destruct (H (the asleep 1) N_wq) as (s'&t'&Hr&_); [compute_now..|clear; done|compute_now|decide_now|].
  exists s'. exact Hr.
Defined.

Lemma lock_unlock_witness : ∃ s1, lock_turn 9 with_lock = Some (Some 0%Z, s1) ∧
  unlock 9 s1 = Some (0%Z, with_lock).
Proof.
  destruct (lock_unlock_correct with_lock (queues_of with_lock) 5 9 (MkLock None 0 0))
    as (s1&Hr&_&Hu&_).
  - apply kinv_ok_kinv. decide_now.
  - compute_now.
  - compute_now.
  - left. done.
  - done.
  - exists s1. split; [exact Hr|]. apply Hu. compute_now.
Defined.

Lemma lock_contention_witness : ∃ s', lock_turn 9 worker = Some (None, s') ∧ current s' = Some 7.
Proof.
  destruct (lock_contention_blocks worker (queues_of worker) 5 (the worker 5) 9
    (MkLock (Some 1) 1 0) (N_rq 1) 7) as (s'&Hr&_&Hc&_).
  - apply kinv_ok_kinv. decide_now.
  - compute_now.
  - compute_now.
  - compute_now.
  - compute_now.
  - clear; done.
  - clear; done.
  - decide_now.
  - compute_now.
  - exists s'. exact (conj Hr Hc).
Defined.

Lemma unlock_wakes_witness : ∃ s', unlock 9 owner_back = Some (0%Z, s').
Proof.
  destruct (unlock_wakes_first owner_back (queues_of owner_back) 1 (the owner_back 1) 9
    (MkLock (Some 1) 1 0) 5 []) as (s'&t&Hr&_).
  - apply kinv_ok_kinv. decide_now.
  - compute_now.
  - compute_now.
  - compute_now.
  - clear; done.
  - clear; done.
  - compute_now.
  - compute_now.
  - compute_now.
  - exists s'. exact Hr.
Defined.

Lemma signalled_list : sig_list signalled 5 [8; 7].
Proof.
  split; [decide_now|]. repeat constructor; (eexists; compute_now).
Qed.
Lemma pending_signals_witness :
  ∃ s', process_signal 5 signalled = Some (tt, s') ∧ Ev_handler 103 3 ∈ trace s'.
Proof.
  destruct (pending_signals_handled signalled 5 (the signalled 5) [8; 7] 3 103)
    as (s'&t'&Hr&Ht&_); [compute_now|compute_now|exact signalled_list|clear; done|compute_now..|].
  exists s'. exact (conj Hr Ht).
Defined.
Lemma process_signal_lower_witness :
  ∃ s', process_signal 5 signalled = Some (tt, s') ∧ Ev_handler 101 1 ∈ trace s'.
Proof.
  destruct (process_signal_calls_lower signalled 5 (the signalled 5) [8; 7] 1 101)
    as (s'&Hr&Ht); [compute_now|compute_now|exact signalled_list|compute_now| |compute_now|].
  - split; [clear; done|]. clear. vm_compute. discriminate.
  - exists s'. exact (conj Hr Ht).
Defined.

Lemma clone_thread_exit_witness : clone_thread_exit asleep = None.
Proof. apply (clone_thread_exit_uses_freed asleep 5); compute_now. Defined.

Lemma task_exit_leaks_witness : ∃ s', task_exit 1 asleep = Some (tt, s') ∧ stacks s' = stacks asleep.
Proof.
  assert (∃ s', task_exit 1 asleep = Some (tt, s')) as [s' Hs'].
  { eexists. vm_compute. reflexivity. }
  exists s'. split; [exact Hs'|]. exact (proj1 (task_exit_leaks_stack asleep 1 s' Hs')).
Defined.

Lemma default_attr_witness : spawn_task "W" thread_attr_init (Some 7) 0 asleep = None.
Proof. apply (default_attr_out_of_range asleep "W" 7 0 7 8); compute_now. Defined.

Lemma stale_cache_witness :
  ∃ s', (add_task_to_wait_Q 5;; schedule) stale = Some (tt, s') ∧ current s' = Some 5.
Proof.
  destruct (stale_cache_defeats_sleep stale (queues_of stale) 5 (the stale 5) 1)
    as (s'&Hr&Hc&_).
  - apply kgood_ok_kgood. decide_now.
  - compute_now.
  - compute_now.
  - compute_now.
  - compute_now.
  - clear; done.
  - decide_now.
  - compute_now.
  - compute_now.
  - exists s'. exact (conj Hr Hc).
Defined.
End ThreadWitness.
