(* ===== verification/SchedSafe.v ===== *)
(** * Whole runs of the scheduler

    The operations of sched.c, iostream.c, thread_lib.c and lock.c in any order and any
    number.  [safe]: the invariant of all of them; from a safe state every operation the
    guard [allowed] admits runs to completion and ends in a safe state. *)

From S2P Require Import Prelude ListHead Task Signal Sched SchedInv SchedProps ThreadLib SchedSpec ThreadSpec.
#[local] Open Scope Z_scope.

(** ** Where a task is *)
Definition on_run (Q : qmap) (p : positive) : Prop := ∃ i, 0 ≤ i < MAX_PRIO ∧ p ∈ Q (N_rq i).
Definition on_wait (LK : gset positive) (Q : qmap) (p : positive) : Prop :=
  ∃ h, is_head LK h ∧ is_run h = false ∧ p ∈ Q h.

(** [p] alone was moved to the queue [h]. *)
Definition puts (p : positive) (h : lnode) (Q Q' : qmap) : Prop :=
  ∀ h' q, q ∈ Q' h' ↔ q ≠ p ∧ q ∈ Q h' ∨ h' = h ∧ q = p.

Section places.
Implicit Types (Q : qmap) (p q : positive) (h : lnode) (LK : gset positive).

Lemma puts_qapp p h Q : puts p h Q (qapp p h (qrem p Q)).
Proof. intros h' q. by rewrite qapp_elem qrem_elem. Qed.
Lemma puts_qcons p h Q : puts p h Q (qcons p h (qrem p Q)).
Proof. intros h' q. by rewrite qcons_elem qrem_elem. Qed.
Lemma run_head i : 0 ≤ i < MAX_PRIO → is_run (N_rq i) = true.
Proof. intros Hi. by rewrite /= bool_decide_eq_true_2. Qed.
Lemma run_or_wait LK Q p h : is_head LK h → p ∈ Q h → on_run Q p ∨ on_wait LK Q p.
Proof.
  intros Hh Hp. destruct (is_run h) eqn:Hr; [left|by right; exists h].
  destruct h as [i| |fd|l|r]; try discriminate Hr. by exists i.
Qed.
Lemma run_not_wait l T LK Q p : queues l T LK Q → on_run Q p → on_wait LK Q p → False.
Proof.
  intros Hq (i&Hi&Hp) (h&Hh&Hr&Hph). rewrite -(q_uniq _ _ _ _ Hq (N_rq i) h p Hi Hh Hp Hph) in Hr.
  by rewrite run_head in Hr.
Qed.

Lemma puts_run_other p h Q Q' q : puts p h Q Q' → q ≠ p → on_run Q' q ↔ on_run Q q.
Proof. intros HQ Hne. rewrite /on_run. by setoid_rewrite (HQ _ q); naive_solver. Qed.
Lemma puts_wait_other LK p h Q Q' q : puts p h Q Q' → q ≠ p → on_wait LK Q' q ↔ on_wait LK Q q.
Proof. intros HQ Hne. rewrite /on_wait. by setoid_rewrite (HQ _ q); naive_solver. Qed.
Lemma puts_run p i Q Q' : puts p (N_rq i) Q Q' → 0 ≤ i < MAX_PRIO → on_run Q' p.
Proof. intros HQ Hi. exists i. split; [done|]. apply HQ. by right. Qed.
Lemma puts_wait LK p h Q Q' : puts p h Q Q' → is_head LK h → is_run h = false → on_wait LK Q' p.
Proof. intros HQ Hh Hr. exists h. split_and!; [done|done|]. apply HQ. by right. Qed.
Lemma puts_run_not_wait LK p i Q Q' : puts p (N_rq i) Q Q' → 0 ≤ i < MAX_PRIO → ¬ on_wait LK Q' p.
Proof.
  intros HQ Hi (h&_&Hr&[[? _]|[-> _]]%HQ); [done|]. by rewrite run_head in Hr.
Qed.
End places.

(** ** The invariant of runs *)

(** A task that counts as running is ready; one that does not waits on some queue; the idle
    task is on no queue. *)
Record placed (s : sys) (Q : qmap) : Prop := {
  pl_on p t : tasks s !! p = Some t → onrq t ≠ 0 → idle s ≠ Some p → on_run Q p;
  pl_off p t : tasks s !! p = Some t → onrq t = 0 → on_wait (dom (locks s)) Q p;
  pl_idle p : idle s = Some p → ¬ on_run Q p ∧ ¬ on_wait (dom (locks s)) Q p
}.
Record safe_with (s : sys) (Q : qmap) : Prop := {
  sf_good : kgood s Q;
  sf_placed : placed s Q;
  sf_os : os_sched_enabled s = 0;
  sf_size : Z.of_nat (size (tasks s)) < 2 ^ 31 - 2;
  sf_locks l k : locks s !! l = Some k → lock_ok k
}.
Definition safe (s : sys) : Prop := ∃ Q, safe_with s Q.

Section safe.
Context `{E : Env}.
Implicit Types (s : sys) (Q : qmap) (p q c : positive) (t : tsk) (h : lnode).

Lemma placed_wait s Q p t : kinv s Q → placed s Q → tasks s !! p = Some t → on_wait (dom (locks s)) Q p → onrq t = 0.
Proof.
  intros Hk Hp Ht Hw. destruct (decide (onrq t = 0)) as [|Hne]; [done|].
  destruct (decide (idle s = Some p)) as [Hi|Hi]; [by destruct (pl_idle _ _ Hp p Hi)|].
  destruct (run_not_wait _ _ _ _ p (ki_queues _ _ Hk)); [by eapply pl_on|done].
Qed.
(** Nothing but accounting. *)
Lemma placed_same s s' Q Q' :
  placed s Q → idle s' = idle s → dom (locks s') = dom (locks s) →
  (∀ p t', tasks s' !! p = Some t' → ∃ t, tasks s !! p = Some t ∧ onrq t' = onrq t) →
  (∀ p, on_run Q' p ↔ on_run Q p) → (∀ p, on_wait (dom (locks s)) Q' p ↔ on_wait (dom (locks s)) Q p) →
  placed s' Q'.
Proof.
  intros [P1 P2 P3] Hi HL HT HR HW. split; rewrite ?Hi ?HL.
  - intros p t' (t&Ht&Ho)%HT. rewrite Ho HR. by apply P1.
  - intros p t' (t&Ht&Ho)%HT. rewrite Ho HW. by apply P2.
  - intros p. rewrite HR HW. apply P3.
Qed.
(** One task moved. *)
Lemma placed_move s s' Q Q' p h t' :
  placed s Q → idle s' = idle s → dom (locks s') = dom (locks s) →
  tasks s' = <[p := t']> (tasks s) → puts p h Q Q' → is_head (dom (locks s)) h → idle s ≠ Some p →
  (onrq t' ≠ 0 ↔ is_run h = true) → placed s' Q'.
Proof.
  intros [P1 P2 P3] Hi HL HT HQ Hh Hne Ho. split; rewrite ?Hi ?HL ?HT.
  - intros q t. rewrite lookup_insert. case_decide as Hqp; [subst q; intros [= <-] Hon _|].
    + apply Ho in Hon. destruct h as [i| |fd|l|r]; try discriminate Hon. by eapply puts_run.
    + intros Ht Hon Hid. apply (puts_run_other _ _ _ _ _ HQ); [done|]. by eapply P1.
  - intros q t. rewrite lookup_insert. case_decide as Hqp; [subst q; intros [= <-] Hon|].
    + eapply puts_wait; [done|done|]. destruct (is_run h) eqn:Hr; [|done]. by apply Ho in Hon.
    + intros Ht Hon. apply (puts_wait_other _ _ _ _ _ _ HQ); [done|]. by eapply P2.
  - intros q Hq. assert (q ≠ p) by congruence. rewrite (puts_run_other _ _ _ _ _ HQ) //.
    rewrite (puts_wait_other _ _ _ _ _ _ HQ) //. by apply P3.
Qed.

Lemma safe_stay s s' Q p t t' :
  moved p t t' s s' → lst s' = lst s → nrp s' = nrp s → os_sched_enabled s' = os_sched_enabled s →
  onrq t' = onrq t → safe_with s Q → safe_with s' Q.
Proof.
  intros Hm Hl Hn Hos Hon [Hg Hp Ho Hz HLK]. pose proof (kg_inv _ _ Hg) as Hk. split.
  - split; [|by rewrite Hn; apply Hg]. eapply moved_kinv; [done|done| |by rewrite Hn; apply Hk].
    rewrite Hl. apply Hk.
  - eapply (placed_same s); [done|apply Hm|by rewrite (mv_locks _ _ _ _ _ Hm)| |done|done].
    intros q t1. rewrite (mv_tasks _ _ _ _ _ Hm) lookup_insert. case_decide; [|by eauto].
    subst q. intros [= <-]. exists t. split; [apply Hm|done].
  - by rewrite Hos.
  - by rewrite -(size_dom (D:=gset positive)) (moved_dom _ _ _ _ _ Hm) size_dom.
  - by rewrite (mv_locks _ _ _ _ _ Hm).
Qed.
Lemma safe_put s s' Q Q' p h t t' :
  moved p t t' s s' → os_sched_enabled s' = os_sched_enabled s → kgood s' Q' → puts p h Q Q' →
  is_head (dom (locks s)) h → idle s ≠ Some p → (onrq t' ≠ 0 ↔ is_run h = true) →
  safe_with s Q → safe_with s' Q'.
Proof.
  intros Hm Hos Hg' HQ Hh Hne Hon [Hg Hp Ho Hz HLK]. split.
  - done.
  - by eapply (placed_move s); [done|apply Hm|rewrite (mv_locks _ _ _ _ _ Hm)|apply Hm|..].
  - by rewrite Hos.
  - by rewrite -(size_dom (D:=gset positive)) (moved_dom _ _ _ _ _ Hm) size_dom.
  - by rewrite (mv_locks _ _ _ _ _ Hm).
Qed.
(** Nothing but accounting. *)
Lemma safe_carried s s' Q Q' :
  safe_with s Q → carried s s' → kgood s' Q' → (∀ p, on_run Q' p ↔ on_run Q p) →
  (∀ p, on_wait (dom (locks s)) Q' p ↔ on_wait (dom (locks s)) Q p) → safe_with s' Q'.
Proof.
  intros [Hg Hp Ho Hz HLK] Hc Hg' HR HW. split.
  - done.
  - eapply (placed_same s); [done|apply Hc|by rewrite (ca_locks _ _ Hc)| |done|done].
    intros p t' Ht'. destruct (tasks s !! p) as [t|] eqn:Ht.
    + destruct (ca_tasks _ _ Hc p t Ht) as (t2&Ht2&?&_). exists t. by simplify_eq.
    + apply elem_of_dom_2 in Ht'. rewrite (ca_dom _ _ Hc) in Ht'. by apply elem_of_dom in Ht' as [? Hx]; rewrite Ht in Hx.
  - by rewrite (ca_os _ _ Hc).
  - by rewrite -(size_dom (D:=gset positive)) (ca_dom _ _ Hc) size_dom.
  - by rewrite (ca_locks _ _ Hc).
Qed.
Lemma safe_keeps s s' Q : keeps s s' → safe_with s Q → safe_with s' Q.
Proof.
  intros Hk Hs. eapply safe_carried; [done|by apply keeps_carried| |done|done].
  split; [eapply keeps_kinv; [done|apply Hs]|]. rewrite (kp_nrp _ _ Hk). apply Hs.
Qed.
Lemma safe_trace s Q es : safe_with s Q → safe_with (set_trace es s) Q.
Proof. intros [[[] ?] [] ???]. split; [by split|by split|done..]. Qed.
Lemma safe_need s Q n : safe_with s Q → safe_with (set_sched_need n s) Q.
Proof. intros [[[] ?] [] ???]. split; [by split|by split|done..]. Qed.

(** The run count cannot overflow. *)
Lemma run_count_size s Q : kinv s Q → run_count Q ≤ Z.of_nat (size (tasks s)).
Proof.
  intros Hk. rewrite /run_count -(size_dom (D:=gset positive)). apply inj_le.
  assert (Hnd : NoDup (run_order Q 0 MAX_PRIO)).
  { apply NoDup_bind; [|intros j Hj%elem_of_seqZ|apply NoDup_seqZ].
    - intros i j p Hi%elem_of_seqZ Hj%elem_of_seqZ H1 H2.
      assert (N_rq i = N_rq j) as [=]; [|done].
      by eapply (q_uniq _ _ _ _ (ki_queues _ _ Hk)); [cbn; lia|cbn; lia|..].
    - eapply queues_NoDup; [apply Hk|cbn; lia]. }
  rewrite -(size_list_to_set (C:=gset positive) _ Hnd). apply subseteq_size. intros p Hp%elem_of_list_to_set.
  apply list_elem_of_bind in Hp as (j&Hp&Hj%elem_of_seqZ).
  eapply (q_task _ _ _ _ (ki_queues _ _ Hk) (N_rq j)); [cbn; lia|done].
Qed.
Lemma safe_nrp s Q : safe_with s Q → 0 ≤ nrp s < 2 ^ 31 - 2.
Proof.
  intros Hs. pose proof (sf_good _ _ Hs) as [Hk Hn]. pose proof (run_count_size _ _ Hk). pose proof (sf_size _ _ Hs).
  pose proof (ki_nrp _ _ Hk). lia.
Qed.
End safe.

(** ** Every operation keeps the invariant *)
Section operations.
Context `{E : Env}.
Implicit Types (s : sys) (Q : qmap) (p q c l : positive) (t : tsk) (h : lnode).

Lemma sched_queues_places s Q p :
  kinv s Q → (on_run (sched_queues s Q) p ↔ on_run Q p) ∧
  (on_wait (dom (locks s)) (sched_queues s Q) p ↔ on_wait (dom (locks s)) Q p).
Proof.
  intros Hk. rewrite /sched_queues. destruct (nrp s =? 0); [done|]. destruct (nxt_imm_task s); [done|].
  destruct (first_ready Q) as [q|] eqn:Hq; [|done]. destruct (tasks s !! q) as [t|] eqn:Ht; [|done].
  case_decide; [done|]. apply first_ready_queue in Hq. pose proof (puts_qapp q (N_rq (prio t)) Q) as HQ.
  pose proof (ki_prio _ _ Hk q t Ht) as Hpr. change (rotate q t Q) with (qapp q (N_rq (prio t)) (qrem q Q)).
  destruct (decide (p = q)) as [->|Hne].
  - split; split; intros Hx; [done|by eapply puts_run|by destruct (puts_run_not_wait _ _ _ _ _ HQ Hpr Hx)|].
    by destruct (run_not_wait _ _ _ _ q (ki_queues _ _ Hk) Hq Hx).
  - split; [by eapply puts_run_other|by eapply puts_wait_other].
Qed.
Lemma safe_schedule s Q : safe_with s Q → wp schedule (λ _, safe) s.
Proof.
  intros Hs. pose proof (sf_good _ _ Hs) as Hg. destruct (ki_cur _ _ (kg_inv _ _ Hg)) as (c&tc&Hc&Htc).
  destruct (kgood_chosen s Q Hg) as [n Hn].
  eapply wp_mono; [exact (schedule_good s Q c n Hg (sf_os _ _ Hs) Hc Hn)|]. intros [] s' [Hg' Hsc].
  exists (sched_queues s Q). eapply safe_carried; [done|apply Hsc|done|..]; intros p; apply sched_queues_places, Hg.
Qed.

(** Going to sleep; a task that is not ready is only reported. *)
Lemma safe_sleep s Q c :
  safe_with s Q → current s = Some c → idle s ≠ Some c → wp (add_task_to_wait_Q c) (λ _, safe) s.
Proof.
  intros Hs Hc Hi. pose proof (sf_good _ _ Hs) as Hg.
  destruct (ki_cur _ _ (kg_inv _ _ Hg)) as (?&tc&Hc'&Htc). rewrite Hc in Hc'. injection Hc' as <-.
  destruct (decide (onrq tc = 0)) as [Hon|Hon].
  { eapply wp_intro; [by eapply add_task_to_wait_Q_bug|]. exists Q. by apply safe_trace. }
  destruct (pl_on _ _ (sf_placed _ _ Hs) c tc Htc Hon Hi) as (i&Hri&Hci).
  destruct (sleep_good s Q c tc i) as (m&Hrun&Hg'); [done..|]. eapply wp_intro; [exact Hrun|].
  exists (qapp c N_wq (qrem c Q)).
  by eapply (safe_put s _ Q _ c N_wq); [apply (sleep_moved s c tc _ Htc)|done|done|apply puts_qapp|..].
Qed.
Lemma safe_park s Q c :
  safe_with s Q → current s = Some c → idle s ≠ Some c → wp (add_current_task_wait_Q;; schedule) (λ _, safe) s.
Proof.
  intros Hs Hc Hi. rewrite /add_current_task_wait_Q. apply wp_bind, wp_bind, wp_gets. rewrite (sf_os _ _ Hs).
  apply wp_bind. eapply wp_cur; [done|]. eapply wp_mono; [by eapply safe_sleep|].
  intros [] s' [Q' Hs']. by eapply safe_schedule.
Qed.

(** Waking: a ready task is only reported. *)
Definition rewoken (now : Z) (t : tsk) : tsk := set_stime (slong (now - stime t)) t.
Lemma wakeup_ready_run s Q p t :
  kinv s Q → tasks s !! p = Some t → onrq t ≠ 0 →
  wp (wakeup_task p) (λ _ s', moved p t (rewoken (env_times (n_times s)) t) s s' ∧ lst s' = lst s ∧ nrp s' = nrp s ∧
    os_sched_enabled s' = os_sched_enabled s) s.
Proof.
  intros Hk Ht Hon. destruct (ki_cur _ _ Hk) as (c&tc&Hc&Htc).
  rewrite /wakeup_task. sys_steps. rewrite (proj2 (truthy_true _) Hon). cbn [when negb]. sys_steps.
  eapply wp_note_sched_need; [done|exact Htc|exact Ht|]. apply wp_bind.
  eapply wp_note_imm_task; [exact Ht|by apply (ki_imm _ _ Hk)|]. sys_steps.
  split; [|done]. split; try done. intros q. apply imm_after_cases.
Qed.
Lemma safe_wakeup s Q p :
  safe_with s Q → is_Some (tasks s !! p) → idle s ≠ Some p → wp (wakeup_task p) (λ _, safe) s.
Proof.
  intros Hs [t Ht] Hi. pose proof (sf_good _ _ Hs) as Hg. pose proof (kg_inv _ _ Hg) as Hk.
  destruct (ki_cur _ _ Hk) as (c&tc&Hc&Htc). destruct (decide (onrq t = 0)) as [Hon|Hon].
  - destruct (pl_off _ _ (sf_placed _ _ Hs) p t Ht Hon) as (h&Hh&Hr&Hph).
    destruct (wakeup_good s Q p t c tc h) as (m&Hrun&Hg'); [done..|by apply (safe_nrp _ _ Hs)|].
    eapply wp_intro; [exact Hrun|]. exists (qcons p (N_rq (prio t)) (qrem p Q)).
    pose proof (ki_prio _ _ Hk p t Ht) as Hpr.
    eapply (safe_put s _ Q _ p (N_rq (prio t))); [by apply (wakeup_moved s p t tc)|done|done|apply puts_qcons|done|done| |done].
    by rewrite run_head.
  - eapply wp_mono; [by eapply wakeup_ready_run|]. intros [] s' (Hm&Hl&Hn&Ho). exists Q. by eapply safe_stay.
Qed.

(** Waiting for a descriptor. *)
Lemma io_park_run s Q c t i fd :
  kgood s Q → current s = Some c → tasks s !! c = Some t → 0 ≤ i < MAX_PRIO → c ∈ Q (N_rq i) → 0 ≤ fd < MAX_FDS →
  wp (onl (list_del (N_tsk c));; modify (λ s, set_nrp (s32 (nrp s - 1)) s);; add_task_to_IO_wait_Q (N_tsk c) fd;;
      modify (λ s, set_nwp (s32 (nwp s + 1)) s);; tsk_mod (set_onrq 0) c)
    (λ _ s', moved c t (set_onrq 0 t) s s' ∧ os_sched_enabled s' = os_sched_enabled s ∧
      kgood s' (qapp c (N_io fd) (qrem c Q))) s.
Proof.
  intros Hg Hc Ht Hi Hci Hfd. pose proof (kg_inv _ _ Hg) as Hk. pose proof (ki_queues _ _ Hk) as Hq.
  destruct (list_del_queues _ _ _ _ _ (N_rq i) Hq Hi Hci) as (m1&Hm1&Hq1).
  destruct (list_add_tail_queues _ _ _ _ c (N_io fd) Hq1) as (m2&Hm2&Hq2); [done|by eapply elem_of_dom_2|by eapply qrem_free|].
  apply wp_bind. eapply wp_onl; [exact Hm1|]. sys_steps. rewrite /add_task_to_IO_wait_Q. sys_steps.
  eapply wp_onl; [exact Hm2|]. sys_steps.
  pose proof (kgood_nrp_pos _ _ _ _ Hg Hi Hci) as Hpos. pose proof (ki_nrp _ _ Hk) as Hn.
  assert (Hs : s32 (nrp s - 1) = nrp s - 1) by (apply s32_small; lia).
  match goal with |- moved _ _ _ _ ?s1 ∧ _ => assert (Hm : moved c t (set_onrq 0 t) s s1) by (split; eauto) end.
  split; [done|]. split; [done|]. split.
  - eapply moved_kinv; [exact Hm|done|exact Hq2|]. cbn. lia.
  - cbn. rewrite run_count_qapp (run_count_qrem _ _ _ _ c (N_rq i) Hq Hi Hci) run_head //= Hs (kg_nrp _ _ Hg). lia.
Qed.
Lemma bind_assoc5 {A} (m1 m2 m3 m4 m5 : M sys unit) (k : M sys A) s :
  (m1;; m2;; m3;; m4;; m5;; k) s = ((m1;; m2;; m3;; m4;; m5);; k) s.
Proof.
  rewrite /mbind /M_bind. destruct (m1 s) as [[? s1]|]; [|done]. destruct (m2 s1) as [[? s2]|]; [|done].
  destruct (m3 s2) as [[? s3]|]; [|done]. destruct (m4 s3) as [[? s4]|]; [|done]. by destruct (m5 s4) as [[? s5]|].
Qed.
Lemma safe_wait_on_fd s Q c t fd :
  safe_with s Q → current s = Some c → idle s ≠ Some c → tasks s !! c = Some t → onrq t ≠ 0 → 0 ≤ fd < MAX_FDS →
  wp (wait_on_fd fd) (λ _, safe) s.
Proof.
  intros Hs Hc Hi Ht Hon Hfd. pose proof (sf_good _ _ Hs) as Hg.
  destruct (pl_on _ _ (sf_placed _ _ Hs) c t Ht Hon Hi) as (i&Hri&Hci).
  rewrite /wait_on_fd. apply wp_bind. eapply wp_cur; [done|]. rewrite /wp bind_assoc5. apply wp_bind.
  eapply wp_mono; [by eapply io_park_run|]. intros [] s1 (Hm&Ho&Hg1).
  assert (Hs1 : safe_with s1 (qapp c (N_io fd) (qrem c Q))).
  { by eapply (safe_put s _ Q _ c (N_io fd)); [exact Hm|done|done|apply puts_qapp|..]. }
  apply wp_bind. eapply wp_mono; [by eapply safe_schedule|]. intros [] s2 Hs2. by apply wp_ret.
Qed.
End operations.

Section operations2.
Context `{E : Env}.
Implicit Types (s : sys) (Q : qmap) (p q c l : positive) (t : tsk) (h : lnode) (ps : list positive).

(** Waking all waiters of a descriptor. *)
Lemma wake_all_places (T : gmap positive tsk) LK ps Q q :
  NoDup ps → (∀ p, p ∈ ps → ∃ t, T !! p = Some t ∧ 0 ≤ prio t < MAX_PRIO) →
  (on_run (wake_all T ps Q) q ↔ on_run Q q ∨ q ∈ ps) ∧
  (on_wait LK (wake_all T ps Q) q ↔ on_wait LK Q q ∧ q ∉ ps).
Proof.
  intros Hnd. revert Q. induction Hnd as [|p ps Hp Hnd IH]; intros Q HT.
  { cbn. pose proof (not_elem_of_nil q). split; [rewrite elem_of_nil; tauto|tauto]. }
  destruct (HT p ltac:(left)) as (t&Ht&Hpr). destruct (IH (qcons p (N_rq (prio t)) (qrem p Q))) as [IH1 IH2].
  { intros r Hr. apply HT. by right. }
  change (wake_all T (p :: ps) Q) with (wake_all T ps (wake1 T Q p)).
  assert (wake1 T Q p = qcons p (N_rq (prio t)) (qrem p Q)) as -> by by rewrite /wake1 Ht.
  rewrite IH1 IH2 elem_of_cons.
  pose proof (puts_qcons p (N_rq (prio t)) Q) as HQ. destruct (decide (q = p)) as [->|Hne].
  - split; split.
    + intros _. by right; left.
    + intros _. left. by eapply puts_run.
    + intros [Hw _]. by destruct (puts_run_not_wait _ _ _ _ _ HQ Hpr Hw).
    + intros [_ Hn]. by destruct Hn; left.
  - rewrite (puts_run_other _ _ _ _ _ HQ) // (puts_wait_other _ _ _ _ _ _ HQ) //. tauto.
Qed.
Lemma wake_io_room s Q fd :
  safe_with s Q → 0 ≤ fd < MAX_FDS → nrp s + Z.of_nat (length (Q (N_io fd))) < 2 ^ 31 - 1.
Proof.
  intros Hs Hfd. destruct (sf_good _ _ Hs) as [Hk Hn]. pose proof (sf_size _ _ Hs) as Hz.
  rewrite Hn /run_count. pose proof (ki_queues _ _ Hk) as Hq.
  set (R := run_order Q 0 MAX_PRIO). assert (HR : ∀ p, p ∈ R → on_run Q p).
  { intros p Hp. apply in_order_elem in Hp as (j&Hj&Hp). by exists j. }
  assert (HW : ∀ p, p ∈ Q (N_io fd) → on_wait (dom (locks s)) Q p) by (intros p Hp; by exists (N_io fd)).
  assert (Hnd : NoDup (R ++ Q (N_io fd))).
  { apply NoDup_app. split; [|split; [|by eapply (queues_NoDup _ _ _ _ (N_io fd))]].
    - apply NoDup_bind; [|intros j Hj%elem_of_seqZ; eapply queues_NoDup; [done|cbn; lia]|apply NoDup_seqZ].
      intros i j p Hi%elem_of_seqZ Hj%elem_of_seqZ H1 H2. assert (N_rq i = N_rq j) as [=]; [|done].
      by eapply (q_uniq _ _ _ _ Hq); [cbn; lia|cbn; lia|..].
    - intros p Hp%HR Hw%HW. by eapply run_not_wait. }
  assert (Hle : (length (R ++ Q (N_io fd)) ≤ size (dom (tasks s)))%nat).
  { rewrite -(size_list_to_set (C:=gset positive) _ Hnd). apply subseteq_size.
    intros p [Hp|Hp]%elem_of_list_to_set%elem_of_app.
    - apply HR in Hp as (j&Hj&Hp). by eapply (q_task _ _ _ _ Hq (N_rq j)).
    - by eapply (q_task _ _ _ _ Hq (N_io fd)). }
  rewrite length_app (size_dom (tasks s)) in Hle. rewrite -/R. lia.
Qed.
Lemma safe_wake_io s Q fd : safe_with s Q → 0 ≤ fd < MAX_FDS → wp (wake_io_task fd) (λ _, safe) s.
Proof.
  intros Hs Hfd. pose proof (sf_good _ _ Hs) as Hg. pose proof (kg_inv _ _ Hg) as Hk. pose proof (ki_queues _ _ Hk) as Hq.
  set (ps := Q (N_io fd)). pose proof (sf_placed _ _ Hs) as Hpl.
  assert (HW : ∀ p, p ∈ ps → on_wait (dom (locks s)) Q p) by (intros p Hp; by exists (N_io fd)).
  assert (HT : ∀ p, p ∈ ps → ∃ t, tasks s !! p = Some t ∧ onrq t = 0).
  { intros p Hp. destruct (tasks s !! p) as [t|] eqn:Ht.
    - exists t. split; [done|]. apply (placed_wait s Q p t Hk Hpl Ht). by apply HW.
    - assert (p ∈ dom (tasks s)) as [t Ht']%elem_of_dom; [by eapply (q_task _ _ _ _ Hq (N_io fd))|congruence]. }
  assert (Hnd : NoDup ps) by by eapply (queues_NoDup _ _ _ _ (N_io fd)).
  eapply wp_mono; [apply (wake_io_task_run s Q fd Hg Hfd)|].
  { intros p (t&->&Ho)%HT. cbn. by rewrite Ho. }
  { by apply wake_io_room. }
  intros [] s' [Hg' [Hc _ HL Hi Hos Hoth Hwok]]. fold ps in Hg', Hwok, Hoth.
  assert (HP : ∀ q, (on_run (wake_all (tasks s) ps Q) q ↔ on_run Q q ∨ q ∈ ps) ∧
    (on_wait (dom (locks s)) (wake_all (tasks s) ps Q) q ↔ on_wait (dom (locks s)) Q q ∧ q ∉ ps)).
  { intros q. apply wake_all_places; [done|]. intros p (t&Ht&_)%HT. exists t. split; [done|]. by eapply (ki_prio _ _ Hk). }
  assert (Hdom : dom (tasks s') = dom (tasks s)).
  { apply set_eq. intros p. rewrite !elem_of_dom. destruct (decide (p ∈ ps)) as [Hp|Hp]; [|by rewrite Hoth].
    destruct (Hwok p Hp) as (t&t'&->&->&_). split; by eexists. }
  exists (wake_all (tasks s) ps Q). split.
  - done.
  - split; rewrite ?Hi ?HL.
    + intros p t Ht Hon Hid. apply HP. destruct (decide (p ∈ ps)) as [Hp|Hp]; [by right|left].
      rewrite Hoth // in Ht. by eapply (pl_on _ _ Hpl).
    + intros p t Ht Hon. apply HP. destruct (decide (p ∈ ps)) as [Hp|Hp].
      * destruct (Hwok p Hp) as (t1&t'&_&Ht'&Ho'&_). simplify_eq. lia.
      * rewrite Hoth // in Ht. split; [by eapply (pl_off _ _ Hpl)|done].
    + intros p Hp. destruct (pl_idle _ _ Hpl p Hp) as [H1 H2]. split; intros Hx; apply HP in Hx; [|by apply H2, Hx].
      destruct Hx as [Hx|Hx]; [done|]. by apply H2, HW.
  - by rewrite Hos (sf_os _ _ Hs).
  - rewrite -(size_dom (D:=gset positive)) Hdom size_dom. apply Hs.
  - rewrite HL. apply Hs.
Qed.

(** The accounting of the tick, then a switch if one is due. *)
Lemma safe_tick s Q :
  safe_with s Q → wp (update_process_time;; n ← gets sched_need; when (truthy n) schedule) (λ _, safe) s.
Proof.
  intros Hs. destruct (ki_cur _ _ (kg_inv _ _ (sf_good _ _ Hs))) as (c&tc&Hc&Htc).
  apply wp_bind. rewrite /update_process_time /account_task_time_stats. sys_steps.
  assert (Hq : ∀ s', keeps s s' ∨ keeps (set_sched_need 1 s) s' →
    wp (n ← gets sched_need; when (truthy n) schedule) (λ _, safe) s').
  { intros s' Hk. assert (Hs' : safe_with s' Q).
    { destruct Hk as [Hk|Hk]; [by eapply safe_keeps|]. eapply safe_keeps; [done|]. by apply safe_need. }
    apply wp_bind, wp_gets, wp_when; intros _; [by eapply safe_schedule|by exists Q]. }
  apply wp_when; intros _; [sys_steps; apply Hq; right|apply Hq; left]; keeps_tac Htc.
Qed.

(** A task that is found is on a queue, so it is not the idle task. *)
Lemma found_on_queue s Q p :
  safe_with s Q → p ∈ search_order s Q → is_Some (tasks s !! p) ∧ idle s ≠ Some p.
Proof.
  intros Hs Hp. pose proof (ki_queues _ _ (kg_inv _ _ (sf_good _ _ Hs))) as Hq.
  destruct (search_order_head _ _ _ Hp) as (h&Hh&Hph). split; [apply elem_of_dom; by eapply q_task|].
  intros Hi. destruct (pl_idle _ _ (sf_placed _ _ Hs) p Hi) as [H1 H2].
  by destruct (run_or_wait _ _ _ _ Hh Hph).
Qed.
Lemma safe_event s Q p t v :
  safe_with s Q → tasks s !! p = Some t → safe_with (set_tasks (<[p := set_event v t]> (tasks s)) s) Q.
Proof. intros Hs Ht. eapply (safe_stay s _ Q p t (set_event v t)); [by split; eauto|done..]. Qed.
Lemma safe_post_event s Q (t0 ev : Z) : safe_with s Q → wp (post_event t0 ev) (λ _, safe) s.
Proof.
  intros Hs. rewrite /post_event /wp (bind_run _ _ _ _ _ (find_task_run s Q t0 (ki_queues _ _ (kg_inv _ _ (sf_good _ _ Hs))))).
  destruct (first_tid s t0 (search_order s Q)) as [p|] eqn:Hf; [|by exists Q].
  apply first_tid_Some in Hf as [Hp _]. destruct (found_on_queue _ _ _ Hs Hp) as [[t Ht] Hi].
  apply wp_bind. eapply wp_tsk_mod; [exact Ht|]. apply wp_bind. eapply wp_mono.
  { eapply safe_wakeup; [by apply (safe_event s Q p t)|by rewrite /= lookup_insert_eq|exact Hi]. }
  intros [] s' Hs'. by apply wp_ret.
Qed.
Lemma safe_wait_for_event s Q c ev :
  safe_with s Q → current s = Some c → idle s ≠ Some c → wp (wait_for_event_turn ev) (λ _, safe) s.
Proof.
  intros Hs Hc Hi. destruct (ki_cur _ _ (kg_inv _ _ (sf_good _ _ Hs))) as (?&t&Hc'&Ht).
  rewrite Hc in Hc'. injection Hc' as <-. rewrite /wait_for_event_turn. sys_steps. case_match.
  - rewrite /wp bind_assoc2. apply wp_bind. eapply wp_mono; [by eapply safe_park|]. intros [] s' Hs'. by apply wp_ret.
  - sys_steps. exists Q. by apply (safe_event s Q c t).
Qed.

(** Locks. *)
Lemma safe_set_locks s Q l k k' :
  safe_with s Q → locks s !! l = Some k → lock_ok k' → safe_with (set_locks (<[l := k']> (locks s)) s) Q.
Proof.
  intros Hs Hl Hok. destruct Hs as [[Hk Hn] Hp Ho Hz HL].
  assert (Hd : dom (<[l := k']> (locks s)) = dom (locks s)).
  { apply elem_of_dom_2 in Hl. rewrite dom_insert_L. set_solver. }
  split; [split; [by apply kinv_set_locks|done]| |done|done|].
  - eapply (placed_same s); [done|done|done|intros p t; eauto|done|done].
  - intros l' k1. cbn. rewrite lookup_insert. case_decide; [by intros [= <-]|apply HL].
Qed.
Lemma safe_lock s Q l k :
  safe_with s Q → locks s !! l = Some k → lk_lock k = 0 → wp (lock_turn l) (λ _, safe) s.
Proof.
  intros Hs Hl Hfree. destruct (ki_cur _ _ (kg_inv _ _ (sf_good _ _ Hs))) as (c&t&Hc&Ht).
  eapply wp_intro; [by eapply lock_turn_free|]. exists Q. eapply safe_set_locks; [done|done|]. right. by split; [|eexists].
Qed.
Lemma safe_unlock s Q l k : safe_with s Q → locks s !! l = Some k → wp (unlock l) (λ _, safe) s.
Proof.
  intros Hs Hl. destruct (ki_cur _ _ (kg_inv _ _ (sf_good _ _ Hs))) as (c&t&Hc&Ht).
  destruct (decide (lk_owner k = Some c)) as [Ho|Ho]; last first.
  { eapply wp_intro; [by eapply unlock_other|]. by exists Q. }
  destruct (sf_locks _ _ Hs l k Hl) as [[_ Hx]|[Hone _]]; [congruence|].
  destruct (unlock_run s Q c l k) as (Hk1&Hh&Hrun); [apply Hs|done..|]. rewrite /wp Hrun.
  assert (Hs1 : safe_with (set_locks (<[l := MkLock None 0 (lk_prio k)]> (locks s)) s) Q).
  { eapply safe_set_locks; [done|done|by left]. }
  destruct (Q (N_lock l)) as [|p ps] eqn:HQ; [by exists Q|].
  apply wp_bind. eapply wp_mono; [eapply safe_wakeup; [exact Hs1|..]|intros [] s' Hs'; by apply wp_ret].
  - apply elem_of_dom. eapply (q_task _ _ _ _ (ki_queues _ _ Hk1)); [exact Hh|]. rewrite HQ. left.
  - intros Hi. destruct (pl_idle _ _ (sf_placed _ _ Hs1) p Hi) as [_ Hw]. apply Hw.
    exists (N_lock l). split; [exact Hh|]. split; [done|]. rewrite HQ. left.
Qed.
End operations2.

Section operations3.
Context `{E : Env}.
Implicit Types (s : sys) (Q : qmap) (p q c l k w : positive) (t : tsk).

(** Raising a signal; a signal of the host arrives. *)
Lemma safe_pend s Q c t v :
  safe_with s Q → tasks s !! c = Some t → safe_with (set_tasks (<[c := set_sig_pending v t]> (tasks s)) s) Q.
Proof. intros Hs Ht. eapply (safe_stay s _ Q c t (set_sig_pending v t)); [by split; eauto|done..]. Qed.
Lemma safe_blocked s Q b : safe_with s Q → safe_with (set_blocked b s) Q.
Proof. intros [[[] ?] [] ???]. split; [by split|by split|done..]. Qed.
Lemma shl1_run (n : Z) s : 1 ≤ n ≤ 32 → shl1 (n - 1) s = Some (s32 (Z.shiftl 1 (n - 1)), s).
Proof. intros Hn. rewrite /shl1 decide_True //. lia. Qed.
Lemma safe_raise s Q (n : Z) : safe_with s Q → 1 ≤ n ≤ 32 → wp (tm_raise n) (λ _, safe) s.
Proof.
  intros Hs Hn. destruct (ki_cur _ _ (kg_inv _ _ (sf_good _ _ Hs))) as (c&t&Hc&Ht).
  rewrite /tm_raise /wp (bind_run _ _ _ _ _ (shl1_run n s Hn)).
  apply wp_bind. rewrite /set_current_signal_pend_mask. sys_steps. exists Q. by apply (safe_pend s Q c t).
Qed.
Lemma safe_signal s Q (n : Z) : safe_with s Q → 1 ≤ n ≤ 32 → wp (generic_sig_handler n) (λ _, safe) s.
Proof.
  intros Hs Hn. destruct (ki_cur _ _ (kg_inv _ _ (sf_good _ _ Hs))) as (c&t&Hc&Ht).
  rewrite /generic_sig_handler /wp (bind_run _ _ _ _ _ (shl1_run n s Hn)) /set_current_signal_pend_mask /signals_block /signals_unblock.
  apply wp_bind, wp_modify. sys_steps. exists Q. apply safe_blocked. by apply (safe_pend _ Q c t), Ht; apply safe_blocked.
Qed.

(** Creating a task. *)
Lemma kgood_ext s Q Q' : (∀ h, is_head (dom (locks s)) h → Q h = Q' h) → kgood s Q → kgood s Q'.
Proof.
  intros HQ [[Hq ????????] Hn]. split; [split; [by eapply queues_ext|done..]|].
  rewrite Hn. apply run_count_ext. intros j Hj. by apply HQ.
Qed.
(** Memory the allocator may hand out for a task. *)
Definition unused s p : Prop := p ∉ dom (tasks s) ∧ lst s !! N_tsk p = None ∧ slst s !! S_tsk p = None.
Lemma spawn_fails s name a (w : option positive) arg :
  (∀ p, env_calloc (n_calloc s) = Some p → unused s p) →
  env_calloc (n_calloc s) = None ∨ env_calloc (S (n_calloc s)) = None →
  wp (spawn_task name a w arg) (λ o s', o = None ∧ keeps s s') s.
Proof.
  intros Hfr Hno. rewrite /spawn_task /tm_calloc /calloc. sys_steps. cbn [n_calloc set_alloc_size].
  destruct (env_calloc (n_calloc s)) as [p|] eqn:Hp; last first.
  { sys_steps. split; [done|]. split; [done..|]. intros p. cbn. by destruct (tasks s !! p); constructor. }
  destruct (Hfr p eq_refl) as (F1&F2&F3). destruct Hno as [|Hno]; [done|].
  sys_steps. eapply wp_onl; [done|]. sys_steps. rewrite /onsl. apply wp_zoom, wp_modify. rewrite /alloc_tid. sys_steps.
  rewrite /tm_malloc /tm_calloc /calloc. sys_steps. cbn [n_calloc set_alloc_size set_tasks set_taskid set_slst set_lst set_n_calloc].
  rewrite Hno. sys_steps. rewrite /free_tsk. sys_steps. split; [done|]. split; try done; cbn.
  - by apply delete_insert_id.
  - by apply delete_insert_id.
  - intros q. rewrite delete_insert_id; [|by apply not_elem_of_dom]. by destruct (tasks s !! q); constructor.
Qed.
Lemma safe_spawn s Q name a w arg :
  safe_with s Q → 0 ≤ attr_prio a < MAX_PRIO → 8 ≤ attr_stksze a →
  Z.of_nat (size (tasks s)) < 2 ^ 31 - 3 → task_count s < 2 ^ 32 - 1 →
  (∀ p, env_calloc (n_calloc s) = Some p → unused s p) →
  wp (spawn_task name a (Some w) arg) (λ _, safe) s.
Proof.
  intros Hs Hpr Hst Hz Hct Hfr. pose proof (sf_good _ _ Hs) as Hg. pose proof (kg_inv _ _ Hg) as Hk.
  destruct (ki_cur _ _ Hk) as (c&tc&Hc&Htc).
  destruct (env_calloc (n_calloc s)) as [p|] eqn:Hp; [destruct (env_calloc (S (n_calloc s))) as [k|] eqn:Hk1|].
  2,3: (eapply wp_mono; [apply spawn_fails; [by rewrite Hp|by auto]|];
    intros o s' [_ Hk']; exists Q; by eapply safe_keeps).
  destruct (Hfr p eq_refl) as (F1&_).
  eapply wp_mono; [by apply (spawn_task_run s Q name a w arg p k c tc (ki_queues _ _ Hk) Hc Htc (ki_imm _ _ Hk))|].
  intros o s' (_&Hsp&Hq'). set (h := N_rq (attr_prio a)) in *.
  assert (HpQ : ∀ h', is_head (dom (locks s)) h' → p ∉ Q h').
  { intros h' Hh' Hin. by apply F1, (q_task _ _ _ _ (ki_queues _ _ Hk) h'). }
  assert (Hg' : kgood s' (qapp p h Q)) by (eapply spawned_good; try done; pose proof (safe_nrp _ _ Hs); lia).
  exists (qapp p h (qrem p Q)). split.
  - eapply kgood_ext; [|done]. rewrite (sp_locks _ _ _ _ _ _ _ _ Hsp). intros h' Hh'.
    rewrite /qapp /qrem. rewrite filter_ne_id //. by apply HpQ.
  - eapply (placed_move s s' Q _ p h); [apply Hs|apply Hsp|by rewrite (sp_locks _ _ _ _ _ _ _ _ Hsp)|apply Hsp|apply puts_qapp|done| |].
    + intros Hi. destruct (ki_idle _ _ Hk) as (i&ti&Hi'&Hti). rewrite Hi in Hi'. injection Hi' as <-.
      apply F1. by eapply elem_of_dom_2.
    + rewrite run_head //.
  - rewrite (sp_os _ _ _ _ _ _ _ _ Hsp). apply Hs.
  - rewrite (sp_tasks _ _ _ _ _ _ _ _ Hsp) map_size_insert_None; [lia|]. by apply not_elem_of_dom.
  - rewrite (sp_locks _ _ _ _ _ _ _ _ Hsp). apply Hs.
Qed.
End operations3.

(** ** Runs *)

(** What a task, a signal or the tick may ask for. *)
Inductive op :=
  | Op_yield
  | Op_sleep
  | Op_wait_event (events : Z)
  | Op_wait_fd (fd : Z)
  | Op_tick
  | Op_io (fd : Z)
  | Op_post (t0 ev : Z)
  | Op_wake (p : positive)
  | Op_lock (l : positive)
  | Op_unlock (l : positive)
  | Op_raise (n : Z)
  | Op_signal (n : Z)
  | Op_spawn (name : string) (a : attr) (w : positive) (arg : Z).

Section runs.
Context `{E : Env}.
Implicit Types (s : sys) (Q : qmap) (p c l : positive) (t : tsk) (o : op).

Definition run_op o : M sys unit :=
  match o with
  | Op_yield => cpu_yield
  | Op_sleep => add_current_task_wait_Q;; schedule
  | Op_wait_event ev => wait_for_event_turn ev;; mret tt
  | Op_wait_fd fd => wait_on_fd fd;; mret tt
  | Op_tick => update_process_time;; n ← gets sched_need; when (truthy n) schedule
  | Op_io fd => wake_io_task fd
  | Op_post t0 ev => post_event t0 ev;; mret tt
  | Op_wake p => wakeup_task p
  | Op_lock l => lock_turn l;; mret tt
  | Op_unlock l => unlock l;; mret tt
  | Op_raise n => tm_raise n;; mret tt
  | Op_signal n => generic_sig_handler n
  | Op_spawn name a w arg => spawn_task name a (Some w) arg;; mret tt
  end.

(** When it may: the idle task does not wait, [wait_on_fd] is for a task that counts as
    ready, a descriptor, a priority and a signal are in range, a lock is free (a task that
    finds it held stays in [rq.nrp], see [lock_contention_crashes]), and the allocator hands
    out unused memory. *)
Definition allowed o s : Prop :=
  match o with
  | Op_yield | Op_tick | Op_post _ _ => True
  | Op_sleep | Op_wait_event _ => idle s ≠ current s
  | Op_wait_fd fd => 0 ≤ fd < MAX_FDS ∧ idle s ≠ current s ∧
      ∀ c t, current s = Some c → tasks s !! c = Some t → onrq t ≠ 0
  | Op_io fd => 0 ≤ fd < MAX_FDS
  | Op_wake p => is_Some (tasks s !! p) ∧ idle s ≠ Some p
  | Op_lock l => ∃ k, locks s !! l = Some k ∧ lk_lock k = 0
  | Op_unlock l => is_Some (locks s !! l)
  | Op_raise n | Op_signal n => 1 ≤ n ≤ 32
  | Op_spawn _ a _ _ => 0 ≤ attr_prio a < MAX_PRIO ∧ 8 ≤ attr_stksze a ∧
      Z.of_nat (size (tasks s)) < 2 ^ 31 - 3 ∧ task_count s < 2 ^ 32 - 1 ∧
      ∀ p, env_calloc (n_calloc s) = Some p → unused s p
  end.

Inductive step s s' : Prop :=
  | step_op o : allowed o s → run_op o s = Some (tt, s') → step s s'.

Lemma wp_drop {A} (m : M sys A) s : wp m (λ _, safe) s → wp (m;; mret tt) (λ _, safe) s.
Proof. intros Hm. apply wp_bind. eapply wp_mono; [exact Hm|]. intros a s' Hs. by apply wp_ret. Qed.
Lemma run_op_safe o s : safe s → allowed o s → wp (run_op o) (λ _, safe) s.
Proof.
  intros [Q Hs] Ha. destruct (ki_cur _ _ (kg_inv _ _ (sf_good _ _ Hs))) as (c&tc&Hc&Htc).
  destruct o; cbn [run_op allowed] in Ha |- *; try apply wp_drop.
  - by eapply safe_schedule.
  - eapply safe_park; [done|done|by rewrite -Hc].
  - eapply safe_wait_for_event; [done|done|by rewrite -Hc].
  - destruct Ha as (?&?&Hon). eapply safe_wait_on_fd; [done|done|by rewrite -Hc|done|by eapply Hon|done].
  - by eapply safe_tick.
  - by eapply safe_wake_io.
  - by eapply safe_post_event.
  - destruct Ha. by eapply safe_wakeup.
  - destruct Ha as (k&?&?). by eapply safe_lock.
  - destruct Ha as [k ?]. by eapply safe_unlock.
  - by eapply safe_raise.
  - by eapply safe_signal.
  - destruct Ha as (?&?&?&?&?). by eapply safe_spawn.
Qed.
Lemma step_safe s s' : safe s → step s s' → safe s'.
Proof.
  intros Hs [o Ha Hr]. pose proof (run_op_safe o s Hs Ha) as Hw. by rewrite /wp Hr in Hw.
Qed.
Lemma reach_safe s s' : rtc step s s' → safe s → safe s'.
Proof. induction 1 as [|s1 s2 s3 H12 _ IH]; [done|]. intros Hs. by eapply IH, step_safe. Qed.

(** C6: however many operations were run, in whatever order, the next one that is
    allowed runs to completion: no access to memory that is not there, no
    division by zero, no task without a saved context. *)
Theorem scheduler_never_crashes s s' :
  safe s → rtc step s s' → ∀ o, allowed o s' → ∃ s2, run_op o s' = Some (tt, s2) ∧ step s' s2.
Proof.
  intros Hs Hr o Ha. pose proof (run_op_safe o s' (reach_safe _ _ Hr Hs) Ha) as Hw.
  destruct (wp_unit_inv _ _ _ Hw) as (s2&Hrun&_). exists s2. split; [done|]. by econstructor.
Qed.

(** C7: in every state that operations reach which their guards admit ([allowed]: no lock is asked for while it is held,
    which is where the code miscounts), the queues are well-formed disjoint rings of allocated
    tasks; every task but the idle task is on exactly one queue, a run queue if
    it counts as running and a wait queue otherwise; the idle task is on none; the number of
    ready tasks is exact, and the current task exists. *)
Theorem every_task_has_its_queue s s' :
  safe s → rtc step s s' →
  ∃ Q, sys_queues s' Q ∧ nrp s' = run_count Q ∧
    (∃ c t, current s' = Some c ∧ tasks s' !! c = Some t) ∧
    (∀ p t, tasks s' !! p = Some t → idle s' ≠ Some p →
       ∃ h, is_head (dom (locks s')) h ∧ p ∈ Q h ∧ (is_run h = true ↔ onrq t ≠ 0) ∧
         ∀ h', is_head (dom (locks s')) h' → p ∈ Q h' → h' = h) ∧
    (∀ p h, idle s' = Some p → is_head (dom (locks s')) h → p ∉ Q h).
Proof.
  intros Hs Hr. destruct (reach_safe _ _ Hr Hs) as [Q [[Hk Hn] Hp _ _ _]]. pose proof (ki_queues _ _ Hk) as Hq.
  exists Q. split; [done|]. split; [done|]. split; [apply Hk|]. split.
  - intros p t Ht Hi. destruct (decide (onrq t = 0)) as [Hon|Hon].
    + destruct (pl_off _ _ Hp p t Ht Hon) as (h&Hh&Hrun&Hph). exists h. rewrite Hrun.
      split_and!; [done|done|done|]. intros h' Hh' Hph'. by eapply (q_uniq _ _ _ _ Hq).
    + destruct (pl_on _ _ Hp p t Ht Hon Hi) as (i&Hi'&Hph). exists (N_rq i). rewrite run_head //.
      split_and!; [done|done|done|]. intros h' Hh' Hph'. by eapply (q_uniq _ _ _ _ Hq).
  - intros p h Hi Hh Hph. destruct (pl_idle _ _ Hp p Hi). by destruct (run_or_wait _ _ _ _ Hh Hph).
Qed.
End runs.

(** ** The library after start-up *)
Module SafeWitness.
Import Run States.

(** A decidable form of [placed]. *)
Definition waiters (s : sys) (Q : qmap) : list positive := filter (λ h, is_run h = false) (heads (dom (locks s))) ≫= Q.
Definition placed_ok (s : sys) (Q : qmap) : Prop :=
  map_Forall (λ p t, (onrq t ≠ 0 → idle s ≠ Some p → p ∈ in_order N_rq Q 0 MAX_PRIO) ∧
    (onrq t = 0 → p ∈ waiters s Q)) (tasks s) ∧
  match idle s with Some p => p ∉ heads (dom (locks s)) ≫= Q | None => True end.
#[global] Instance placed_ok_dec s Q : Decision (placed_ok s Q).
Proof. rewrite /placed_ok. destruct (idle s); apply _. Defined.
Lemma heads_is_head LK h : h ∈ heads LK → is_head LK h.
Proof.
  rewrite /heads elem_of_cons !elem_of_app !list_elem_of_fmap.
  intros [->|[(i&->&Hi%elem_of_seqZ)|[(i&->&Hi%elem_of_seqZ)|(l&->&Hl%elem_of_elements)]]]; cbn; [done|lia|lia|done].
Qed.
Lemma placed_ok_placed s Q : placed_ok s Q → placed s Q.
Proof.
  intros [Ht Hi]. split.
  - intros p t Hp Hon Hid. by apply in_order_elem, (Ht p t Hp).
  - intros p t Hp Hon. pose proof (proj2 (Ht p t Hp) Hon) as (h&Hph&[Hr Hh]%list_elem_of_filter)%list_elem_of_bind.
    exists h. split; [by apply heads_is_head|done].
  - intros p Hp. rewrite Hp in Hi.
    assert (Hn : ∀ h, is_head (dom (locks s)) h → p ∉ Q h).
    { intros h Hh%is_head_heads Hph. apply Hi, list_elem_of_bind. eauto. }
    split; [intros (i&Hr&Hx); by apply (Hn (N_rq i) Hr)|intros (h&Hh&_&Hx); by apply (Hn h Hh)].
Qed.
Lemma asleep_safe : safe asleep.
Proof.
  exists (queues_of asleep). split; [exact asleep_good|apply placed_ok_placed; decide_now|by vm_compute|by vm_compute|].
  intros l k Hl. exfalso. revert Hl. vm_compute. discriminate.
Qed.

(** The daemon creates a task, raises a signal, wakes [main] and waits for descriptor 3;
    a tick passes, and the descriptor becomes ready. *)
Definition ops : list op :=
  [Op_spawn "W" (MkAttr 4096 2 0) 7 0; Op_raise 3; Op_post 1 1; Op_wait_fd 3; Op_tick; Op_io 3].
Definition run_ops (os : list op) (s : sys) : sys := foldl (λ s o, after (run_op o) s) s os.
Fixpoint runs_ok (os : list op) (s : sys) : Prop :=
  match os with
  | [] => True
  | o :: os => allowed o s ∧ bool_decide (is_Some (run_op o s)) = true ∧ runs_ok os (after (run_op o) s)
  end.
Lemma runs_steps os s : runs_ok os s → rtc step s (run_ops os s).
Proof.
  revert s. induction os as [|o os IH]; intros s; [intros _; apply rtc_refl|].
  intros (Ha&Hr&Hos). apply rtc_l with (after (run_op o) s); [|by apply IH].
  apply bool_decide_eq_true in Hr as [[[] s'] Hr]. econstructor; [exact Ha|]. by rewrite /after Hr.
Qed.
Lemma ops_ok : runs_ok ops asleep.
Proof.
  rewrite /ops. split; [|split; [by vm_compute|]].
  { split; [clear; done|]. split; [clear; done|]. split; [by vm_compute|]. split; [by vm_compute|].
    intros p Hp. vm_compute in Hp. injection Hp as <-. split; [decide_now|]. split; by vm_compute. }
  split; [clear; done|split; [by vm_compute|]]. split; [exact I|split; [by vm_compute|]].
  split; [|split; [by vm_compute|]].
  { split; [clear; done|]. split; [by vm_compute|]. intros c t Hc Ht.
    vm_compute in Hc. injection Hc as <-. vm_compute in Ht. injection Ht as <-. by vm_compute. }
  split; [exact I|split; [by vm_compute|]]. split; [clear; done|split; [by vm_compute|exact I]].
Qed.
Lemma ops_steps : rtc step asleep (run_ops ops asleep).
Proof. apply runs_steps, ops_ok. Qed.
Lemma never_crashes_witness : ∃ s2, run_op Op_sleep (run_ops ops asleep) = Some (tt, s2).
Proof.
  destruct (scheduler_never_crashes asleep (run_ops ops asleep) asleep_safe ops_steps Op_sleep) as (s2&Hr&_);
    [by vm_compute|]. exists s2. exact Hr.
Defined.
Lemma every_task_witness : ∃ Q h, sys_queues (run_ops ops asleep) Q ∧ 5%positive ∈ Q h ∧ is_run h = true.
Proof.
  destruct (every_task_has_its_queue asleep (run_ops ops asleep) asleep_safe ops_steps) as (Q&Hq&_&_&Hp&_).
  destruct (Hp 5%positive (default tsk_zero (tasks (run_ops ops asleep) !! 5%positive))) as (h&_&Hph&Hr&_);
    [by vm_compute|by vm_compute|].
  exists Q, h. split; [exact Hq|]. split; [exact Hph|]. apply Hr. by vm_compute.
Defined.
End SafeWitness.
