(* ===== verification/RoundRobin.v ===== *)
(** * Who runs when nothing happens

    Calls of [schedule] with no wake-up in between.  The tasks of the best queue take
    turns, except that a task which was woken into the first place of its queue keeps the
    processor for good. *)

From S2P Require Import Prelude ListHead Task Signal Sched SchedInv SchedProps ThreadLib SchedFrame SchedSpec.
#[local] Open Scope Z_scope.

(** ** [schedule] changes no priority but that of the task it chooses *)
Section schedule.
Context `{E : Env}.
Implicit Types (s : sys) (p q c n : positive) (P : positive → Prop) (Q : qmap).

(** The switch makes the chosen task current. *)
Lemma context_switch_current P c o s a s' :
  context_switch c o s = Some (a, s') → current s' = o ∧ ∀ q, P q → prio_of s' q = prio_of s q.
Proof.
  rewrite /context_switch. rewrite {1}/mbind {1}/M_bind.
  destruct (tsk_mod (set_regs (JB_at in_context_switch)) c s) as [[u s1]|] eqn:E1; [|done].
  destruct (frame_tsk_mod (calmed P) (set_regs (JB_at in_context_switch)) c (λ _, conj eq_refl eq_refl) _ _ _ E1) as [_ H1].
  rewrite (bind_run (modify (set_current o)) _ s1 tt (set_current o s1) eq_refl). intros Hr.
  assert (Hc : respects (calmed P) (c ← cur; tsk_mod (set_state TASK_RUNNING) c;; now ← times; tsk_mod (set_stick now) c;;
    signals_unblock SIGALRM;; p ← nonnull o; nlongjmp p)).
  { rewrite /nonnull. respect. }
  destruct (Hc _ _ _ Hr) as [H2 H3]. split; [done|]. intros q Hq. by rewrite H3 // -H1.
Qed.
Lemma bind_assoc4 {A} (m1 m2 m3 m4 : M sys unit) (k : M sys A) s :
  (m1;; m2;; m3;; m4;; k) s = ((m1;; m2;; m3;; m4);; k) s.
Proof.
  rewrite /mbind /M_bind. destruct (m1 s) as [[? s1]|]; [|done]. destruct (m2 s1) as [[? s2]|]; [|done].
  destruct (m3 s2) as [[? s3]|]; [|done]. by destruct (m4 s3) as [[? s4]|].
Qed.
Lemma schedule_prio s s' q :
  schedule s = Some (tt, s') → os_sched_enabled s = 0 → current s' ≠ Some q → prio_of s' q = prio_of s q.
Proof.
  rewrite /schedule. intros Hr Hos Hq. rewrite (bind_run (gets os_sched_enabled) _ s 0 s) in Hr; [|by rewrite /gets Hos].
  cbn [truthy negb Z.eqb] in Hr. rewrite bind_assoc2 in Hr.
  set (T := λ _ : positive, True).
  assert (Hsig : respects (calmed T) (sp ← sig_pending_p; when sp (c ← cur; process_signal c))).
  { rewrite /sig_pending_p. respect. }
  rewrite {1}/mbind {1}/M_bind in Hr.
  destruct ((sp ← sig_pending_p; when sp (c ← cur; process_signal c)) s) as [[[] s1]|] eqn:E1; [|done].
  destruct (Hsig _ _ _ E1) as [_ H1]. rewrite {1}/mbind {1}/M_bind in Hr.
  destruct (get_next_eligible_task_to_run s1) as [[o s2]|] eqn:E2; [|done].
  destruct (frame_get_next (calmed T) _ _ _ E2) as [_ H2].
  rewrite (bind_run (modify (set_sched_need 0)) _ s2 tt (set_sched_need 0 s2) eq_refl) in Hr.
  assert (Hrest : prio_of s' q = prio_of (set_sched_need 0 s2) q); [|by rewrite Hrest -(H1 q I) -(H2 q I)].
  set (s3 := set_sched_need 0 s2) in *. clearbody s3. clear E1 E2 H1 H2.
  rewrite {1}/mbind {1}/M_bind in Hr. destruct (cur s3) as [[c s4]|] eqn:E3; [|done].
  destruct (frame_cur (calmed T) _ _ _ E3) as [Hc4 H4]. rewrite -(H4 q I). clear E3.
  case_bool_decide as Hne; last by destruct (frame_calc_usage (calmed T) _ _ _ Hr) as [_ H]; apply H.
  set (P := λ q, o ≠ Some q).
  assert (Ha : respects (calmed P) (collect_stack_trace c;; update_stats;; calculate_time_slice o;; tsk_mod (set_state TASK_INTERRUPTIBLE) c)).
  { respect. apply frame_time_slice; [apply _|]. intros p ->. apply calmed_tsk_mod. by intros []. }
  rewrite bind_assoc4 in Hr. rewrite {1}/mbind {1}/M_bind in Hr. destruct ((collect_stack_trace c;; _) s4) as [[u s5]|] eqn:E5; [|done].
  destruct (Ha _ _ _ E5) as [_ H5]. destruct (context_switch_current P c o s5 tt s' Hr) as [Hcur H6].
  rewrite Hcur in Hq. by rewrite H6 // H5.
Qed.
End schedule.

(** ** Turns *)
Section turns.
Context `{E : Env}.
Implicit Types (s : sys) (p q c n : positive) (Q : qmap) (ps qs : list positive) (i j : Z).

(** One call of [schedule] after the other makes the tasks [ps] current. *)
Fixpoint takes_turns ps s s' : Prop :=
  match ps with
  | [] => s' = s
  | p :: ps => ∃ s1, schedule s = Some (tt, s1) ∧ current s1 = Some p ∧ takes_turns ps s1 s'
  end.
(** No task is ready with a better priority. *)
Definition best Q i : Prop := 0 ≤ i < MAX_PRIO ∧ ∀ j, 0 ≤ j < i → Q (N_rq j) = [].

Lemma best_first Q i p ps : best Q i → Q (N_rq i) = p :: ps → first_ready Q = Some p.
Proof.
  intros [Hi Hb] Hp. pose proof (first_ready_split Q) as Hf. destruct (first_ready Q) as [q|].
  - destruct Hf as (j&xs&Hj&Hq&Hbj). destruct (Z.lt_trichotomy i j) as [Hlt|[<-|Hlt]].
    + rewrite Hbj in Hp; [done|lia].
    + rewrite Hq in Hp. by injection Hp as ->.
    + rewrite Hb in Hq; [done|lia].
  - by rewrite Hf in Hp.
Qed.
Lemma best_ready s Q i p ps : kgood s Q → best Q i → Q (N_rq i) = p :: ps → nrp s ≠ 0.
Proof.
  intros Hg [Hi _] Hp. assert (p ∈ Q (N_rq i)) as Hin by (rewrite Hp; left).
  pose proof (kgood_nrp_pos _ _ _ _ Hg Hi Hin). lia.
Qed.

(** The first task of the best queue gets its turn and goes to the back. *)
Lemma next_turn s Q i p ps :
  kgood s Q → os_sched_enabled s = 0 → nxt_imm_task s = None → best Q i → Q (N_rq i) = p :: ps →
  prio_of s p = Some i → current s ≠ Some p →
  ∃ s' Q', schedule s = Some (tt, s') ∧ kgood s' Q' ∧ os_sched_enabled s' = 0 ∧ nxt_imm_task s' = None ∧ best Q' i ∧
    Q' (N_rq i) = ps ++ [p] ∧ current s' = Some p ∧ ∀ q, q ≠ p → prio_of s' q = prio_of s q.
Proof.
  intros Hg Hos Him Hb Hp Hpr Hc. pose proof (kg_inv _ _ Hg) as Hk. destruct (ki_cur _ _ Hk) as (c&tc&Hcur&_).
  pose proof (best_first _ _ _ _ Hb Hp) as Hf. pose proof (best_ready _ _ _ _ _ Hg Hb Hp) as Hn.
  assert (Hch : chosen s Q = Some p) by (rewrite /chosen Him Hf; by destruct (Z.eqb_spec (nrp s) 0)).
  rewrite /prio_of in Hpr. destruct (tasks s !! p) as [t|] eqn:Ht; [|done]. injection Hpr as Hpr.
  assert (HQ : sched_queues s Q = qapp p (N_rq i) (qrem p Q)).
  { rewrite /sched_queues Him Hf Ht decide_False // /rotate Hpr. by destruct (Z.eqb_spec (nrp s) 0). }
  destruct (wp_unit_inv _ _ _ (schedule_good s Q c p Hg Hos Hcur Hch)) as (s'&Hr&Hg'&Hsc). rewrite HQ in Hg'.
  pose proof (sc_carried _ _ _ _ Hsc) as Hca. pose proof (sc_current _ _ _ _ Hsc) as Hcur'.
  assert (Hnd : NoDup (p :: ps)) by (rewrite -Hp; eapply queues_NoDup; [apply Hk|apply Hb]).
  apply NoDup_cons in Hnd as [Hpps _].
  exists s', (qapp p (N_rq i) (qrem p Q)). split; [done|]. split; [done|]. split; [by rewrite (ca_os _ _ Hca)|].
  split; [by destruct (ca_imm _ _ Hca); congruence|]. split; [split; [apply Hb|]|split; [|split; [done|]]].
  - intros j Hj. rewrite /qapp decide_False; [|intros [= ->]; lia]. by rewrite /qrem (proj2 Hb).
  - by rewrite /qapp decide_True // /qrem Hp filter_cons_False; [rewrite filter_ne_id|naive_solver].
  - intros q Hq. apply (schedule_prio s s' q Hr Hos). rewrite Hcur'. congruence.
Qed.

(** The first task of the best queue is current: it keeps the processor. *)
Definition holds s Q c : Prop :=
  kgood s Q ∧ os_sched_enabled s = 0 ∧ current s = Some c ∧ first_ready Q = Some c ∧
  (nxt_imm_task s = None ∨ nxt_imm_task s = Some c).
Lemma first_nrp s Q c : kgood s Q → first_ready Q = Some c → nrp s ≠ 0.
Proof.
  intros Hg Hf. destruct (first_ready_queue _ _ Hf) as (i&Hi&Hp). pose proof (kgood_nrp_pos _ _ _ _ Hg Hi Hp). lia.
Qed.
Lemma holds_again s Q c : holds s Q c → ∃ s', schedule s = Some (tt, s') ∧ holds s' Q c.
Proof.
  intros (Hg&Hos&Hc&Hf&Him). pose proof (first_nrp _ _ _ Hg Hf) as Hn.
  assert (chosen s Q = Some c ∧ sched_queues s Q = Q) as [Hch HQ].
  { rewrite /chosen /sched_queues. destruct (Z.eqb_spec (nrp s) 0); [done|]. destruct Him as [->| ->]; [|done].
    rewrite Hf. split; [done|]. destruct (tasks s !! c); [by rewrite decide_True|done]. }
  destruct (wp_unit_inv _ _ _ (schedule_good s Q c c Hg Hos Hc Hch)) as (s'&Hr&Hg'&Hsc). rewrite HQ in Hg'.
  pose proof (sc_carried _ _ _ _ Hsc) as Hca. exists s'. split; [done|]. split; [done|].
  split; [by rewrite (ca_os _ _ Hca)|]. split; [apply Hsc|]. split; [done|].
  destruct (ca_imm _ _ Hca) as [->| ->]; [by left|done].
Qed.
Lemma holds_turns (n0 : nat) s Q c : holds s Q c → ∃ s', takes_turns (replicate n0 c) s s' ∧ holds s' Q c.
Proof.
  revert s. induction n0 as [|n0 IH]; intros s Hs; [by exists s|].
  destruct (holds_again _ _ _ Hs) as (s1&Hr&H1). destruct (IH s1 H1) as (s'&Ht&H').
  exists s'. split; [|done]. exists s1. split; [done|]. split; [apply H1|done].
Qed.

(** C12: with no cached task, a first task of the best queue that is not the current one, and tasks that have
    the priority of the queue, the tasks run in the order of the queue while nothing else happens: as many
    calls of [schedule] as there are tasks in front make each of them current once, and
    move them behind the others in the same order. *)
Theorem round_robin s Q i ps qs :
  kgood s Q → os_sched_enabled s = 0 → nxt_imm_task s = None → best Q i → Q (N_rq i) = ps ++ qs →
  (∀ p, p ∈ ps → prio_of s p = Some i) → (∀ c, head ps = Some c → current s ≠ Some c) →
  ∃ s' Q', takes_turns ps s s' ∧ kgood s' Q' ∧ best Q' i ∧ Q' (N_rq i) = qs ++ ps.
Proof.
  revert s Q qs. induction ps as [|p ps IH]; intros s Q qs Hg Hos Him Hb Hp Hpr Hc.
  { exists s, Q. by rewrite app_nil_r. }
  assert (Hnd : NoDup (p :: ps)).
  { pose proof (queues_NoDup _ _ _ _ _ (ki_queues _ _ (kg_inv _ _ Hg)) (proj1 Hb : is_head _ (N_rq i))) as Hnd.
    rewrite Hp in Hnd. by apply NoDup_app in Hnd as [? _]. }
  apply NoDup_cons in Hnd as [Hpps _].
  destruct (next_turn s Q i p (ps ++ qs)) as (s1&Q1&Hr&Hg1&Hos1&Him1&Hb1&HQ1&Hc1&Hpr1); try done.
  { apply Hpr. left. }
  { by apply Hc. }
  destruct (IH s1 Q1 (qs ++ [p])) as (s'&Q'&Ht&Hg'&Hb'&HQ'); try done.
  - by rewrite HQ1 app_assoc.
  - intros q Hq. rewrite Hpr1; [apply Hpr; by right|]. by intros ->.
  - intros c Hhd. rewrite Hc1. intros [= ->]. apply Hpps. destruct ps as [|r ps']; [done|]. injection Hhd as ->. left.
  - exists s', Q'. split; [by exists s1|]. split; [done|]. split; [done|]. by rewrite HQ' -app_assoc.
Qed.

End turns.

Module TurnWitness.
Import Run States.
(** The daemon created two tasks of its own priority, and the first of them runs. *)
Definition three : sys :=
  after (spawn_task "A" (MkAttr 4096 1 0) (Some 7%positive) 0;; spawn_task "B" (MkAttr 4096 1 0) (Some 7%positive) 0;; schedule) asleep.
Lemma three_good : kgood three (queues_of three).
Proof. apply kgood_ok_kgood. decide_now. Qed.
Lemma best_one s : queues_of s (N_rq 0) = [] → best (queues_of s) 1.
Proof. intros Hs. split; [done|]. intros j Hj. by replace j with 0 by lia. Qed.

Lemma round_robin_witness : ∃ s' Q', takes_turns [5; 7; 9]%positive three s' ∧ Q' (N_rq 1) = [5; 7; 9]%positive ∧ kgood s' Q'.
Proof.
  assert (H := round_robin three (queues_of three) 1 [5; 7; 9]%positive [] three_good).
  destruct H as (s'&Q'&Ht&Hg&_&HQ).
  - clear. by vm_compute.
  - clear. by vm_compute.
  - apply best_one. clear. by vm_compute.
  - clear. by vm_compute.
  - intros p Hp. rewrite !elem_of_cons elem_of_nil in Hp.
    destruct Hp as [->|[->|[->|[]]]]; clear; by vm_compute.
  - intros c [= <-]. clear. by vm_compute.
  - exists s', Q'. split; [exact Ht|]. split; [exact HQ|exact Hg].
Defined.
End TurnWitness.
