(* ===== verification/TaskLib.v ===== *)
(** * The task library (src/TASK)

    tsk_main.c and tsk_util.c, over the part that differs between the builds: tsk_sched.c,
    on top of the scheduler, and tsk_lnx.c, on top of pthreads.  What the two builds have in
    common with tsk_main.c is the class [TaskPort]; each build is an instance.

    A created task has a control block; the list [tsk_hd] holds the blocks of the tasks that
    started.  A character array is the string of its bytes, [cstr] the C string in it. *)

From S2P Require Import Prelude ListHead Task Sched ThreadLib.
#[local] Open Scope Z_scope.

Definition MIN_THREAD_STACK_SIZE : Z := 20000.
Definition TSK_SUCCESS : Z := 1.
Definition TSK_FAILURE : Z := 0.
Definition NONE : Z := 0.
Definition NO_TASK_ID : Z := 1.
(** The bytes [fill_tsk_info] copies of a name; [MAX_TASK_NAME] of TASK/inc/inc.h. *)
Definition TSK_NAME : nat := 6.
Inductive task_state_tm := TSK_NOT_CREATED | TSK_RUNNING | TSK_SLEEPING | TSK_SUSPENDED.

(** The list links are in [tnodes]; the mutexes and the condition variable are those of the
    host; [sig] is never used. *)
Record tmtask := MkTmtask {
  task_name : string;
  task_id : Z;
  tsk_strt_tk : Z;
  tsk_attr : attr;
  tsk_pid : Z;
  tm_state : task_state_tm;
  tm_stksze : Z;
  tm_prio : Z;
  tm_schedalgo : Z;
  curr_evt : Z;
  prev_evt : Z;
  start_routine : option positive;
  exit_routine : option positive;
  tskarg : Z
}.
Definition tmtask_zero : tmtask := MkTmtask "" 0 0 (MkAttr 0 0 0) 0 TSK_NOT_CREATED 0 0 0 0 0 None None 0.

(** [tsk_hd] and the field [tsk_node] of a control block. *)
Inductive tnode := T_hd | T_tsk (p : positive) | T_null.
#[global] Instance tnode_eq_dec : EqDecision tnode.
Proof. solve_decision. Defined.
#[global] Program Instance tnode_countable : Countable tnode :=
  inj_countable' (λ n, match n with T_hd => None | T_tsk p => Some (inl p) | T_null => Some (inr tt) end)
    (λ s, match s with None => T_hd | Some (inl p) => T_tsk p | Some (inr _) => T_null end) _.
Next Obligation. by intros []. Qed.
(** [(tmtask_t * ) node]. *)
Definition tsk_of_node (n : tnode) : option positive := match n with T_tsk p => Some p | _ => None end.

(** Calls of the application's functions, and what is printed. *)
Inductive tl_event :=
  | Tl_exit (r : positive) | Tl_start (r : positive) (arg : Z) | Tl_bad_stack
  | Tl_printf (fmt : string) (words : list string) (nums : list Z).

Record tlib {H : Type} := MkTlib {
  infos : gmap positive tmtask;
  tnodes : gmap tnode (list_head tnode);
  g_tsks_crtd : Z;
  n_talloc : nat;
  tl_trace : list tl_event;
  thost : H
}.
Arguments tlib : clear implicits.

Definition eta_tm (t : tmtask) : tmtask :=
  MkTmtask (task_name t) (task_id t) (tsk_strt_tk t) (tsk_attr t) (tsk_pid t) (tm_state t) (tm_stksze t) (tm_prio t)
    (tm_schedalgo t) (curr_evt t) (prev_evt t) (start_routine t) (exit_routine t) (tskarg t).
Definition set_task_id v t : tmtask := ltac:(upd eta_tm t task_id v).
Definition set_tsk_strt_tk v t : tmtask := ltac:(upd eta_tm t tsk_strt_tk v).
Definition set_tsk_attr v t : tmtask := ltac:(upd eta_tm t tsk_attr v).
Definition set_tsk_pid v t : tmtask := ltac:(upd eta_tm t tsk_pid v).
Definition set_tm_state v t : tmtask := ltac:(upd eta_tm t tm_state v).
Definition set_curr_evt v t : tmtask := ltac:(upd eta_tm t curr_evt v).
Definition set_prev_evt v t : tmtask := ltac:(upd eta_tm t prev_evt v).

(** The addresses [calloc] returns to the library. *)
Class TlEnv := { tenv_calloc : nat → option positive }.

(** The C string an array holds. *)
Fixpoint cstr (b : string) : string :=
  match b with
  | EmptyString => EmptyString
  | String c b => if Ascii.eqb c Ascii.zero then EmptyString else String c (cstr b)
  end.

Section state.
Context {H : Type}.
Implicit Types (s : tlib H) (p : positive).

Definition set_infos v s : tlib H := MkTlib H v (tnodes s) (g_tsks_crtd s) (n_talloc s) (tl_trace s) (thost s).
Definition set_tnodes v s : tlib H := MkTlib H (infos s) v (g_tsks_crtd s) (n_talloc s) (tl_trace s) (thost s).
Definition set_g_tsks_crtd v s : tlib H := MkTlib H (infos s) (tnodes s) v (n_talloc s) (tl_trace s) (thost s).
Definition set_n_talloc v s : tlib H := MkTlib H (infos s) (tnodes s) (g_tsks_crtd s) v (tl_trace s) (thost s).
Definition set_tl_trace v s : tlib H := MkTlib H (infos s) (tnodes s) (g_tsks_crtd s) (n_talloc s) v (thost s).
Definition set_thost v s : tlib H := MkTlib H (infos s) (tnodes s) (g_tsks_crtd s) (n_talloc s) (tl_trace s) v.

Definition on_thost {A} (m : M H A) : M (tlib H) A := zoom thost set_thost m.
Definition on_tnodes {A} (m : M (gmap tnode (list_head tnode)) A) : M (tlib H) A := zoom tnodes set_tnodes m.
Definition info_ld p : M (tlib H) tmtask := l ← gets infos; liftO (l !! p).
Definition info_mod (f : tmtask → tmtask) p : M (tlib H) unit :=
  t ← info_ld p; modify (λ s, set_infos (<[p := f t]> (infos s)) s).
Definition tl_emit (e : tl_event) : M (tlib H) unit := modify (λ s, set_tl_trace (tl_trace s ++ [e]) s).

(** ** tsk_util.c *)
Definition validate_tsk_params (stk_size : Z) : M (tlib H) Z :=
  if stk_size <? MIN_THREAD_STACK_SIZE then tl_emit Tl_bad_stack;; mret TSK_FAILURE else mret TSK_SUCCESS.
Definition my_str_len (str : option string) : Z :=
  match str with None => 0 | Some b => s32 (Z.of_nat (String.length (cstr b))) end.
Definition str_len_validate (tskname : option string) (len : Z) : Z :=
  let strln := my_str_len tskname in
  if (0 <? strln) && (strln <=? len) then 1 else 0.

(** [list_for_each (node, &tsk_hd) if (...) return node]. *)
Fixpoint find_info (P : tmtask → bool) (nodes : list tnode) : M (tlib H) (option positive) :=
  match nodes with
  | [] => mret None
  | n :: nodes =>
      p ← liftO (tsk_of_node n);
      t ← info_ld p;
      if P t then mret (Some p) else find_info P nodes
  end.
Definition get_tsk_info (tskname : string) (tskid : Z) : M (tlib H) (option positive) :=
  nodes ← on_tnodes (list_for_each T_hd);
  find_info (λ t, String.eqb (task_name t) tskname && (task_id t =? tskid)) nodes.
Definition tsk_get_tskid (tskname : string) : M (tlib H) Z :=
  nodes ← on_tnodes (list_for_each T_hd);
  p ← find_info (λ t, String.eqb (task_name t) tskname) nodes;
  match p with Some p => t ← info_ld p; mret (task_id t) | None => mret (ulong (-1)) end.
Definition get_tsk_name (tskid : Z) : M (tlib H) string :=
  nodes ← on_tnodes (list_for_each T_hd);
  p ← find_info (λ t, task_id t =? tskid) nodes;
  match p with Some p => t ← info_ld p; mret (task_name t) | None => mret "INVALID_TASK_ID"%string end.
Definition get_tsk_info_frm_id (tskid : Z) : M (tlib H) (option positive) :=
  nodes ← on_tnodes (list_for_each T_hd);
  find_info (λ t, task_id t =? tskid) nodes.
Definition tsk_node_add p : M (tlib H) unit := on_tnodes (list_add (T_tsk p) T_hd).
Definition tsk_node_del p : M (tlib H) unit := on_tnodes (list_del (T_tsk p)).

(** [dump_task_info] of the pthread build.  [schedalgo] is an index into an array of three. *)
Definition tsk_state_name (st : task_state_tm) : string :=
  match st with
  | TSK_NOT_CREATED => "NOT_CREATED" | TSK_RUNNING => "TSK_RUNNING" | TSK_SLEEPING => "TSK_SLEEPING" | TSK_SUSPENDED => "TSK_SUSPENDED"
  end.
Definition tsk_sched_name (a : Z) : option string :=
  if a <? 0 then None else ["OTHER"; "FIFO"; "Round Robin"]%string !! Z.to_nat a.
Definition tsk_fmt : string := "%10s     %#x    %8d      %10s     %9d      %15s     %6d\n".
Definition print_tsk (n : tnode) : M (tlib H) unit :=
  p ← liftO (tsk_of_node n);
  t ← info_ld p;
  alg ← liftO (tsk_sched_name (tm_schedalgo t));
  tl_emit (Tl_printf tsk_fmt [task_name t; tsk_state_name (tm_state t); alg] [task_id t; tm_stksze t; tm_prio t; tsk_pid t]).
Fixpoint print_tsks (nodes : list tnode) : M (tlib H) unit :=
  match nodes with [] => mret tt | n :: nodes => print_tsk n;; print_tsks nodes end.
Definition dump_task_info : M (tlib H) unit :=
  tl_emit (Tl_printf "\n  Task Name      TaskID       StackSize     TaskState       TaskPrio        Scheduling Alg    TASK PID\n" [] []);;
  tl_emit (Tl_printf "\r  ---------    ----------     ----------   ------------    ------------     ----------------  ---------\n" [] []);;
  nodes ← on_tnodes (list_for_each T_hd);
  print_tsks nodes.

Context `{TE : TlEnv}.
Definition tsk_alloc : M (tlib H) (option positive) :=
  k ← gets n_talloc;
  modify (set_n_talloc (S k));;
  match tenv_calloc k with
  | None => mret None
  | Some p =>
      modify (λ s, set_infos (<[p := tmtask_zero]> (infos s)) s);;
      modify (λ s, set_tnodes (<[T_tsk p := LH T_null T_null]> (tnodes s)) s);;
      mret (Some p)
  end.
Definition tsk_dealloc p : M (tlib H) unit :=
  info_ld p;;
  modify (λ s, set_infos (delete p (infos s)) s);;
  modify (λ s, set_tnodes (delete (T_tsk p) (tnodes s)) s).
End state.

(** ** What a build provides *)
Class TaskPort (H : Type) := {
  (** The result and, where it is set, [*ptskid]. *)
  start_task : positive → M (tlib H) (Z * option Z);
  tsk_selfid : M H Z;
  get_tsk_pid : M H Z;
  tsk_cancel : Z → M H unit;
  tm_times : M H Z;
  init_tsk_attr : positive → M (tlib H) Z;
  init_tsk_mtx_and_cond : positive → M (tlib H) Z;
  deinit_tsk_attr : positive → M (tlib H) Z;
  deinit_tsk_mtx_and_cond : positive → M (tlib H) Z
}.

(** ** tsk_main.c *)
Section tsk_main.
Context {H : Type} `{TE : TlEnv} `{TP : TaskPort H}.

Definition init_tsk (ptskinfo : positive) : M (tlib H) Z :=
  init_tsk_attr ptskinfo;; init_tsk_mtx_and_cond ptskinfo;; mret TSK_SUCCESS.
Definition deinit_tsk (ptskinfo : positive) : M (tlib H) Z :=
  deinit_tsk_attr ptskinfo;; deinit_tsk_mtx_and_cond ptskinfo;; mret TSK_SUCCESS.

(** [memcpy] reads [MAX_TASK_NAME] bytes of the array; the last byte of the field stays 0. *)
Definition fill_tsk_info (tskname : string) (tsk_prio sched_alg stk_size : Z) (start exit : option positive) (arg : Z)
    (ptskinfo : positive) : M (tlib H) unit :=
  (if (String.length tskname <? TSK_NAME)%nat then ub else mret tt);;
  info_mod (λ t, MkTmtask (cstr (String.substring 0 TSK_NAME tskname)) NO_TASK_ID (tsk_strt_tk t) (tsk_attr t) (tsk_pid t)
    TSK_NOT_CREATED stk_size tsk_prio sched_alg NONE NONE start exit arg) ptskinfo.

Definition task_create (tskname : string) (tsk_prio sched_alg stk_size : Z) (start exit : option positive) (arg : Z)
    : M (tlib H) (Z * option Z) :=
  r ← validate_tsk_params stk_size;
  if r =? TSK_FAILURE then mret (r, None) else
  ptsk_info ← tsk_alloc;
  match ptsk_info with
  | None => mret (TSK_FAILURE, None)
  | Some p =>
      fill_tsk_info tskname tsk_prio sched_alg stk_size start exit arg p;;
      r ← init_tsk p;
      if r =? TSK_FAILURE then mret (r, None) else
      modify (λ s, set_g_tsks_crtd (s32 (g_tsks_crtd s + 1)) s);;
      start_task p
  end.

(** In the new thread. *)
Definition tsk_wrap (ptsk : positive) : M (tlib H) unit :=
  pid ← on_thost get_tsk_pid;
  info_mod (set_tsk_pid pid) ptsk;;
  now ← on_thost tm_times;
  info_mod (set_tsk_strt_tk now) ptsk;;
  info_mod (set_tm_state TSK_RUNNING) ptsk;;
  tsk_node_add ptsk;;
  t ← info_ld ptsk;
  r ← liftO (start_routine t);
  tl_emit (Tl_start r (tskarg t)).

Definition task_delete (tskname : string) (tskid : Z) : M (tlib H) Z :=
  ptskinfo ← get_tsk_info tskname tskid;
  match ptskinfo with
  | None => mret TSK_FAILURE
  | Some p =>
      self ← on_thost tsk_selfid;
      t ← info_ld p;
      if task_id t =? self then mret TSK_FAILURE else
      deinit_tsk p;;
      tsk_node_del p;;
      t ← info_ld p;
      match exit_routine t with Some r => tl_emit (Tl_exit r) | None => mret tt end;;
      on_thost (tsk_cancel (task_id t));;
      tsk_dealloc p;;
      mret TSK_SUCCESS
  end.
End tsk_main.

(** ** tsk_sched.c: the scheduler of this library *)
Section tsk_sched.
Context `{E : Env} `{TE : TlEnv}.

Definition ptr_val (o : option positive) : Z := match o with Some p => Zpos p | None => 0 end.
(** [spawn_task] returns the address of the task. *)
Definition sched_start_task (ptskinfo : positive) : M (tlib sys) (Z * option Z) :=
  t ← info_ld ptskinfo;
  p ← on_thost (spawn_task (task_name t) (tsk_attr t) (start_routine t) (tskarg t));
  let ptskid := ptr_val p in
  if ptskid =? 0 then mret (TSK_FAILURE, Some ptskid) else
  tsk_dealloc ptskinfo;;
  mret (TSK_SUCCESS, Some ptskid).
Definition sched_tsk_selfid : M sys Z := t0 ← task_selfid; mret (ulong t0).
Definition sched_tsk_cancel (task_id : Z) : M sys unit := task_cancel (s32 task_id);; mret tt.
Definition sched_init_tsk_attr (ptskinfo : positive) : M (tlib sys) Z :=
  info_mod (λ t, set_tsk_attr (MkAttr (tm_stksze t) (tm_prio t) (tm_schedalgo t)) t) ptskinfo;;
  mret TSK_SUCCESS.
Definition sched_get_tsk_pid : M sys Z := sched_tsk_selfid.
(** These are empty in this build. *)
Definition sched_init_tsk_mtx_and_cond (ptskinfo : positive) : M (tlib sys) Z := mret TSK_SUCCESS.
Definition sched_deinit_tsk_attr (ptskinfo : positive) : M (tlib sys) Z := mret TSK_SUCCESS.
Definition sched_deinit_tsk_mtx_and_cond (ptskinfo : positive) : M (tlib sys) Z := mret TSK_SUCCESS.
#[global] Instance sched_port : TaskPort sys := {|
  start_task := sched_start_task;
  tsk_selfid := sched_tsk_selfid;
  get_tsk_pid := sched_get_tsk_pid;
  tsk_cancel := sched_tsk_cancel;
  tm_times := times;
  init_tsk_attr := sched_init_tsk_attr;
  init_tsk_mtx_and_cond := sched_init_tsk_mtx_and_cond;
  deinit_tsk_attr := sched_deinit_tsk_attr;
  deinit_tsk_mtx_and_cond := sched_deinit_tsk_mtx_and_cond
|}.
End tsk_sched.

(** ** tsk_lnx.c: pthreads *)
Inductive pth_event :=
  | Pth_attr (p : positive) | Pth_init (p : positive) | Pth_destroy (p : positive)
  | Pth_create (p : positive) | Pth_cancel (id : Z)
  | Pth_nanosleep (sec nsec : Z) | Pth_sleep (sec : Z) | Pth_usleep (usec : Z)
  | Pth_lock (p : positive) | Pth_unlock (p : positive) | Pth_signal (p : positive) | Pth_wait (p : positive).
(** The calling thread, the numbers of calls, the calls that were made. *)
Record pth := MkPth { pth_id : Z; n_pcreate : nat; n_ptimes : nat; pth_trace : list pth_event }.
(** The ids [pthread_create] returns, unless it fails; the process ids of threads; [times]. *)
Class PthEnv := { penv_create : nat → option Z; penv_gettid : Z → Z; penv_times : nat → Z }.

Section tsk_lnx.
Context `{PE : PthEnv} `{TE : TlEnv}.

Definition pth_emit (e : pth_event) : M pth unit :=
  modify (λ s, MkPth (pth_id s) (n_pcreate s) (n_ptimes s) (pth_trace s ++ [e])).
Definition pthread_create (p : positive) : M pth (option Z) :=
  k ← gets n_pcreate;
  modify (λ s, MkPth (pth_id s) (S k) (n_ptimes s) (pth_trace s));;
  match penv_create k with
  | None => mret None
  | Some id => pth_emit (Pth_create p);; mret (Some id)
  end.
Definition pth_times : M pth Z :=
  k ← gets n_ptimes;
  modify (λ s, MkPth (pth_id s) (n_pcreate s) (S k) (pth_trace s));;
  mret (penv_times k).

Definition lnx_start_task (ptskinfo : positive) : M (tlib pth) (Z * option Z) :=
  info_ld ptskinfo;;
  r ← on_thost (pthread_create ptskinfo);
  match r with
  | None => mret (TSK_FAILURE, None)
  | Some id => info_mod (set_task_id id) ptskinfo;; mret (TSK_SUCCESS, Some id)
  end.
Definition lnx_tsk_selfid : M pth Z := gets pth_id.
Definition lnx_get_tsk_pid : M pth Z := i ← gets pth_id; mret (penv_gettid i).
Definition lnx_tsk_cancel (task_id : Z) : M pth unit := pth_emit (Pth_cancel task_id).
Definition lnx_init_tsk_attr (p : positive) : M (tlib pth) Z :=
  on_thost (pth_emit (Pth_attr p));;
  info_mod (λ t, set_tsk_attr (MkAttr (tm_stksze t) 0 (tm_schedalgo t)) t) p;;
  mret TSK_SUCCESS.
Definition lnx_init_tsk_mtx_and_cond (p : positive) : M (tlib pth) Z :=
  on_thost (pth_emit (Pth_init p));; mret TSK_SUCCESS.
(** [pthread_attr_init] once more. *)
Definition lnx_deinit_tsk_attr (p : positive) : M (tlib pth) Z :=
  on_thost (pth_emit (Pth_attr p));; mret TSK_SUCCESS.
Definition lnx_deinit_tsk_mtx_and_cond (p : positive) : M (tlib pth) Z :=
  on_thost (pth_emit (Pth_destroy p));; mret TSK_SUCCESS.
#[global] Instance lnx_port : TaskPort pth := {|
  start_task := lnx_start_task;
  tsk_selfid := lnx_tsk_selfid;
  get_tsk_pid := lnx_get_tsk_pid;
  tsk_cancel := lnx_tsk_cancel;
  tm_times := pth_times;
  init_tsk_attr := lnx_init_tsk_attr;
  init_tsk_mtx_and_cond := lnx_init_tsk_mtx_and_cond;
  deinit_tsk_attr := lnx_deinit_tsk_attr;
  deinit_tsk_mtx_and_cond := lnx_deinit_tsk_mtx_and_cond
|}.

(** Sleeping; the product is a signed integer. *)
Definition tsk_delay (secs nsecs : Z) : M pth unit := pth_emit (Pth_nanosleep secs nsecs).
Definition tsk_sleep (secs : Z) : M pth unit := pth_emit (Pth_sleep (u32 secs)).
Definition tsk_mdelay (msecs : Z) : M pth unit :=
  if (- 2 ^ 31 <=? msecs * 1000) && (msecs * 1000 <? 2 ^ 31) then pth_emit (Pth_usleep (u32 (msecs * 1000))) else ub.

(** One pass of the loop of [evt_rx]: the events, or [None] for a wait. *)
Definition evt_rx_check (p : positive) (event : Z) : M (tlib pth) (option Z) :=
  t ← info_ld p;
  if truthy (Z.land (curr_evt t) event) then
    info_mod (set_curr_evt (Z.land (curr_evt t) 0)) p;;
    on_thost (pth_emit (Pth_unlock p));;
    mret (Some (curr_evt t))
  else on_thost (pth_emit (Pth_wait p));; mret None.
(** [None]: the caller waits; the loop goes on with [evt_rx_check]. *)
Definition evt_rx (tskid event : Z) : M (tlib pth) (option (Z * option Z)) :=
  tskinfo ← get_tsk_info_frm_id tskid;
  match tskinfo with
  | None => mret (Some (TSK_FAILURE, None))
  | Some p =>
      on_thost (pth_emit (Pth_lock p));;
      r ← evt_rx_check p event;
      mret (match r with Some e => Some (TSK_SUCCESS, Some e) | None => None end)
  end.
Definition evt_snd (tskid event : Z) : M (tlib pth) unit :=
  tskinfo ← get_tsk_info_frm_id tskid;
  p ← liftO tskinfo;
  on_thost (pth_emit (Pth_lock p));;
  info_mod (λ t, set_prev_evt (curr_evt t) t) p;;
  info_mod (λ t, set_curr_evt (Z.lor (curr_evt t) event) t) p;;
  on_thost (pth_emit (Pth_signal p));;
  on_thost (pth_emit (Pth_unlock p)).
End tsk_lnx.
