(* ===== verification/TaskLibSpec.v ===== *)
(** * What the task library promises

    [registered s ps]: the list [tsk_hd] holds the control blocks [ps].  Creation on top of
    the scheduler, registration, lookup, deletion and events on top of pthreads. *)

From S2P Require Import Prelude ListHead Task Signal Sched SchedInv SchedProps ThreadLib SchedSpec ThreadSpec SchedSafe TaskLib.
#[local] Open Scope Z_scope.

Record registered {H} (s : tlib H) (ps : list positive) : Prop := {
  rg_dll : dll (tnodes s) T_hd (T_tsk <$> ps);
  rg_info p : p ∈ ps → is_Some (infos s !! p);
  rg_node p : is_Some (infos s !! p) → is_Some (tnodes s !! T_tsk p)
}.
Definition satisfies {H} (s : tlib H) (P : tmtask → bool) (p : positive) : Prop := P <$> infos s !! p = Some true.
#[global] Instance satisfies_dec {H} (s : tlib H) P p : Decision (satisfies s P p).
Proof. rewrite /satisfies. apply _. Defined.
(** The first task in the list that satisfies [P]. *)
Definition first_info {H} (s : tlib H) (P : tmtask → bool) (ps : list positive) : option positive :=
  head (filter (satisfies s P) ps).
Definition has_name_id (name : string) (id : Z) (t : tmtask) : bool := String.eqb (task_name t) name && (task_id t =? id).
Definition has_id (id : Z) (t : tmtask) : bool := task_id t =? id.

Section registry.
Context {H : Type}.
Implicit Types (s : tlib H) (p : positive) (ps : list positive) (P : tmtask → bool).

Lemma info_ld_run s p t : infos s !! p = Some t → info_ld p s = Some (t, s).
Proof. intros Ht. by rewrite /info_ld /mbind /M_bind /= Ht. Qed.
Lemma find_info_run s P ps :
  (∀ p, p ∈ ps → is_Some (infos s !! p)) → find_info P (T_tsk <$> ps) s = Some (first_info s P ps, s).
Proof.
  induction ps as [|p ps IH]; intros Hv; [done|]. cbn [fmap list_fmap find_info].
  destruct (Hv p ltac:(left)) as [t Ht]. rewrite (bind_run _ _ s p s eq_refl).
  rewrite (bind_run _ _ _ _ _ (info_ld_run _ _ _ Ht)) /first_info filter_cons.
  destruct (P t) eqn:HP.
  - rewrite decide_True; [done|]. by rewrite /satisfies Ht /= HP.
  - rewrite decide_False; [|by rewrite /satisfies Ht /= HP]. apply IH. intros q Hq. apply Hv. by right.
Qed.
Lemma set_tnodes_id s : set_tnodes (tnodes s) s = s.
Proof. by destruct s. Qed.
Lemma walk_registered s ps : registered s ps → on_tnodes (list_for_each T_hd) s = Some (T_tsk <$> ps, s).
Proof. intros Hr. by rewrite /on_tnodes /zoom (list_for_each_spec _ _ _ (rg_dll _ _ Hr)) set_tnodes_id. Qed.
Lemma get_tsk_info_run s ps name id :
  registered s ps → get_tsk_info name id s = Some (first_info s (has_name_id name id) ps, s).
Proof. intros Hr. rewrite /get_tsk_info (bind_run _ _ _ _ _ (walk_registered _ _ Hr)). by apply find_info_run, Hr. Qed.
Lemma get_tsk_info_frm_id_run s ps id :
  registered s ps → get_tsk_info_frm_id id s = Some (first_info s (has_id id) ps, s).
Proof. intros Hr. rewrite /get_tsk_info_frm_id (bind_run _ _ _ _ _ (walk_registered _ _ Hr)). by apply find_info_run, Hr. Qed.
Lemma first_info_Some s P ps p :
  first_info s P ps = Some p → p ∈ ps ∧ ∃ t, infos s !! p = Some t ∧ P t = true.
Proof.
  rewrite /first_info. intros Hp. assert (p ∈ filter (satisfies s P) ps) as [Hs Hin]%list_elem_of_filter.
  { destruct (filter _ _); [done|]. injection Hp as ->. left. }
  split; [done|]. rewrite /satisfies in Hs. destruct (infos s !! p) as [t|]; [|done]. injection Hs as Hs. by exists t.
Qed.
Lemma first_info_None s P ps p t : first_info s P ps = None → p ∈ ps → infos s !! p = Some t → P t = false.
Proof.
  rewrite /first_info. intros Hn Hp Ht. destruct (P t) eqn:HP; [|done].
  assert (p ∈ filter (satisfies s P) ps) as Hin; [apply list_elem_of_filter; split; [by rewrite /satisfies Ht /= HP|done]|].
  destruct (filter _ _); [by apply elem_of_nil in Hin|done].
Qed.
Lemma info_mod_run s p t f : infos s !! p = Some t → info_mod f p s = Some (tt, set_infos (<[p := f t]> (infos s)) s).
Proof. intros Ht. by rewrite /info_mod (bind_run _ _ _ _ _ (info_ld_run _ _ _ Ht)). Qed.
Lemma on_thost_run {A} (m : M H A) s a h : m (thost s) = Some (a, h) → on_thost m s = Some (a, set_thost h s).
Proof. intros Hm. by rewrite /on_thost /zoom Hm. Qed.

(** Changing a block. *)
Lemma registered_same s s' ps :
  registered s ps → tnodes s' = tnodes s → dom (infos s') = dom (infos s) → registered s' ps.
Proof.
  intros [H1 H2 H3] Ht Hd. split; rewrite ?Ht; [done| |].
  - intros p Hp%H2. apply elem_of_dom. rewrite Hd. by apply elem_of_dom.
  - intros p Hp. apply H3, elem_of_dom. rewrite -Hd. by apply elem_of_dom.
Qed.
(** The lines that [dump_task_info] prints. *)
Definition tsk_line (t : tmtask) (alg : string) : tl_event :=
  Tl_printf tsk_fmt [task_name t; tsk_state_name (tm_state t); alg] [task_id t; tm_stksze t; tm_prio t; tsk_pid t].
Definition tsk_lines s (ps : list positive) : option (list tl_event) :=
  mapM (λ p, t ← infos s !! p; alg ← tsk_sched_name (tm_schedalgo t); Some (tsk_line t alg)) ps.
Lemma print_tsks_run s es ps :
  print_tsks (T_tsk <$> ps) (set_tl_trace es s) =
  match tsk_lines s ps with Some ls => Some (tt, set_tl_trace (es ++ ls) s) | None => None end.
Proof.
  revert es. induction ps as [|p ps IH]; intros es; cbn [fmap list_fmap print_tsks]; [by rewrite /tsk_lines /= app_nil_r|].
  change (tsk_lines s (p :: ps)) with (y ← (t ← infos s !! p; alg ← tsk_sched_name (tm_schedalgo t); Some (tsk_line t alg));
    ys ← tsk_lines s ps; mret (y :: ys)).
  rewrite /print_tsk -bind_assoc2 (bind_run (liftO (tsk_of_node (T_tsk p))) _ _ p (set_tl_trace es s)) // -bind_assoc2.
  destruct (infos s !! p) as [t|] eqn:Ht; last by rewrite /mbind /M_bind /info_ld /mbind /M_bind /= Ht.
  rewrite (bind_run _ _ _ _ _ (info_ld_run (set_tl_trace es s) p t Ht)) -bind_assoc2 /=.
  destruct (tsk_sched_name (tm_schedalgo t)) as [alg|]; [|done]. rewrite (bind_run (liftO (Some alg)) _ _ alg (set_tl_trace es s)) //=.
  rewrite (bind_run _ _ _ tt (set_tl_trace (es ++ [tsk_line t alg]) s)) // IH /=.
  destruct (tsk_lines s ps) as [ls|]; [|done]. by rewrite -app_assoc.
Qed.
(** Every task that started is printed once, in the order of the list; a task whose scheduling policy is not one of the three
    makes it crash. *)
Lemma dump_task_info_run s ps :
  registered s ps → ∃ h1 h2, dump_task_info s =
    match tsk_lines s ps with Some ls => Some (tt, set_tl_trace (tl_trace s ++ [h1; h2] ++ ls) s) | None => None end.
Proof.
  intros Hr. do 2 eexists. rewrite /dump_task_info. rewrite (bind_run (tl_emit _) _ s tt _ eq_refl) (bind_run (tl_emit _) _ _ tt _ eq_refl).
  match goal with |- context [(on_tnodes _ ≫= _) ?x] => set (s1 := x) end.
  assert (Hr1 : registered s1 ps) by by apply (registered_same s).
  rewrite (bind_run _ _ _ _ _ (walk_registered s1 ps Hr1)).
  rewrite (print_tsks_run s (tl_trace s1) ps : print_tsks _ s1 = _). destruct (tsk_lines s ps) as [ls|]; [|done]. cbn.
  by rewrite -!app_assoc.
Qed.
Lemma registered_mod s ps p t t' :
  registered s ps → infos s !! p = Some t → registered (set_infos (<[p := t']> (infos s)) s) ps.
Proof.
  intros Hr Ht. apply (registered_same s); [done|done|]. cbn. apply elem_of_dom_2 in Ht. rewrite dom_insert_L. set_solver.
Qed.
Lemma registered_add s ps p :
  registered s ps → p ∉ ps → is_Some (infos s !! p) →
  ∃ m', tsk_node_add p s = Some (tt, set_tnodes m' s) ∧ registered (set_tnodes m' s) (p :: ps).
Proof.
  intros [H1 H2 H3] Hp Hi.
  assert (Hw : wp (list_add (T_tsk p) T_hd) (λ _ m', registered (set_tnodes m' s) (p :: ps)) (tnodes s)).
  { eapply wp_list_add; [exact H1| |by apply H3|].
    { rewrite elem_of_cons list_elem_of_fmap. intros [?|(q&[= ->]&?)]; done. }
    intros m' Hd Ho. split; cbn; [done| |].
    - intros q [->|Hq]%elem_of_cons; auto.
    - intros q Hq%H3. by apply Ho. }
  apply wp_inv in Hw as ([]&m'&Hr&Hreg). exists m'. split; [|done]. by rewrite /tsk_node_add /on_tnodes /zoom Hr.
Qed.
(** Unlinking a block and giving it back. *)
Definition without s p (m' : gmap tnode (list_head tnode)) : tlib H :=
  set_tnodes (delete (T_tsk p) m') (set_infos (delete p (infos s)) s).
Lemma registered_del s ps p :
  registered s ps → p ∈ ps →
  ∃ m', tsk_node_del p s = Some (tt, set_tnodes m' s) ∧
    ∀ s', tnodes s' = delete (T_tsk p) m' → infos s' = delete p (infos s) → registered s' (filter (λ q, q ≠ p) ps).
Proof.
  intros [H1 H2 H3] Hp. pose proof (NoDup_fmap_1 _ _ (proj2 (dll_NoDup _ _ _ H1))) as Hnd.
  pose proof Hp as (xs&ys&E)%list_elem_of_split. rewrite E fmap_app fmap_cons in H1.
  assert (Hf : filter (λ q, q ≠ p) ps = xs ++ ys) by (rewrite E; apply filter_ne_mid; by rewrite -E).
  assert (Hps : p ∉ xs ++ ys) by (rewrite -Hf list_elem_of_filter; naive_solver).
  assert (Hw : wp (list_del (T_tsk p)) (λ _ m', ∀ s', tnodes s' = delete (T_tsk p) m' →
    infos s' = delete p (infos s) → registered s' (xs ++ ys)) (tnodes s)).
  { eapply wp_list_del; [exact H1|]. intros m' Hd Ho s' Ht Hi. split; rewrite ?Ht ?Hi.
    - eapply dll_frame; [|rewrite fmap_app; exact Hd]. intros n Hn. apply lookup_delete_ne. intros <-.
      apply elem_of_cons in Hn as [Hn|Hn]; [done|].
      apply list_elem_of_fmap in Hn as (q&[= <-]&Hq). done.
    - intros q Hq. rewrite lookup_delete_ne; [apply H2; rewrite E; set_solver|]. by intros ->.
    - intros q. rewrite lookup_delete_is_Some. intros [Hne Hq%H3]. rewrite lookup_delete_ne; [by apply Ho|congruence]. }
  apply wp_inv in Hw as ([]&m'&Hr&Hreg). exists m'. rewrite Hf. split; [|done]. by rewrite /tsk_node_del /on_tnodes /zoom Hr.
Qed.
Lemma tsk_dealloc_run s p : is_Some (infos s !! p) → tsk_dealloc p s = Some (tt, without s p (tnodes s)).
Proof. intros [t Ht]. by rewrite /tsk_dealloc (bind_run _ _ _ _ _ (info_ld_run _ _ _ Ht)). Qed.
End registry.

(** ** Creation, whatever the build *)
Section create.
Context {H : Type} `{TE : TlEnv} `{TP : TaskPort H}.
Implicit Types (s : tlib H) (p : positive).

Definition filled_info (name : string) (prio alg stk : Z) (start exit : option positive) (arg : Z) : tmtask :=
  MkTmtask (cstr (String.substring 0 TSK_NAME name)) NO_TASK_ID 0 (MkAttr 0 0 0) 0 TSK_NOT_CREATED stk prio alg NONE NONE start exit arg.
(** A new block [t] at [p], outside of the list. *)
Definition with_info p t s : tlib H :=
  set_tnodes (<[T_tsk p := LH T_null T_null]> (tnodes s)) (set_infos (<[p := t]> (infos s)) (set_n_talloc (S (n_talloc s)) s)).
Lemma task_create_start s name pr alg stk start exit arg p :
  MIN_THREAD_STACK_SIZE ≤ stk → (TSK_NAME ≤ String.length name)%nat → tenv_calloc (n_talloc s) = Some p →
  task_create name pr alg stk start exit arg s =
  (r ← init_tsk p;
   if r =? TSK_FAILURE then mret (r, None) else
   modify (λ s, set_g_tsks_crtd (s32 (g_tsks_crtd s + 1)) s);; start_task p)
    (with_info p (filled_info name pr alg stk start exit arg) s).
Proof.
  intros Hstk Hlen Hp. rewrite /task_create /validate_tsk_params (proj2 (Z.ltb_ge _ _) Hstk).
  rewrite (bind_run (mret _) _ s TSK_SUCCESS s eq_refl). change (TSK_SUCCESS =? TSK_FAILURE) with false. cbv iota.
  rewrite (bind_run tsk_alloc _ s (Some p) (with_info p tmtask_zero s)); last first.
  { rewrite /tsk_alloc /mbind /M_bind /gets /modify /= Hp. done. }
  rewrite (bind_run (fill_tsk_info _ _ _ _ _ _ _ _) _ (with_info p tmtask_zero s) tt
    (with_info p (filled_info name pr alg stk start exit arg) s)); [done|].
  rewrite /fill_tsk_info (proj2 (Nat.ltb_ge _ _) Hlen). rewrite (bind_run (mret tt) _ _ tt _ eq_refl).
  rewrite (info_mod_run _ p tmtask_zero); [|by rewrite /= lookup_insert_eq]. by rewrite /with_info /= insert_insert_eq.
Qed.
End create.

(** ** On top of pthreads *)
Section lnx.
Context `{PE : PthEnv} `{TE : TlEnv}.
Implicit Types (s : tlib pth) (p : positive) (ps : list positive) (t : tmtask) (h : pth).

Definition calls (es : list pth_event) h : pth := MkPth (pth_id h) (n_pcreate h) (n_ptimes h) (pth_trace h ++ es).
Definition exit_call t : list tl_event := match exit_routine t with Some r => [Tl_exit r] | None => [] end.

Lemma deinit_run s p :
  deinit_tsk p s = Some (TSK_SUCCESS, set_thost (calls [Pth_attr p; Pth_destroy p] (thost s)) s).
Proof. rewrite /calls (app_assoc _ [Pth_attr p] [Pth_destroy p]). reflexivity. Qed.
Lemma delete_body_run s p t id m' :
  infos s !! p = Some t → task_id t = id → tsk_node_del p s = Some (tt, set_tnodes m' s) →
  (deinit_tsk p;; tsk_node_del p;; t ← info_ld p;
   match exit_routine t with Some r => tl_emit (Tl_exit r) | None => mret tt end;;
   on_thost (tsk_cancel (task_id t));; tsk_dealloc p;; mret TSK_SUCCESS) s =
  Some (TSK_SUCCESS, set_thost (calls [Pth_attr p; Pth_destroy p; Pth_cancel id] (thost s))
    (set_tl_trace (tl_trace s ++ exit_call t) (without s p m'))).
Proof.
  intros Ht <- Hd. rewrite (bind_run _ _ _ _ _ (deinit_run s p)). set (h1 := calls _ _).
  assert (Hd1 : tsk_node_del p (set_thost h1 s) = Some (tt, set_tnodes m' (set_thost h1 s))).
  { revert Hd. rewrite /tsk_node_del /on_tnodes /zoom /=. destruct (list_del _ _) as [[[] m1]|]; [|done].
    intros [= Hm]. by rewrite Hm. }
  rewrite (bind_run _ _ _ _ _ Hd1). rewrite (bind_run _ _ _ t (set_tnodes m' (set_thost h1 s))); [|by apply info_ld_run].
  set (s2 := set_tnodes m' (set_thost h1 s)).
  rewrite (bind_run _ _ s2 tt (set_tl_trace (tl_trace s ++ exit_call t) s2)); last first.
  { rewrite /exit_call. destruct (exit_routine t); [done|]. by rewrite app_nil_r. }
  rewrite (bind_run _ _ _ _ _ (on_thost_run _ _ _ _ eq_refl)).
  erewrite (bind_run (tsk_dealloc p)); [|apply tsk_dealloc_run; by exists t].
  rewrite /without /calls /=. do 3 f_equal. by rewrite -app_assoc.
Qed.

(** What [task_create] leaves: the filled block, not yet in the list. *)
Definition created_info (name : string) (id prio alg stk : Z) (start exit : option positive) (arg : Z) : tmtask :=
  MkTmtask (cstr (String.substring 0 TSK_NAME name)) id 0 (MkAttr stk 0 alg) 0 TSK_NOT_CREATED stk prio alg NONE NONE start exit arg.
Lemma lnx_create_run s name pr alg stk start exit arg p id :
  MIN_THREAD_STACK_SIZE ≤ stk → (TSK_NAME ≤ String.length name)%nat →
  tenv_calloc (n_talloc s) = Some p → penv_create (n_pcreate (thost s)) = Some id →
  ∃ s', task_create name pr alg stk start exit arg s = Some ((TSK_SUCCESS, Some id), s') ∧
    infos s' = <[p := created_info name id pr alg stk start exit arg]> (infos s) ∧
    tnodes s' = <[T_tsk p := LH T_null T_null]> (tnodes s) ∧ tl_trace s' = tl_trace s ∧
    g_tsks_crtd s' = s32 (g_tsks_crtd s + 1) ∧ n_talloc s' = S (n_talloc s) ∧
    pth_trace (thost s') = pth_trace (thost s) ++ [Pth_attr p; Pth_init p; Pth_create p] ∧ pth_id (thost s') = pth_id (thost s) ∧
    n_pcreate (thost s') = S (n_pcreate (thost s)).
Proof.
  intros Hstk Hlen Hp Hid. rewrite (task_create_start _ _ _ _ _ _ _ _ _ Hstk Hlen Hp).
  set (t1 := filled_info _ _ _ _ _ _ _). set (s2 := with_info p t1 s).
  set (t2 := set_tsk_attr (MkAttr stk 0 alg) t1).
  set (s3 := set_infos (<[p := t2]> (infos s)) (set_thost (calls [Pth_attr p; Pth_init p] (thost s)) s2)).
  rewrite (bind_run (init_tsk p) _ s2 TSK_SUCCESS s3); last first.
  { rewrite /init_tsk /=. rewrite /lnx_init_tsk_attr.
    assert (Hm : (on_thost (pth_emit (Pth_attr p));; info_mod (λ t, set_tsk_attr (MkAttr (tm_stksze t) 0 (tm_schedalgo t)) t) p;; mret TSK_SUCCESS) s2 =
      Some (TSK_SUCCESS, set_infos (<[p := t2]> (infos s)) (set_thost (calls [Pth_attr p] (thost s)) s2))).
    { rewrite (bind_run _ _ _ _ _ (on_thost_run _ _ _ _ eq_refl)).
      erewrite bind_run; [|apply info_mod_run; by rewrite /= lookup_insert_eq]. by rewrite /= insert_insert_eq. }
    rewrite (bind_run _ _ _ _ _ Hm) /lnx_init_tsk_mtx_and_cond. rewrite /s3 /calls (app_assoc _ [Pth_attr p] [Pth_init p]). reflexivity. }
  change (TSK_SUCCESS =? TSK_FAILURE) with false. cbv iota.
  rewrite (bind_run (modify (λ s0 : tlib pth, set_g_tsks_crtd (s32 (g_tsks_crtd s0 + 1)) s0)) _ s3 tt
    (set_g_tsks_crtd (s32 (g_tsks_crtd s + 1)) s3) eq_refl).
  set (s4 := set_g_tsks_crtd _ s3). assert (Hi4 : infos s4 !! p = Some t2) by by rewrite /= lookup_insert_eq.
  rewrite /= /lnx_start_task (bind_run _ _ _ _ _ (info_ld_run _ _ _ Hi4)).
  assert (Hc : pthread_create p (thost s4) = Some (Some id,
    MkPth (pth_id (thost s)) (S (n_pcreate (thost s))) (n_ptimes (thost s)) (pth_trace (thost s) ++ [Pth_attr p; Pth_init p; Pth_create p]))).
  { rewrite /pthread_create /mbind /M_bind /gets /modify /= Hid /=. rewrite /pth_emit /modify /=. by rewrite -app_assoc. }
  rewrite (bind_run _ _ _ _ _ (on_thost_run _ _ _ _ Hc)).
  erewrite bind_run; [|apply info_mod_run; by rewrite /= lookup_insert_eq].
  eexists. split; [reflexivity|]. cbn. rewrite insert_insert_eq. split_and!; done.
Qed.
End lnx.

(** ** On top of the scheduler *)
Section sched.
Context `{E : Env} `{TE : TlEnv}.
Implicit Types (s : tlib sys) (p i q k w : positive) (ps : list positive) (t : tmtask) (Q : qmap).

(** The block just before [spawn_task]. *)
Definition ready_info (name : string) (pr alg stk : Z) (start exit : option positive) (arg : Z) : tmtask :=
  set_tsk_attr (MkAttr stk pr alg) (filled_info name pr alg stk start exit arg).
Definition before_spawn i t s : tlib sys := set_g_tsks_crtd (s32 (g_tsks_crtd s + 1)) (with_info i t s).
Lemma sched_create_start s name pr alg stk start exit arg i :
  MIN_THREAD_STACK_SIZE ≤ stk → (TSK_NAME ≤ String.length name)%nat → tenv_calloc (n_talloc s) = Some i →
  task_create name pr alg stk start exit arg s =
    sched_start_task i (before_spawn i (ready_info name pr alg stk start exit arg) s).
Proof.
  intros Hstk Hlen Hi. rewrite (task_create_start _ _ _ _ _ _ _ _ _ Hstk Hlen Hi).
  set (s2 := with_info _ _ s). set (t2 := ready_info _ _ _ _ _ _ _).
  assert (Ha : sched_init_tsk_attr i s2 = Some (TSK_SUCCESS, with_info i t2 s)).
  { rewrite /sched_init_tsk_attr. erewrite bind_run; [|apply info_mod_run; by rewrite /= lookup_insert_eq].
    by rewrite /s2 /with_info /= insert_insert_eq. }
  rewrite (bind_run (init_tsk i) _ s2 TSK_SUCCESS (with_info i t2 s)); [reflexivity|].
  by rewrite /init_tsk /= (bind_run _ _ _ _ _ Ha).
Qed.
Lemma before_info i t s : infos (before_spawn i t s) !! i = Some t.
Proof. by rewrite /= lookup_insert_eq. Qed.

(** C36: on top of the scheduler, [task_create] with a stack of at least 20000 bytes and a name of at
    least 6 bytes makes the scheduler create the task, cut to 6 bytes of name; the control
    block is given back and never entered in the list; the id that the caller gets is
    the address of the task, not the id [post_event] and [task_cancel] look for.  When the scheduler
    has no memory, failure is reported and the control block is lost. *)
Theorem sched_task_create_correct s Q name pr alg stk w exit arg i :
  kgood (thost s) Q → MIN_THREAD_STACK_SIZE ≤ stk → 0 ≤ pr < MAX_PRIO → (TSK_NAME ≤ String.length name)%nat →
  nrp (thost s) < 2 ^ 31 - 2 → task_count (thost s) < 2 ^ 32 - 1 →
  tenv_calloc (n_talloc s) = Some i → infos s !! i = None → tnodes s !! T_tsk i = None →
  (∀ p, env_calloc (n_calloc (thost s)) = Some p → unused (thost s) p) →
  let name' := cstr (String.substring 0 TSK_NAME name) in
  match env_calloc (n_calloc (thost s)), env_calloc (S (n_calloc (thost s))) with
  | Some p, Some k => ∃ s', task_create name pr alg stk (Some w) exit arg s = Some ((TSK_SUCCESS, Some (Zpos p)), s') ∧
      infos s' = infos s ∧ tnodes s' = tnodes s ∧
      spawned p k w name' (MkAttr stk pr alg) arg (thost s) (thost s') ∧ kgood (thost s') (qapp p (N_rq pr) Q)
  | _, _ => ∃ s' t, task_create name pr alg stk (Some w) exit arg s = Some ((TSK_FAILURE, Some 0), s') ∧
      infos s' = <[i := t]> (infos s) ∧ tnodes s' = <[T_tsk i := LH T_null T_null]> (tnodes s) ∧ keeps (thost s) (thost s')
  end.
Proof.
  intros Hg Hstk Hpr Hlen Hn Hct Hi Hfi Hfn Hfr name'. rewrite (sched_create_start _ _ _ _ _ _ _ _ _ Hstk Hlen Hi).
  set (t := ready_info _ _ _ _ _ _ _). rewrite /sched_start_task (bind_run _ _ _ _ _ (info_ld_run _ _ _ (before_info i t s))).
  change (task_name t) with name'. change (tsk_attr t) with (MkAttr stk pr alg).
  change (start_routine t) with (Some w). change (tskarg t) with arg.
  pose proof (kg_inv _ _ Hg) as Hk. destruct (ki_cur _ _ Hk) as (c&tc&Hc&Htc).
  destruct (env_calloc (n_calloc (thost s))) as [p|] eqn:Hp; [destruct (env_calloc (S (n_calloc (thost s)))) as [k|] eqn:Hk1|].
  2,3: (pose proof (spawn_fails (thost s) name' (MkAttr stk pr alg) (Some w) arg) as Hsf; rewrite Hp in Hsf;
    destruct (wp_inv _ _ _ (Hsf Hfr ltac:(auto))) as (o&y&Hr&->&Hkeep); rewrite (bind_run _ _ _ _ _ (on_thost_run _ (before_spawn i t s) _ _ Hr));
    eexists _, t; split; [reflexivity|done]).
  destruct (Hfr p eq_refl) as (F1&_).
  destruct (wp_inv _ _ _ (spawn_task_run (thost s) Q name' (MkAttr stk pr alg) w arg p k c tc (ki_queues _ _ Hk) Hc Htc
    (ki_imm _ _ Hk) Hp Hk1 F1 Hpr ltac:(cbn; rewrite /MIN_THREAD_STACK_SIZE in Hstk; lia))) as (o&y&Hr&->&Hsp&Hq).
  rewrite (bind_run _ _ _ _ _ (on_thost_run _ (before_spawn i t s) _ _ Hr)). cbn [ptr_val Z.eqb].
  erewrite (bind_run (tsk_dealloc i)); [|apply tsk_dealloc_run; eexists; exact (before_info i t s)].
  eexists. split; [reflexivity|]. cbn. rewrite !delete_insert_id //. split_and!; [done|done|done|].
  exact (spawned_good (thost s) Q y p k w name' (MkAttr stk pr alg) arg Hg Hsp Hq F1 Hpr Hn Hct).
Qed.
End sched.

(** ** Names are cut *)
Lemma cstr_length b : (String.length (cstr b) ≤ String.length b)%nat.
Proof. induction b as [|c b IH]; cbn; [done|]. destruct (Ascii.eqb c Ascii.zero); cbn; lia. Qed.
Lemma substring_length n b : (String.length (String.substring 0 n b) ≤ n)%nat.
Proof. revert n. induction b as [|c b IH]; intros [|n]; cbn; [lia..|]. specialize (IH n). lia. Qed.
Lemma name_length b : (String.length (cstr (String.substring 0 TSK_NAME b)) ≤ TSK_NAME)%nat.
Proof. etrans; [apply cstr_length|apply substring_length]. Qed.
Lemma registered_new {H} (s s1 : tlib H) ps p t :
  registered s ps → infos s !! p = None → infos s1 = <[p := t]> (infos s) →
  tnodes s1 = <[T_tsk p := LH T_null T_null]> (tnodes s) → p ∉ ps ∧ registered s1 ps.
Proof.
  intros [H1 H2 H3] Hp Hi Ht. assert (Hps : p ∉ ps) by (intros [? Hx]%H2; congruence). split; [done|].
  split; rewrite ?Hi ?Ht.
  - eapply dll_frame, H1. intros n Hn. apply lookup_insert_ne. intros <-.
    apply elem_of_cons in Hn as [Hn|(q&[= <-]&Hq)%list_elem_of_fmap]; done.
  - intros q Hq%H2. rewrite lookup_insert_is_Some'. by right.
  - intros q [<-|Hq]%lookup_insert_is_Some'; [by rewrite lookup_insert_eq|]. apply lookup_insert_is_Some'. right. by apply H3.
Qed.

Section lnx_spec.
Context `{PE : PthEnv} `{TE : TlEnv}.
Implicit Types (s : tlib pth) (p q : positive) (ps : list positive) (t : tmtask) (h : pth).

(** What another thread sees. *)
Definition as_thread (id : Z) s : tlib pth := set_thost (MkPth id (n_pcreate (thost s)) (n_ptimes (thost s)) (pth_trace (thost s))) s.
Definition started_info (id now : Z) t : tmtask := set_tm_state TSK_RUNNING (set_tsk_strt_tk now (set_tsk_pid (penv_gettid id) t)).
Lemma tsk_wrap_run s ps p id t r :
  registered s ps → p ∉ ps → infos s !! p = Some t → start_routine t = Some r →
  ∃ s2 now, tsk_wrap p (as_thread id s) = Some (tt, s2) ∧ registered s2 (p :: ps) ∧
    infos s2 = <[p := started_info id now t]> (infos s) ∧ tl_trace s2 = tl_trace s ++ [Tl_start r (tskarg t)].
Proof.
  intros Hr Hp Ht Hst. rewrite /tsk_wrap. set (s0 := as_thread id s).
  set (h1 := MkPth id (n_pcreate (thost s)) (S (n_ptimes (thost s))) (pth_trace (thost s))).
  set (now := penv_times (n_ptimes (thost s))).
  rewrite (bind_run _ _ _ _ _ (on_thost_run lnx_get_tsk_pid s0 (penv_gettid id) (thost s0) eq_refl)).
  erewrite bind_run; [|apply info_mod_run; exact Ht].
  erewrite (bind_run (on_thost tm_times)); [|apply (on_thost_run _ _ now h1); reflexivity].
  erewrite bind_run; [|apply info_mod_run; by rewrite /= lookup_insert_eq].
  erewrite bind_run; [|apply info_mod_run; by rewrite /= lookup_insert_eq].
  match goal with |- context [(tsk_node_add p ≫= _) ?x] => set (s1 := x) end. set (t1 := started_info id now t).
  assert (Hi1 : infos s1 = <[p := t1]> (infos s)) by (rewrite /s1 /= !insert_insert_eq; done).
  destruct (registered_add s1 ps p) as (m'&Hadd&Hreg); [|done|by rewrite Hi1 lookup_insert_eq|].
  { apply (registered_same s); [done|done|]. rewrite Hi1. apply elem_of_dom_2 in Ht. rewrite dom_insert_L. set_solver. }
  rewrite (bind_run _ _ _ _ _ Hadd). set (s3 := set_tnodes m' s1) in *.
  assert (Hl : info_ld p s3 = Some (t1, s3)) by (apply info_ld_run; change (infos s3) with (infos s1); by rewrite Hi1 lookup_insert_eq).
  rewrite (bind_run _ _ _ _ _ Hl). rewrite (bind_run (liftO _) _ s3 r s3); [|by rewrite /= Hst].
  exists (set_tl_trace (tl_trace s ++ [Tl_start r (tskarg t)]) s3), now.
  split; [done|]. split; [by apply (registered_same s3)|]. split; [exact Hi1|done].
Qed.

(** C37: a task that was created with pthreads is in the list once its thread has started,
    under its id and the first 6 bytes of its name; it runs its routine; a
    longer name finds no task at all. *)
Theorem create_and_find s ps name pr alg stk r exit arg p id :
  registered s ps → MIN_THREAD_STACK_SIZE ≤ stk → (TSK_NAME ≤ String.length name)%nat →
  tenv_calloc (n_talloc s) = Some p → infos s !! p = None → penv_create (n_pcreate (thost s)) = Some id →
  ∃ s1 s2, task_create name pr alg stk (Some r) exit arg s = Some ((TSK_SUCCESS, Some id), s1) ∧
    tsk_wrap p (as_thread id s1) = Some (tt, s2) ∧ registered s2 (p :: ps) ∧
    tl_trace s2 = tl_trace s ++ [Tl_start r arg] ∧
    get_tsk_info (cstr (String.substring 0 TSK_NAME name)) id s2 = Some (Some p, s2) ∧
    get_tsk_info_frm_id id s2 = Some (Some p, s2) ∧
    ((∀ q t, infos s !! q = Some t → (String.length (task_name t) ≤ TSK_NAME)%nat) →
     ∀ long id', (TSK_NAME < String.length long)%nat → get_tsk_info long id' s2 = Some (None, s2)).
Proof.
  intros Hr Hstk Hlen Hp Hfr Hid.
  destruct (lnx_create_run s name pr alg stk (Some r) exit arg p id) as (s1&Hrun&Hi&Ht&Htr&_&_&_&_); [done..|].
  destruct (registered_new s s1 ps p _ Hr Hfr Hi Ht) as [Hps Hr1].
  destruct (tsk_wrap_run s1 ps p id (created_info name id pr alg stk (Some r) exit arg) r) as (s2&now&Hw&Hr2&Hi2&Htr2);
    [done|done|by rewrite Hi lookup_insert_eq|done|].
  rewrite Hi insert_insert_eq in Hi2. set (t := started_info _ _ _) in Hi2.
  assert (Hhead : ∀ P, P t = true → first_info s2 P (p :: ps) = Some p).
  { intros P HP. rewrite /first_info filter_cons decide_True //. by rewrite /satisfies Hi2 lookup_insert_eq /= HP. }
  exists s1, s2. split; [done|]. split; [done|]. split; [done|]. split; [by rewrite Htr2 Htr|]. split; [|split].
  - rewrite (get_tsk_info_run _ _ _ _ Hr2) Hhead //. by rewrite /has_name_id /= String.eqb_refl Z.eqb_refl.
  - rewrite (get_tsk_info_frm_id_run _ _ _ Hr2) Hhead //. by rewrite /has_id /= Z.eqb_refl.
  - intros Hsh long id' Hl. rewrite (get_tsk_info_run _ _ _ _ Hr2).
    destruct (first_info _ _ _) as [q|] eqn:Hq; [|done]. apply first_info_Some in Hq as (_&t'&Ht'&HP).
    apply andb_prop in HP as [Hn%String.eqb_eq _]. rewrite Hi2 lookup_insert in Ht'. exfalso.
    case_decide; [injection Ht' as <-; pose proof (name_length name)|pose proof (Hsh _ _ Ht')]; rewrite -Hn /= in Hl; lia.
Qed.
End lnx_spec.

(** ** Deletion and events with pthreads *)
Section lnx_spec2.
Context `{PE : PthEnv} `{TE : TlEnv}.
Implicit Types (s : tlib pth) (p q : positive) (ps : list positive) (t : tmtask) (h : pth).

(** C38: [task_delete] reports failure and changes nothing when no task in the list has the
    name and the id, or when it is the caller; else it takes the first such task out of the list,
    calls its exit routine once, cancels its thread and gives its block back. *)
Theorem task_delete_correct s ps name id :
  registered s ps →
  match first_info s (has_name_id name id) ps with
  | None => task_delete name id s = Some (TSK_FAILURE, s)
  | Some p =>
      if id =? pth_id (thost s) then task_delete name id s = Some (TSK_FAILURE, s) else
      ∃ s' t, infos s !! p = Some t ∧ task_delete name id s = Some (TSK_SUCCESS, s') ∧
        registered s' (filter (λ q, q ≠ p) ps) ∧ infos s' = delete p (infos s) ∧
        tl_trace s' = tl_trace s ++ exit_call t ∧
        pth_trace (thost s') = pth_trace (thost s) ++ [Pth_attr p; Pth_destroy p; Pth_cancel id]
  end.
Proof.
  intros Hr. rewrite /task_delete (bind_run _ _ _ _ _ (get_tsk_info_run s ps name id Hr)).
  destruct (first_info _ _ _) as [p|] eqn:Hf; [|done]. apply first_info_Some in Hf as (Hp&t&Ht&HP).
  apply andb_prop in HP as [_ Hid%Z.eqb_eq].
  rewrite (bind_run (on_thost tsk_selfid) _ s (pth_id (thost s)) s); [|by destruct s].
  rewrite (bind_run _ _ _ _ _ (info_ld_run _ _ _ Ht)) Hid. destruct (id =? pth_id (thost s)); [done|].
  destruct (registered_del s ps p Hr Hp) as (m'&Hd&Hreg). eexists _, t. split; [done|].
  split; [exact (delete_body_run s p t id m' Ht Hid Hd)|]. split; [by apply Hreg|]. done.
Qed.

Lemma first_info_ext s s' P ps :
  (∀ q, q ∈ ps → P <$> infos s' !! q = P <$> infos s !! q) → first_info s' P ps = first_info s P ps.
Proof.
  intros HP. rewrite /first_info. f_equal. induction ps as [|q ps IH]; [done|].
  assert (Hq : satisfies s' P q ↔ satisfies s P q) by (rewrite /satisfies HP; [done|left]).
  rewrite !filter_cons IH; [|intros r Hr; apply HP; by right].
  destruct (decide (satisfies s' P q)), (decide (satisfies s P q)); tauto.
Qed.
Lemma emit_run s e : on_thost (pth_emit e) s = Some (tt, set_thost (calls [e] (thost s)) s).
Proof. done. Qed.
Lemma calls_calls es es' h : calls es' (calls es h) = calls (es ++ es') h.
Proof. by rewrite /calls /= -app_assoc. Qed.
(** The body of [evt_snd], and a pass of [evt_rx] that finds an event or waits. *)
Lemma evt_body_run s p t e :
  infos s !! p = Some t →
  (on_thost (pth_emit (Pth_lock p));; info_mod (λ t, set_prev_evt (curr_evt t) t) p;;
   info_mod (λ t, set_curr_evt (Z.lor (curr_evt t) e) t) p;;
   on_thost (pth_emit (Pth_signal p));; on_thost (pth_emit (Pth_unlock p))) s =
  Some (tt, set_infos (<[p := set_curr_evt (Z.lor (curr_evt t) e) (set_prev_evt (curr_evt t) t)]> (infos s))
    (set_thost (calls [Pth_lock p; Pth_signal p; Pth_unlock p] (thost s)) s)).
Proof.
  intros Ht. rewrite (bind_run _ _ _ _ _ (emit_run s (Pth_lock p))). erewrite bind_run; [|apply info_mod_run; exact Ht].
  erewrite bind_run; [|apply info_mod_run; by rewrite /= lookup_insert_eq].
  rewrite (bind_run _ _ _ _ _ (emit_run _ (Pth_signal p))) emit_run /=. rewrite insert_insert_eq !calls_calls. done.
Qed.
Lemma rx_pass_run s p t mask :
  infos s !! p = Some t →
  (on_thost (pth_emit (Pth_lock p));; evt_rx_check p mask) s =
  if truthy (Z.land (curr_evt t) mask)
  then Some (Some (curr_evt t), set_infos (<[p := set_curr_evt 0 t]> (infos s)) (set_thost (calls [Pth_lock p; Pth_unlock p] (thost s)) s))
  else Some (None, set_thost (calls [Pth_lock p; Pth_wait p] (thost s)) s).
Proof.
  intros Ht. rewrite (bind_run _ _ _ _ _ (emit_run s (Pth_lock p))) /evt_rx_check.
  erewrite bind_run; [|apply info_ld_run; exact Ht]. destruct (truthy _).
  - erewrite bind_run; [|apply info_mod_run; exact Ht]. rewrite (bind_run _ _ _ _ _ (emit_run _ (Pth_unlock p))) /= Z.land_0_r.
    by rewrite calls_calls.
  - rewrite (bind_run _ _ _ _ _ (emit_run _ (Pth_wait p))) /=. by rewrite calls_calls.
Qed.

(** C39: what was sent to a task arrives together, with the events that were pending before,
    as soon as one of them is waited for; afterwards nothing is pending and every
    [evt_rx] waits.  For an id that is not in the list [evt_rx] reports failure and
    [evt_snd] dereferences null. *)
Theorem events_arrive s ps id e mask :
  registered s ps →
  match first_info s (has_id id) ps with
  | None => evt_snd id e s = None ∧ evt_rx id mask s = Some (Some (TSK_FAILURE, None), s)
  | Some p => ∀ t, infos s !! p = Some t → Z.land (Z.lor (curr_evt t) e) mask ≠ 0 →
      ∃ s1 s2, evt_snd id e s = Some (tt, s1) ∧
        evt_rx id mask s1 = Some (Some (TSK_SUCCESS, Some (Z.lor (curr_evt t) e)), s2) ∧
        ∀ mask', ∃ s3, evt_rx id mask' s2 = Some (None, s3)
  end.
Proof.
  intros Hr. rewrite /evt_snd (bind_run _ _ _ _ _ (get_tsk_info_frm_id_run s ps id Hr)).
  destruct (first_info _ _ _) as [p|] eqn:Hf; last first.
  { split; [done|]. by rewrite /evt_rx (bind_run _ _ _ _ _ (get_tsk_info_frm_id_run s ps id Hr)) Hf. }
  intros t Ht Hm. rewrite (bind_run _ _ s p s eq_refl) (evt_body_run s p t e Ht).
  set (t1 := set_curr_evt _ _). set (s1 := set_infos _ _). set (t2 := set_curr_evt 0 t1).
  assert (Hrx : ∀ t' h mask', task_id t' = task_id t →
    evt_rx id mask' (set_infos (<[p := t']> (infos s)) (set_thost h s)) =
    (r ← (on_thost (pth_emit (Pth_lock p));; evt_rx_check p mask');
     mret (match r with Some e => Some (TSK_SUCCESS, Some e) | None => None end))
      (set_infos (<[p := t']> (infos s)) (set_thost h s))).
  { intros t' h mask' Hid. set (s' := set_infos _ _). assert (Hr' : registered s' ps).
    { apply (registered_same s); [done|done|]. cbn. apply elem_of_dom_2 in Ht. rewrite dom_insert_L. set_solver. }
    rewrite /evt_rx (bind_run _ _ _ _ _ (get_tsk_info_frm_id_run _ _ id Hr')) (first_info_ext s).
    - rewrite Hf. apply bind_assoc2.
    - intros q _. rewrite /= lookup_insert. case_decide; [|done]. subst q. by rewrite Ht /= /has_id Hid. }
  exists s1, (set_infos (<[p := t2]> (infos s)) (set_thost (calls [Pth_lock p; Pth_unlock p] (thost s1)) s)).
  split; [done|]. split.
  - rewrite Hrx // (bind_run _ _ _ (Some (Z.lor (curr_evt t) e))
      (set_infos (<[p := t2]> (infos s)) (set_thost (calls [Pth_lock p; Pth_unlock p] (thost s1)) s))); [done|].
    rewrite (rx_pass_run _ p t1); [|by rewrite /= lookup_insert_eq]. rewrite (proj2 (truthy_true _) Hm).
    by rewrite /s1 /= insert_insert_eq.
  - intros mask'. rewrite Hrx //. set (s2 := set_infos _ _). exists (set_thost (calls [Pth_lock p; Pth_wait p] (thost s2)) s2).
    assert (Hi : infos s2 !! p = Some t2) by by rewrite /= lookup_insert_eq.
    by rewrite (bind_run _ _ _ _ _ (rx_pass_run s2 p t2 mask' Hi)).
Qed.
End lnx_spec2.

(** ** On top of the scheduler nothing is ever in the list *)
Section never.
Context {H : Type}.
Implicit Types (s : tlib H).

(** [m] leaves the head of the list alone. *)
Definition head_kept {A} (m : M (tlib H) A) : Prop := ∀ s a s', m s = Some (a, s') → tnodes s' !! T_hd = tnodes s !! T_hd.
Lemma head_bind {A B} (m : M (tlib H) A) (k : A → M (tlib H) B) : head_kept m → (∀ a, head_kept (k a)) → head_kept (m ≫= k).
Proof.
  intros Hm Hk s b s'. rewrite /mbind /M_bind. destruct (m s) as [[a s1]|] eqn:E; [|done].
  intros Hr%Hk. by rewrite Hr (Hm _ _ _ E).
Qed.
Lemma head_ret {A} (a : A) : head_kept (mret a).
Proof. by intros s b s' [= _ <-]. Qed.
Lemma head_ub {A} : head_kept (ub : M (tlib H) A).
Proof. done. Qed.
Lemma head_gets {A} (f : tlib H → A) : head_kept (gets f).
Proof. by intros s b s' [= _ <-]. Qed.
Lemma head_modify (f : tlib H → tlib H) : (∀ s, tnodes (f s) !! T_hd = tnodes s !! T_hd) → head_kept (modify f).
Proof. intros Hf s b s' [= _ <-]. apply Hf. Qed.
Lemma head_liftO {A} (o : option A) : head_kept (liftO o).
Proof. intros s b s'. destruct o; [|done]. by intros [= _ <-]. Qed.
Lemma head_thost {A} (m : M H A) : head_kept (on_thost m).
Proof. intros s b s'. rewrite /on_thost /zoom. destruct (m (thost s)) as [[a h]|]; [|done]. by intros [= _ <-]. Qed.
End never.
Create HintDb kept discriminated.
#[local] Hint Resolve head_bind head_ret head_ub head_gets head_liftO head_thost : kept.
#[local] Hint Extern 1 (head_kept (modify _)) => apply head_modify; intros; cbn; rewrite ?lookup_insert_ne ?lookup_delete_ne //; done : kept.
#[local] Hint Extern 1 (head_kept (if _ then _ else _)) => case_match : kept.
#[local] Hint Extern 1 (head_kept (match _ with _ => _ end)) => case_match : kept.

Section never_sched.
Context `{E : Env} `{TE : TlEnv}.
Implicit Types (s : tlib sys).

Lemma head_info_mod f p : head_kept (H:=sys) (info_mod f p).
Proof. rewrite /info_mod /info_ld. eauto 10 with kept. Qed.
Lemma head_dealloc p : head_kept (H:=sys) (tsk_dealloc p).
Proof. rewrite /tsk_dealloc /info_ld. eauto 10 with kept. Qed.
Lemma head_create name pr alg stk start exit arg : head_kept (task_create (H:=sys) name pr alg stk start exit arg).
Proof.
  rewrite /task_create /validate_tsk_params /tsk_alloc /fill_tsk_info /init_tsk /tl_emit.
  cbn [init_tsk_attr init_tsk_mtx_and_cond start_task sched_port]. rewrite /sched_init_tsk_attr /sched_init_tsk_mtx_and_cond /sched_start_task.
  pose proof head_info_mod. pose proof head_dealloc. rewrite /info_ld.
  repeat first [apply head_bind; [|intros ?]|apply head_modify; intros; cbn; by rewrite ?lookup_insert_ne|case_match|by eauto with kept].
Qed.

(** A call of the library. *)
Inductive tl_call s s' : Prop :=
  | call_create name pr alg stk start exit arg r : task_create name pr alg stk start exit arg s = Some (r, s') → tl_call s s'
  | call_delete name id r : task_delete name id s = Some (r, s') → tl_call s s'
  | call_other {A} (m : M sys A) (a : A) : on_thost m s = Some (a, s') → tl_call s s'.

(** on top of the scheduler no task can be deleted: nothing that runs puts a block in
    the list, so [task_delete] reports failure, for every name and every id, whatever was created before. *)
Theorem sched_delete_never_succeeds s s' name id :
  registered s [] → rtc tl_call s s' → task_delete name id s' = Some (TSK_FAILURE, s').
Proof.
  intros Hr Hrtc. assert (Hd : tnodes s !! T_hd = Some (LH T_hd T_hd)).
  { destruct (rg_dll _ _ Hr) as [_ Hs]. cbn in Hs. rewrite /nxt /prv in Hs.
    destruct (tnodes s !! T_hd) as [[n q]|]; cbn in Hs; naive_solver. }
  assert (Hdel : ∀ z name id, tnodes z !! T_hd = Some (LH T_hd T_hd) → task_delete name id z = Some (TSK_FAILURE, z)).
  { intros z n i Hz. rewrite /task_delete /get_tsk_info. rewrite (bind_run _ _ z None z); [done|].
    rewrite (bind_run (on_tnodes _) _ z [] z); [done|]. rewrite /on_tnodes /zoom (list_for_each_spec (tnodes z) T_hd []).
    - by destruct z.
    - split; [apply NoDup_singleton|]. by rewrite /= /nxt /prv Hz. }
  apply Hdel. clear Hr. induction Hrtc as [|s1 s2 s3 H12 _ IH]; [done|]. apply IH. destruct H12 as [???????? Hc|?? r Hc|A m a Hc].
  - by rewrite (head_create _ _ _ _ _ _ _ _ _ _ Hc).
  - rewrite Hdel // in Hc. by injection Hc as _ <-.
  - by rewrite (head_thost _ _ _ _ Hc).
Qed.
End never_sched.

(** ** Runs of the library *)
Module TaskLibWitness.
Import Run States.
#[local] Instance demo_blocks : TlEnv := {| tenv_calloc k := Some (Pos.of_succ_nat (50 + k)) |}.
#[local] Instance demo_threads : PthEnv :=
  {| penv_create k := Some (1000 + Z.of_nat k); penv_gettid i := i + 1; penv_times k := Z.of_nat k |}.
Definition empty_list : gmap tnode (list_head tnode) := {[T_hd := LH T_hd T_hd]}.
Lemma empty_registered {H} (h : H) : registered (MkTlib H ∅ empty_list 0 0 [] h) [].
Proof.
  split; [split; [apply NoDup_singleton|by vm_compute]| |].
  - intros p Hp. by apply elem_of_nil in Hp.
  - intros p [t Ht]. cbn in Ht. by rewrite lookup_empty in Ht.
Qed.
(** The daemon runs; nothing was created. *)
Definition on_sched : tlib sys := MkTlib sys ∅ empty_list 0 0 [] asleep.
Definition on_pthreads : tlib pth := MkTlib pth ∅ empty_list 0 0 [] (MkPth 1 0 0 []).

Lemma sched_create_witness : ∃ s',
  task_create "Worker1" 2 0 20000 (Some 7%positive) None 5 on_sched = Some ((TSK_SUCCESS, Some 7), s') ∧
  kgood (thost s') (qapp 7 (N_rq 2) (queues_of asleep)).
Proof.
  assert (H := sched_task_create_correct on_sched (queues_of asleep) "Worker1" 2 0 20000 7 None 5 51 asleep_good).
  assert (E1 : env_calloc (n_calloc (thost on_sched)) = Some 7%positive) by (clear; by vm_compute).
  assert (E2 : env_calloc (S (n_calloc (thost on_sched))) = Some 8%positive) by (clear; by vm_compute).
  rewrite E1 E2 in H. destruct H as (s'&Hr&_&_&_&Hg); [clear; by vm_compute|clear; done|apply Nat.leb_le; clear; by vm_compute|clear; by vm_compute..| |].
  - intros p [= <-]. split; [clear; decide_now|]. split; clear; by vm_compute.
  - exists s'. exact (conj Hr Hg).
Defined.
Lemma sched_delete_witness : ∃ s', rtc tl_call on_sched s' ∧ task_delete "Worker" 7 s' = Some (TSK_FAILURE, s').
Proof.
  assert (Hc : ∃ r s', task_create "Worker1" 2 0 20000 (Some 7%positive) None 5 on_sched = Some (r, s')).
  { do 2 eexists. vm_compute. reflexivity. }
  destruct Hc as (r&s'&Hc). exists s'. assert (Hrtc : rtc tl_call on_sched s') by (eapply rtc_once, call_create, Hc).
  split; [exact Hrtc|]. exact (sched_delete_never_succeeds on_sched s' "Worker" 7 (empty_registered asleep) Hrtc).
Defined.

(** A task was created with pthreads and started. *)
Lemma create_find_witness : ∃ s2 : tlib pth, registered s2 [51%positive] ∧ get_tsk_info "Worker" 1000 s2 = Some (Some 51%positive, s2) ∧
  get_tsk_info "Worker1" 1000 s2 = Some (None, s2).
Proof.
  destruct (create_and_find on_pthreads [] "Worker1" 2 0 20000 7 None 5 51 1000 (empty_registered _))
    as (s1&s2&_&_&Hr&_&Hg&_&Hl); [clear; by vm_compute| |clear; by vm_compute..|].
  { apply Nat.leb_le. clear. by vm_compute. }
  exists s2. split; [exact Hr|]. split; [exact Hg|]. apply Hl.
  - intros q t Ht. cbn in Ht. by rewrite lookup_empty in Ht.
  - apply Nat.leb_le. clear. by vm_compute.
Defined.
Definition after_run {H A} (m : M (tlib H) A) (s : tlib H) : tlib H := match m s with Some (_, s') => s' | None => s end.
Definition one_task : tlib pth :=
  as_thread 1 (after_run (tsk_wrap 51) (as_thread 1000 (after_run (task_create "Worker1" 2 0 20000 (Some 7%positive) (Some 8%positive) 5) on_pthreads))).
Lemma one_registered : registered one_task [51%positive].
Proof.
  split.
  - split; [clear; decide_now|by vm_compute].
  - intros p ->%list_elem_of_singleton. clear. decide_now.
  - intros p [t Ht]. assert (Hd : p ∈ dom (infos one_task)) by by eapply elem_of_dom_2.
    assert (dom (infos one_task) = {[51%positive]}) as E by (clear; decide_now).
    rewrite E in Hd. apply elem_of_singleton in Hd as ->. clear. decide_now.
Qed.
Lemma task_delete_witness : ∃ s', task_delete "Worker" 1000 one_task = Some (TSK_SUCCESS, s') ∧
  registered s' [] ∧ tl_trace s' = tl_trace one_task ++ [Tl_exit 8].
Proof.
  assert (H := task_delete_correct one_task [51%positive] "Worker" 1000 one_registered).
  assert (E : first_info one_task (has_name_id "Worker" 1000) [51%positive] = Some 51%positive) by (clear; by vm_compute).
  rewrite E in H. change (1000 =? pth_id (thost one_task)) with false in H. cbv iota in H.
  destruct H as (s'&t&Ht&Hr&Hreg&_&Htr&_). exists s'. split; [exact Hr|]. split; [exact Hreg|].
  rewrite Htr. f_equal. revert Ht. clear. intros Ht. vm_compute in Ht. injection Ht as <-. reflexivity.
Defined.
Lemma events_witness : ∃ s1 s2, evt_snd 1000 6 one_task = Some (tt, s1) ∧ evt_rx 1000 2 s1 = Some (Some (TSK_SUCCESS, Some 6), s2).
Proof.
  assert (H := events_arrive one_task [51%positive] 1000 6 2 one_registered).
  assert (E : first_info one_task (has_id 1000) [51%positive] = Some 51%positive) by (clear; by vm_compute).
  rewrite E in H. destruct (H (default tmtask_zero (infos one_task !! 51%positive))) as (s1&s2&H1&H2&_);
    [clear; by vm_compute|clear; by vm_compute|]. exists s1, s2. exact (conj H1 H2).
Defined.
End TaskLibWitness.
