(* ===== verification/OsThreads.v ===== *)
(** * Leaving the scheduler for threads of the host, and coming back

    [switch_to_os_threading], [switch_back] and the idle task of src/core/sched.c,
    [create_os_thread] of switch_to_os.c and [io_get_next_non_empty_task_list] of
    iostream.c.  The pthread a task gets is a parameter; creating and cancelling one is
    recorded in the trace. *)

From S2P Require Import Prelude ListHead Task Signal Sched SchedInv SchedProps ThreadLib SchedSpec.
#[local] Open Scope Z_scope.

(** The thread that [pthread_create] makes for a task, unless it fails. *)
Class OsEnv := { env_ptid : positive → option Z }.

Definition set_ptid v t : tsk := ltac:(upd eta_tsk t ptid v).

Section OsThreads.
Context `{E : Env} `{OE : OsEnv}.

(** The thread's function: it goes on where the task stopped. *)
Definition os_thread (p : positive) : M sys unit := nlongjmp p.
Definition create_os_thread (p : positive) : M sys Z :=
  t ← tsk_ld p;
  match env_ptid p with
  | Some v => tsk_mod (set_ptid v) p;; emit (Ev_pthread_create p);; mret 0
  | None => mret (-1)
  end.

(** [while (++( *fd) < MAX_FDS)]. *)
Fixpoint io_next_loop (n : nat) (fd : Z) : M sys (option lnode * Z) :=
  if MAX_FDS <=? fd + 1 then mret (None, fd + 1) else
  match n with
  | 0%nat => ub
  | S n =>
      h ← io_hd (fd + 1);
      e ← onl (list_empty h);
      if negb e then mret (Some h, fd + 1) else io_next_loop n (fd + 1)
  end.
Definition io_get_next_non_empty_task_list (fd : Z) : M sys (option lnode * Z) :=
  io_next_loop (Z.to_nat MAX_FDS) fd.

(** [list_for_each (pnode, head)] with a body that leaves the list alone. *)
Fixpoint walk (body : positive → M sys unit) (nodes : list lnode) : M sys unit :=
  match nodes with
  | [] => mret tt
  | n :: nodes => p ← liftO (list_entry_tsk n); body p;; walk body nodes
  end.
Fixpoint rq_walk (body : positive → M sys unit) (n : nat) (pr : Z) : M sys unit :=
  match n with
  | 0%nat => mret tt
  | S n =>
      h ← rq_hd pr;
      e ← onl (list_empty h);
      when (negb e) (nodes ← onl (list_for_each h); walk body nodes);;
      rq_walk body n (pr + 1)
  end.
(** [while ((head = io_get_next_non_empty_task_list (&fd)))]. *)
Fixpoint io_walk (body : positive → M sys unit) (n : nat) (fd : Z) : M sys unit :=
  '(h, fd) ← io_get_next_non_empty_task_list fd;
  match h with
  | None => mret tt
  | Some h =>
      match n with
      | 0%nat => ub
      | S n => nodes ← onl (list_for_each h); walk body nodes;; io_walk body n fd
      end
  end.

Definition thread_unless_parent (p : positive) : M sys unit :=
  r ← gets parent; when (bool_decide (Some p ≠ r)) (create_os_thread p;; mret tt).
Definition thread_unless_main (p : positive) : M sys unit :=
  c ← gets current;
  r ← gets parent;
  when (bool_decide (Some p ≠ c ∧ Some p ≠ r)) (create_os_thread p;; mret tt).

(** Up to the [nlongjmp] to the task of [main]; the end of the function runs in the new
    thread of the current task. *)
Definition switch_to_os_threading : M sys unit :=
  os ← gets os_sched_enabled;
  if truthy os then mret tt else
  signals_block SIGALRM;;
  signals_block SIGIO;;
  modify (set_os_sched_enabled 1);;
  i ← gets idle;
  c ← gets current;
  when (bool_decide (i ≠ c)) (i ← nonnull i; create_os_thread i;; mret tt);;
  nodes ← onl (list_for_each N_wq);
  walk thread_unless_parent nodes;;
  n ← gets nrp;
  when (truthy n) (rq_walk thread_unless_main (Z.to_nat MAX_PRIO) 0);;
  io_walk thread_unless_main (Z.to_nat MAX_FDS) (-1);;
  c ← cur;
  tsk_mod (set_regs (JB_at in_switch_to_os_threading)) c;;
  create_os_thread c;;
  r ← gets parent;
  r ← nonnull r;
  nlongjmp r.
Definition switched_resume : M sys unit := signals_unblock SIGIO;; signals_unblock SIGALRM.

Definition cancel_other (p : positive) : M sys unit :=
  c ← gets current;
  when (bool_decide (Some p ≠ c)) (t ← tsk_ld p; emit (Ev_pthread_cancel (ptid t))).
Definition set_switch_back : M sys unit := modify (set_switch_bk 1).
(** The loop over the descriptors runs while there is no list: its body
    dereferences null. *)
Definition switch_back : M sys unit :=
  signals_block SIGALRM;;
  signals_block SIGIO;;
  modify (set_os_sched_enabled 0);;
  nodes ← onl (list_for_each N_wq);
  walk cancel_other nodes;;
  n ← gets nrp;
  when (truthy n) (rq_walk cancel_other (Z.to_nat MAX_PRIO) 0);;
  '(h, _) ← io_get_next_non_empty_task_list (-1);
  (match h with None => ub | Some _ => mret tt end);;
  i ← gets idle;
  c ← gets current;
  when (bool_decide (i ≠ c)) (i ← nonnull i; t ← tsk_ld i; emit (Ev_pthread_cancel (ptid t)));;
  signals_unblock SIGALRM;;
  signals_unblock SIGIO.

(** One turn of the loop of [idle_task], after its [nanosleep]; when [schedule] switches,
    the rest belongs to a later turn. *)
Definition idle_task_turn : M sys unit :=
  n ← gets sched_need;
  when (truthy n) (i ← gets idle; i ← nonnull i; tsk_mod (set_state TASK_INTERRUPTIBLE) i;; schedule);;
  b ← gets switch_bk;
  when (truthy b) (switch_back;; modify (set_switch_bk 0)).
End OsThreads.

(** ** The walks over the queues *)
Definition in_order_from (f : Z → lnode) (Q : qmap) (i n : Z) : list positive := in_order f Q i (n - i).
Lemma in_order_nil f Q i n : n ≤ i → in_order_from f Q i n = [].
Proof. intros Hn. by rewrite /in_order_from /in_order seqZ_nil; [|lia]. Qed.
Lemma in_order_step f Q i n : i < n → in_order_from f Q i n = Q (f i) ++ in_order_from f Q (i + 1) n.
Proof.
  intros Hn. rewrite /in_order_from /in_order seqZ_cons; [|lia]. cbn. do 3 f_equal; lia.
Qed.

Section walks.
Context `{E : Env}.
(** What holds when the events [es] have been recorded. *)
Context (Q : qmap) (LK : gset positive) (J : list event_t → sys → Prop).
Context (body : positive → M sys unit) (ev : positive → list event_t).
Context (HJ : ∀ es s, J es s → sys_queues s Q ∧ dom (locks s) = LK).
Context (Hbody : ∀ es s p, J es s → is_Some (tasks s !! p) → wp (body p) (λ _, J (es ++ ev p)) s).
Implicit Types (s : sys) (es : list event_t) (ps : list positive) (fd pr : Z) (n : nat).

Lemma walk_run es s h ps :
  J es s → is_head LK h → (∀ p, p ∈ ps → p ∈ Q h) → wp (walk body (N_tsk <$> ps)) (λ _, J (es ++ (ps ≫= ev))) s.
Proof using Hbody HJ.
  revert es s. induction ps as [|p ps IH]; intros es s Hs Hh Hps; cbn [fmap list_fmap walk].
  { apply wp_ret. by rewrite app_nil_r. }
  rewrite /wp (bind_run (liftO (list_entry_tsk (N_tsk p))) _ s p s eq_refl). destruct (HJ _ _ Hs) as [Hq HL].
  apply wp_bind. eapply wp_mono; [apply (Hbody es); [done|]|].
  - apply elem_of_dom, (q_task _ _ _ _ Hq h); [by rewrite HL|]. apply Hps. left.
  - intros [] s1 Hs1. cbn. rewrite app_assoc. apply IH; [done|done|]. intros q Hq'. apply Hps. by right.
Qed.
Lemma queue_run es s h :
  J es s → is_head LK h → wp (nodes ← onl (list_for_each h); walk body nodes) (λ _, J (es ++ (Q h ≫= ev))) s.
Proof using Hbody HJ.
  intros Hs Hh. destruct (HJ _ _ Hs) as [Hq HL].
  rewrite /wp (bind_run _ _ _ _ _ (queue_walk_run s Q h Hq ltac:(by rewrite HL))).
  by apply (walk_run es s h).
Qed.
Lemma rq_walk_run es s pr n :
  J es s → 0 ≤ pr → pr + Z.of_nat n = MAX_PRIO →
  wp (rq_walk body n pr) (λ _, J (es ++ (in_order_from N_rq Q pr MAX_PRIO ≫= ev))) s.
Proof using Hbody HJ.
  revert es s pr. induction n as [|n IH]; intros es s pr Hs Hpr Hn; cbn [rq_walk].
  { apply wp_ret. rewrite in_order_nil; [by rewrite app_nil_r|lia]. }
  assert (Hh : is_head LK (N_rq pr)) by (cbn; lia). destruct (HJ _ _ Hs) as [Hq HL].
  assert (Hhd : rq_hd pr s = Some (N_rq pr, s)) by (rewrite /rq_hd decide_True //; lia).
  rewrite /wp (bind_run _ _ _ _ _ Hhd).
  rewrite (bind_run _ _ _ _ _ (queue_empty_run s Q _ Hq ltac:(by rewrite HL))).
  rewrite in_order_step; [|lia]. rewrite bind_app app_assoc. apply wp_bind.
  eapply (wp_mono _ (λ _, J (es ++ (Q (N_rq pr) ≫= ev)))).
  - apply wp_when; intros Hb; [by apply queue_run|].
    apply negb_false_iff, bool_decide_eq_true in Hb. by rewrite Hb app_nil_r.
  - intros [] s1 Hs1. apply IH; [done|lia|lia].
Qed.

Lemma io_next_run s fd n :
  sys_queues s Q → -1 ≤ fd → MAX_FDS - (fd + 1) ≤ Z.of_nat n →
  ∃ o j, io_next_loop n fd s = Some ((o, j), s) ∧
    match o with
    | None => in_order_from N_io Q (fd + 1) MAX_FDS = []
    | Some h => h = N_io j ∧ fd < j < MAX_FDS ∧ Q (N_io j) ≠ [] ∧
        in_order_from N_io Q (fd + 1) MAX_FDS = in_order_from N_io Q j MAX_FDS
    end.
Proof.
  intros Hq. revert fd. induction n as [|n IH]; intros fd Hfd Hn; cbn [io_next_loop].
  { rewrite (proj2 (Z.leb_le _ _)); [|lia]. do 2 eexists. split; [done|]. apply in_order_nil. lia. }
  destruct (Z.leb_spec MAX_FDS (fd + 1)) as [Hge|Hlt].
  { do 2 eexists. split; [done|]. by apply in_order_nil. }
  assert (Hhd : io_hd (fd + 1) s = Some (N_io (fd + 1), s)) by (rewrite /io_hd decide_True //; lia).
  rewrite (bind_run _ _ _ _ _ Hhd).
  rewrite (bind_run _ _ _ _ _ (queue_empty_run s Q (N_io (fd + 1)) Hq ltac:(cbn; lia))).
  case_bool_decide as Hb; cbn [negb].
  - destruct (IH (fd + 1) ltac:(lia) ltac:(lia)) as (o&j&Hrun&Ho). exists o, j. split; [done|].
    rewrite in_order_step // Hb. destruct o; [|done]. destruct Ho as (?&?&?&?). split_and!; [done|lia|lia|done|done].
  - exists (Some (N_io (fd + 1))), (fd + 1). split; [done|]. split_and!; [done|lia|lia|done|done].
Qed.
Lemma io_walk_run es s fd n :
  J es s → -1 ≤ fd < MAX_FDS → MAX_FDS - (fd + 1) ≤ Z.of_nat n →
  wp (io_walk body n fd) (λ _, J (es ++ (in_order_from N_io Q (fd + 1) MAX_FDS ≫= ev))) s.
Proof using Hbody HJ.
  revert es s fd. induction n as [|n IH]; intros es s fd Hs Hfd Hn; cbn [io_walk];
    destruct (HJ _ _ Hs) as [Hq HL];
    destruct (io_next_run s fd (Z.to_nat MAX_FDS) Hq ltac:(lia) ltac:(rewrite /MAX_FDS in Hfd |- *; lia)) as ([h|]&j&Hrun&Ho);
    rewrite /wp (bind_run _ _ _ _ _ Hrun).
  1: { destruct Ho as (_&Hj&_). cbn [Z.of_nat] in Hn. lia. }
  1,3: apply wp_ret; by rewrite Ho app_nil_r.
  destruct Ho as (->&Hj&_&->). rewrite in_order_step; [|lia]. rewrite bind_app app_assoc.
  assert (Hh : is_head LK (N_io j)) by (cbn; lia).
  change (wp ((nodes ← onl (list_for_each (N_io j)); walk body nodes;; io_walk body n j))
    (λ _, J ((es ++ (Q (N_io j) ≫= ev)) ++ (in_order_from N_io Q (j + 1) MAX_FDS ≫= ev))) s).
  rewrite /wp (bind_run _ _ _ _ _ (queue_walk_run s Q (N_io j) Hq ltac:(by rewrite HL))). apply wp_bind.
  eapply wp_mono; [apply (walk_run es s (N_io j) (Q (N_io j)) Hs Hh); done|].
  intros [] s1 Hs1. apply IH; [done|lia|lia].
Qed.
End walks.

(** ** What the switch does *)
Section switch.
Context `{E : Env} `{OE : OsEnv}.
Implicit Types (s : sys) (Q : qmap) (p c i r : positive) (es : list event_t).

Definition thread_of p : list event_t := match env_ptid p with Some _ => [Ev_pthread_create p] | None => [] end.
(** Since [s0], only threads were made. *)
Record threads s0 es s : Prop := {
  th_trace : trace s = trace s0 ++ es;
  th_lst : lst s = lst s0;
  th_locks : locks s = locks s0;
  th_current : current s = current s0;
  th_parent : parent s = parent s0;
  th_idle : idle s = idle s0;
  th_nrp : nrp s = nrp s0;
  th_blocked : blocked s = blocked s0;
  th_os : os_sched_enabled s = os_sched_enabled s0;
  th_tasks p : regs <$> tasks s !! p = regs <$> tasks s0 !! p
}.
Lemma threads_dom s0 es s : threads s0 es s → dom (tasks s) = dom (tasks s0).
Proof.
  intros Ht. apply set_eq. intros p. rewrite !elem_of_dom. pose proof (th_tasks _ _ _ Ht p) as Hp.
  destruct (tasks s !! p), (tasks s0 !! p); try done; split; intros []; eauto.
Qed.
Lemma threads_queues s0 es s Q : sys_queues s0 Q → threads s0 es s → sys_queues s Q ∧ dom (locks s) = dom (locks s0).
Proof.
  intros Hq Ht. rewrite /sys_queues (threads_dom _ _ _ Ht) (th_lst _ _ _ Ht) (th_locks _ _ _ Ht). done.
Qed.
Lemma thread_create_run s0 es s p :
  threads s0 es s → is_Some (tasks s !! p) → wp (create_os_thread p) (λ _, threads s0 (es ++ thread_of p)) s.
Proof.
  intros [H1 H2 H3 H4 H5 H6 H7 H8 H9 H10] [t Ht]. rewrite /create_os_thread /thread_of. sys_steps.
  destruct (env_ptid p) as [v|]; sys_steps; [|by rewrite app_nil_r].
  split; try done; cbn; [by rewrite H1 app_assoc|]. intros q. rewrite -H10 lookup_insert. case_decide; [|done].
  subst. by rewrite Ht.
Qed.
Lemma unless_parent_run s0 es s p :
  threads s0 es s → is_Some (tasks s !! p) →
  wp (thread_unless_parent p)
    (λ _, threads s0 (es ++ if bool_decide (Some p ≠ parent s0) then thread_of p else [])) s.
Proof.
  intros Hs Hp. rewrite /thread_unless_parent. sys_steps. rewrite (th_parent _ _ _ Hs). case_bool_decide; cbn [when].
  - apply wp_bind. eapply wp_mono; [by apply (thread_create_run s0 es s p)|]. intros z s1 H1. by apply wp_ret.
  - apply wp_ret. by rewrite app_nil_r.
Qed.
Lemma unless_main_run s0 es s p :
  threads s0 es s → is_Some (tasks s !! p) →
  wp (thread_unless_main p)
    (λ _, threads s0 (es ++ if bool_decide (Some p ≠ current s0 ∧ Some p ≠ parent s0) then thread_of p else [])) s.
Proof.
  intros Hs Hp. rewrite /thread_unless_main. sys_steps. rewrite (th_parent _ _ _ Hs) (th_current _ _ _ Hs).
  case_bool_decide; cbn [when].
  - apply wp_bind. eapply wp_mono; [by apply (thread_create_run s0 es s p)|]. intros z s1 H1. by apply wp_ret.
  - apply wp_ret. by rewrite app_nil_r.
Qed.
Lemma bind_filter (P : positive → Prop) `{!∀ p, Decision (P p)} (f : positive → list event_t) (ps : list positive) :
  (ps ≫= λ p, if bool_decide (P p) then f p else []) = filter P ps ≫= f.
Proof.
  induction ps as [|p ps IH]; [done|]. rewrite filter_cons bind_cons IH. case_bool_decide; [by rewrite decide_True|by rewrite decide_False].
Qed.

(** The current task becomes a thread and [main] goes on. *)
Definition switch_tail : M sys unit :=
  c ← cur;
  tsk_mod (set_regs (JB_at in_switch_to_os_threading)) c;;
  create_os_thread c;;
  r ← gets parent;
  r ← nonnull r;
  nlongjmp r.
Lemma switch_tail_run s c r tc tr :
  current s = Some c → parent s = Some r → tasks s !! c = Some tc → tasks s !! r = Some tr →
  (c = r ∨ regs tr ≠ JB_zero) →
  wp switch_tail (λ _ s', trace s' = trace s ++ thread_of c ∧ os_sched_enabled s' = os_sched_enabled s ∧
    blocked s' = blocked s ∧ ∃ t, tasks s' !! c = Some t ∧ regs t = JB_at in_switch_to_os_threading) s.
Proof.
  intros Hc Hr Htc Htr Hreg. rewrite /switch_tail. apply wp_bind. eapply wp_cur; [exact Hc|].
  apply wp_bind. eapply wp_tsk_mod; [exact Htc|]. set (tc5 := set_regs _ tc). set (s5 := set_tasks _ s).
  assert (Ht5 : tasks s5 !! c = Some tc5) by apply lookup_insert_eq.
  apply wp_bind. eapply wp_mono.
  { apply (thread_create_run s5 [] s5 c); [split; try done; by rewrite app_nil_r|by exists tc5]. }
  intros z s6 J6. rewrite /wp (bind_run (gets parent) _ s6 (Some r) s6); [|by rewrite /gets (th_parent _ _ _ J6) /= Hr].
  rewrite (bind_run (nonnull (Some r)) _ s6 r s6 eq_refl).
  assert (Hreg6 : ∀ p, regs <$> tasks s6 !! p =
    if decide (p = c) then Some (JB_at in_switch_to_os_threading) else regs <$> tasks s !! p).
  { intros p. rewrite (th_tasks _ _ _ J6). cbn. rewrite lookup_insert. by repeat case_decide; try congruence. }
  assert (Hgo : nlongjmp r s6 = Some (tt, s6)).
  { pose proof (Hreg6 r) as Hrr. rewrite Htr in Hrr. rewrite /nlongjmp /mbind /M_bind /tsk_ld.
    destruct (tasks s6 !! r) as [t6|]; [|by case_decide]. cbn in Hrr.
    assert (Hz : regs t6 ≠ JB_zero); [|by destruct (regs t6)].
    case_decide; injection Hrr as ->; [done|]. destruct Hreg as [Hreg|]; [congruence|done]. }
  rewrite Hgo. split; [by rewrite (th_trace _ _ _ J6)|]. split; [by rewrite (th_os _ _ _ J6)|].
  split; [by rewrite (th_blocked _ _ _ J6)|]. pose proof (Hreg6 c) as Hcc. rewrite decide_True // in Hcc.
  destruct (tasks s6 !! c) as [t6|]; [|done]. exists t6. by injection Hcc as Hcc.
Qed.

(** The tasks that get a thread, in the order in which they get it. *)
Definition thread_order s Q : list positive :=
  let other p := Some p ≠ current s ∧ Some p ≠ parent s in
  (if bool_decide (idle s ≠ current s) then option_list (idle s) else []) ++
  filter (λ p, Some p ≠ parent s) (Q N_wq) ++
  (if truthy (nrp s) then filter other (in_order N_rq Q 0 MAX_PRIO) else []) ++
  filter other (in_order N_io Q 0 MAX_FDS) ++
  option_list (current s).

Lemma switch_to_run s Q r tr :
  kinv s Q → os_sched_enabled s = 0 → parent s = Some r → tasks s !! r = Some tr →
  (current s = Some r ∨ regs tr ≠ JB_zero) →
  wp switch_to_os_threading (λ _ s', trace s' = trace s ++ (thread_order s Q ≫= thread_of) ∧
    os_sched_enabled s' = 1 ∧ {[SIGIO; SIGALRM]} ⊆ blocked s' ∧
    ∃ c tc, current s = Some c ∧ tasks s' !! c = Some tc ∧ regs tc = JB_at in_switch_to_os_threading) s.
Proof.
  intros Hk Hos Hr Htr Hreg. pose proof (ki_queues _ _ Hk) as Hq.
  destruct (ki_cur _ _ Hk) as (c&tc&Hc&Htc). destruct (ki_idle _ _ Hk) as (i&ti&Hi&Hti).
  rewrite /switch_to_os_threading. sys_steps. rewrite Hos. change (truthy 0) with false. cbv iota. sys_steps.
  cbn [idle current set_os_sched_enabled set_blocked]. set (s0 := set_os_sched_enabled 1 _).
  assert (T0 : threads s0 [] s0) by (split; try done; by rewrite app_nil_r).
  pose (J := threads s0). assert (HJ : ∀ es s1, J es s1 → sys_queues s1 Q ∧ dom (locks s1) = dom (locks s0)).
  { intros es s1. by apply threads_queues. }
  set (LK := dom (locks s0)) in *.
  set (e1 := (if bool_decide (idle s ≠ current s) then option_list (idle s) else []) ≫= thread_of).
  eapply (wp_mono _ (λ _, J e1)).
  { rewrite /e1 Hi Hc. apply wp_when; intros Hb; rewrite Hb; [|done]. 
    change (option_list (Some i) ≫= thread_of) with (thread_of i ++ []). rewrite app_nil_r.
    sys_steps. eapply wp_mono; [apply (thread_create_run s0 [] s0 i); [done|by exists ti]|]. intros z s1 H1. by apply wp_ret. }
  intros [] s1 J1. destruct (HJ _ _ J1) as [Hq1 HL1].
  rewrite /wp (bind_run _ _ _ _ _ (queue_walk_run s1 Q N_wq Hq1 I)). apply wp_bind.
  eapply wp_mono.
  { apply (walk_run Q LK J thread_unless_parent
      (λ p, if bool_decide (Some p ≠ parent s0) then thread_of p else []) HJ
      (λ es z p, unless_parent_run s0 es z p) e1 s1 N_wq (Q N_wq) J1 I). done. }
  intros [] s2 J2. rewrite bind_filter in J2. set (e2 := filter _ (Q N_wq) ≫= thread_of) in J2.
  rewrite /wp (bind_run (gets nrp) _ s2 (nrp s) s2);
    [|rewrite /gets (th_nrp _ _ _ J2); done].
  pose proof (λ es z p, unless_main_run s0 es z p) as Hmain.
  set (other p := Some p ≠ current s0 ∧ Some p ≠ parent s0).
  set (e3 := if truthy (nrp s) then filter other (in_order N_rq Q 0 MAX_PRIO) ≫= thread_of else []).
  apply wp_bind. eapply (wp_mono _ (λ _, J ((e1 ++ e2) ++ e3))).
  { rewrite /e3. apply wp_when; intros Hb; rewrite Hb; [|by rewrite app_nil_r].
    eapply wp_mono; [apply (rq_walk_run Q LK J _ _ HJ Hmain _ _ 0 (Z.to_nat MAX_PRIO) J2); done|].
    intros [] s3. rewrite bind_filter. done. }
  intros [] s3 J3. apply wp_bind.
  eapply wp_mono; [apply (io_walk_run Q LK J _ _ HJ Hmain _ _ (-1) (Z.to_nat MAX_FDS) J3); done|].
  intros [] s4 J4. rewrite bind_filter in J4.
  set (e4 := filter _ _ ≫= thread_of) in J4.
  assert (Hdom : ∀ p, is_Some (tasks s !! p) → is_Some (tasks s4 !! p)).
  { intros p. rewrite -!elem_of_dom (threads_dom _ _ _ J4). done. }
  destruct (Hdom c) as [tc4 Ht4]; [by exists tc|]. destruct (Hdom r) as [tr4 Hr4]; [by exists tr|].
  eapply wp_mono; [apply (switch_tail_run s4 c r tc4 tr4)|].
  - by rewrite (th_current _ _ _ J4).
  - by rewrite (th_parent _ _ _ J4).
  - done.
  - done.
  - destruct Hreg as [Hreg|Hreg]; [left; congruence|right]. pose proof (th_tasks _ _ _ J4 r) as Hrr.
    rewrite Hr4 in Hrr. cbn in Hrr. rewrite Htr in Hrr. by injection Hrr as ->.
  - intros [] s6 (Htr6&Hos6&Hbl6&t6&Ht6&Hre6). split; [|split; [|split]].
    + rewrite Htr6 (th_trace _ _ _ J4). change (trace s0) with (trace s).
      rewrite /thread_order !bind_app -!app_assoc. f_equal. rewrite -/e1. f_equal. rewrite /e2. f_equal.
      rewrite /e3. f_equal; [by destruct (truthy (nrp s))|]. rewrite /e4. f_equal. rewrite Hc. cbn.
      by rewrite app_nil_r.
    + by rewrite Hos6 (th_os _ _ _ J4).
    + rewrite Hbl6 (th_blocked _ _ _ J4). cbn. set_solver.
    + by exists c, t6.
Qed.

(** Every task that can run gets one thread. *)
Lemma in_order_NoDup (f : Z → lnode) l T LK Q (n : Z) :
  queues l T LK Q → (∀ x y : Z, f x = f y → x = y) → (∀ x, 0 ≤ x < n → is_head LK (f x)) → NoDup (in_order f Q 0 n).
Proof.
  intros Hq Hf Hh. apply NoDup_bind.
  - intros x y p Hx%elem_of_seqZ Hy%elem_of_seqZ H1 H2. apply Hf.
    by eapply (q_uniq _ _ _ _ Hq); [apply Hh; lia|apply Hh; lia|..].
  - intros x Hx%elem_of_seqZ. eapply queues_NoDup; [done|]. apply Hh. lia.
  - apply NoDup_seqZ.
Qed.
Definition can_run Q p : Prop :=
  p ∈ Q N_wq ∨ (∃ j, 0 ≤ j < MAX_PRIO ∧ p ∈ Q (N_rq j)) ∨ ∃ j, 0 ≤ j < MAX_FDS ∧ p ∈ Q (N_io j).
(** The current task and the idle task wait for nothing. *)
Record on_duty s Q c i r : Prop := {
  od_cur : current s = Some c;
  od_idle : idle s = Some i;
  od_parent : parent s = Some r;
  od_idle_free h : is_head (dom (locks s)) h → i ∉ Q h;
  od_cur_wq : c ∉ Q N_wq;
  od_cur_io j : 0 ≤ j < MAX_FDS → c ∉ Q (N_io j)
}.

Lemma once_each (c i r : positive) (W R F : list positive) :
  NoDup W → NoDup R → NoDup F → (∀ p, p ∈ W → p ∉ R) → (∀ p, p ∈ W → p ∉ F) → (∀ p, p ∈ R → p ∉ F) →
  i ∉ W → i ∉ R → i ∉ F → c ∉ W → c ∉ F →
  let other p := Some p ≠ Some c ∧ Some p ≠ Some r in
  let l := (if bool_decide (Some i ≠ Some c) then [i] else []) ++ filter (λ p, Some p ≠ Some r) W ++
    filter other R ++ filter other F ++ [c] in
  NoDup l ∧ ∀ p, p ∈ l ↔ p = c ∨ p = i ∨ p ≠ r ∧ (p ∈ W ∨ p ∈ R ∨ p ∈ F).
Proof.
  intros DW DR DF WR WF RF IW IR IF CW CF other l. split.
  - rewrite /l /other. repeat (apply NoDup_app; split; [|split; [intros p Hp|]]);
      try (by apply NoDup_filter); try apply NoDup_singleton;
      [by case_bool_decide; [apply NoDup_singleton|constructor]|..];
      rewrite ?list_elem_of_filter in Hp; rewrite ?elem_of_app ?list_elem_of_filter ?list_elem_of_singleton.
    + case_bool_decide as Hic; [|by apply elem_of_nil in Hp]. apply list_elem_of_singleton in Hp as ->. naive_solver.
    + destruct Hp as [_ Hp]. specialize (WR p Hp). specialize (WF p Hp).
      intros [[_ H]|[[_ H]| ->]]; done.
    + destruct Hp as [Ho Hp]. specialize (RF p Hp). intros [[_ H]| ->]; [done|]. by destruct Ho.
    + destruct Hp as [Ho Hp]. intros ->. by destruct Ho.
  - intros p. rewrite /l /other !elem_of_app !list_elem_of_filter list_elem_of_singleton.
    case_bool_decide as Hic; rewrite ?list_elem_of_singleton ?elem_of_nil;
      destruct (decide (p = c)) as [->|]; naive_solver.
Qed.

Lemma thread_order_spec s Q c i r :
  kgood s Q → on_duty s Q c i r →
  NoDup (thread_order s Q) ∧ ∀ p, p ∈ thread_order s Q ↔ p = c ∨ p = i ∨ p ≠ r ∧ can_run Q p.
Proof.
  intros [Hk Hn] [Hc Hi Hr Hif Hcw Hci]. pose proof (ki_queues _ _ Hk) as Hq.
  set (W := Q N_wq). set (R := in_order N_rq Q 0 MAX_PRIO). set (F := in_order N_io Q 0 MAX_FDS).
  assert (HR : (if truthy (nrp s) then filter (λ p, Some p ≠ current s ∧ Some p ≠ parent s) R else []) =
    filter (λ p, Some p ≠ current s ∧ Some p ≠ parent s) R).
  { destruct (truthy (nrp s)) eqn:Ht; [done|]. apply truthy_false in Ht. rewrite Hn /run_count in Ht.
    assert (R = []) as -> by (apply nil_length_inv; change (length R = 0%nat); change R with (run_order Q 0 MAX_PRIO); lia).
    done. }
  rewrite /thread_order HR Hc Hi Hr. clear HR.
  assert (DR : NoDup R) by (apply (in_order_NoDup N_rq _ _ _ _ _ Hq); [by intros ?? [=]|done]).
  assert (DF : NoDup F) by (apply (in_order_NoDup N_io _ _ _ _ _ Hq); [by intros ?? [=]|done]).
  assert (DW : NoDup W) by by apply (queues_NoDup _ _ _ _ N_wq Hq).
  assert (MR : ∀ p, p ∈ R ↔ ∃ j, 0 ≤ j < MAX_PRIO ∧ p ∈ Q (N_rq j)) by (intros p; apply in_order_elem).
  assert (MF : ∀ p, p ∈ F ↔ ∃ j, 0 ≤ j < MAX_FDS ∧ p ∈ Q (N_io j)) by (intros p; apply in_order_elem).
  assert (WR : ∀ p, p ∈ W → p ∉ R).
  { intros p Hw (j&Hj&Hp)%MR. by discriminate (q_uniq _ _ _ _ Hq N_wq (N_rq j) p I Hj Hw Hp). }
  assert (WF : ∀ p, p ∈ W → p ∉ F).
  { intros p Hw (j&Hj&Hp)%MF. by discriminate (q_uniq _ _ _ _ Hq N_wq (N_io j) p I Hj Hw Hp). }
  assert (RF : ∀ p, p ∈ R → p ∉ F).
  { intros p (j&Hj&Hp)%MR (j'&Hj'&Hp')%MF. by discriminate (q_uniq _ _ _ _ Hq (N_rq j) (N_io j') p Hj Hj' Hp Hp'). }
  assert (IW : i ∉ W) by by apply (Hif N_wq).
  assert (IR : i ∉ R) by (intros (j&Hj&Hp)%MR; by apply (Hif (N_rq j))).
  assert (IF : i ∉ F) by (intros (j&Hj&Hp)%MF; by apply (Hif (N_io j))).
  assert (CF : c ∉ F) by (intros (j&Hj&Hp)%MF; by apply (Hci j)).
  destruct (once_each c i r W R F) as [Hnd Hin]; [done..|]. split; [exact Hnd|].
  intros p. rewrite Hin MR MF. done.
Qed.

(** ** The way back *)
Definition cancel_of s p : list event_t :=
  match tasks s !! p with Some t => [Ev_pthread_cancel (ptid t)] | None => [] end.
(** The tasks whose threads are cancelled. *)
Definition cancelled s Q : list positive :=
  filter (λ p, Some p ≠ current s) (Q N_wq) ++
  (if truthy (nrp s) then filter (λ p, Some p ≠ current s) (in_order N_rq Q 0 MAX_PRIO) else []) ++
  (if bool_decide (idle s ≠ current s) then option_list (idle s) else []).
Definition logged s0 es s : Prop := s = set_trace (trace s0 ++ es) s0.

Lemma cancel_run s0 es s p :
  logged s0 es s → is_Some (tasks s !! p) →
  wp (cancel_other p) (λ _, logged s0 (es ++ if bool_decide (Some p ≠ current s0) then cancel_of s0 p else [])) s.
Proof.
  intros -> [t Ht]. cbn in Ht. rewrite /cancel_other /cancel_of Ht. sys_steps. cbn [current set_trace].
  case_bool_decide; cbn [when]; sys_steps; rewrite /logged ?app_nil_r //=. by rewrite app_assoc.
Qed.
Lemma switch_back_walks s0 s1 Q :
  kinv s0 Q → logged s0 [] s1 →
  wp (nodes ← onl (list_for_each N_wq); walk cancel_other nodes;; n ← gets nrp;
      when (truthy n) (rq_walk cancel_other (Z.to_nat MAX_PRIO) 0))
    (λ _, logged s0 ((filter (λ p, Some p ≠ current s0) (Q N_wq) ++
      (if truthy (nrp s0) then filter (λ p, Some p ≠ current s0) (in_order N_rq Q 0 MAX_PRIO) else [])) ≫= cancel_of s0)) s1.
Proof.
  intros Hk H1. pose proof (ki_queues _ _ Hk) as Hq. set (LK := dom (locks s0)).
  assert (HJ : ∀ es s, logged s0 es s → sys_queues s Q ∧ dom (locks s) = LK) by by intros es s ->.
  pose proof (λ es z p, cancel_run s0 es z p) as Hb. destruct (HJ _ _ H1) as [Hq1 _].
  rewrite /wp (bind_run _ _ _ _ _ (queue_walk_run s1 Q N_wq Hq1 I)). apply wp_bind.
  eapply wp_mono; [apply (walk_run Q LK _ _ _ HJ Hb [] s1 N_wq (Q N_wq) H1 I); done|].
  intros [] s2 H2. rewrite app_nil_l bind_filter in H2.
  rewrite /wp (bind_run (gets nrp) _ s2 (nrp s0) s2); [|by rewrite H2].
  rewrite bind_app. apply wp_when; intros Ht; rewrite Ht; [|by rewrite app_nil_r].
  eapply wp_mono; [apply (rq_walk_run Q LK _ _ _ HJ Hb _ s2 0 (Z.to_nat MAX_PRIO) H2); done|].
  intros [] s3. by rewrite bind_filter.
Qed.
Lemma bind_regroup {A B C} (a : M sys A) (b : A → M sys unit) (c : M sys B) (d : B → M sys unit) (k : M sys C) s :
  (x ← a; b x;; n ← c; d n;; k) s = ((x ← a; b x;; n ← c; d n);; k) s.
Proof.
  rewrite /mbind /M_bind. destruct (a s) as [[x s1]|]; [|done]. destruct (b x s1) as [[? s2]|]; [|done].
  by destruct (c s2) as [[n s3]|].
Qed.
(** The state in which the walks start. *)
Definition back s : sys := set_os_sched_enabled 0 (set_blocked ({[SIGIO]} ∪ ({[SIGALRM]} ∪ blocked s)) s).
Lemma back_kinv s Q : kinv s Q → kinv (back s) Q.
Proof. intros []. by split. Qed.

Lemma switch_back_run s Q :
  kinv s Q →
  if decide (in_order N_io Q 0 MAX_FDS = []) then switch_back s = None else
  ∃ s', switch_back s = Some (tt, s') ∧ trace s' = trace s ++ (cancelled s Q ≫= cancel_of s) ∧
    os_sched_enabled s' = 0.
Proof.
  intros Hk. destruct (ki_idle _ _ Hk) as (i&ti&Hi&Hti). pose proof (ki_queues _ _ Hk) as Hq.
  rewrite /switch_back. rewrite (bind_run (signals_block SIGALRM) _ s tt _ eq_refl).
  rewrite (bind_run (signals_block SIGIO) _ _ tt _ eq_refl).
  rewrite (bind_run (modify (set_os_sched_enabled 0)) _ _ tt (back s) eq_refl) bind_regroup.
  assert (H0 : logged (back s) [] (back s)) by by rewrite /logged app_nil_r.
  destruct (wp_unit_inv _ _ _ (switch_back_walks _ _ Q (back_kinv _ _ Hk) H0)) as (s3&Hr3&H3).
  rewrite (bind_run _ _ _ _ _ Hr3). set (e3 := _ ≫= cancel_of (back s)) in H3.
  assert (Hq3 : sys_queues s3 Q) by by rewrite H3.
  destruct (io_next_run Q s3 (-1) (Z.to_nat MAX_FDS) Hq3) as (o&j&Hrun&Ho); [done|done|].
  rewrite (bind_run _ _ _ _ _ Hrun). cbn beta iota.
  change (in_order_from N_io Q (-1 + 1) MAX_FDS) with (in_order N_io Q 0 MAX_FDS) in Ho.
  destruct o as [h|]; [|by rewrite decide_True].
  destruct Ho as (->&Hj&Hne&Ho). rewrite decide_False; [|rewrite Ho in_order_step; [by destruct (Q (N_io j))|lia]].
  rewrite (bind_run (mret tt) _ s3 tt s3 eq_refl).
  rewrite (bind_run (gets idle) _ s3 (idle s) s3); [|by rewrite H3].
  rewrite (bind_run (gets current) _ s3 (current s) s3); [|by rewrite H3].
  set (e4 := (if bool_decide (idle s ≠ current s) then option_list (idle s) else []) ≫= cancel_of s).
  assert (Hw : when (bool_decide (idle s ≠ current s))
    (i ← nonnull (idle s); t ← tsk_ld i; emit (Ev_pthread_cancel (ptid t))) s3 =
    Some (tt, set_trace (trace s3 ++ e4) s3)).
  { rewrite /e4 Hi. case_bool_decide; cbn [when]; [|by rewrite app_nil_r; destruct s3].
    rewrite (bind_run (nonnull (Some i)) _ s3 i s3 eq_refl). change (option_list (Some i) ≫= cancel_of s) with (cancel_of s i ++ []).
    rewrite app_nil_r /cancel_of Hti. rewrite (bind_run (tsk_ld i) _ s3 ti s3); [done|]. by rewrite /tsk_ld H3 /= Hti. }
  rewrite (bind_run _ _ _ _ _ Hw). eexists. split; [reflexivity|]. split; [|by rewrite H3].
  cbn [trace signals_unblock set_blocked set_trace]. rewrite H3 /= /cancelled !bind_app -!app_assoc.
  f_equal. rewrite /e3 bind_app -app_assoc. done.
Qed.

(** ** The promises *)

(** C35: when the host can create threads, [switch_to_os_threading] makes one thread for the current task, even if that is
    the task of [main], one for the idle task, and one for every other task that is ready, waiting, or waiting
    for a descriptor, except for the task of [main]; a task that waits for a lock gets none.  The ticks
    are switched off. *)
Theorem switch_to_os_threading_correct s Q c i r tr :
  kgood s Q → on_duty s Q c i r → os_sched_enabled s = 0 → tasks s !! r = Some tr →
  (c = r ∨ regs tr ≠ JB_zero) → (∀ p, is_Some (env_ptid p)) →
  wp switch_to_os_threading (λ _ s', os_sched_enabled s' = 1 ∧ {[SIGIO; SIGALRM]} ⊆ blocked s' ∧
    ∃ ps, trace s' = trace s ++ (Ev_pthread_create <$> ps) ∧ NoDup ps ∧
      ∀ p, p ∈ ps ↔ p = c ∨ p = i ∨ p ≠ r ∧ can_run Q p) s.
Proof.
  intros Hg Hod Hos Htr Hreg Henv. destruct (thread_order_spec s Q c i r Hg Hod) as [Hnd Hin].
  pose proof Hod as [Hc _ Hr _ _ _].
  eapply wp_mono; [apply (switch_to_run s Q r tr (kg_inv _ _ Hg) Hos Hr Htr)|].
  { destruct Hreg as [->|]; [by left|by right]. }
  intros [] s' (Ht&Ho&Hb&_). split; [done|]. split; [done|]. exists (thread_order s Q). split; [|done].
  rewrite Ht. f_equal. clear -Henv. induction (thread_order s Q) as [|p ps IH]; [done|].
  rewrite bind_cons fmap_cons IH /thread_of. by destruct (Henv p) as [v ->].
Qed.

(** [switch_back] dereferences null unless some task waits for a descriptor; then it
    cancels the threads of the ready and of the waiting tasks and of the idle task, but none of
    those that wait for a descriptor. *)
Theorem switch_back_misses_io s Q :
  kinv s Q →
  (in_order N_io Q 0 MAX_FDS = [] → switch_back s = None) ∧
  (in_order N_io Q 0 MAX_FDS ≠ [] → ∃ s', switch_back s = Some (tt, s') ∧ os_sched_enabled s' = 0 ∧
    trace s' = trace s ++ (cancelled s Q ≫= cancel_of s)).
Proof.
  intros Hk. pose proof (switch_back_run s Q Hk) as Hs. case_decide as Hio; (split; intros Hc; [|]); try done.
  destruct Hs as (s'&?&?&?). by exists s'.
Qed.
End switch.

Module OsWitness.
Import Run States.
#[local] Instance threads_made : OsEnv := {| env_ptid p := Some (100 + Zpos p) |}.

(** The idle task runs, the first task sleeps, the daemon waits for descriptor 3. *)
Lemma waiting_duty : on_duty waiting (queues_of waiting) 3 3 1.
Proof.
  split; [clear; by vm_compute..| | |].
  - intros h Hh. assert (Hall : Forall (λ h, 3%positive ∉ queues_of waiting h) (heads (dom (locks waiting)))) by (clear; decide_now).
    rewrite Forall_forall in Hall. by apply Hall, is_head_heads.
  - clear. decide_now.
  - intros j Hj. assert (Hall : Forall (λ j, 3%positive ∉ queues_of waiting (N_io j)) (seqZ 0 MAX_FDS)) by (clear; decide_now).
    rewrite Forall_forall in Hall. apply Hall, elem_of_seqZ. lia.
Qed.
Lemma switch_witness :
  wp switch_to_os_threading (λ _ s', ∃ ps, trace s' = trace waiting ++ (Ev_pthread_create <$> ps) ∧ 5%positive ∈ ps ∧ 1%positive ∉ ps)
    waiting.
Proof.
  eapply wp_mono; [apply (switch_to_os_threading_correct waiting (queues_of waiting) 3 3 1
    (default tsk_zero (tasks waiting !! 1%positive)) waiting_good waiting_duty)|].
  - clear. by vm_compute.
  - clear. by vm_compute.
  - right. clear. by vm_compute.
  - by eexists.
  - intros [] s' (_&_&ps&Ht&_&Hin). exists ps. split; [exact Ht|]. split.
    + apply Hin. right. right. split; [clear; done|]. right. right. exists 3. clear. split; [done|decide_now].
    + intros [H1|[H1|[H1 _]]]%Hin; [discriminate H1|discriminate H1|exact (H1 eq_refl)].
Defined.
Lemma switch_back_witness : switch_back asleep = None ∧
  ∃ s', switch_back waiting = Some (tt, s') ∧ trace s' = trace waiting ++ [Ev_pthread_cancel 0].
Proof.
  split.
  - apply (switch_back_misses_io asleep (queues_of asleep) (kg_inv _ _ asleep_good)). clear. by vm_compute.
  - destruct (switch_back_misses_io waiting (queues_of waiting) (kg_inv _ _ waiting_good)) as [_ Hs].
    destruct Hs as (s'&Hr&_&Ht); [clear; by vm_compute|]. exists s'. split; [exact Hr|].
    rewrite Ht. clear. by vm_compute.
Defined.
End OsWitness.
