(* ===== verification/Kernel.v ===== *)
(** * The tick: interrupts, soft interrupts, timers and sleeping tasks

    Here the timers (Timers.v) and the scheduler (Sched.v) meet: src/core/soft_irq.c,
    the tick handler of src/core/interrupt.c, [update_times] and [init_timer_mgr] of
    src/TIMERS, the sleeps of src/core/thread_lib.c and the calls of
    src/core/iostream.c that wait for a descriptor.

    - The state is that of the timers with [kernel] as its host: the state of the
      scheduler, and the soft interrupts.
    - A function pointer is a code: [fn_btm_hlf] as the action of a soft interrupt,
      [fn_wakeup_task] as a time-out handler; what other functions do is [KEnv].
      A task pointer that is handed to a handler is the positive number itself.
    - A function that switches to another task is modelled up to the switch.
    - The variable [alloc_size] is the sum of [t_alloc] and of [alloc_size] of the
      scheduler's state.
    - The locks of the wheels do nothing in this build and are left out. *)

From S2P Require Import Prelude ListHead RbTree Timers Task Signal Sched ThreadLib.
#[local] Open Scope Z_scope.

Definition SLEEPING : Z := 0.
Definition WAKE_UP : Z := 1.
Definition TICK_TIMER_GRANULARITY : Z := 20.
Definition fn_btm_hlf : Z := 1.
Definition fn_wakeup_task : Z := 1.
Definition EINTR : Z := 4.

Record soft_irq := MkIrq { irq_id : Z; irq_action : Z; irq_status : Z }.
(** The nodes of the list of soft interrupts. *)
Inductive inode := I_hd | I_irq (a : Z).
#[global] Instance inode_eq_dec : EqDecision inode.
Proof. solve_decision. Defined.
#[global] Program Instance inode_countable : Countable inode :=
  inj_countable' (λ n, match n with I_hd => None | I_irq a => Some a end)
                 (λ s, match s with None => I_hd | Some a => I_irq a end) _.
Next Obligation. by intros []. Qed.
Definition list_entry_irq (n : inode) : option Z :=
  match n with I_irq a => Some a | I_hd => None end.

(** [tm_irq] is the variable [irq] of thr_spec.c. *)
Record kernel := MkKernel {
  ksys : sys;
  irqs : gmap Z soft_irq;
  ilst : gmap inode (list_head inode);
  tm_irq : Z
}.
Definition set_ksys v k := MkKernel v (irqs k) (ilst k) (tm_irq k).
Definition set_irqs v k := MkKernel (ksys k) v (ilst k) (tm_irq k).
Definition set_ilst v k := MkKernel (ksys k) (irqs k) v (tm_irq k).
Definition set_tm_irq v k := MkKernel (ksys k) (irqs k) (ilst k) v.

(** What is outside: memory, and the other handlers and actions. *)
Class KEnv := {
  kenv_talloc : nat → Z;
  kenv_tsizeof : string → Z;
  kenv_handler : Z → Z → M (tms kernel) unit;
  kenv_action : Z → M (tms kernel) unit
}.

Section Kernel.
Context `{E : Env} `{KE : KEnv}.

Definition on_host {A} (m : M kernel A) : M (tms kernel) A := zoom host set_host m.
Definition on_sys {A} (m : M sys A) : M (tms kernel) A := on_host (zoom ksys set_ksys m).
Definition on_ilst {A} (m : M (gmap inode (list_head inode)) A) : M (tms kernel) A :=
  on_host (zoom ilst set_ilst m).
Definition irq_ld (a : Z) : M (tms kernel) soft_irq := k ← gets host; liftO (irqs k !! a).
Definition irq_mod (f : soft_irq → soft_irq) (a : Z) : M (tms kernel) unit :=
  q ← irq_ld a; on_host (modify (λ k, set_irqs (<[a := f q]> (irqs k)) k)).
Definition set_status v q := MkIrq (irq_id q) (irq_action q) v.

(** [wakeup_task] as a time-out handler. *)
Definition wake_handler (d : Z) : M (tms kernel) unit :=
  match d with Zpos p => on_sys (wakeup_task p) | _ => ub end.
#[global] Instance kernel_timers : TmEnv kernel := {|
  env_talloc := kenv_talloc;
  env_tsizeof := kenv_tsizeof;
  env_handler h d := if h =? fn_wakeup_task then wake_handler d else kenv_handler h d
|}.

(** ** Soft interrupts *)
Definition alloc_soft_irq : M (tms kernel) Z := tm_calloc_t (env_tsizeof "soft_irq").
Definition free_softirq (p : Z) : M (tms kernel) unit :=
  modify (λ s, set_alloc (u32 (t_alloc s - env_tsizeof "soft_irq")) (n_alloc s) s);;
  irq_ld p;;
  on_host (modify (λ k, set_ilst (delete (I_irq p) (ilst k)) (set_irqs (delete p (irqs k)) k))).
Definition softirq_create (action : Z) : M (tms kernel) Z :=
  a ← alloc_soft_irq;
  if negb (truthy a) then mret (ulong (-1)) else
  on_host (modify (λ k, set_irqs (<[a := MkIrq a action SLEEPING]> (irqs k)) k));;
  on_ilst (INIT_LIST_HEAD (I_irq a));;
  on_ilst (list_add_tail (I_irq a) I_hd);;
  q ← irq_ld a;
  mret (irq_id q).

Definition run_action (f : Z) : M (tms kernel) unit :=
  if f =? fn_btm_hlf then btm_hlf else kenv_action f.
(** [list_for_each (pnode, &sft_irq)] of [softirqd]. *)
Fixpoint softirqd_loop (fuel : nat) (pnode : inode) : M (tms kernel) unit :=
  if decide (pnode = I_hd) then mret tt else
  match fuel with
  | 0%nat => ub
  | S fuel =>
      a ← liftO (list_entry_irq pnode);
      q ← irq_ld a;
      when ((irq_status q =? WAKE_UP) && truthy (irq_action q))
        (run_action (irq_action q);; irq_mod (set_status SLEEPING) a);;
      n ← on_ilst (get_next pnode);
      softirqd_loop fuel n
  end.
Definition softirqd_pass : M (tms kernel) unit :=
  sz ← gets (λ s, size (ilst (host s)));
  n ← on_ilst (get_next I_hd);
  softirqd_loop sz n.
(** One turn of the [while (1)] of the daemon. *)
Definition softirqd : M (tms kernel) unit :=
  softirqd_pass;;
  on_sys add_current_task_wait_Q;;
  on_sys schedule.

Definition wake_irq (irqid : Z) : M (tms kernel) unit := irq_mod (set_status WAKE_UP) irqid.

(** ** The tick *)
Definition service_timers : M (tms kernel) unit :=
  i ← gets (λ s, tm_irq (host s));
  wake_irq i;;
  on_sys softirq_wakeup.
Definition update_times : M (tms kernel) unit :=
  advance_clock;;
  n ← timers_pending_for_service;
  when (truthy n) service_timers.
Definition tick_tmr_intr : M (tms kernel) unit :=
  on_sys (signals_block SIGALRM);;
  on_sys (modify (λ s, set_jiffies (ulong (jiffies s + 1)) s));;
  update_times;;
  on_sys update_process_time;;
  n ← on_sys (gets sched_need);
  if truthy n then on_sys schedule else on_sys (signals_unblock SIGALRM).

(** task.h declares the result of [softirq_create] as [int]. *)
Definition init_timer_mgr : M (tms kernel) Z :=
  timer_rq_init;;
  i ← softirq_create fn_btm_hlf;
  on_host (modify (set_tm_irq (ulong (s32 i))));;
  mret 0.

(** ** Sleeping *)
Definition tm_convert_msec_to_tick (msecs : Z) : Z := msecs / TICK_TIMER_GRANULARITY.
(** [get_current ()] as the argument of a handler. *)
Definition current_ptr : M (tms kernel) Z :=
  c ← on_sys get_current; mret (match c with Some p => Zpos p | None => 0 end).
(** The end of [sleep] and of [tm_msleep]. *)
Definition sleep_on_timer (n : Z) : M (tms kernel) unit :=
  c ← current_ptr;
  start_timer n c fn_wakeup_task 0;;
  on_sys (c ← cur; add_task_to_wait_Q c);;
  on_sys schedule.
Definition sleep (secs : Z) : M (tms kernel) unit :=
  if negb (truthy secs) then mret tt else
  sleep_on_timer (u32 (secs * tm_get_ticks_per_second)).
Definition tm_msleep (msecs : Z) : M (tms kernel) Z :=
  if msecs <? 20 then mret (-1) else
  sleep_on_timer (tm_convert_msec_to_tick msecs);;
  mret 0.

(** ** Descriptors *)

(** One turn of the loops around a system call that returned [rval]; [None] to go
    round again. *)
Definition tm_read_turn (fd rval errno : Z) : M sys (option Z) :=
  if 0 <=? rval then mret (Some rval)
  else if (rval =? -1) && (errno =? EINTR) then mret None
  else wait_on_fd fd;; mret None.
Definition tm_recvfrom_turn (fd rval errno : Z) : M sys (option Z) :=
  if (rval <=? 40) && (errno =? EINTR) then mret None
  else if 40 <? rval then mret (Some rval)
  else wait_on_fd fd;; mret None.
Definition tm_mq_receive_turn (mqid rval : Z) : M sys (option Z) :=
  if rval <? 0 then wait_on_fd mqid;; mret None else mret (Some rval).
End Kernel.
