(* ===== verification/LoopUses.v ===== *)
(** * The loops of the code are the macros of list.h

    The components write their loops over lists out, as functions with fuel.  Here each of
    those that change the list, or whose body does, is shown to be its macro of ListIter.v,
    with the fuel the code's function takes. *)

From S2P Require Import Prelude ListHead ListIter RbTree Timers Task Signal Sched ThreadLib Kernel.
#[local] Open Scope Z_scope.

(** Reading a link through a part of the state. *)
Section zoomed.
Context {A : Type} `{Countable A} {T : Type} (mem : T → gmap A (list_head A)) (put : gmap A (list_head A) → T → T).
Context (Hput : ∀ s, put (mem s) s = s).
Lemma zoom_next p s : zoom mem put (get_next p) s = rd_next mem p s.
Proof using Hput.
  rewrite /zoom /get_next /rd_next (bind_run (gets mem) _ s (mem s) s) //.
  destruct (mem s !! p) as [l|]; [|done]. by rewrite Hput.
Qed.
End zoomed.

Lemma truth_of_test {A B} `{EqDecision B} (x h : B) (a b : A) :
  (if bool_decide (x ≠ h) then a else b) = if decide (x = h) then b else a.
Proof. by case_decide; case_bool_decide. Qed.

(** ** The daemon of the soft interrupts *)
Section softirqd.
Context `{E : Env} `{KE : KEnv}.
Definition serve_irq (pnode : inode) : M (tms kernel) unit :=
  a ← liftO (list_entry_irq pnode);
  q ← irq_ld a;
  when ((irq_status q =? WAKE_UP) && truthy (irq_action q))
    (run_action (irq_action q);; irq_mod (set_status SLEEPING) a).
Lemma ilst_next p s : on_ilst (get_next p) s = rd_next (λ s, ilst (host s)) p s.
Proof.
  rewrite -(zoom_next (λ s, ilst (host s)) (λ l s, set_host (set_ilst l (host s)) s)); [|by intros [??????????[]]].
  rewrite /on_ilst /on_host /zoom. by destruct (get_next p (ilst (host s))) as [[]|].
Qed.
Lemma softirqd_loop_is_macro n p s :
  softirqd_loop n p s = for_loop n (not_head I_hd) (rd_next (λ s, ilst (host s))) serve_irq p s.
Proof.
  revert p s. induction n as [|n IH]; intros p s; cbn [softirqd_loop for_loop];
    rewrite (bind_run (not_head I_hd p) _ s (bool_decide (p ≠ I_hd)) s) // truth_of_test; case_decide; [done|done|done|].
  rewrite /serve_irq -bind_assoc2. apply bind_ext; [done|]. intros a s1. rewrite -bind_assoc2. apply bind_ext; [done|]. intros q s2.
  apply bind_ext; [done|]. intros [] s3. apply bind_ext; [apply ilst_next|]. intros x s4. apply IH.
Qed.
End softirqd.

(** ** The time-out handlers and the tasks that wait for a descriptor *)
Lemma safe_loop_unfold {A} `{Countable A} {T} (mem : T → gmap A (list_head A)) (loop : nat → A → A → M T unit) (head : A) (body : A → M T unit) :
  (∀ n pos nx s, loop n pos nx s = (if decide (pos = head) then mret tt else
     match n with 0%nat => ub | S n => body pos;; n' ← rd_next mem nx; loop n nx n' end) s) →
  ∀ n pos nx s, loop n pos nx s =
    for_loop n (λ '(pos, n), not_head head pos) (λ '(pos, n), n' ← rd_next mem n; mret (n, n')) (λ '(pos, n), body pos) (pos, nx) s.
Proof.
  intros Hl n. induction n as [|n IH]; intros pos nx s; rewrite Hl; cbn [for_loop];
    rewrite (bind_run (not_head head pos) _ s (bool_decide (pos ≠ head)) s) // truth_of_test; case_decide; [done|done|done|].
  apply bind_ext; [done|]. intros [] s1. rewrite bind_ret_map. apply bind_ext; [done|]. intros n' s2. apply IH.
Qed.

Section expd.
Context {H : Type} `{TE : TmEnv H}.
Lemma elst_next p s : on_elst (get_next p) s = rd_next (elst (H:=H)) p s.
Proof. rewrite -(zoom_next (elst (H:=H)) set_elst); [done|]. by intros []. Qed.
Lemma process_expd_timers_is_macro (s : tms H) :
  process_expd_timers s = list_for_each_safe (elst (H:=H)) (size (elst s)) E_hd expire_one s.
Proof.
  rewrite /process_expd_timers (bind_run (gets _) _ s (size (elst s)) s) // /list_for_each_safe.
  apply bind_ext; [apply elst_next|]. intros p s1. apply bind_ext; [apply elst_next|]. intros q s2.
  apply (safe_loop_unfold _ expd_loop). intros [|n] pos nx s3; cbn [expd_loop]; [done|]. case_decide; [done|].
  apply bind_ext; [done|]. intros [] s4. apply bind_ext; [apply elst_next|done].
Qed.
End expd.

Section wake_io.
Context `{E : Env}.
Definition wake_one (pos : lnode) : M sys unit :=
  p ← liftO (list_entry_tsk pos);
  onl (list_del (N_tsk p));;
  wakeup_task p.
Lemma lst_next p s : onl (get_next p) s = rd_next lst p s.
Proof. rewrite -(zoom_next lst set_lst); [done|]. by intros []. Qed.
Lemma wake_io_loop_is_macro n pos nx h s :
  wake_io_loop n pos nx h s =
  for_loop n (λ '(pos, n), not_head h pos) (λ '(pos, n), n' ← rd_next lst n; mret (n, n')) (λ '(pos, n), wake_one pos) (pos, nx) s.
Proof.
  apply (safe_loop_unfold lst (λ n pos nx, wake_io_loop n pos nx h)). intros [|k] p q s1; cbn [wake_io_loop];
    case_decide; case_bool_decide; try done. rewrite /wake_one -bind_assoc2. apply bind_ext; [done|]. intros t s2.
  rewrite -bind_assoc2. apply bind_ext; [done|]. intros [] s3. apply bind_ext; [done|]. intros [] s4. apply bind_ext; [apply lst_next|done].
Qed.
End wake_io.

(** the loop over the soft interrupts is [list_for_each], the loops over the expired timers and
    over the tasks that wait for a descriptor are [list_for_each_safe], from every state. *)
Theorem code_loops_are_macros `{E : Env} `{KE : KEnv} (k : tms kernel) (y : sys) (fd : Z) :
  softirqd_pass k = list_for_each (λ s, ilst (host s)) (size (ilst (host k))) I_hd serve_irq k ∧
  process_expd_timers k = list_for_each_safe elst (size (elst k)) E_hd expire_one k ∧
  wake_io_task fd y = (h ← io_hd fd; e ← onl (list_empty h); when (negb e)
    (sz ← gets (λ s, size (lst s)); list_for_each_safe lst sz h wake_one)) y.
Proof.
  split; [|split; [apply process_expd_timers_is_macro|]].
  - rewrite /softirqd_pass (bind_run (gets _) _ k (size (ilst (host k))) k) // /list_for_each.
    apply bind_ext; [apply ilst_next|]. intros p s. apply softirqd_loop_is_macro.
  - rewrite /wake_io_task. apply bind_ext; [done|]. intros h s1. apply bind_ext; [done|]. intros [] s2; [done|].
    cbn [negb when]. apply bind_ext; [done|]. intros sz s3. rewrite /list_for_each_safe.
    apply bind_ext; [apply lst_next|]. intros p s4. apply bind_ext; [apply lst_next|]. intros q s5. apply wake_io_loop_is_macro.
Qed.
