(* ===== verification/KernelInv.v ===== *)
(** * The tick: how timers and scheduler work together

    - [tick_tmr_intr_run]: the tick handler wakes the soft-interrupt daemon and switches
      to it.
    - [waking]: what holds while the bottom half calls [wakeup_task] for one expired
      timer after the other; [softirqd_run]: the turn of the daemon.
    - [sleep_on_timer_run]: how a task goes to sleep. *)

From S2P Require Import Prelude ListHead RbTree RbRep RbInsert RbWalk RbErase RbSpec.
From S2P Require Import Timers TimerFormat TimerTree TimerKeep TimerInv TimerPass TimerFire TimerSpec TimerLive TimerPending.
From S2P Require Import Task Signal Sched SchedInv SchedProps ThreadLib SchedSpec Kernel.
#[local] Open Scope Z_scope.

(** ** The tick wakes the daemon *)
Section tick.
Context `{E : Env} `{KE : KEnv}.
Implicit Types (s : tms kernel) (k : kernel) (y : sys) (tr : Z → tree) (xs : list Z) (Q : qmap) (d c p : positive).

Definition with_sys y s : tms kernel := set_host (set_ksys y (host s)) s.
Lemma on_sys_run {A} (m : M sys A) s a y : m (ksys (host s)) = Some (a, y) → on_sys m s = Some (a, with_sys y s).
Proof. intros Hm. by rewrite /on_sys /on_host /zoom Hm. Qed.
Lemma wp_on_sys {A} (m : M sys A) (Φ : A → tms kernel → Prop) s :
  wp m (λ a y, Φ a (with_sys y s)) (ksys (host s)) → wp (on_sys m) Φ s.
Proof. intros Hm. by do 2 apply wp_zoom. Qed.
Lemma irq_mod_run f s i q :
  irqs (host s) !! i = Some q →
  irq_mod f i s = Some (tt, set_host (set_irqs (<[i := f q]> (irqs (host s))) (host s)) s).
Proof. intros Hq. by rewrite /irq_mod /irq_ld /mbind /M_bind /gets /liftO Hq. Qed.

Lemma kgood_need y Q n : kgood y Q → kgood (set_sched_need n y) Q.
Proof. intros [[] Hn]. split; [by split|done]. Qed.
Lemma kgood_quiet y y' Q : keeps y y' → kgood y Q → kgood y' Q.
Proof. intros Hk [Hi Hn]. split; [by eapply keeps_kinv|]. by rewrite (kp_nrp _ _ Hk). Qed.

(** The accounting of the tick may only ask for a reschedule. *)
Lemma update_process_time_run y c tc :
  current y = Some c → tasks y !! c = Some tc →
  wp update_process_time (λ _ y', ∃ n, keeps (set_sched_need n y) y' ∧ (n = 1 ∨ n = sched_need y)) y.
Proof.
  intros Hc Htc. rewrite /update_process_time /account_task_time_stats. sys_steps.
  apply wp_when; intros _; [sys_steps; exists 1|exists (sched_need y)]; (split; [|auto]); keeps_tac Htc.
Qed.

(** The daemon [d] waits to be woken. *)
Record daemon_waits k Q d (t : tsk) : Prop := {
  dw_task : softirq_d (ksys k) = Some d;
  dw_queue : d ∈ Q N_wq;
  dw_tsk : tasks (ksys k) !! d = Some t;
  dw_onrq : onrq t = 0
}.

Lemma service_timers_run s Q d t q c tc :
  kgood (ksys (host s)) Q → daemon_waits (host s) Q d t → nrp (ksys (host s)) < 2 ^ 31 - 2 →
  irqs (host s) !! tm_irq (host s) = Some q → current (ksys (host s)) = Some c →
  tasks (ksys (host s)) !! c = Some tc →
  ∃ l, let y := set_lst l (after_wakeup d t tc (ksys (host s))) in
    service_timers s = Some (tt, with_sys y (set_host (set_irqs
      (<[tm_irq (host s) := set_status WAKE_UP q]> (irqs (host s))) (host s)) s)) ∧
    kgood y (qcons d (N_rq (prio t)) (qrem d Q)).
Proof.
  intros Hg [Hd Hw Ht Ho] Hn Hq Hc Htc.
  destruct (wakeup_good (ksys (host s)) Q d t c tc N_wq) as (l&Hrun&Hg'); [done..|].
  exists l. split; [|done]. rewrite /service_timers (bind_run (gets _) _ s (tm_irq (host s)) s eq_refl).
  rewrite (bind_run _ _ _ _ _ (irq_mod_run _ _ _ _ Hq)). apply on_sys_run. cbn [host set_host ksys set_irqs].
  rewrite /softirq_wakeup (bind_run (gets softirq_d) _ _ _ _ eq_refl) Hd.
  by rewrite (bind_run (nonnull (Some d)) _ _ d _ eq_refl).
Qed.

(** Some timer moves at the tick [T]. *)
Definition some_due s tr xs T : Prop :=
  ∃ a st, at_state s tr xs a st ∧ tick_pass (clock_at T) st ≠ st.

Lemma update_times_run s tr xs T Q d t q c tc :
  tinv s tr xs → counted s tr → clk s = clock_at T → 0 ≤ T → T + 1 < 2 ^ 32 → some_due s tr xs (T + 1) →
  kgood (ksys (host s)) Q → daemon_waits (host s) Q d t → nrp (ksys (host s)) < 2 ^ 31 - 2 →
  irqs (host s) !! tm_irq (host s) = Some q → current (ksys (host s)) = Some c →
  tasks (ksys (host s)) !! c = Some tc →
  ∃ l, let y := set_lst l (after_wakeup d t tc (ksys (host s))) in
    update_times s = Some (tt, with_sys y (set_host (set_irqs
      (<[tm_irq (host s) := set_status WAKE_UP q]> (irqs (host s))) (host s)) (set_clk (clock_at (T + 1)) s))) ∧
    kgood y (qcons d (N_rq (prio t)) (qrem d Q)).
Proof.
  intros Hi Hct Hck HT HT1 (a&st&Hst&Hne) Hg Hd Hn Hq Hc Htc.
  rewrite /update_times (bind_run _ _ _ _ _ (advance_clock_run s T Hck HT HT1)).
  set (s1 := set_clk _ s). assert (Hi1 : tinv s1 tr xs) by by apply tinv_clk.
  destruct st as [w r ct|]; [|by rewrite tick_pass_expired in Hne].
  rewrite (bind_run _ _ _ _ _ (due_pending s1 tr xs a w r ct Hi1 (counted_running _ _ _ _ _ _ _ Hct Hst) Hst Hne)).
  by apply (service_timers_run s1 Q d t q c tc).
Qed.

(** What the tick leaves to the daemon. *)
Record handed_over (k k' : kernel) Q d (t : tsk) (q : soft_irq) : Prop := {
  ho_cur : current (ksys k') = Some d;
  ho_good : kgood (ksys k') (qcons d (N_rq (prio t)) (qrem d Q));
  ho_irqs : irqs k' = <[tm_irq k := set_status WAKE_UP q]> (irqs k);
  ho_ilst : ilst k' = ilst k;
  ho_irq : tm_irq k' = tm_irq k;
  ho_os : os_sched_enabled (ksys k') = os_sched_enabled (ksys k);
  ho_nrp : nrp (ksys k') = nrp (ksys k) + 1;
  ho_locks : locks (ksys k') = locks (ksys k);
  ho_daemon : ∃ t', tasks (ksys k') !! d = Some t' ∧ onrq t' = 1;
  ho_tasks p tp : p ≠ d → tasks (ksys k) !! p = Some tp → ∃ tp', tasks (ksys k') !! p = Some tp' ∧ onrq tp' = onrq tp
}.

(** What waking the daemon leaves, for a daemon that beats the current task and the
    cached one. *)
Record woken_up y y' c d (t : tsk) : Prop := {
  wu_cur : current y' = Some c;
  wu_tsk : is_Some (tasks y' !! c);
  wu_imm : nxt_imm_task y' = Some d;
  wu_need : sched_need y' = 1;
  wu_os : os_sched_enabled y' = os_sched_enabled y;
  wu_nrp : nrp y' = nrp y + 1;
  wu_locks : locks y' = locks y;
  wu_daemon : ∃ t', tasks y' !! d = Some t' ∧ onrq t' = 1;
  wu_tasks p tp : p ≠ d → tasks y !! p = Some tp → ∃ tp', tasks y' !! p = Some tp' ∧ onrq tp' = onrq tp
}.

Lemma wakeup_woken_up y c d (t tc : tsk) l :
  0 ≤ nrp y → nrp y < 2 ^ 31 - 2 → current y = Some c → tasks y !! c = Some tc → prio t < prio tc →
  imm_after (tasks y) (nxt_imm_task y) d t = Some d → woken_up y (set_lst l (after_wakeup d t tc y)) c d t.
Proof.
  intros Hn0 Hn Hc Htc Hpr Him. split; try done; cbn.
  - apply lookup_insert_is_Some'. right. by exists tc.
  - rewrite /need_after. by rewrite (proj2 (Z.ltb_lt _ _) Hpr).
  - rewrite s32_small; lia.
  - eexists. split; [apply lookup_insert_eq|done].
  - intros p tp Hne Hp. eexists. split; [|done]. rewrite lookup_insert_ne; [done|by apply not_eq_sym].
Qed.

(** The end of the handler, with the daemon to be switched to. *)
Definition tick_end : M (tms kernel) unit :=
  on_sys update_process_time;;
  n ← on_sys (gets sched_need);
  if truthy n then on_sys schedule else on_sys (signals_unblock SIGALRM).
Lemma tick_tmr_intr_start s :
  ∃ y, keeps (ksys (host s)) y ∧ softirq_d y = softirq_d (ksys (host s)) ∧
    tasks y = tasks (ksys (host s)) ∧
    tick_tmr_intr s = (update_times;; tick_end) (with_sys y s).
Proof.
  eexists (set_jiffies _ (set_blocked _ _)). split; [|split; [|split; [|reflexivity]]]; [|done|done].
  split; [done..|]. intros p. cbn. by destruct (tasks (ksys (host s)) !! p); constructor.
Qed.
Lemma tick_end_run s y Q c d t :
  let Q1 := qcons d (N_rq (prio t)) (qrem d Q) in
  woken_up y (ksys (host s)) c d t → kgood (ksys (host s)) Q1 → os_sched_enabled y = 0 → 0 ≤ nrp y →
  ∃ y', tick_end s = Some (tt, with_sys y' s) ∧ kgood y' Q1 ∧ current y' = Some d ∧ carried (ksys (host s)) y'.
Proof.
  intros Q1 [F_cur (tc2&Htc2) F_imm F_need F_os F_nrp F_locks (t2&Ht2&Ho2) F_tasks] Hg Hos Hn0.
  set (y2 := ksys (host s)) in *. clearbody Q1.
  destruct (wp_unit_inv _ _ _ (update_process_time_run y2 c tc2 F_cur Htc2)) as (y3&Hr3&n&K3&Hn3).
  rewrite /tick_end (bind_run _ _ _ _ _ (on_sys_run _ s _ _ Hr3)). set (s3 := with_sys y3 s).
  assert (Hneed : sched_need y3 = 1) by (rewrite (kp_need _ _ K3); by destruct Hn3 as [-> | ->]).
  rewrite (bind_run (on_sys (gets sched_need)) _ s3 (sched_need y3) s3 eq_refl) Hneed. cbn [truthy Z.eqb negb].
  assert (Hg3 : kgood y3 Q1) by (eapply kgood_quiet; [exact K3|by apply kgood_need]).
  assert (Hnz : (nrp y3 =? 0) = false) by (apply Z.eqb_neq; rewrite (kp_nrp _ _ K3); cbn [nrp set_sched_need]; lia).
  assert (Himm : nxt_imm_task y3 = Some d) by by rewrite (kp_imm _ _ K3).
  assert (Hos3 : os_sched_enabled y3 = 0) by by rewrite (kp_os _ _ K3) /= F_os.
  assert (Hc3 : current y3 = Some c) by by rewrite (kp_current _ _ K3).
  assert (Hch : chosen y3 Q1 = Some d) by by rewrite /chosen Hnz Himm.
  destruct (wp_unit_inv _ _ _ (schedule_good y3 Q1 c d Hg3 Hos3 Hc3 Hch)) as (y4&Hr4&Hg4&Hs4).
  rewrite /sched_queues Hnz Himm in Hg4. exists y4.
  split; [exact (on_sys_run schedule s3 tt y4 Hr4)|]. split; [done|]. split; [apply Hs4|].
  etrans; [|apply (sc_carried _ _ _ _ Hs4)]. apply keeps_carried in K3. by destruct K3.
Qed.

Lemma tick_tmr_intr_run s tr xs T Q d t q c tc :
  tinv s tr xs → counted s tr → clk s = clock_at T → 0 ≤ T → T + 1 < 2 ^ 32 → some_due s tr xs (T + 1) →
  kgood (ksys (host s)) Q → daemon_waits (host s) Q d t → nrp (ksys (host s)) < 2 ^ 31 - 2 →
  irqs (host s) !! tm_irq (host s) = Some q → current (ksys (host s)) = Some c →
  tasks (ksys (host s)) !! c = Some tc → os_sched_enabled (ksys (host s)) = 0 → prio t < prio tc →
  imm_after (tasks (ksys (host s))) (nxt_imm_task (ksys (host s))) d t = Some d →
  ∃ k, tick_tmr_intr s = Some (tt, set_host k (set_clk (clock_at (T + 1)) s)) ∧ handed_over (host s) k Q d t q.
Proof.
  intros Hi Hct Hck HT HT1 Hdue Hg [Hd Hdq Ht Hon] Hn Hq Hc Htc Hos Hpr Him.
  destruct (tick_tmr_intr_start s) as (y1&K1&Hd1&Ht1&->). set (y0 := ksys (host s)) in *. set (s1 := with_sys y1 s).
  assert (Hg1 : kgood y1 Q) by by apply (kgood_quiet _ _ _ K1).
  assert (Hn0 : 0 ≤ nrp y1) by apply (ki_nrp _ _ (kg_inv _ _ Hg1)).
  rewrite -(kp_nrp _ _ K1) in Hn. rewrite -(kp_current _ _ K1) in Hc. rewrite -(kp_os _ _ K1) in Hos.
  rewrite -Ht1 in Ht, Htc, Him. rewrite -(kp_imm _ _ K1) in Him. rewrite -Hd1 in Hd.
  destruct (update_times_run s1 tr xs T Q d t q c tc) as (l&Hrun&Hg2); try done; [by apply tinv_host|].
  rewrite (bind_run _ _ _ _ _ Hrun). cbn zeta in Hg2. change (ksys (host s1)) with y1 in *.
  pose proof (wakeup_woken_up y1 c d t tc l Hn0 Hn Hc Htc Hpr Him) as F2.
  set (y2 := set_lst l (after_wakeup d t tc y1)) in *. clearbody y2. set (s2 := with_sys y2 _).
  destruct (tick_end_run s2 y1 Q c d t F2 Hg2 Hos Hn0) as (y3&Hr3&Hg3&Hc3&Hca).
  change (ksys (host s2)) with y2 in Hca.
  rewrite Hr3. eexists. split; [reflexivity|]. destruct F2 as [_ _ _ _ F_os F_nrp F_locks (t2&Ht2&Ho2) F_tasks].
  assert (Hgo : ∀ p tp, tasks y2 !! p = Some tp → ∃ tp', tasks y3 !! p = Some tp' ∧ onrq tp' = onrq tp).
  { intros p tp Hp. destruct (ca_tasks _ _ Hca p tp Hp) as (t3&Ht3&Ho3&_). by exists t3. }
  split; [done|done|done|done|done|..]; cbn [ksys set_ksys host].
  - by rewrite (ca_os _ _ Hca) F_os (kp_os _ _ K1).
  - by rewrite (ca_nrp _ _ Hca) F_nrp (kp_nrp _ _ K1).
  - by rewrite (ca_locks _ _ Hca) F_locks (kp_locks _ _ K1).
  - rewrite -Ho2. by apply Hgo.
  - intros p tp Hne Hp. rewrite -Ht1 in Hp. destruct (F_tasks p tp Hne Hp) as (tp2&Hp2&<-). by apply Hgo.
Qed.
End tick.

(** ** The daemon wakes the sleepers *)
Section wake.
Context `{E : Env} `{KE : KEnv}.
Implicit Types (s : tms kernel) (k : kernel) (tr : Z → tree) (xs : list Z) (Q : qmap) (d c p : positive) (a : Z).

(** A task that waits, and a timer that will wake it. *)
Definition sleeps k Q p : Prop := p ∈ Q N_wq ∧ ∃ tp, tasks (ksys k) !! p = Some tp ∧ onrq tp = 0.
Definition wakes s a p : Prop := handler_of s a = Some (fn_wakeup_task, Zpos p).
Definition awake Q p : Prop := ∃ i, 0 ≤ i < MAX_PRIO ∧ p ∈ Q (N_rq i).

(** While the sleepers of the expired timers [rest] out of [xs] are still to be woken. *)
Record waking s Q0 k0 xs (rest : list Z) k : Prop := {
  wk_queues : ∃ Q, kgood (ksys k) Q ∧
    (∀ a p, a ∈ rest → wakes s a p → sleeps k Q p) ∧
    (∀ a p, a ∈ xs → a ∉ rest → wakes s a p → awake Q p) ∧
    (∀ p h, (∀ a, a ∈ xs → ¬ wakes s a p) → p ∈ Q h ↔ p ∈ Q0 h);
  wk_nrp : nrp (ksys k) = nrp (ksys k0) + Z.of_nat (length xs) - Z.of_nat (length rest);
  wk_same : irqs k = irqs k0 ∧ ilst k = ilst k0 ∧ tm_irq k = tm_irq k0;
  wk_cur : current (ksys k) = current (ksys k0);
  wk_os : os_sched_enabled (ksys k) = os_sched_enabled (ksys k0);
  wk_locks : locks (ksys k) = locks (ksys k0);
  wk_tasks p tp : (∀ a, a ∈ xs → ¬ wakes s a p) → tasks (ksys k0) !! p = Some tp → tasks (ksys k) !! p = Some tp
}.

(** Every expired timer belongs to a task of its own. *)
Definition own_timers s xs : Prop :=
  (∀ a, a ∈ xs → ∃ p, wakes s a p) ∧ ∀ a b p, a ∈ xs → b ∈ xs → wakes s a p → wakes s b p → a = b.

Lemma waking_step s Q0 k0 xs pre a rest p s1 :
  own_timers s xs → NoDup xs → xs = pre ++ a :: rest → wakes s a p →
  nrp (ksys k0) + Z.of_nat (length xs) < 2 ^ 31 - 2 →
  waking s Q0 k0 xs (a :: rest) (host s1) →
  wp (on_sys (wakeup_task p)) (λ _ s2, ∃ k, s2 = set_host k s1 ∧ waking s Q0 k0 xs rest k) s1.
Proof.
  intros [_ Hinj] Hnd Hxs Hap Hlt [(Q&Hg&Hsl&Haw&Hot) Hn Hsame Hcur Hos Hlk Htk].
  set (k := host s1) in *. destruct (Hsl a p ltac:(left) Hap) as (Hp&tp&Htp&Hon).
  destruct (ki_cur _ _ (kg_inv _ _ Hg)) as (c&tc&Hc&Htc).
  assert (Hax : a ∈ xs) by (rewrite Hxs; apply elem_of_app; right; left).
  assert (Har : a ∉ rest) by (rewrite Hxs in Hnd; apply NoDup_app in Hnd as (_&_&[? _]%NoDup_cons); done).
  assert (Hrx : ∀ b, b ∈ rest → b ∈ xs) by (intros b Hb; rewrite Hxs; apply elem_of_app; right; by right).
  assert (Hlt' : nrp (ksys k) < 2 ^ 31 - 2) by (rewrite Hn; cbn [length]; lia).
  destruct (wakeup_good (ksys k) Q p tp c tc N_wq) as (l&Hrun&Hg'); [done..|].
  apply wp_on_sys. eapply wp_intro; [exact Hrun|]. eexists. split; [reflexivity|].
  assert (Hpr : 0 ≤ prio tp < MAX_PRIO) by by eapply (ki_prio _ _ (kg_inv _ _ Hg)).
  assert (Hne : ∀ b q, b ∈ rest → wakes s b q → q ≠ p).
  { intros b q Hb Hbq ->. apply Har. by rewrite (Hinj a b p Hax (Hrx b Hb) Hap Hbq). }
  split; cbn [ksys set_ksys irqs ilst tm_irq]; [|..|done|done|done|done|].
  - exists (qcons p (N_rq (prio tp)) (qrem p Q)). split_and!; [done|..].
    + intros b q Hb Hbq. pose proof (Hne b q Hb Hbq). destruct (Hsl b q ltac:(by right) Hbq) as (Hq&tq&Htq&Hoq). split.
      * apply qcons_elem. left. by apply qrem_elem.
      * exists tq. split; [|done]. cbn. rewrite lookup_insert_ne; [done|by apply not_eq_sym].
    + intros b q Hb Hbr Hbq. destruct (decide (q = p)) as [->|Hqp].
      { exists (prio tp). split; [done|]. apply qcons_elem. by right. }
      destruct (Haw b q Hb) as (i&Hi&Hq); [|done|].
      { intros [->|]%elem_of_cons; [|done]. rewrite /wakes Hap in Hbq. congruence. }
      exists i. split; [done|]. apply qcons_elem. left. by apply qrem_elem.
    + intros q h Hq. rewrite qcons_elem qrem_elem -(Hot q h Hq). assert (q ≠ p) by (intros ->; by apply (Hq a)).
      naive_solver.
  - pose proof (ki_nrp _ _ (kg_inv _ _ Hg)). cbn [length] in Hn. cbn. rewrite s32_small; lia.
  - intros q tq Hq Htq. cbn. rewrite lookup_insert_ne; [by apply Htk|]. intros ->. by apply (Hq a).
Qed.
Lemma waking_call s s' Q0 k0 xs :
  config s' = config s → own_timers s xs → NoDup xs → nrp (ksys k0) + Z.of_nat (length xs) < 2 ^ 31 - 2 →
  all_call (waking s Q0 k0 xs) s' xs.
Proof.
  intros Hcf Ho Hnd Hlt pre a rest c s1 Hxs Hc Hw.
  destruct (proj1 Ho a) as (p&Hp); [rewrite Hxs; apply elem_of_app; right; left|].
  rewrite (handler_of_config _ _ _ _ Hcf Hp) in Hc. injection Hc as <-.
  by apply (waking_step s Q0 k0 xs pre a rest p s1).
Qed.

(** The timers whose time is over at this tick. *)
Definition due s tr xs a : Prop := ∃ st, at_state s tr xs a st ∧ tick_pass (clk s) st = Expired.
(** They all belong to sleeping tasks. *)
Record sleepers s tr xs Q : Prop := {
  sl_task a : due s tr xs a → one_shot s a ∧ ∃ p, wakes s a p ∧ sleeps (host s) Q p;
  sl_own a b p : due s tr xs a → due s tr xs b → wakes s a p → wakes s b p → a = b;
  sl_nrp : nrp (ksys (host s)) + Z.of_nat (size (apps s)) < 2 ^ 31 - 2
}.

Lemma passed_due s tr xs s' tr' xs' a :
  passed (tick_pass (clk s)) s tr xs s' tr' xs' → a ∈ xs' ↔ due s tr xs a.
Proof.
  intros P. split.
  - intros Ha. destruct (pd_back _ _ _ _ _ _ _ P a Expired Ha) as [st Hst]. exists st. split; [done|].
    eapply (at_state_inj _ _ _ _ _ _ (pd_inv _ _ _ _ _ _ _ P)); [|exact Ha]. by apply (pd_step _ _ _ _ _ _ _ P).
  - intros (st&Hst&He). pose proof (pd_step _ _ _ _ _ _ _ P a st Hst) as Ha. by rewrite He in Ha.
Qed.
Lemma wakers_few s xs : NoDup xs → (∀ a, a ∈ xs → ∃ p, wakes s a p) → (length xs ≤ size (apps s))%nat.
Proof.
  intros Hnd Hw. rewrite -(size_list_to_set (C := gset Z) xs Hnd) -size_dom. apply subseteq_size.
  intros a [p Hp]%elem_of_list_to_set%Hw. apply elem_of_dom. rewrite /wakes /handler_of in Hp.
  destruct (apps s !! a); [by eexists|done].
Qed.

Lemma btm_hlf_run s tr xs Q :
  tinv s tr xs → kgood (ksys (host s)) Q → sleepers s tr xs Q →
  wp btm_hlf (λ _ s', ∃ tr' xs', tinv s' tr' [] ∧ clk s' = clk s ∧
    (∀ a, a ∈ xs' ↔ due s tr xs a) ∧ waking s Q (host s) xs' [] (host s') ∧
    ∀ a st, at_state s tr xs a st → ¬ due s tr xs a → at_state s' tr' [] a (tick_pass (clk s) st)) s.
Proof.
  intros Hi Hg Hsl. rewrite /btm_hlf. apply wp_bind.
  pose proof (wp_inv _ _ _ (tick_run s tr xs Hi)) as (n&s1&Hrun&tr1&xs1&P).
  eapply wp_intro; [exact Hrun|]. pose proof (kept_tick s _ _ Hrun) as Hcf.
  pose proof (pd_inv _ _ _ _ _ _ _ P) as Hi1. pose proof (expired_NoDup _ _ _ Hi1) as Hnd.
  assert (Hdue : ∀ a, a ∈ xs1 ↔ due s tr xs a) by (intros a; by eapply passed_due).
  assert (Hown : own_timers s xs1).
  { split; [intros a (_&p&Hp&_)%Hdue%(sl_task _ _ _ _ Hsl); by exists p|].
    intros a b p Ha%Hdue Hb%Hdue. by apply (sl_own _ _ _ _ Hsl). }
  assert (Hlt : nrp (ksys (host s)) + Z.of_nat (length xs1) < 2 ^ 31 - 2).
  { pose proof (wakers_few s xs1 Hnd (proj1 Hown)). pose proof (sl_nrp _ _ _ _ Hsl). lia. }
  assert (HI : waking s Q (host s) xs1 xs1 (host s1)).
  { rewrite (pd_host _ _ _ _ _ _ _ P). split; try done; [|lia]. exists Q. split_and!; try done.
    intros a p (_&q&Hq&Hs)%Hdue%(sl_task _ _ _ _ Hsl) Hp. rewrite /wakes Hq in Hp. by injection Hp as ->. }
  pose proof (process_expd_run (waking s Q (host s) xs1) s1 tr1 xs1 Hi1) as Hexp.
  assert (Hrest : ∀ s2, all_handled (waking s Q (host s) xs1) s1 tr1 xs1 s2 →
    ∃ tr' xs', tinv s2 tr' [] ∧ clk s2 = clk s ∧ (∀ a, a ∈ xs' ↔ due s tr xs a) ∧
    waking s Q (host s) xs' [] (host s2) ∧
    ∀ a st, at_state s tr xs a st → ¬ due s tr xs a → at_state s2 tr' [] a (tick_pass (clk s) st)).
  { intros s2 (Hi2&HI2&_&Hc2&_&_&Hst2). exists tr1, xs1.
    split_and!; [done|by rewrite Hc2 (pd_clk _ _ _ _ _ _ _ P)|done|done|]. intros a st Hst Hnd'.
    pose proof (pd_step _ _ _ _ _ _ _ P a st Hst) as Ha.
    destruct (tick_pass (clk s) st) as [w r ct|]; [by apply Hst2|]. by destruct Hnd'; apply Hdue. }
  assert (Hem : on_elst (list_empty E_hd) s1 = Some (bool_decide (E_tmr <$> xs1 = []), s1)).
  { rewrite /on_elst /zoom (list_empty_spec _ _ _ (ti_list _ _ _ Hi1)). by destruct s1. }
  apply wp_bind. eapply wp_intro; [exact Hem|]. apply wp_when; intros Hb.
  - eapply wp_mono; [apply Hexp; [|exact (waking_call s s1 Q (host s) xs1 Hcf Hown Hnd Hlt)|done]|intros []; apply Hrest].
    intros a (Hone&_)%Hdue%(sl_task _ _ _ _ Hsl). exact (one_shot_config _ _ _ Hcf Hone).
  - destruct xs1; [|done]. apply Hrest. by apply all_handled_nil.
Qed.

(** ** The turn of the daemon *)

(** [schedule] does not take tasks off the run queues, and leaves the other queues. *)
Lemma sched_queues_awake y Q p : kinv y Q → awake Q p → awake (sched_queues y Q) p.
Proof.
  intros Hk (i&Hi&Hp). rewrite /sched_queues. destruct (nrp y =? 0); [by exists i|].
  destruct (nxt_imm_task y); [by exists i|]. destruct (first_ready Q) as [q|]; [|by exists i].
  destruct (tasks y !! q) as [t|] eqn:Ht; [|by exists i]. case_decide; [by exists i|].
  destruct (decide (p = q)) as [->|Hne].
  - exists (prio t). split; [by eapply (ki_prio _ _ Hk)|]. apply qapp_elem. by right.
  - exists i. split; [done|]. apply qapp_elem. left. by apply qrem_elem.
Qed.
Lemma sched_queues_waits y Q p : kinv y Q → p ∈ Q N_wq → p ∈ sched_queues y Q N_wq.
Proof.
  intros Hk Hp. rewrite /sched_queues. destruct (nrp y =? 0); [done|]. destruct (nxt_imm_task y); [done|].
  destruct (first_ready Q) as [q|] eqn:Hq; [|done]. destruct (tasks y !! q) as [t|]; [|done].
  case_decide; [done|]. apply qapp_elem. left. apply qrem_elem. split; [|done]. intros ->.
  destruct (first_ready_queue _ _ Hq) as (i&Hi&Hqi).
  by discriminate (q_uniq _ _ _ _ (ki_queues _ _ Hk) N_wq (N_rq i) q I Hi Hp Hqi).
Qed.
Lemma awake_not_asleep y Q p : kinv y Q → awake Q p → p ∉ Q N_wq.
Proof.
  intros Hk (i&Hi&Hp) Hw. by discriminate (q_uniq _ _ _ _ (ki_queues _ _ Hk) N_wq (N_rq i) p I Hi Hw Hp).
Qed.

(** The current task goes to sleep and the next one runs. *)
Lemma sleep_switch y Q c tc j :
  kgood y Q → os_sched_enabled y = 0 → current y = Some c → tasks y !! c = Some tc → onrq tc ≠ 0 →
  0 ≤ j < MAX_PRIO → c ∈ Q (N_rq j) →
  ∃ y2 y3 Q3, add_task_to_wait_Q c y = Some (tt, y2) ∧ schedule y2 = Some (tt, y3) ∧ kgood y3 Q3 ∧
    c ∈ Q3 N_wq ∧ (∃ t, tasks y3 !! c = Some t ∧ onrq t = 0) ∧
    (∀ p, p ≠ c → awake Q p → awake Q3 p) ∧ ∀ p, p ≠ c → p ∈ Q N_wq → p ∈ Q3 N_wq.
Proof.
  intros Hg Hos Hc Htc Hon Hj Hcj. destruct (sleep_good y Q c tc j) as (l&Hrun&Hg2); [done..|].
  set (y2 := set_lst l (after_sleep c tc y)) in *. set (Q2 := qapp c N_wq (qrem c Q)) in *.
  assert (Hos2 : os_sched_enabled y2 = 0) by exact Hos. assert (Hc2 : current y2 = Some c) by exact Hc.
  assert (Ht2 : tasks y2 !! c = Some (slept (env_times (n_times y)) tc)) by apply lookup_insert_eq.
  clearbody y2. destruct (kgood_chosen _ _ Hg2) as [n Hn]. pose proof (kg_inv _ _ Hg2) as Hk2.
  destruct (wp_unit_inv _ _ _ (schedule_good y2 Q2 c n Hg2 Hos2 Hc2 Hn)) as (y3&Hr3&Hg3&Hs3).
  exists y2, y3, (sched_queues y2 Q2). split; [done|]. split; [done|]. split; [done|]. split; [|split; [|split]].
  - apply sched_queues_waits; [done|]. apply qapp_elem. by right.
  - destruct (ca_tasks _ _ (sc_carried _ _ _ _ Hs3) c _ Ht2) as (t'&Ht'&Ho'&_). exists t'. by rewrite Ho'.
  - intros p Hp (m&Hm&Hpm). apply sched_queues_awake; [done|]. exists m. split; [done|].
    apply qapp_elem. left. by apply qrem_elem.
  - intros p Hp Hpw. apply sched_queues_waits; [done|]. apply qapp_elem. left. by apply qrem_elem.
Qed.

(** A pass over the soft interrupts when the one of the timers is the only one. *)
Lemma softirqd_pass_run s tr xs Q i :
  tinv s tr xs → kgood (ksys (host s)) Q → sleepers s tr xs Q →
  dll (ilst (host s)) I_hd [I_irq i] → irqs (host s) !! i = Some (MkIrq i fn_btm_hlf WAKE_UP) →
  wp softirqd_pass (λ _ s', ∃ tr' xs' k, tinv s' tr' [] ∧ clk s' = clk s ∧
    (∀ a, a ∈ xs' ↔ due s tr xs a) ∧ waking s Q (host s) xs' [] k ∧
    host s' = set_irqs (<[i := MkIrq i fn_btm_hlf SLEEPING]> (irqs (host s))) k ∧
    ∀ a st, at_state s tr xs a st → ¬ due s tr xs a → at_state s' tr' [] a (tick_pass (clk s) st)) s.
Proof.
  intros Hi Hg Hsl Hd Hq. rewrite /softirqd_pass.
  destruct Hd as [Hnd (H1&_&H2&_)].
  assert (Hnx : ∀ (z : tms kernel) x y, ilst (host z) = ilst (host s) → nxt (ilst (host s)) x = Some y →
    on_ilst (get_next x) z = Some (y, z)).
  { intros z x y Hz Hxy. rewrite /on_ilst /on_host /zoom Hz (get_next_eq _ _ _ Hxy).
    rewrite -Hz. by destruct z as [z1 z2 z3 z4 z5 z6 z7 z8 z9 z10 []]. }
  rewrite /wp (bind_run (gets _) _ s _ s eq_refl) (bind_run _ _ _ _ _ (Hnx s _ _ eq_refl H1)).
  assert (Hsz : ∃ n, size (ilst (host s)) = S n).
  { destruct (size (ilst (host s))) eqn:Hz; [|by eexists]. apply map_size_empty_iff in Hz.
    by rewrite Hz /nxt lookup_empty in H1. }
  destruct Hsz as [n ->]. cbn [softirqd_loop]. case_decide; [done|].
  rewrite (bind_run (liftO (Some i)) _ s i s eq_refl).
  assert (Hld : irq_ld i s = Some (MkIrq i fn_btm_hlf WAKE_UP, s)).
  { by rewrite /irq_ld /mbind /M_bind /gets /liftO Hq. }
  rewrite (bind_run _ _ _ _ _ Hld). cbn [irq_status irq_action].
  change ((WAKE_UP =? WAKE_UP) && truthy fn_btm_hlf) with true. cbn [when].
  change (run_action fn_btm_hlf) with btm_hlf. apply wp_bind, wp_bind.
  eapply wp_mono; [by apply (btm_hlf_run s tr xs Q)|].
  intros [] s1 (tr1&xs1&Hi1&Hc1&Hdue&Hw&Hst). destruct (wk_same _ _ _ _ _ _ Hw) as (Hirq&Hil&_).
  assert (Hq1 : irqs (host s1) !! i = Some (MkIrq i fn_btm_hlf WAKE_UP)) by by rewrite Hirq.
  eapply wp_intro; [exact (irq_mod_run _ _ _ _ Hq1)|]. set (s2 := set_host _ s1).
  rewrite /wp (bind_run _ _ _ _ _ (Hnx s2 _ _ Hil H2)).
  replace (softirqd_loop n I_hd) with (mret tt : M (tms kernel) unit) by by destruct n.
  apply wp_ret. exists tr1, xs1, (host s1). split_and!; [by apply tinv_host|done|done|done| |].
  - cbn. by rewrite Hirq.
  - intros a st Ha Hn. exact (Hst a st Ha Hn).
Qed.

(** What a turn of the daemon leaves. *)
Record served s tr xs Q d s' tr' Q' : Prop := {
  sv_inv : tinv s' tr' [];
  sv_clk : clk s' = clk s;
  sv_good : kgood (ksys (host s')) Q';
  sv_daemon : d ∈ Q' N_wq;
  sv_woken a p : due s tr xs a → wakes s a p → awake Q' p;
  sv_asleep p : p ≠ d → (∀ a, due s tr xs a → ¬ wakes s a p) → p ∈ Q N_wq → p ∈ Q' N_wq;
  sv_running a st : at_state s tr xs a st → ¬ due s tr xs a → at_state s' tr' [] a (tick_pass (clk s) st)
}.

Lemma softirqd_run s tr xs Q i d td j :
  tinv s tr xs → kgood (ksys (host s)) Q → sleepers s tr xs Q →
  dll (ilst (host s)) I_hd [I_irq i] → irqs (host s) !! i = Some (MkIrq i fn_btm_hlf WAKE_UP) →
  current (ksys (host s)) = Some d → tasks (ksys (host s)) !! d = Some td → onrq td ≠ 0 →
  0 ≤ j < MAX_PRIO → d ∈ Q (N_rq j) → os_sched_enabled (ksys (host s)) = 0 →
  wp softirqd (λ _ s', (∃ tr' Q', served s tr xs Q d s' tr' Q') ∧
    irqs (host s') !! i = Some (MkIrq i fn_btm_hlf SLEEPING)) s.
Proof.
  intros Hi Hg Hsl Hd Hq Hc Htd Hon Hj Hdj Hos. rewrite /softirqd. apply wp_bind.
  eapply wp_mono; [by apply (softirqd_pass_run s tr xs Q i)|].
  intros [] s1 (tr1&xs1&k&Hi1&Hc1&Hdue&[(Q1&Hg1&_&Haw&Hot) _ _ Hcur Hos1 _ Htk]&Hh&Hst).
  assert (Hdn : ∀ a, a ∈ xs1 → ¬ wakes s a d).
  { intros a (_&p&Hp&Hw&_)%Hdue%(sl_task _ _ _ _ Hsl) Had. rewrite /wakes Hp in Had. injection Had as ->.
    apply (awake_not_asleep _ Q d (kg_inv _ _ Hg)); [exists j; done|done]. }
  set (y := ksys k) in *. assert (Hy : ksys (host s1) = y) by by rewrite Hh.
  destruct (sleep_switch y Q1 d td j) as (y2&y3&Q3&Hrun&Hsch&Hg3&Hd3&_&Haw3&Hwt3);
    [done|congruence|congruence|by apply Htk|done|done|by apply Hot|].
  assert (Hpark : add_current_task_wait_Q (ksys (host s1)) = Some (tt, y2)).
  { rewrite Hy /add_current_task_wait_Q (bind_run (gets os_sched_enabled) _ y _ y eq_refl) Hos1 Hos.
    cbn [truthy Z.eqb negb when]. rewrite (bind_run cur _ y d y); [exact Hrun|].
    rewrite /cur (bind_run (gets current) _ y _ y eq_refl) Hcur Hc. done. }
  apply wp_bind. eapply wp_intro; [exact (on_sys_run _ s1 _ _ Hpark)|].
  eapply wp_intro; [exact (on_sys_run schedule (with_sys y2 s1) tt y3 Hsch)|].
  split; [|cbn; rewrite Hh /=; apply lookup_insert_eq].
  exists tr1, Q3. split; [by do 2 apply tinv_host|done|done|done|..].
  - intros a p Ha%Hdue Hp. apply Haw3; [intros ->; by apply (Hdn a)|].
    by apply (Haw a p Ha ltac:(by intros ?%elem_of_nil) Hp).
  - intros p Hpd Hpn Hp. apply Hwt3; [done|]. apply Hot; [|done]. intros a Ha%Hdue. by apply Hpn.
  - intros a st Ha Hn'. exact (Hst a st Ha Hn').
Qed.
End wake.

(** ** Going to sleep *)
Section asleep.
Context `{E : Env} `{KE : KEnv}.
Implicit Types (s : tms kernel) (tr : Z → tree) (xs : list Z) (Q : qmap) (c p : positive) (a : Z).

Lemma started_wakes s s' a new p :
  started s s' a new fn_wakeup_task (Zpos p) 0 → wakes s' a p ∧ one_shot s' a.
Proof.
  rewrite /started. intros Hc. destruct (config_back s' a new (fn_wakeup_task, Zpos p, TIMER_ONCE))
    as (q&t&Ha&Ht&<-&[= Hh Hd Hf]); [by rewrite Hc; apply lookup_insert_eq..|]. split.
  - by rewrite /wakes /handler_of Ha /= Ht /= -Hh -Hd.
  - exists q, t. rewrite -Hf. split_and!; [done|done|by left].
Qed.

(** A task that can go to sleep. *)
Record may_sleep s Q c (tc : tsk) (j : Z) : Prop := {
  ms_good : kgood (ksys (host s)) Q;
  ms_os : os_sched_enabled (ksys (host s)) = 0;
  ms_cur : current (ksys (host s)) = Some c;
  ms_tsk : tasks (ksys (host s)) !! c = Some tc;
  ms_onrq : onrq tc ≠ 0;
  ms_queue : 0 ≤ j < MAX_PRIO ∧ c ∈ Q (N_rq j)
}.

Lemma sleep_on_timer_run s tr xs T0 n new a Q c tc j :
  tinv s tr xs → clk s = clock_at T0 → 0 ≤ T0 → 0 < n < max_ticks → T0 + n < 2 ^ 32 →
  count s ≤ MAX_TIMERS → s32 (indx s + 1) ≠ 0 → TimerSpec.fresh s new a → may_sleep s Q c tc j →
  wp (sleep_on_timer n) (λ _ s', ∃ tr' w r Q',
    tinv s' tr' xs ∧ at_state s' tr' xs a (Running w r (encode_time 0 n)) ∧
    fire_time w r (encode_time 0 n) = T0 - T0 `mod` unit_of w + n ∧
    wakes s' a c ∧ one_shot s' a ∧ kgood (ksys (host s')) Q' ∧ sleeps (host s') Q' c) s.
Proof.
  intros Hi Hck HT Hn Hb Hcnt Hidx Hfr [Hg Hos Hc Htc Hon [Hj Hcj]]. rewrite /sleep_on_timer.
  assert (Hcp : current_ptr s = Some (Zpos c, s)).
  { rewrite /current_ptr /wp (bind_run (on_sys get_current) _ s (Some c) s); [done|].
    rewrite (on_sys_run get_current s (Some c) (ksys (host s))); [|by rewrite /get_current /gets Hc].
    by destruct s as [z1 z2 z3 z4 z5 z6 z7 z8 z9 z10 []]. }
  rewrite /wp (bind_run _ _ _ _ _ Hcp). apply wp_bind.
  eapply wp_mono; [by apply (start_timer_run s tr xs T0 n (Zpos c) fn_wakeup_task 0 new a)|].
  intros _ s1 (_&tr1&w&r&Hi1&Hst&_&Hft&_&_&Hho&_&Hsd). destruct (started_wakes _ _ _ _ _ Hsd) as [Hwk Hone].
  destruct (sleep_switch (ksys (host s)) Q c tc j) as (y2&y3&Q3&Hrun&Hsch&Hg3&Hc3&Ht3&_); [done..|].
  assert (Hpark : on_sys (c ← cur; add_task_to_wait_Q c) s1 = Some (tt, with_sys y2 s1)).
  { apply on_sys_run. rewrite Hho (bind_run cur _ _ c (ksys (host s))); [done|].
    by rewrite /cur (bind_run get_current _ _ (Some c) (ksys (host s))); [|rewrite /get_current /gets Hc]. }
  rewrite /wp (bind_run _ _ _ _ _ Hpark).
  eapply wp_intro; [exact (on_sys_run schedule (with_sys y2 s1) tt y3 Hsch)|].
  exists tr1, w, r, Q3. split; [by do 2 apply tinv_host|]. split; [exact Hst|]. split; [done|].
  split; [exact Hwk|]. split; [exact Hone|]. by split.
Qed.
End asleep.
