(* ===== verification/KernelSpec.v ===== *)
(** * The tick: what timers and scheduler promise together

    - A tick at which some timer is due switches to the soft-interrupt daemon, and no
      tick at which a timer is due is skipped.
    - When the daemon is done, every task whose sleep is over is on a run queue.
    - A task that sleeps is off the run queues and has a timer that wakes it. *)

From S2P Require Import Prelude ListHead RbTree RbRep RbInsert RbWalk RbErase RbSpec.
From S2P Require Import Timers TimerFormat TimerTree TimerKeep TimerInv TimerPass TimerFire TimerSpec TimerLive TimerPending.
From S2P Require Import Task Signal Sched SchedInv SchedProps ThreadLib SchedSpec Kernel KernelInv.
#[local] Open Scope Z_scope.

Section Spec.
Context `{E : Env} `{KE : KEnv}.
Implicit Types (s : tms kernel) (tr : Z → tree) (xs : list Z) (Q : qmap) (c d p : positive) (a : Z).

(** Between two ticks, with the daemon [d] asleep: it has a better priority than the
    current task [c] and the cached one. *)
Record tick_ready s tr xs (T : Z) Q d (t : tsk) i : Prop := {
  tr_inv : tinv s tr xs;
  tr_counted : counted s tr;
  tr_clk : clk s = clock_at T;
  tr_time : 0 ≤ T ∧ T + 1 < 2 ^ 32;
  tr_good : kgood (ksys (host s)) Q;
  tr_os : os_sched_enabled (ksys (host s)) = 0;
  tr_daemon : daemon_waits (host s) Q d t;
  tr_nrp : nrp (ksys (host s)) + 1 + Z.of_nat (size (apps s)) < 2 ^ 31 - 2;
  tr_irq : tm_irq (host s) = i ∧ irqs (host s) !! i = Some (MkIrq i fn_btm_hlf SLEEPING);
  tr_list : dll (ilst (host s)) I_hd [I_irq i];
  tr_cur : ∃ c tc, current (ksys (host s)) = Some c ∧ tasks (ksys (host s)) !! c = Some tc ∧ prio t < prio tc;
  tr_imm : imm_after (tasks (ksys (host s))) (nxt_imm_task (ksys (host s))) d t = Some d
}.
(** The same state at the next tick. *)
Definition next_tick (T : Z) s : tms kernel := set_clk (clock_at (T + 1)) s.

Lemma tick_ready_run s tr xs T Q d t i :
  tick_ready s tr xs T Q d t i → some_due s tr xs (T + 1) →
  ∃ k, tick_tmr_intr s = Some (tt, set_host k (next_tick T s)) ∧
    handed_over (host s) k Q d t (MkIrq i fn_btm_hlf SLEEPING).
Proof.
  intros [Hi Hct Hck [HT HT1] Hg Hos Hd Hn [<- Hq] Hl (c&tc&Hc&Htc&Hpr) Him] Hdue.
  apply (tick_tmr_intr_run s tr xs T Q d t _ c tc); try done. lia.
Qed.
(** The sleepers of the tick are still asleep when the daemon runs. *)
Lemma handed_over_sleepers s k tr xs T Q d t q :
  handed_over (host s) k Q d t q → sleepers (next_tick T s) tr xs Q →
  (∀ a, due (next_tick T s) tr xs a → ¬ wakes s a d) →
  nrp (ksys (host s)) + 1 + Z.of_nat (size (apps s)) < 2 ^ 31 - 2 →
  sleepers (set_host k (next_tick T s)) tr xs (qcons d (N_rq (prio t)) (qrem d Q)).
Proof.
  intros Hho [H1 H2 _] Hd Hn. split; [|exact H2|].
  - intros a Ha. destruct (H1 a Ha) as (Ho&p&Hp&Hw&tp&Htp&Hon). split; [exact Ho|]. exists p.
    assert (p ≠ d) as Hpd by (intros ->; by apply (Hd a Ha)). split; [exact Hp|]. split.
    + apply qcons_elem. left. by apply qrem_elem.
    + destruct (ho_tasks _ _ _ _ _ _ Hho p tp Hpd Htp) as (tp'&Ht'&Ho'). exists tp'. by rewrite Ho'.
  - change (apps (set_host k (next_tick T s))) with (apps s). cbn [host set_host].
    rewrite (ho_nrp _ _ _ _ _ _ Hho). exact Hn.
Qed.

(** C16: when the daemon waits, has a strictly better priority than the current task and is not kept from the cache by a
    task that is at least as urgent ([tick_ready]), a tick at which some timer has to be moved or expires marks the timers' soft
    interrupt, puts the daemon on the run queue of its priority and switches to it;
    the timers are not touched by the handler itself. *)
Theorem tick_switches_to_daemon s tr xs T Q d t i :
  tick_ready s tr xs T Q d t i → some_due s tr xs (T + 1) →
  ∃ k, tick_tmr_intr s = Some (tt, set_host k (set_clk (clock_at (T + 1)) s)) ∧
    current (ksys k) = Some d ∧ kgood (ksys k) (qcons d (N_rq (prio t)) (qrem d Q)) ∧
    irqs k !! i = Some (MkIrq i fn_btm_hlf WAKE_UP).
Proof.
  intros Hr Hdue. destruct (tick_ready_run _ _ _ _ _ _ _ _ Hr Hdue) as (k&Hrun&Hho). exists k.
  split; [exact Hrun|]. split; [apply Hho|]. split; [apply Hho|].
  rewrite (ho_irqs _ _ _ _ _ _ Hho) (proj1 (tr_irq _ _ _ _ _ _ _ _ Hr)). apply lookup_insert_eq.
Qed.

(** the tick and the turn of the daemon that follows it wake every task whose
    sleep is over: it is on a run queue afterwards.  The daemon sleeps again, the other
    sleepers go on sleeping, and the timers that are not over have moved as they should. *)
Theorem sleepers_wake_on_tick s tr xs T Q d t i :
  tick_ready s tr xs T Q d t i → some_due s tr xs (T + 1) →
  sleepers (next_tick T s) tr xs Q → (∀ a, due (next_tick T s) tr xs a → ¬ wakes s a d) →
  wp (tick_tmr_intr;; softirqd) (λ _ s', ∃ tr' Q', tinv s' tr' [] ∧ kgood (ksys (host s')) Q' ∧ d ∈ Q' N_wq ∧
    (∀ a p, due (next_tick T s) tr xs a → wakes s a p → awake Q' p) ∧
    (∀ p, p ≠ d → (∀ a, due (next_tick T s) tr xs a → ¬ wakes s a p) → p ∈ Q N_wq → p ∈ Q' N_wq) ∧
    ∀ a st, at_state s tr xs a st → ¬ due (next_tick T s) tr xs a →
      at_state s' tr' [] a (tick_pass (clock_at (T + 1)) st)) s.
Proof.
  intros Hr Hdue Hsl Hd. destruct (tick_ready_run _ _ _ _ _ _ _ _ Hr Hdue) as (k&Hrun&Hho).
  pose proof (handed_over_sleepers _ _ _ _ _ _ _ _ _ Hho Hsl Hd (tr_nrp _ _ _ _ _ _ _ _ Hr)) as Hsl'.
  destruct (ho_daemon _ _ _ _ _ _ Hho) as (td&Htd&Hon).
  destruct Hr as [Hi _ _ _ Hg Hos [_ _ Ht _] _ [Hirq Hq] Hl _ _]. rewrite /wp (bind_run _ _ _ _ _ Hrun).
  set (s1 := set_host k (next_tick T s)) in *.
  eapply wp_mono; [apply (softirqd_run s1 tr xs (qcons d (N_rq (prio t)) (qrem d Q)) i d td (prio t))|].
  - apply tinv_host. by apply tinv_clk.
  - apply Hho.
  - exact Hsl'.
  - cbn. by rewrite (ho_ilst _ _ _ _ _ _ Hho).
  - cbn. rewrite (ho_irqs _ _ _ _ _ _ Hho) Hirq. apply lookup_insert_eq.
  - apply Hho.
  - exact Htd.
  - by rewrite Hon.
  - by eapply (ki_prio _ _ (kg_inv _ _ Hg)).
  - apply qcons_elem. by right.
  - cbn. by rewrite (ho_os _ _ _ _ _ _ Hho).
  - intros [] s2 [(tr'&Q'&[H1 _ H3 H4 H5 H6 H7]) _]. exists tr', Q'. do 3 (split; [done|]).
    split; [exact H5|]. split; [|exact H7]. intros p Hp Hpn Hpw. apply H6; [done|exact Hpn|].
    apply qcons_elem. left. by apply qrem_elem.
Qed.

(** when [timers_pending_for_service] reports that nothing is to be done, the tick
    would not change any timer: leaving out the service loses nothing. *)
Theorem skipped_service_loses_nothing s tr xs a st :
  tinv s tr xs → counted s tr → timers_pending_for_service s = Some (0, s) →
  at_state s tr xs a st → tick_pass (clk s) st = st.
Proof. apply not_pending_pass. Qed.

(** a task that calls [sleep] with a number of seconds is off the run queues and
    waits, another task runs, and a one-shot timer is set that will wake it at the right
    tick, counted from the last full second, minute or hour. *)
Theorem sleep_correct s tr xs T0 secs new a Q c tc j :
  tinv s tr xs → clk s = clock_at T0 → 0 ≤ T0 → 0 < secs < 1024 * 3600 → T0 + 50 * secs < 2 ^ 32 →
  count s ≤ MAX_TIMERS → s32 (indx s + 1) ≠ 0 → TimerSpec.fresh s new a → may_sleep s Q c tc j →
  wp (sleep secs) (λ _ s', ∃ tr' w r Q',
    tinv s' tr' xs ∧ at_state s' tr' xs a (Running w r (encode_time 0 (50 * secs))) ∧
    fire_time w r (encode_time 0 (50 * secs)) = T0 - T0 `mod` unit_of w + 50 * secs ∧
    wakes s' a c ∧ one_shot s' a ∧ kgood (ksys (host s')) Q' ∧ sleeps (host s') Q' c) s.
Proof.
  intros Hi Hck HT Hs Hb Hcnt Hidx Hfr Hms. rewrite /sleep. assert (Hz : secs ≠ 0) by lia.
  rewrite (proj2 (truthy_true _) Hz). cbn [negb].
  replace (u32 (secs * tm_get_ticks_per_second)) with (50 * secs)
    by (change tm_get_ticks_per_second with 50; rewrite u32_small; lia).
  apply (sleep_on_timer_run s tr xs T0 (50 * secs) new a Q c tc j); try done. rewrite sfs_max. lia.
Qed.
End Spec.

(** ** A task that sleeps on a concrete machine *)
Module KernelWitness.
Import Run States TimerWitness.

#[local] Instance demo_kernel : KEnv := {|
  kenv_talloc k := 4 * (Z.of_nat k + 1);
  kenv_tsizeof _ := 64;
  kenv_handler _ _ := mret tt;
  kenv_action _ := mret tt
|}.

(** The first task and the daemon sleep, the idle task runs. *)
Definition idling : sys := after (add_current_task_wait_Q;; schedule) asleep.
Lemma idling_good : kgood idling (queues_of idling).
Proof. apply kgood_ok_kgood. decide_now. Qed.
(** The soft interrupt of the timers is at the address 16. *)
Definition machine (y : sys) : kernel :=
  MkKernel y {[16 := MkIrq 16 fn_btm_hlf SLEEPING]}
    {[I_hd := LH (I_irq 16) (I_irq 16); I_irq 16 := LH I_hd I_hd]} 16.
(** After 102 ticks; a timer that wakes the first task is due at the next one. *)
Definition at_102 : tms kernel := single_at 102 TICK 103 3 1 fn_wakeup_task (machine idling).
Definition the_daemon : tsk := default tsk_zero (tasks idling !! 5%positive).

Lemma packed_3 : packed 3.
Proof. exists 0, 0, 0, 3. by rewrite /fields_ok. Qed.
Lemma at_102_tinv : tinv at_102 (one_tree TICK) [].
Proof. by apply single_tinv; [|apply packed_3|]. Qed.
Lemma at_102_state : at_state at_102 (one_tree TICK) [] 8 (Running TICK 103 3).
Proof. split; [done|]. split; [left|]. by eexists. Qed.
Lemma at_102_due : some_due at_102 (one_tree TICK) [] (102 + 1).
Proof. exists 8, (Running TICK 103 3). split; [exact at_102_state|]. clear. by vm_compute. Qed.
Lemma at_102_ready : tick_ready at_102 (one_tree TICK) [] 102 (queues_of idling) 5 the_daemon 16.
Proof.
  split; [exact at_102_tinv|clear; by vm_compute|done|done|exact idling_good|clear; by vm_compute|..].
  - split; clear; [by vm_compute|decide_now|by vm_compute|by vm_compute].
  - clear. by vm_compute.
  - split; [done|]. clear. by vm_compute.
  - split; [|done]. clear. decide_now.
  - exists 3%positive, (default tsk_zero (tasks idling !! 3%positive)). clear. by vm_compute.
  - clear. by vm_compute.
Qed.
Lemma at_102_only a : due (next_tick 102 at_102) (one_tree TICK) [] a → a = 8.
Proof.
  intros ([w r ct|]&Hst&He); [|by apply elem_of_nil in Hst]. destruct Hst as (_&Ha&_).
  by destruct (one_in _ _ _ Ha).
Qed.
Lemma at_102_wakes a p : wakes at_102 a p → a = 8 → p = 1%positive.
Proof. intros Hw ->. by injection Hw. Qed.
Lemma at_102_sleepers : sleepers (next_tick 102 at_102) (one_tree TICK) [] (queues_of idling).
Proof.
  split.
  - intros a ->%at_102_only. split; [do 2 eexists; split; [done|]; split; [done|by left]|]. exists 1%positive.
    split; [done|]. split; [clear; decide_now|]. exists (default tsk_zero (tasks idling !! 1%positive)). clear.
    by vm_compute.
  - intros a b p Ha Hb _ _. by rewrite (at_102_only _ Ha) (at_102_only _ Hb).
  - clear. by vm_compute.
Qed.

Lemma tick_switches_witness :
  ∃ k, tick_tmr_intr at_102 = Some (tt, set_host k (next_tick 102 at_102)) ∧ current (ksys k) = Some 5%positive.
Proof.
  destruct (tick_switches_to_daemon _ _ _ _ _ _ _ _ at_102_ready at_102_due) as (k&Hr&Hc&_).
  exists k. exact (conj Hr Hc).
Defined.
Lemma sleepers_wake_witness :
  wp (tick_tmr_intr;; softirqd) (λ _ s', ∃ Q', kgood (ksys (host s')) Q' ∧ awake Q' 1) at_102.
Proof.
  eapply wp_mono; [apply (sleepers_wake_on_tick _ _ _ _ _ _ _ _ at_102_ready at_102_due at_102_sleepers)|].
  - intros a ->%at_102_only Hw. by apply at_102_wakes in Hw.
  - intros [] s' (tr'&Q'&_&Hg&_&Haw&_). exists Q'. split; [exact Hg|]. apply (Haw 8); [|done].
    exists (Running TICK 103 3). split; [exact at_102_state|]. clear. by vm_compute.
Defined.
Lemma skipped_service_witness : tick_pass [101; 2; 0; 0] (Running SEC 5 3072) = Running SEC 5 3072.
Proof.
  apply (skipped_service_loses_nothing (single_at 101 SEC 5 3072 1 fn_wakeup_task (machine idling))
    (one_tree SEC) [] 8).
  - apply single_tinv; [done| |clear; by vm_compute]. exists 0, 0, 3, 0. split; [by rewrite /fields_ok|].
    clear. by vm_compute.
  - clear. by vm_compute.
  - clear. by vm_compute.
  - split; [done|]. split; [left|]. by eexists.
Defined.
(** The daemon itself goes to sleep for two seconds at the tick 120. *)
Lemma sleep_witness :
  wp (sleep 2) (λ _ s', ∃ w r Q', fire_time w r (encode_time 0 100) = 120 - 120 `mod` unit_of w + 100 ∧ wakes s' 8 5 ∧ sleeps (host s') Q' 5)
    (idle_at 120 (machine asleep)).
Proof.
  eapply wp_mono; [apply (sleep_correct _ no_trees [] 120 2 4 8 (queues_of asleep) 5
    (default tsk_zero (tasks asleep !! 5%positive)) 1)|].
  - apply idle_tinv.
  - done.
  - done.
  - done.
  - done.
  - done.
  - done.
  - clear. by split_and!.
  - split; [exact asleep_good|clear; by vm_compute..|]. split; [done|]. clear. decide_now.
  - intros [] s' (tr'&w&r&Q'&_&Hst&Hf&Hw&_&_&Hs). exists w, r, Q'.
    exact (conj Hf (conj Hw Hs)).
Defined.
End KernelWitness.
