(* ===== verification/KernelSafe.v ===== *)
(** * Whole runs of the machine

    Ticks, turns of the daemon, sleeps and the operations of SchedSafe.v in any order.
    [machine]: the invariant of all of them. *)

From S2P Require Import Prelude ListHead RbTree RbRep RbInsert RbWalk RbErase RbSpec.
From S2P Require Import Timers TimerFormat TimerTree TimerKeep TimerInv TimerPass TimerFire TimerSpec TimerLive TimerPending.
From S2P Require Import Task Signal Sched SchedInv SchedProps ThreadLib SchedFrame SchedSpec ThreadSpec SchedSafe.
From S2P Require Import Kernel KernelInv.
#[local] Open Scope Z_scope.

(** ** What the operations of the scheduler leave to the daemon and to the timers *)
Section grow.
Context `{E : Env}.
Implicit Types (s y : sys) (p q c d : positive).

(** A task that a timer may wake. *)
Definition sleeper y p : Prop := is_Some (tasks y !! p) ∧ idle y ≠ Some p ∧ softirq_d y ≠ Some p.
Definition no_task : positive → Prop := λ _, False.
Definition any_task : positive → Prop := λ _, True.
Definition alive y p : Prop := is_Some (tasks y !! p).

Lemma sleeper_grows K P y y' p : grows K P y y' → K p → sleeper y p → sleeper y' p.
Proof. intros (Hi&Hd&Ht&_) HK (H1&H2&H3). rewrite /sleeper Hi Hd. auto. Qed.
Lemma grows_any K P y y' : grows any_task P y y' → grows K P y y'.
Proof. intros (H1&H2&H3&H4). split; [done|]. split; [done|]. split; [|done]. intros p _. by apply H3. Qed.

Lemma grows_wakeup K P p : respects (grows K P) (wakeup_task p).
Proof. apply frame_wakeup; [apply _|]. by apply grows_tsk_mod. Qed.
Lemma grows_set_current K P o : respects (grows K P) (modify (set_current o)).
Proof. apply respects_modify. intros s. by split. Qed.
Lemma grows_schedule K P : respects (grows K P) schedule.
Proof.
  apply frame_schedule; [apply _|intros o; apply grows_set_current|]. intros p. by apply grows_tsk_mod.
Qed.
Lemma grows_add_wait K P c : ¬ P c → respects (grows K P) (add_task_to_wait_Q c).
Proof. intros Hc. apply frame_add_wait; [apply _|]. by apply grows_tsk_mod. Qed.

(** A woken task is ready. *)
Lemma wakeup_ready p s s' : wakeup_task p s = Some (tt, s') → ready s' p.
Proof.
  assert (Hrest : ∀ s1 s2, ready s1 p → (note_sched_need p;; note_imm_task p;; now ← times;
    tsk_mod (λ t, set_stime (slong (now - stime t)) t) p) s1 = Some (tt, s2) → ready s2 p).
  { intros s1 s2 H1 H2. assert (Hm : respects (grows any_task any_task) (note_sched_need p;; note_imm_task p;; now ← times;
      tsk_mod (λ t, set_stime (slong (now - stime t)) t) p)) by respect.
    by apply (Hm _ _ _ H2). }
  rewrite /wakeup_task. intros (t&s1&H1&Hr)%bind_inv. apply bind_inv in Hr as ([]&s2&H2&Hr).
  apply bind_inv in Hr as ([]&s3&H3&Hr). apply (Hrest s3); [|done]. clear Hr Hrest.
  assert (s1 = s ∧ tasks s !! p = Some t) as [-> Ht].
  { revert H1. rewrite /tsk_ld. destruct (tasks s !! p); [|done]. by intros [= <- <-]. }
  assert (tasks s2 = tasks s) as Ht2.
  { revert H2. rewrite /when /emit. destruct (truthy _); by intros [= <-]. }
  destruct (truthy (onrq t)) eqn:Ho; cbn [when negb] in H3.
  - injection H3 as <-. exists t. rewrite Ht2. split; [done|]. by apply truthy_true.
  - apply bind_inv in H3 as ([]&s4&_&H3). apply bind_inv in H3 as (h&s5&_&H3). apply bind_inv in H3 as ([]&s6&_&H3).
    apply bind_inv in H3 as ([]&s7&H7&H3).
    assert (Hm : respects (grows any_task any_task) (modify (λ s, set_nrp (s32 (nrp s + 1)) s);;
      modify (λ s, set_nwp (s32 (nwp s - 1)) s))) by respect.
    apply (Hm _ _ _ H3); [done|]. revert H7. rewrite /tsk_mod. destruct (tasks s6 !! p) as [t6|]; [|done].
    intros [= <-]. exists (set_onrq 1 t6). split; [apply lookup_insert_eq|done].
Qed.

Lemma run_op_grows o s s' : allowed o s → run_op o s = Some (tt, s') → grows (alive s) no_task s s'.
Proof.
  assert (Hset : ∀ f p, respects (grows (alive s) no_task) (tsk_mod f p)) by (intros f p; by apply grows_tsk_mod).
  pose proof (grows_schedule (alive s) no_task) as Hsch. pose proof (grows_set_current (alive s) no_task) as Hcur.
  assert (Hop : ∀ m : M sys unit, respects (grows (alive s) no_task) m → m s = Some (tt, s') → grows (alive s) no_task s s').
  { intros m Hm Hr. exact (Hm _ _ _ Hr). }
  destruct o as [| |ev|fd| |fd|t0 ev|p|l|l|n|n|nm a w arg]; cbn [run_op allowed]; intros Ha; last first.
  { intros (r&s1&Hr&[= <-])%bind_inv. apply (grows_spawn _ _ _ _ _ _ _ _ _ Hr). intros p Hp. destruct Ha as (_&_&_&_&Ha).
    split; [|by intros []]. intros Hal. destruct (Ha p Hp) as [Hn _]. by apply Hn, elem_of_dom. }
  all: apply Hop; rewrite /cpu_yield /update_process_time; respect.
  all: first [ apply frame_park | apply frame_wait_for_event | apply frame_wait_on_fd | apply frame_wake_io | apply frame_post_event
    | apply frame_wakeup | apply frame_lock | apply frame_unlock | apply frame_raise | apply frame_signal ]; by try apply _.
Qed.
End grow.

(** ** The invariant *)
Section machine.
Context `{E : Env} `{KE : KEnv}.
Implicit Types (s : tms kernel) (k : kernel) (y : sys) (tr : Z → tree) (xs : list Z) (p c d : positive) (a : Z).

(** The timer [a] wakes a task that may be woken, once. *)
Definition alarm s y a : Prop := one_shot s a ∧ ∃ p, wakes s a p ∧ sleeper y p.
Record machine s tr : Prop := {
  mc_timers : tinv s tr [];
  mc_count : counted s tr;
  mc_safe : safe (ksys (host s));
  mc_irq : ∃ q, irqs (host s) !! tm_irq (host s) = Some q ∧ irq_action q = fn_btm_hlf;
  mc_list : dll (ilst (host s)) I_hd [I_irq (tm_irq (host s))];
  mc_daemon : ∃ d, softirq_d (ksys (host s)) = Some d ∧ alive (ksys (host s)) d ∧ idle (ksys (host s)) ≠ Some d;
  mc_alarms a : a ∈ running tr → alarm s (ksys (host s)) a
}.
(** The tick has asked for the daemon. *)
Definition wanted s : Prop := ∃ q, irqs (host s) !! tm_irq (host s) = Some q ∧ irq_status q = WAKE_UP.

Lemma alarm_grows K P s y y' a : grows K P y y' → (∀ p, alive y p → K p) → alarm s y a → alarm s y' a.
Proof.
  intros Hg HK (H1&p&H2&H3). split; [done|]. exists p. split; [done|]. eapply sleeper_grows; [done| |done]. by apply HK, H3.
Qed.
Lemma alarm_config s s' y a : config s' = config s → alarm s y a → alarm s' y a.
Proof.
  intros Hc (H1&p&H2&H3). split; [by eapply one_shot_config|]. exists p. split; [by eapply handler_of_config|done].
Qed.

(** The scheduler did something. *)
Lemma machine_sys K P s tr y' :
  machine s tr → safe y' → grows K P (ksys (host s)) y' → (∀ p, alive (ksys (host s)) p → K p) →
  machine (with_sys y' s) tr.
Proof.
  intros [Hi Hc _ Hq Hl (d&Hd&Hal&Hid) Ha] Hs Hg HK. pose proof Hg as (Gi&Gd&Gt&_). split; try done.
  - by apply tinv_host.
  - exists d. cbn. rewrite Gd Gi. split; [done|]. split; [|done]. apply Gt; [by apply HK|done].
  - intros a Har. apply (alarm_grows K P s (ksys (host s))); auto.
Qed.
Lemma wp_machine_sys K P s tr (m : M sys unit) :
  machine s tr → wp m (λ _, safe) (ksys (host s)) → (∀ y', m (ksys (host s)) = Some (tt, y') → grows K P (ksys (host s)) y') →
  (∀ p, alive (ksys (host s)) p → K p) →
  wp (on_sys m) (λ _ s', machine s' tr ∧ ∃ y', s' = with_sys y' s ∧ grows K P (ksys (host s)) y' ∧ m (ksys (host s)) = Some (tt, y')) s.
Proof.
  intros Hm Hs Hg HK. apply wp_on_sys. destruct (wp_unit_inv _ _ _ Hs) as (y'&Hr&Hs'). eapply wp_intro; [exact Hr|].
  split; [by eapply machine_sys; eauto|]. exists y'. auto.
Qed.
(** ... and only its accounting. *)
Lemma safe_keeping y y' Q : keeps y y' → safe_with y Q → safe y'.
Proof. intros Hk Hs. exists Q. by eapply safe_keeps. Qed.

(** Marking the soft interrupt. *)
Lemma machine_mark s tr q v :
  machine s tr → irqs (host s) !! tm_irq (host s) = Some q →
  machine (set_host (set_irqs (<[tm_irq (host s) := set_status v q]> (irqs (host s))) (host s)) s) tr.
Proof.
  intros [Hi Hc Hs (q'&Hq'&Hact) Hl Hd Ha] Hq. rewrite Hq in Hq'. injection Hq' as <-. split; try done.
  - by apply tinv_host.
  - exists (set_status v q). split; [apply lookup_insert_eq|done].
Qed.
Lemma machine_clk s tr ck : machine s tr → length ck = 4%nat → machine (set_clk ck s) tr.
Proof. intros [Hi Hc Hs Hq Hl Hd Ha] Hck. split; try done. by apply tinv_clk. Qed.

(** ** The tick *)
(** The clock and the wheels do not depend on the host. *)
Lemma clk_inc_total s (w : nat) :
  (w < length (clk s))%nat → ∃ ck v, length ck = length (clk s) ∧
  ∀ k, clk_inc (Z.of_nat w) (set_host k s) = Some (v, set_clk ck (set_host k s)).
Proof.
  intros [c Hc]%lookup_lt_is_Some_2. do 2 eexists. split; [|intros k; exact (clk_inc_run (set_host k s) (clk s) w c eq_refl Hc)].
  by rewrite length_insert.
Qed.
Lemma advance_clock_total s :
  length (clk s) = 4%nat → ∃ ck, length ck = 4%nat ∧
  ∀ k, advance_clock (set_host k s) = Some (tt, set_clk ck (set_host k s)).
Proof.
  intros Hl. destruct (clk_inc_total s 0) as (c0&v0&L0&R0); [lia|]. rewrite Hl in L0.
  destruct (clk_inc_total (set_clk c0 s) 1) as (c1&v1&L1&R1); [cbn; lia|]. cbn [clk set_clk] in L1.
  destruct (clk_inc_total (set_clk c1 s) 2) as (c2&v2&L2&R2); [cbn; lia|]. cbn [clk set_clk] in L2.
  destruct (clk_inc_total (set_clk c2 s) 3) as (c3&v3&L3&R3); [cbn; lia|]. cbn [clk set_clk] in L3.
  assert (Hex : ∃ ck, length ck = 4%nat ∧ ∀ k, (when (negb (truthy (v0 `mod` tm_get_ticks_per_second)))
    (c ← clk_inc SEC; when (negb (truthy (c `mod` 60))) (c ← clk_inc MIN; when (negb (truthy (c `mod` 60))) (clk_inc HRS;; mret tt))))
    (set_clk c0 (set_host k s)) = Some (tt, set_clk ck (set_host k s))).
  { destruct (truthy (v0 `mod` _)); cbn [negb when]; [by exists c0|].
    destruct (truthy (v1 `mod` 60)) eqn:E1; [exists c1|destruct (truthy (v2 `mod` 60)) eqn:E2; [exists c2|exists c3]];
      (split; [congruence|]); intros k; rewrite (bind_run _ _ _ _ _ (R1 k)) E1; cbn [negb when]; [done|..];
      rewrite (bind_run _ _ _ _ _ (R2 k)) E2; cbn [negb when]; [done|]. by rewrite (bind_run _ _ _ _ _ (R3 k)). }
  destruct Hex as (ck&Hck&Hr). exists ck. split; [done|]. intros k. rewrite /advance_clock (bind_run _ _ _ _ _ (R0 k)). apply Hr.
Qed.
Lemma pending_host s tr xs k :
  tinv s tr xs → timers_pending_for_service (set_host k s) = Some (0, set_host k s) → timers_pending_for_service s = Some (0, s).
Proof.
  intros Hi. rewrite (pending_run _ _ _ Hi) (pending_run (set_host k s) tr xs); [|by apply tinv_host].
  intros [= Hb]. f_equal. f_equal. exact Hb.
Qed.

(** What a tick does: the clock advances, and the daemon is asked for exactly when some timer
    may be due. *)
Record ticked s tr s' : Prop := {
  tk_machine : machine s' tr;
  tk_state : ∃ ck k, s' = set_host k (set_clk ck s) ∧ advance_clock s = Some (tt, set_clk ck s) ∧
    (wanted s' ∨ timers_pending_for_service (set_clk ck s) = Some (0, set_clk ck s) ∧ irqs k = irqs (host s)) ∧
    tm_irq k = tm_irq (host s)
}.
Lemma pending_cases s tr xs : tinv s tr xs → ∃ b, timers_pending_for_service s = Some (b2z b, s).
Proof. intros Hi. rewrite (pending_run _ _ _ Hi). by eexists. Qed.

Lemma wp_softirq_wakeup y Q d : safe_with y Q → softirq_d y = Some d → alive y d → idle y ≠ Some d → wp softirq_wakeup (λ _, safe) y.
Proof.
  intros Hs Hd Hal Hi. rewrite /softirq_wakeup. apply wp_bind, wp_gets. rewrite Hd. apply wp_bind, wp_nonnull.
  by eapply safe_wakeup.
Qed.
Lemma grows_softirq_wakeup K P : respects (grows K P) softirq_wakeup.
Proof. rewrite /softirq_wakeup /nonnull. respect. apply grows_wakeup. Qed.

Lemma with_sys_id s : with_sys (ksys (host s)) s = s.
Proof. by destruct s as [z1 z2 z3 z4 z5 z6 z7 z8 z9 z10 []]. Qed.
Lemma service_timers_machine s tr :
  machine s tr → wp service_timers (λ _ s', machine s' tr ∧ wanted s' ∧ ∃ k, s' = set_host k s ∧ tm_irq k = tm_irq (host s)) s.
Proof.
  intros Hm. destruct (mc_irq _ _ Hm) as (q&Hq&_). rewrite /service_timers. apply wp_bind, wp_gets, wp_bind.
  eapply wp_intro; [exact (irq_mod_run _ _ _ _ Hq)|]. set (s1 := set_host _ s).
  assert (Hm1 : machine s1 tr) by by apply machine_mark.
  destruct (mc_safe _ _ Hm1) as [Q HQ]. destruct (mc_daemon _ _ Hm1) as (d&Hd&Hal&Hi).
  eapply wp_mono; [apply (wp_machine_sys any_task no_task s1 tr); [done|by eapply wp_softirq_wakeup| |done]|].
  - intros y'. apply grows_softirq_wakeup.
  - intros [] s' (Hm'&y'&->&_). split; [done|]. split; [|by eexists].
    exists (set_status WAKE_UP q). split; [apply lookup_insert_eq|done].
Qed.
Lemma tick_end_machine s tr :
  machine s tr → wp tick_end (λ _ s', machine s' tr ∧ ∃ y', s' = with_sys y' s) s.
Proof.
  intros Hm. destruct (mc_safe _ _ Hm) as [Q HQ]. destruct (ki_cur _ _ (kg_inv _ _ (sf_good _ _ HQ))) as (c&tc&Hc&Htc).
  rewrite /tick_end. apply wp_bind.
  eapply wp_mono; [apply (wp_machine_sys any_task no_task s tr); [done| |intros y'; apply frame_account, _|done]|].
  - eapply wp_mono; [by eapply update_process_time_run|]. intros [] y' (n&Hk&_).
    eapply safe_keeping; [exact Hk|by apply safe_need].
  - intros [] s1 (Hm1&y1&->&_). rewrite /wp (bind_run (on_sys (gets sched_need)) _ _ (sched_need y1) (with_sys y1 s)); last first.
    { rewrite -(with_sys_id (with_sys y1 s)). by apply on_sys_run. }
    destruct (mc_safe _ _ Hm1) as [Q1 HQ1]. destruct (truthy (sched_need y1)).
    + eapply wp_mono; [apply (wp_machine_sys any_task no_task _ tr schedule Hm1); [by eapply safe_schedule| |done]|].
      * intros y'. apply grows_schedule.
      * intros [] s2 (Hm2&y2&->&_). split; [done|]. by exists y2.
    + eapply wp_mono; [apply (wp_machine_sys any_task no_task _ tr (signals_unblock SIGALRM) Hm1); [| |done]|].
      * apply wp_modify. exists Q1. by apply safe_blocked.
      * intros y'. apply frame_signals_unblock, _.
      * intros [] s2 (Hm2&y2&->&_). split; [done|]. by exists y2.
Qed.
Lemma tick_machine s tr : machine s tr → wp tick_tmr_intr (λ _ s', ticked s tr s') s.
Proof.
  intros Hm. destruct (tick_tmr_intr_start s) as (y&Hk&Hsd&Ht&Hrun). rewrite /wp Hrun. clear Hrun.
  set (s1 := with_sys y s). assert (Hm1 : machine s1 tr).
  { destruct (mc_safe _ _ Hm) as [Q HQ]. apply (machine_sys any_task any_task); [done|by eapply safe_keeping| |done].
    split; [apply Hk|]. split; [done|]. rewrite /ready Ht. done. }
  destruct (advance_clock_total s) as (ck&Hl&Hadv); [apply (ti_clk _ _ _ (mc_timers _ _ Hm))|].
  assert (Hadv0 : advance_clock s = Some (tt, set_clk ck s)) by (specialize (Hadv (host s)); by destruct s).
  assert (Hadv1 : advance_clock s1 = Some (tt, set_clk ck s1)) by exact (Hadv _).
  set (s2 := set_clk ck s1). assert (Hm2 : machine s2 tr) by by apply machine_clk.
  destruct (pending_cases s2 tr [] (mc_timers _ _ Hm2)) as [b Hb].
  assert (Hup : wp update_times (λ _ s3, machine s3 tr ∧ ∃ k, s3 = set_host k s2 ∧ tm_irq k = tm_irq (host s) ∧
    (wanted s3 ∨ timers_pending_for_service s2 = Some (0, s2) ∧ irqs k = irqs (host s))) s1).
  { rewrite /update_times /wp (bind_run _ _ _ _ _ Hadv1) (bind_run _ _ _ _ _ Hb). destruct b; cbn [b2z truthy Z.eqb negb when].
    - eapply wp_mono; [by apply service_timers_machine|]. intros [] s3 (Hm3&Hw&k&->&Hi). split; [done|].
      exists k. split; [done|]. split; [done|]. by left.
    - apply wp_ret. split; [done|]. exists (host s1). split; [done|]. split; [done|]. right. by split. }
  apply wp_bind. eapply wp_mono; [exact Hup|]. intros [] s3 (Hm3&k&->&Hi&Hw).
  eapply wp_mono; [by apply tick_end_machine|]. intros [] s4 (Hm4&y4&->). split; [done|].
  exists ck, (set_ksys y4 k). split; [done|]. split; [done|]. split; [|done]. destruct Hw as [Hw|[Hp ?]]; [by left|right].
  split; [|done]. apply (pending_host _ tr [] (host s1)); [|exact Hp]. by apply tinv_clk; [apply Hm|].
Qed.
End machine.

(** ** The daemon *)
Section daemon.
Context `{E : Env} `{KE : KEnv}.
Implicit Types (s : tms kernel) (k : kernel) (y : sys) (tr : Z → tree) (xs : list Z) (p c d : positive) (a : Z).

(** While the handlers of the expired timers [rest] out of [xs] are still to be called. *)
Record handling s xs (rest : list Z) k : Prop := {
  hd_safe : safe (ksys k);
  hd_grows : grows any_task any_task (ksys (host s)) (ksys k);
  hd_cur : current (ksys k) = current (ksys (host s));
  hd_same : irqs k = irqs (host s) ∧ ilst k = ilst (host s) ∧ tm_irq k = tm_irq (host s);
  hd_woken a p : a ∈ xs → a ∉ rest → wakes s a p → ready (ksys k) p
}.
Lemma handling_call s s' xs :
  config s' = config s → NoDup xs → (∀ a, a ∈ xs → alarm s (ksys (host s)) a) → all_call (handling s xs) s' xs.
Proof.
  intros Hcf Hnd Hal pre a rest c s1 Hxs Hc [[Q HQ] Hg Hcur Hsame Hw].
  destruct (Hal a) as (_&p&Hp&Hsl); [rewrite Hxs; apply elem_of_app; right; left|].
  rewrite (handler_of_config _ _ _ _ Hcf Hp) in Hc. injection Hc as <-.
  change (calls_to (fn_wakeup_task, Zpos p) (handling s xs rest) s1) with
    (wp (on_sys (wakeup_task p)) (λ _ s2, ∃ k, s2 = set_host k s1 ∧ handling s xs rest k) s1).
  destruct (sleeper_grows _ _ _ _ _ Hg I Hsl) as (Hal1&Hi1&_). apply wp_on_sys.
  destruct (wp_unit_inv _ _ _ (safe_wakeup _ Q p HQ Hal1 Hi1)) as (y'&Hr&Hs'). eapply wp_intro; [exact Hr|].
  eexists. split; [reflexivity|]. cbn [ksys set_ksys irqs ilst tm_irq]. split; [done| | |done|]; cbn [ksys set_ksys].
  - etrans; [exact Hg|]. by apply (grows_wakeup any_task any_task p _ _ _ Hr).
  - assert (Hc : respects (calmed no_task) (wakeup_task p)) by (apply frame_wakeup; [apply _|apply calmed_tsk_mod; by intros []]).
    destruct (Hc _ _ _ Hr) as [-> _]. exact Hcur.
  - intros b q Hb Hbr Hbq. destruct (decide (b = a)) as [->|Hne].
    + rewrite /wakes Hp in Hbq. injection Hbq as <-. by eapply wakeup_ready.
    + apply (grows_wakeup any_task any_task p _ _ _ Hr); [done|]. apply (Hw b q Hb); [|done].
      by intros [|]%elem_of_cons.
Qed.

(** What a turn that was asked for does to the timers and to the tasks they wake. *)
Record worked s tr s' tr' : Prop := {
  wd_clk : clk s' = clk s;
  wd_daemon : softirq_d (ksys (host s')) = softirq_d (ksys (host s)) ∧ idle (ksys (host s')) = idle (ksys (host s));
  wd_running a st : at_state s tr [] a st → tick_pass (clk s) st ≠ Expired → at_state s' tr' [] a (tick_pass (clk s) st);
  wd_wakes a st p : at_state s tr [] a st → tick_pass (clk s) st ≠ Expired → wakes s a p → wakes s' a p;
  wd_woken a st p : at_state s tr [] a st → tick_pass (clk s) st = Expired → wakes s a p → ready (ksys (host s')) p
}.

Lemma machine_handled s tr s1 tr1 xs1 s2 :
  machine s tr → passed (tick_pass (clk s)) s tr [] s1 tr1 xs1 → config s1 = config s → count_ok s1 →
  all_handled (handling s xs1) s1 tr1 xs1 s2 →
  machine s2 tr1 ∧ worked s tr s2 tr1 ∧ current (ksys (host s2)) = current (ksys (host s)) ∧
  irqs (host s2) = irqs (host s) ∧ ilst (host s2) = ilst (host s) ∧ tm_irq (host s2) = tm_irq (host s).
Proof.
  intros Hm P Hcf Hok (Hi2&[Hsf Hg Hcur (Hirq&Hil&Htm) Hwk]&Happ&Hck&Hco&Hbl&Hst2).
  pose proof (pd_inv _ _ _ _ _ _ _ P) as Hi1. pose proof (mc_timers _ _ Hm) as Hi.
  assert (Hkeep : ∀ a w, is_wheel w → a ∈ inorder (tr1 w) → ∀ c : Z * Z, handler_of s a = Some c →
    handler_of s2 a = Some c ∧ (one_shot s a → one_shot s2 a)).
  { intros a w Hw Ha c Hc. apply (handler_of_config _ _ _ _ Hcf) in Hc.
    destruct (same_blocks s1 s2 a c) as [H1 H2]; [| |done|].
    - rewrite Happ decide_False //. by apply (tinv_exp_wheel _ _ _ _ _ Hi1 Hw Ha).
    - intros q Hq. destruct (ti_run _ _ _ Hi1 w a Hw Ha) as (q'&t&Hb&_). pose proof Hb as (Hq'&Ht&_).
      rewrite Hq in Hq'. injection Hq' as <-. by rewrite Ht (Hbl w a q t Hw Ha Hb).
    - split; [done|]. intros Ho. apply H2. by apply (one_shot_config _ _ _ Hcf). }
  split; [|split; [|by rewrite Hirq Hil Htm]].
  - split.
    + done.
    + destruct (passed_counted _ _ _ _ _ _ _ Hi (mc_count _ _ Hm) Hok P) as [H1 H2]. split; [by rewrite /count_ok Hco|by rewrite Hco].
    + done.
    + rewrite Hirq Htm. apply Hm.
    + rewrite Hil Htm. apply Hm.
    + destruct (mc_daemon _ _ Hm) as (d&Hd&Hal&Hid). destruct Hg as (Gi&Gd&Gt&_). exists d. rewrite Gd Gi.
      split; [done|]. split; [by apply Gt|done].
    + intros a (w&Hw&Ha)%elem_of_running. assert (Har : a ∈ running tr ++ []).
      { apply (live_state _ _ _ _ Hi). assert (Har1 : a ∈ running tr1) by (apply elem_of_running; eauto).
        destruct (running_state _ _ _ _ Hi1 Har1) as (w1&r1&ct1&Hst). by eapply (pd_back _ _ _ _ _ _ _ P). }
      rewrite app_nil_r in Har. destruct (mc_alarms _ _ Hm a Har) as (Ho&p&Hp&Hsl).
      destruct (Hkeep a w Hw Ha _ Hp) as [H1 H2]. split; [by apply H2|]. exists p. split; [done|].
      by eapply sleeper_grows.
  - assert (Hrun : ∀ a st, at_state s tr [] a st → tick_pass (clk s) st ≠ Expired → at_state s2 tr1 [] a (tick_pass (clk s) st)).
    { intros a st Hst Hne. pose proof (pd_step _ _ _ _ _ _ _ P a st Hst) as Hst1.
      destruct (tick_pass (clk s) st) as [w r ct|]; [by apply Hst2|done]. }
    split.
    + by rewrite Hck (pd_clk _ _ _ _ _ _ _ P).
    + by destruct Hg as (?&?&_).
    + exact Hrun.
    + intros a st p Hst Hne Hp. pose proof (pd_step _ _ _ _ _ _ _ P a st Hst) as Hst1.
      destruct (tick_pass (clk s) st) as [w r ct|]; [|done]. destruct Hst1 as (Hw&Ha&_). by apply (Hkeep a w Hw Ha).
    + intros a st p Hst He Hp. pose proof (pd_step _ _ _ _ _ _ _ P a st Hst) as Hst1. rewrite He in Hst1.
      apply (Hwk a p Hst1); [apply not_elem_of_nil|done].
Qed.

Lemma btm_hlf_machine s tr :
  machine s tr → wp btm_hlf (λ _ s', ∃ tr', machine s' tr' ∧ worked s tr s' tr' ∧
    current (ksys (host s')) = current (ksys (host s)) ∧ irqs (host s') = irqs (host s) ∧
    ilst (host s') = ilst (host s) ∧ tm_irq (host s') = tm_irq (host s)) s.
Proof.
  intros Hm. pose proof (mc_timers _ _ Hm) as Hi. rewrite /btm_hlf. apply wp_bind.
  pose proof (wp_inv _ _ _ (tick_run s tr [] Hi)) as (n&s1&Hrun&tr1&xs1&P).
  eapply wp_intro; [exact Hrun|]. pose proof (kept_tick s _ _ Hrun) as Hcf. unfold same_config in Hcf.
  assert (Hok : count_ok s1) by (apply (count_tick s _ _ Hrun), (mc_count _ _ Hm)).
  pose proof (pd_inv _ _ _ _ _ _ _ P) as Hi1. pose proof (expired_NoDup _ _ _ Hi1) as Hnd.
  assert (Hal : ∀ a, a ∈ xs1 → alarm s (ksys (host s)) a).
  { intros a Ha. apply (mc_alarms _ _ Hm). destruct (pd_back _ _ _ _ _ _ _ P a Expired Ha) as [st Hst].
    assert (Har : a ∈ running tr ++ []) by (apply (live_state _ _ _ _ Hi); eauto). by rewrite app_nil_r in Har. }
  assert (HI : handling s xs1 xs1 (host s1)).
  { rewrite (pd_host _ _ _ _ _ _ _ P). split; [apply Hm|done|done|done|]. by intros a p ??. }
  assert (Hrest : ∀ s2, all_handled (handling s xs1) s1 tr1 xs1 s2 → ∃ tr', machine s2 tr' ∧ worked s tr s2 tr' ∧
    current (ksys (host s2)) = current (ksys (host s)) ∧ irqs (host s2) = irqs (host s) ∧
    ilst (host s2) = ilst (host s) ∧ tm_irq (host s2) = tm_irq (host s)).
  { intros s2 Hh. exists tr1. by apply (machine_handled s tr s1 tr1 xs1). }
  assert (Hem : on_elst (list_empty E_hd) s1 = Some (bool_decide (E_tmr <$> xs1 = []), s1)).
  { rewrite /on_elst /zoom (list_empty_spec _ _ _ (ti_list _ _ _ Hi1)). by destruct s1. }
  apply wp_bind. eapply wp_intro; [exact Hem|]. apply wp_when; intros Hb.
  - eapply wp_mono; [apply (process_expd_run (handling s xs1) s1 tr1 xs1 Hi1); [|by apply (handling_call s)|done]|intros []; apply Hrest].
    intros a [Hone _]%Hal. exact (one_shot_config _ _ _ Hcf Hone).
  - destruct xs1; [|done]. apply Hrest. by apply all_handled_nil.
Qed.

(** The loop over the soft interrupts: that of the timers is the only one. *)
Lemma get_next_ilst (z : tms kernel) l x n : ilst (host z) = l → nxt l x = Some n → on_ilst (get_next x) z = Some (n, z).
Proof.
  intros <- Hx. rewrite /on_ilst /on_host /zoom (get_next_eq _ _ _ Hx). by destruct z as [z1 z2 z3 z4 z5 z6 z7 z8 z9 z10 []].
Qed.
Lemma softirqd_pass_machine s tr :
  machine s tr → wp softirqd_pass (λ _ s', ∃ tr', machine s' tr' ∧ current (ksys (host s')) = current (ksys (host s)) ∧
    (wanted s ∧ ¬ wanted s' ∧ worked s tr s' tr' ∨ ¬ wanted s ∧ s' = s ∧ tr' = tr)) s.
Proof.
  intros Hm. destruct (mc_irq _ _ Hm) as (q&Hq&Hact). destruct (mc_list _ _ Hm) as [_ (H1&_&H2&_)].
  set (i := tm_irq (host s)) in *. rewrite /softirqd_pass /wp (bind_run (gets _) _ s _ s eq_refl).
  rewrite (bind_run _ _ _ _ _ (get_next_ilst s _ _ _ eq_refl H1)).
  assert (Hsz : ∃ n, size (ilst (host s)) = S n).
  { destruct (size (ilst (host s))) eqn:Hz; [|by eexists]. apply map_size_empty_iff in Hz. by rewrite Hz /nxt lookup_empty in H1. }
  destruct Hsz as [n ->]. cbn [softirqd_loop]. case_decide; [done|]. rewrite (bind_run (liftO (Some i)) _ s i s eq_refl).
  assert (Hld : irq_ld i s = Some (q, s)) by by rewrite /irq_ld /mbind /M_bind /gets /liftO Hq.
  rewrite (bind_run _ _ _ _ _ Hld). apply wp_bind.
  assert (Hend : ∀ z, ilst (host z) = ilst (host s) → (x ← on_ilst (get_next (I_irq i)); softirqd_loop n x) z = Some (tt, z)).
  { intros z Hz. rewrite (bind_run _ _ _ _ _ (get_next_ilst z _ _ _ Hz H2)). by destruct n. }
  apply wp_when; intros Hw.
  - apply andb_prop in Hw as [Hw _]. apply Z.eqb_eq in Hw. rewrite Hact. change (run_action fn_btm_hlf) with btm_hlf.
    apply wp_bind. eapply wp_mono; [by apply btm_hlf_machine|]. intros [] s1 (tr1&Hm1&Hwk&Hc&Hirq&Hil&Htm).
    assert (Hq1 : irqs (host s1) !! tm_irq (host s1) = Some q) by by rewrite Hirq Htm.
    rewrite -/i in Htm. rewrite -Htm. eapply wp_intro; [exact (irq_mod_run _ _ _ _ Hq1)|]. set (s2 := set_host _ s1).
    rewrite Htm. rewrite /wp (Hend s2 Hil). exists tr1. split; [by apply machine_mark|]. split; [done|]. left.
    split; [by exists q|]. split; [|destruct Hwk; by split].
    intros (q2&Hq2&Hs2). cbn [host s2 set_host irqs set_irqs tm_irq] in Hq2. rewrite lookup_insert_eq in Hq2. by injection Hq2 as <-.
  - rewrite /wp (Hend s eq_refl). exists tr. split; [done|]. split; [done|]. right. split; [|done].
    intros (q2&Hq2&Hs2). rewrite Hq in Hq2. injection Hq2 as <-. by rewrite Hs2 Hact in Hw.
Qed.

(** The turn ends with the daemon asleep and another task running. *)
Lemma park_current y Q d : safe_with y Q → current y = Some d → add_current_task_wait_Q y = add_task_to_wait_Q d y.
Proof.
  intros Hs Hc. rewrite /add_current_task_wait_Q (bind_run (gets os_sched_enabled) _ y _ y eq_refl) (sf_os _ _ Hs).
  cbn [truthy Z.eqb negb when]. by rewrite (bind_run _ _ _ _ _ (cur_run _ _ Hc)).
Qed.
Lemma park_machine s tr d :
  machine s tr → current (ksys (host s)) = Some d → idle (ksys (host s)) ≠ Some d →
  wp (on_sys add_current_task_wait_Q;; on_sys schedule) (λ _ s', machine s' tr ∧ ∃ y', s' = with_sys y' s ∧
    grows any_task (λ p, p ≠ d) (ksys (host s)) y') s.
Proof.
  intros Hm Hc Hi. destruct (mc_safe _ _ Hm) as [Q HQ]. apply wp_bind.
  eapply wp_mono; [apply (wp_machine_sys any_task (λ p, p ≠ d) s tr _ Hm); [| |done]|].
  - rewrite /wp (park_current _ _ _ HQ Hc). by apply (safe_sleep _ Q).
  - rewrite (park_current _ _ _ HQ Hc). intros y' Hr. refine (grows_add_wait _ _ d _ _ _ _ Hr). by intros [].
  - intros [] s1 (Hm1&y1&->&Hg1&_). destruct (mc_safe _ _ Hm1) as [Q1 HQ1].
    eapply wp_mono; [apply (wp_machine_sys any_task (λ p, p ≠ d) _ tr _ Hm1); [by eapply safe_schedule| |done]|].
    + intros y'. apply grows_schedule.
    + intros [] s2 (Hm2&y2&->&Hg2&_). split; [done|]. exists y2. split; [done|]. by etrans.
Qed.

(** The turn of the daemon. *)
Lemma softirqd_machine s tr :
  machine s tr → current (ksys (host s)) = softirq_d (ksys (host s)) →
  wp softirqd (λ _ s', ∃ tr', machine s' tr' ∧ ¬ wanted s' ∧
    (wanted s ∧ worked s tr s' tr' ∨ ¬ wanted s ∧ tr' = tr ∧ ∃ y, s' = with_sys y s)) s.
Proof.
  intros Hm Hc. destruct (mc_daemon _ _ Hm) as (d&Hd&_&Hid). rewrite Hd in Hc. rewrite /softirqd. apply wp_bind.
  eapply wp_mono; [by apply softirqd_pass_machine|]. intros [] s1 (tr1&Hm1&Hc1&Hcase). rewrite Hc in Hc1.
  destruct Hcase as [(Hw&Hnw&Hwk)|(Hnw&->&->)].
  - destruct Hwk as [Wc [Wd Wi] Wr Ww Wk]. eapply wp_mono; [apply (park_machine s1 tr1 d Hm1 Hc1); by rewrite Wi|].
    intros [] s2 (Hm2&y&->&Gi&Gd&_&Gr). exists tr1. split; [done|]. split; [done|]. left. split; [done|].
    split; [done|by cbn; rewrite Gi Gd|exact Wr|exact Ww|].
    intros a st p Hst He Hp. apply Gr; [|by apply (Wk a st p)]. intros ->.
    assert (Har : a ∈ running tr ++ []) by (apply (live_state _ _ _ _ (mc_timers _ _ Hm)); eauto).
    rewrite app_nil_r in Har. destruct (mc_alarms _ _ Hm a Har) as (_&p'&Hp'&_&_&Hne).
    rewrite /wakes Hp in Hp'. injection Hp' as <-. done.
  - eapply wp_mono; [by apply (park_machine s tr d Hm Hc1)|]. intros [] s2 (Hm2&y&->&_). exists tr.
    split; [done|]. split; [done|]. right. split; [done|]. split; [done|]. by exists y.
Qed.
End daemon.

(** ** Going to sleep *)
Section sleep.
Context `{E : Env} `{KE : KEnv}.
Implicit Types (s : tms kernel) (k : kernel) (y : sys) (tr : Z → tree) (xs : list Z) (p c d : positive) (a n : Z).

(** Nothing happened to the timers, nor to the soft interrupts. *)
Record undisturbed s tr s' tr' : Prop := {
  ud_clk : clk s' = clk s;
  ud_wanted : wanted s' ↔ wanted s;
  ud_state a st : at_state s tr [] a st → at_state s' tr' [] a st;
  ud_wakes a st p : at_state s tr [] a st → wakes s a p → wakes s' a p
}.
Lemma undisturbed_sys s tr y : undisturbed s tr (with_sys y s) tr.
Proof. split; [done|done| |done]. intros a st Hst. by destruct st. Qed.
Lemma undisturbed_trans s1 tr1 s2 tr2 s3 tr3 : undisturbed s1 tr1 s2 tr2 → undisturbed s2 tr2 s3 tr3 → undisturbed s1 tr1 s3 tr3.
Proof. intros [C1 W1 S1 K1] [C2 W2 S2 K2]. split; [congruence|by rewrite W2|by auto|]. intros a st p Hst Hp. by eauto. Qed.

Lemma alarm_started s s' y a new dat b :
  started s s' a new fn_wakeup_task dat 0 → timers s !! new = None → b ≠ a → alarm s y b → alarm s' y b.
Proof.
  intros Hc Hn Hb ((q&t&Hq&Ht&Ho)&p&Hp&Hsl). destruct (started_other _ _ _ _ _ _ _ _ _ Hc Hn Hb Hq Ht) as (q'&t'&Hq'&Ht'&[= E1 E2 E3]).
  split; [exists q', t'; by rewrite E3|]. exists p. split; [|done]. rewrite /wakes /handler_of Hq /= Ht in Hp.
  by rewrite /wakes /handler_of Hq' /= Ht' /= E1 E2.
Qed.
Lemma wakes_started s s' a new dat b p :
  started s s' a new fn_wakeup_task dat 0 → timers s !! new = None → b ≠ a → wakes s b p → wakes s' b p.
Proof.
  intros Hc Hn Hb Hp. pose proof Hp as Hp'. rewrite /wakes /handler_of in Hp'. destruct (apps s !! b) as [q|] eqn:Hq; [|done].
  cbn in Hp'. destruct (timers s !! timer q) as [t|] eqn:Ht; [|done]. injection Hp' as E1 E2.
  destruct (started_other _ _ _ _ _ _ _ _ _ Hc Hn Hb Hq Ht) as (q'&t'&Hq'&Ht'&[= E3 E4 _]).
  by rewrite /wakes /handler_of Hq' /= Ht' /= E3 E4 E1 E2.
Qed.

(** A timer for [c] is set unless none can be started. *)
Definition alarm_set s s' tr' c n : Prop :=
  start_fails s ∨ ∃ a, at_state s' tr' [] a (TimerInv.placed (clk s) (encode_time 0 n)) ∧ wakes s' a c.
(** The timers do not look at the scheduler: [y] may be its state at another time. *)
Lemma start_machine s tr y c n :
  machine (with_sys y s) tr → sleeper y c → 0 < n < max_ticks → timer_memory s →
  wp (start_timer n (Zpos c) fn_wakeup_task 0) (λ _ s', ∃ tr', machine (with_sys y s') tr' ∧ undisturbed s tr s' tr' ∧
    host s' = host s ∧ alarm_set s s' tr' c n) s.
Proof.
  intros [Hi0 Hc Hs Hq Hl Hd Ha] Hsl Hn Hmem. apply (tinv_host _ _ _ (host s)) in Hi0.
  replace (set_host (host s) (with_sys y s)) with s in Hi0 by by destruct s.
  eapply wp_mono; [by apply (start_timer_any s tr)|].
  intros res s' [[Hf Hsw]|(a&new&tr'&Hnew&Hna&Hi&Hct&Hst&Hso&Hck&Hho&Hsd)]; [|rewrite app_nil_r in Hna].
  - exists tr. pose proof (config_same _ _ Hsw) as Hcf. split; [|split; [|split; [apply Hsw|by left]]].
    + assert (Hi' : tinv s' tr []) by by eapply tinv_same.
      split; [by apply tinv_host| |rewrite /with_sys /= ?(sw_host _ _ Hsw) //..|].
      * destruct Hc. split; by rewrite /count_ok /= ?(sw_count _ _ Hsw).
      * intros a Har. apply (alarm_config s); [exact Hcf|exact (Ha a Har)].
    + split; [apply Hsw|by rewrite /wanted (sw_host _ _ Hsw)| |].
      * intros a st. by apply at_state_same.
      * intros a st p _. by apply handler_of_config.
  - exists tr'. destruct (started_wakes _ _ _ _ _ Hsd) as [Hwk Hone].
    assert (Hlive : ∀ b st, at_state s tr [] b st → b ≠ a).
    { intros b [w r ct|] Hb ->; [|by apply elem_of_nil in Hb]. by apply Hna, (state_running _ _ _ _ _ _ _ Hb). }
    split; [|split; [|split; [exact Hho|right; exists a; exact (conj Hst Hwk)]]].
    + clear Hst. split; [by apply tinv_host|exact Hct|rewrite /with_sys /= ?Hho //..|]. intros b Hb. destruct (decide (b = a)) as [->|Hne].
      * split; [exact Hone|]. by exists c.
      * apply (alarm_started s s' y a new (Zpos c)); [exact Hsd|done|done|]. apply Ha.
        destruct (running_state _ _ _ _ Hi Hb) as (w&r&ct&Hb'). by eapply state_running, (Hso b).
    + clear Hst. split; [exact Hck|by rewrite /wanted Hho| |].
      * intros b st Hb. apply (Hso b); [by eapply Hlive|done].
      * intros b st p Hb. eapply wakes_started; [exact Hsd|done|by eapply Hlive].
Qed.

Lemma current_ptr_run s c : current (ksys (host s)) = Some c → current_ptr s = Some (Zpos c, s).
Proof.
  intros Hc. rewrite /current_ptr (bind_run (on_sys get_current) _ s (Some c) s); [done|].
  rewrite -{2}(with_sys_id s). apply on_sys_run. by rewrite /get_current /gets Hc.
Qed.
Lemma sleep_on_timer_machine s tr c n :
  machine s tr → current (ksys (host s)) = Some c → sleeper (ksys (host s)) c → 0 < n < max_ticks → timer_memory s →
  wp (sleep_on_timer n) (λ _ s', ∃ tr', machine s' tr' ∧ undisturbed s tr s' tr' ∧ alarm_set s s' tr' c n) s.
Proof.
  intros Hm Hc Hsl Hn Hmem. rewrite /sleep_on_timer.
  rewrite /wp (bind_run _ _ _ _ _ (current_ptr_run s c Hc)). apply wp_bind.
  eapply wp_mono; [apply (start_machine s tr (ksys (host s)) c); [by rewrite with_sys_id|done..]|].
  intros res s1 (tr1&Hm1&Hu1&Hho&Hal). rewrite -Hho with_sys_id in Hm1. rewrite -Hho in Hc.
  destruct (mc_safe _ _ Hm1) as [Q HQ]. destruct Hsl as (_&Hid&_). rewrite -Hho in Hid.
  pose proof (cur_run _ _ Hc) as Hcur.
  apply wp_bind. eapply wp_mono; [apply (wp_machine_sys any_task no_task s1 tr1 _ Hm1); [| |done]|].
  - rewrite /wp (bind_run _ _ _ _ _ Hcur). by apply (safe_sleep _ Q).
  - intros y'. rewrite (bind_run _ _ _ _ _ Hcur). apply grows_add_wait. by intros [].
  - intros [] s2 (Hm2&y2&->&_). destruct (mc_safe _ _ Hm2) as [Q2 HQ2].
    eapply wp_mono; [apply (wp_machine_sys any_task no_task _ tr1 _ Hm2); [by eapply safe_schedule| |done]|].
    + intros y'. apply grows_schedule.
    + intros [] s3 (Hm3&y3&->&_). exists tr1. split; [done|]. split.
      * eapply undisturbed_trans; [exact Hu1|]. apply (undisturbed_sys s1 tr1 y3).
      * destruct Hal as [?|(a&Ha&Hw)]; [by left|right]. exists a. split; [by destruct (TimerInv.placed _ _)|done].
Qed.
End sleep.

(** ** Runs *)
Inductive kop :=
  | K_tick
  | K_daemon
  | K_sleep (secs : Z)
  | K_msleep (msecs : Z)
  | K_op (o : op).
Definition is_tick (o : kop) : bool := match o with K_tick => true | _ => false end.
Fixpoint ticks_in (os : list kop) : Z :=
  match os with [] => 0 | o :: os => (if is_tick o then 1 else 0) + ticks_in os end.
Lemma ticks_in_app os os' : ticks_in (os ++ os') = ticks_in os + ticks_in os'.
Proof. induction os as [|o os IH]; [done|]. cbn. rewrite IH. lia. Qed.
Lemma ticks_in_nonneg os : 0 ≤ ticks_in os.
Proof. induction os as [|o os IH]; [done|]. cbn. destruct (is_tick o); lia. Qed.

Section runs.
Context `{E : Env} `{KE : KEnv}.
Implicit Types (s : tms kernel) (k : kernel) (y : sys) (tr : Z → tree) (p c d : positive) (a : Z) (o : kop) (os : list kop).

Definition run_kop o : M (tms kernel) unit :=
  match o with
  | K_tick => tick_tmr_intr
  | K_daemon => softirqd
  | K_sleep secs => sleep secs
  | K_msleep ms => tm_msleep ms;; mret tt
  | K_op o => on_sys (run_op o)
  end.
(** A task that sleeps is neither the idle task nor the daemon. *)
Definition can_sleep s : Prop :=
  current (ksys (host s)) ≠ idle (ksys (host s)) ∧ current (ksys (host s)) ≠ softirq_d (ksys (host s)) ∧ timer_memory s.
(** The daemon has a turn when it is current; a tick may come at any time; a length of time is
    one that the time format can hold. *)
Definition k_allowed o s : Prop :=
  match o with
  | K_tick => True
  | K_daemon => current (ksys (host s)) = softirq_d (ksys (host s))
  | K_sleep secs => 0 ≤ secs < 1024 * 3600 ∧ can_sleep s
  | K_msleep ms => 0 ≤ ms < 1024 * 3600 * 1000 ∧ can_sleep s
  | K_op o => allowed o (ksys (host s))
  end.
(** The daemon is done before the next tick. *)
Definition prompt o s : Prop := k_allowed o s ∧ (o = K_tick → ¬ wanted s).

(** Runs in which every step is admitted by [G]. *)
Inductive runs (G : kop → tms kernel → Prop) (s : tms kernel) : list kop → tms kernel → Prop :=
  | runs_nil : runs G s [] s
  | runs_snoc os o s2 s3 : runs G s os s2 → G o s2 → run_kop o s2 = Some (tt, s3) → runs G s (os ++ [o]) s3.

Lemma can_sleep_sleeper s tr :
  machine s tr → can_sleep s → ∃ c, current (ksys (host s)) = Some c ∧ sleeper (ksys (host s)) c.
Proof.
  intros Hm (Hi&Hd&_). destruct (mc_safe _ _ Hm) as [Q HQ]. destruct (ki_cur _ _ (kg_inv _ _ (sf_good _ _ HQ))) as (c&tc&Hc&Htc).
  exists c. split; [done|]. split; [by eexists|]. rewrite -Hc. split; by apply not_eq_sym.
Qed.

(** What one step does to the timers. *)
Definition stepped s tr o s' tr' : Prop :=
  match o with
  | K_tick => ticked s tr s' ∧ tr' = tr
  | K_daemon => ¬ wanted s' ∧ (wanted s ∧ worked s tr s' tr' ∨ ¬ wanted s ∧ undisturbed s tr s' tr')
  | K_sleep secs => undisturbed s tr s' tr' ∧
      (0 < secs → ∀ c, current (ksys (host s)) = Some c → alarm_set s s' tr' c (50 * secs))
  | _ => undisturbed s tr s' tr'
  end.
Lemma undisturbed_refl s tr : undisturbed s tr s tr.
Proof. by split. Qed.
Lemma run_kop_machine s tr o :
  machine s tr → k_allowed o s → wp (run_kop o) (λ _ s', ∃ tr', machine s' tr' ∧ stepped s tr o s' tr') s.
Proof.
  intros Hm Ha. destruct o as [| |secs|ms|o]; cbn [run_kop k_allowed stepped] in *.
  - eapply wp_mono; [by apply tick_machine|]. intros [] s' Ht. exists tr. split; [apply Ht|done].
  - eapply wp_mono; [by apply softirqd_machine|]. intros [] s' (tr'&Hm'&Hn&Hc). exists tr'. split; [done|]. split; [done|].
    destruct Hc as [?|(?&->&y&->)]; [by left|right]. split; [done|]. apply undisturbed_sys.
  - destruct Ha as [Hs Hcs]. destruct (can_sleep_sleeper _ _ Hm Hcs) as (c&Hc&Hsl). rewrite /sleep.
    destruct (truthy secs) eqn:Hz; cbn [negb].
    + apply truthy_true in Hz. replace (u32 (secs * tm_get_ticks_per_second)) with (50 * secs)
        by (change tm_get_ticks_per_second with 50; rewrite u32_small; lia).
      eapply wp_mono; [apply (sleep_on_timer_machine s tr c); try done; [rewrite sfs_max; lia|apply Hcs]|].
      intros [] s' (tr'&Hm'&Hu&Hal). exists tr'. split; [done|]. split; [done|]. intros _ c'. rewrite Hc. by intros [= <-].
    + apply truthy_false in Hz. apply wp_ret. exists tr. split; [done|]. split; [apply undisturbed_refl|lia].
  - destruct Ha as [Hs Hcs]. destruct (can_sleep_sleeper _ _ Hm Hcs) as (c&Hc&Hsl). rewrite /tm_msleep. apply wp_bind.
    destruct (Z.ltb_spec ms 20) as [Hlt|Hge]; [apply wp_ret, wp_ret; exists tr; split; [done|apply undisturbed_refl]|].
    apply wp_bind. rewrite /tm_convert_msec_to_tick. change TICK_TIMER_GRANULARITY with 20.
    eapply wp_mono; [apply (sleep_on_timer_machine s tr c); try done; [|apply Hcs]|].
    + rewrite sfs_max. split; [apply Z.div_str_pos; lia|apply Z.div_lt_upper_bound; lia].
    + intros [] s' (tr'&Hm'&Hu&_). apply wp_ret, wp_ret. by exists tr'.
  - eapply wp_mono; [apply (wp_machine_sys (alive (ksys (host s))) no_task s tr _ Hm); [|intros y'; by apply run_op_grows|done]|].
    + apply run_op_safe; [apply Hm|done].
    + intros [] s' (Hm'&y&->&_). exists tr. split; [done|]. apply undisturbed_sys.
Qed.
Lemma runs_machine G s tr os s' :
  (∀ o s, G o s → k_allowed o s) → machine s tr → runs G s os s' → ∃ tr', machine s' tr'.
Proof.
  intros HG Hm. induction 1 as [|os o s2 s3 _ [tr2 Hm2] Ho Hr]; [by exists tr|].
  pose proof (run_kop_machine s2 tr2 o Hm2 (HG _ _ Ho)) as Hw. rewrite /wp Hr in Hw. destruct Hw as (tr3&?&_). by exists tr3.
Qed.
End runs.
