(* ===== verification/KernelRuns.v ===== *)
(** * What whole runs of the machine promise

    - The machine never crashes.
    - A task that sleeps is woken at its tick, as long as the daemon is done before each
      next tick.
    - When no timer can be started, a task that sleeps is not woken at all. *)

From S2P Require Import Prelude ListHead RbTree RbRep RbInsert RbWalk RbErase RbSpec.
From S2P Require Import Timers TimerFormat TimerTree TimerKeep TimerInv TimerPass TimerFire TimerSpec TimerLive TimerPending.
From S2P Require Import Task Signal Sched SchedInv SchedProps ThreadLib SchedFrame SchedSpec ThreadSpec SchedSafe.
From S2P Require Import Kernel KernelInv KernelSpec KernelSafe.
#[local] Open Scope Z_scope.

Section track.
Context `{E : Env} `{KE : KEnv}.
Implicit Types (s : tms kernel) (k : kernel) (y : sys) (tr : Z → tree) (p c d : positive) (a : Z) (o : kop) (os : list kop).

(** At tick [T], a timer that fires at [F] and wakes [c] is running; when the daemon is
    still to process the tick, the timer may be behind by one. *)
Definition tracked (T F : Z) c s tr : Prop :=
  0 ≤ T ∧ clk s = clock_at T ∧ ∃ a w r ct, at_state s tr [] a (Running w r ct) ∧ wakes s a c ∧ fire_time w r ct = F ∧
    (on_course T w r ct ∨ 1 ≤ T ∧ wanted s ∧ on_course (T - 1) w r ct).

Lemma tracked_undisturbed T F c s tr s' tr' : undisturbed s tr s' tr' → tracked T F c s tr → tracked T F c s' tr'.
Proof.
  intros [Hck Hw Hst Hwk] (HT&Hc&a&w&r&ct&Ha&Hac&Hf&Ho). split; [done|]. split; [congruence|]. exists a, w, r, ct.
  split; [by apply Hst|]. split; [by eapply Hwk|]. split; [done|]. by rewrite Hw.
Qed.
Lemma tracked_tick T F c s tr s' :
  machine s tr → ticked s tr s' → ¬ wanted s → T + 1 < 2 ^ 32 → tracked T F c s tr → tracked (T + 1) F c s' tr.
Proof.
  intros Hm [Hm' (ck&k&->&Hadv&Hcase&_)] Hnw HT1 (HT&Hck&a&w&r&ct&Ha&Hac&Hf&Ho).
  rewrite (advance_clock_run s T Hck HT HT1) in Hadv. injection Hadv as <-.
  destruct Ho as [Ho|(_&Hw&_)]; [|done]. split; [lia|]. split; [done|]. destruct Hcase as [Hw|[Hp _]].
  - exists a, w, r, ct. split; [exact Ha|]. split; [exact Hac|]. split; [done|]. right. replace (T + 1 - 1) with T by lia.
    split; [lia|done].
  - assert (Hi1 : tinv (next_tick T s) tr []) by by apply tinv_clk; [apply Hm|].
    pose proof (not_pending_pass (next_tick T s) tr [] a (Running w r ct) Hi1 (mc_count _ _ Hm) Hp Ha) as Hsame.
    cbn [clk next_tick set_clk] in Hsame.
    destruct (tick_on_course T w r ct HT HT1 Ho) as [[_ He]|(_&w'&r'&ct'&He&Hoc&_)]; rewrite Hsame in He; [done|].
    injection He as <- <- <-. exists a, w, r, ct. split; [exact Ha|]. split; [exact Hac|]. split; [done|]. by left.
Qed.
Lemma on_course_stays T w r ct : on_course T w r ct → tick_pass (clock_at T) (Running w r ct) = Running w r ct.
Proof.
  intros (Hk&H0&Hs&Hr&_). pose proof (slot_wheel _ Hk H0) as Hw. rewrite Hs in Hw. apply tick_pass_not_due.
  rewrite (clock_unit _ _ Hw). intros ->. pose proof (unit_pos w). pose proof (Z.mul_div_le T (unit_of w)). lia.
Qed.
Lemma tracked_worked T F c s tr s' tr' :
  worked s tr s' tr' → T < 2 ^ 32 → tracked T F c s tr → tracked T F c s' tr' ∨ T = F ∧ ready (ksys (host s')) c.
Proof.
  intros [Hck _ Hrun Hwk Hrdy] HT2 (HT&Hc&a&w&r&ct&Ha&Hac&Hf&Ho). rewrite Hc in Hck, Hrun, Hwk, Hrdy.
  assert (Hgo : ∀ w' r' ct', tick_pass (clock_at T) (Running w r ct) = Running w' r' ct' → on_course T w' r' ct' →
    fire_time w' r' ct' = F → tracked T F c s' tr').
  { intros w' r' ct' He Hoc Hft. split; [done|]. split; [done|]. exists a, w', r', ct'.
    specialize (Hrun a _ Ha). specialize (Hwk a _ c Ha). rewrite He in Hrun, Hwk.
    split; [by apply Hrun|]. split; [by apply Hwk|]. split; [done|]. by left. }
  destruct Ho as [Ho|(HT1&_&Ho)].
  - left. by apply (Hgo w r ct (on_course_stays _ _ _ _ Ho)).
  - pose proof (tick_on_course (T - 1) w r ct ltac:(lia) ltac:(lia) Ho) as Hc1. cbn zeta in Hc1.
    replace (T - 1 + 1) with T in Hc1 by lia. destruct Hc1 as [[Hft He]|(_&w'&r'&ct'&He&Hoc&Hft)].
    + right. split; [congruence|]. by eapply Hrdy.
    + left. apply (Hgo w' r' ct' He Hoc). congruence.
Qed.
Lemma tracked_step T F c s tr o s' tr' :
  machine s tr → stepped s tr o s' tr' → prompt o s → T + 1 < 2 ^ 32 → tracked T F c s tr →
  tracked (T + ticks_in [o]) F c s' tr' ∨ o = K_daemon ∧ T = F ∧ ready (ksys (host s')) c.
Proof.
  intros Hm Hst [_ Hpr] HT Htr. destruct o as [| |secs|ms|o]; cbn [ticks_in is_tick stepped] in *.
  - destruct Hst as [Ht ->]. left. apply (tracked_tick T F c s); auto.
  - rewrite !Z.add_0_r. destruct Hst as (_&[[Hw Hwk]|[_ Hu]]); [|left; by eapply tracked_undisturbed].
    destruct (tracked_worked T F c s tr s' tr' Hwk ltac:(lia) Htr) as [?|[-> ?]]; [by left|by right].
  - rewrite !Z.add_0_r. left. destruct Hst. by eapply tracked_undisturbed.
  - rewrite !Z.add_0_r. left. by eapply tracked_undisturbed.
  - rewrite !Z.add_0_r. left. by eapply tracked_undisturbed.
Qed.

(** A run either still has the timer running, or has had the turn that woke the task. *)
Definition woken_in (s1 : tms kernel) os (T0 F : Z) c : Prop :=
  ∃ os1 os2 s3 s4, os = os1 ++ K_daemon :: os2 ∧ runs prompt s1 os1 s3 ∧ prompt K_daemon s3 ∧
    run_kop K_daemon s3 = Some (tt, s4) ∧ T0 + ticks_in os1 = F ∧ ready (ksys (host s4)) c.
Lemma tracked_run s1 tr1 os s2 T0 F c :
  machine s1 tr1 → tracked T0 F c s1 tr1 → runs prompt s1 os s2 → T0 + ticks_in os + 1 < 2 ^ 32 →
  (∃ tr2, machine s2 tr2 ∧ tracked (T0 + ticks_in os) F c s2 tr2) ∨ woken_in s1 os T0 F c.
Proof.
  intros Hm Ht. induction 1 as [|os o s2 s3 Hrs IH Ho Hr]; intros HT.
  { left. exists tr1. by rewrite Z.add_0_r. }
  rewrite ticks_in_app in HT |- *. pose proof (ticks_in_nonneg [o]).
  destruct IH as [(tr2&Hm2&Ht2)|(os1&os2&s4&s5&->&?&?&?&?&?)]; [lia|..].
  - pose proof (run_kop_machine s2 tr2 o Hm2 (proj1 Ho)) as Hw. rewrite /wp Hr in Hw. destruct Hw as (tr3&Hm3&Hst).
    rewrite Z.add_assoc. destruct (tracked_step (T0 + ticks_in os) F c s2 tr2 o s3 tr3 Hm2 Hst Ho ltac:(lia) Ht2) as [?|(->&HF&?)]; [by left; exists tr3|].
    right. by exists os, [], s2, s3.
  - right. exists os1, (os2 ++ [o]), s4, s5. by rewrite -app_assoc.
Qed.
End track.

(** ** The promises *)
Section promises.
Context `{E : Env} `{KE : KEnv}.
Implicit Types (s : tms kernel) (k : kernel) (y : sys) (tr : Z → tree) (p c d : positive) (a : Z) (o : kop) (os : list kop).

(** C2: however many ticks, turns of the daemon, sleeps and operations of tasks there
    were, in whatever order, the next one that is allowed runs to completion; afterwards the
    wheels are sorted red-black trees, their timers are counted exactly, and each of them is set
    to wake, once, an allocated task that is neither the idle task nor the daemon. *)
Theorem machine_never_crashes s tr os s' o :
  machine s tr → runs k_allowed s os s' → k_allowed o s' →
  ∃ s2 tr2, run_kop o s' = Some (tt, s2) ∧ tinv s2 tr2 [] ∧ safe (ksys (host s2)) ∧
    count s2 = Z.of_nat (length (running tr2)) ∧
    ∀ a, a ∈ running tr2 → one_shot s2 a ∧ ∃ p, wakes s2 a p ∧ is_Some (tasks (ksys (host s2)) !! p) ∧
      idle (ksys (host s2)) ≠ Some p ∧ softirq_d (ksys (host s2)) ≠ Some p.
Proof.
  intros Hm Hrs Ho. destruct (runs_machine k_allowed s tr os s' (λ _ _ H, H) Hm Hrs) as [tr' Hm'].
  destruct (wp_unit_inv _ _ _ (run_kop_machine s' tr' o Hm' Ho)) as (s2&Hr&tr2&Hm2&_).
  exists s2, tr2. split; [done|]. split; [apply Hm2|]. split; [apply Hm2|]. split; [apply (mc_count _ _ Hm2)|].
  intros a Ha. apply (mc_alarms _ _ Hm2 a Ha).
Qed.

(** C3: a task that calls [sleep] at the tick [T0] is put on a run queue by the turn of the
    daemon of the tick [T0 + 50 * secs - T0 mod U], [U] being the ticks of the largest unit that fits into its
    time, whatever happens in between, as long as the daemon is done before each next tick. *)
Theorem sleep_wakes_on_time s tr s1 os s2 T0 secs c :
  let U := unit_of (slot (encode_time 0 (50 * secs))).1 in
  machine s tr → clk s = clock_at T0 → 0 ≤ T0 → T0 + 50 * secs < 2 ^ 32 → current (ksys (host s)) = Some c →
  0 < secs → k_allowed (K_sleep secs) s → ¬ start_fails s → run_kop (K_sleep secs) s = Some (tt, s1) →
  runs prompt s1 os s2 → ¬ wanted s2 → T0 + ticks_in os + 1 < 2 ^ 32 → 50 * secs ≤ T0 `mod` U + ticks_in os →
  ∃ os1 os2 s3 s4, os = os1 ++ K_daemon :: os2 ∧ runs prompt s1 os1 s3 ∧ run_kop K_daemon s3 = Some (tt, s4) ∧
    ready (ksys (host s4)) c ∧ ticks_in os1 = 50 * secs - T0 `mod` U.
Proof.
  cbn zeta. intros Hm Hck HT Hb Hc Hs Ha Hnf Hr Hrs Hnw HT2 Hlate.
  pose proof (run_kop_machine s tr _ Hm Ha) as Hw. rewrite /wp Hr in Hw. destruct Hw as (tr1&Hm1&Hu&Hal).
  destruct (Hal Hs c Hc) as [Hx|(a&Hst&Hwk)]; [done|]. set (n := 50 * secs) in *. clear Hal.
  assert (Hn : 0 < n < max_ticks) by (destruct Ha; rewrite sfs_max; lia).
  pose proof (encode_ok n ltac:(lia)) as Hok. pose proof (encode_pk n ltac:(lia)) as Hpk.
  assert (Hk : packed (encode_time 0 n)) by (rewrite Hpk; do 4 eexists; exact (conj Hok eq_refl)).
  pose proof (encode_ticks n (conj (Z.lt_le_incl _ _ (proj1 Hn)) (proj2 Hn))) as Htk.
  assert (H0 : encode_time 0 n ≠ 0) by (intros Hz; rewrite Hz ticks_zero in Htk; lia).
  destruct (placed_at T0 (encode_time 0 n) HT Hk H0) as (Hpl&Hoc&Hft); [lia|]. rewrite Htk in Hft.
  rewrite Hck Hpl in Hst. set (F := T0 - T0 `mod` _ + n) in Hft.
  assert (Ht1 : tracked T0 F c s1 tr1).
  { split; [done|]. split; [by rewrite (ud_clk _ _ _ _ Hu)|]. do 4 eexists. split; [exact Hst|]. split; [exact Hwk|].
    split; [exact Hft|]. left. exact Hoc. }
  destruct (tracked_run s1 tr1 os s2 T0 F c Hm1 Ht1 Hrs HT2) as [(tr2&Hm2&HT3&Hck2&a2&w&r&ct&Hst2&_&Hf2&Ho2)|Hwok].
  - exfalso. destruct Ho2 as [Ho2|(_&?&_)]; [|done].
    destruct (tick_on_course _ w r ct HT3 ltac:(lia) Ho2) as [[Hf3 _]|[Hf3 _]]; rewrite /F in Hf2; lia.
  - destruct Hwok as (os1&os2&s3&s4&->&Hr3&_&Hr4&HF&Hrd). exists os1, os2, s3, s4. split_and!; [done..|]. rewrite /F in HF. lia.
Qed.

(** C15: when no timer can be started (more than 2000 timers, no memory), [sleep] puts the task to sleep
    all the same; the timers are as before: only one that was set already, by an earlier sleep that was cut short, can wake
    it. *)
Theorem sleep_without_timer s tr secs c :
  machine s tr → current (ksys (host s)) = Some c → ready (ksys (host s)) c → 0 < secs → k_allowed (K_sleep secs) s →
  start_fails s →
  ∃ s', run_kop (K_sleep secs) s = Some (tt, s') ∧ ¬ ready (ksys (host s')) c ∧ apps s' = apps s ∧ timers s' = timers s ∧
    Timers.tnodes s' = Timers.tnodes s ∧ roots s' = roots s ∧ ∀ a, wakes s' a c ↔ wakes s a c.
Proof.
  intros Hm Hc (tc&Htc&Hon) Hs [Hlt (Hni&_&Hmem)] Hf. cbn [run_kop]. rewrite /sleep.
  assert (Hz : secs ≠ 0) by lia. rewrite (proj2 (truthy_true _) Hz). cbn [negb]. rewrite /sleep_on_timer.
  rewrite (bind_run _ _ _ _ _ (current_ptr_run s c Hc)).
  destruct (wp_inv _ _ _ (start_timer_fails s (u32 (secs * tm_get_ticks_per_second)) (Zpos c) fn_wakeup_task 0 Hmem Hf))
    as (res&s1&Hr1&_&Hsw). rewrite (bind_run _ _ _ _ _ Hr1).
  set (y := ksys (host s)) in *. assert (Hy : ksys (host s1) = y) by by rewrite (sw_host _ _ Hsw).
  destruct (mc_safe _ _ Hm) as [Q HQ]. rewrite Hc in Hni.
  destruct (pl_on _ _ (sf_placed _ _ HQ) c tc Htc Hon (not_eq_sym Hni)) as (j&Hj&Hcj).
  destruct (sleep_switch y Q c tc j (sf_good _ _ HQ) (sf_os _ _ HQ) Hc Htc Hon Hj Hcj) as (y2&y3&Q3&Hrun&Hsch&_&_&(t&Ht&Ho)&_).
  assert (Hpark : on_sys (c ← cur; add_task_to_wait_Q c) s1 = Some (tt, with_sys y2 s1)).
  { apply on_sys_run. rewrite Hy (bind_run cur _ _ c y (cur_run y c Hc)). exact Hrun. }
  rewrite (bind_run _ _ _ _ _ Hpark). exists (with_sys y3 (with_sys y2 s1)).
  split; [exact (on_sys_run schedule (with_sys y2 s1) tt y3 Hsch)|]. split; [|split; [apply Hsw|split; [apply Hsw|split; [apply Hsw|split; [apply Hsw|]]]]].
  2: { intros a. rewrite /wakes /handler_of /=. by rewrite (sw_apps _ _ Hsw) (sw_timers _ _ Hsw). }
  intros (t'&Ht'&Ho'). cbn in Ht'. rewrite Ht in Ht'. by injection Ht' as <-.
Qed.

(** A timer whose time went by stays where it is. *)
Lemma past_stays s tr T a w r ct :
  tinv s tr [] → 0 < T → at_state s tr [] a (Running w r ct) → r * unit_of w < T →
  tick_pass (clock_at T) (Running w r ct) = Running w r ct.
Proof.
  intros Hi HT Hst Hr. pose proof Hst as (Hw&Ha&p&Hp&<-&<-).
  destruct (ti_run _ _ _ Hi w a Hw Ha) as (p0&tm&(Hp0&_&_&_&Hk)&_&_&Hs). rewrite Hp in Hp0. injection Hp0 as <-.
  rewrite tick_pass_at //. case_decide as Hm; [|done]. apply pass_not_due. right. rewrite (clock_unit _ _ Hw).
  pose proof (unit_pos w). pose proof (Z.div_mod T (unit_of w)). nia.
Qed.
(** C14: a timer whose tick went by before the daemon had its turn is lost: whatever happens
    afterwards, it stays in its wheel, and the task that waits for it is not woken by it. *)
Theorem missed_timer_stays s tr T a w r ct os s' :
  machine s tr → clk s = clock_at T → 0 < T → at_state s tr [] a (Running w r ct) → r * unit_of w < T →
  runs k_allowed s os s' → T + ticks_in os < 2 ^ 32 →
  ∃ tr', machine s' tr' ∧ at_state s' tr' [] a (Running w r ct).
Proof.
  intros Hm Hck HT Hst Hr Hrs. cut (T + ticks_in os < 2 ^ 32 →
    ∃ tr', machine s' tr' ∧ clk s' = clock_at (T + ticks_in os) ∧ at_state s' tr' [] a (Running w r ct)); [naive_solver|].
  induction Hrs as [|os o s2 s3 _ IH Ho Hr3]; [intros _; exists tr; by rewrite Z.add_0_r|].
  rewrite ticks_in_app. pose proof (ticks_in_nonneg os) as Hos. pose proof (ticks_in_nonneg [o]). intros Hlt.
  destruct IH as (tr2&Hm2&Hck2&Hst2); [lia|]. set (T2 := T + ticks_in os) in *.
  pose proof (run_kop_machine s2 tr2 o Hm2 Ho) as Hw. rewrite /wp Hr3 in Hw. destruct Hw as (tr3&Hm3&Hstep).
  exists tr3. split; [done|].
  assert (Hund : undisturbed s2 tr2 s3 tr3 → ticks_in [o] = 0 →
    clk s3 = clock_at (T + (ticks_in os + ticks_in [o])) ∧ at_state s3 tr3 [] a (Running w r ct)).
  { intros [Hc _ Hs _] ->. rewrite Hc Hck2 Z.add_0_r. split; [done|by apply Hs]. }
  destruct o as [| |secs|ms|o]; cbn [stepped] in Hstep; [|destruct Hstep as (_&[[_ Hwk]|[_ Hu]])|destruct Hstep as [Hu _]|..];
    try by apply Hund.
  - destruct Hstep as [[_ (ck&k&->&Hadv&_)] ->]. rewrite (advance_clock_run s2 T2 Hck2 ltac:(lia) ltac:(cbn in *; lia)) in Hadv.
    injection Hadv as <-. split; [|exact Hst2]. cbn. f_equal. lia.
  - destruct Hwk as [Hc _ Hs _ _]. pose proof (past_stays s2 tr2 T2 a w r ct (mc_timers _ _ Hm2) ltac:(lia) Hst2 ltac:(lia)) as Hp.
    rewrite Hck2 in Hc, Hs. split; [by rewrite Hc Z.add_0_r|].
    pose proof (Hs a _ Hst2) as Hs2. rewrite Hp in Hs2. by apply Hs2.
Qed.
End promises.

(** ** A concrete machine *)
Module MachineWitness.
Import Run States TimerWitness SafeWitness.
#[local] Existing Instance KernelWitness.demo_kernel.

(** [main] runs, the daemon sleeps. *)
Definition resting : sys := run_ops [Op_wake 1; Op_sleep] asleep.
Lemma resting_safe : safe resting.
Proof.
  assert (Hs : rtc step asleep resting); [|exact (reach_safe _ _ Hs asleep_safe)]. apply runs_steps.
  split; [split; [decide_now|by vm_compute]|]. split; [by vm_compute|]. split; [by vm_compute|]. split; [by vm_compute|exact I].
Qed.
(** The soft interrupt of the timers is at the address 16. *)
Definition board : kernel := KernelWitness.machine resting.
Lemma board_machine (s : tms kernel) tr :
  host s = board → tinv s tr [] → counted s tr → (∀ a, a ∈ running tr → alarm s resting a) → machine s tr.
Proof.
  intros Hh Hi Hc Ha. split; rewrite ?Hh; [exact Hi|exact Hc|exact resting_safe|..|exact Ha].
  - eexists. split; [vm_compute; reflexivity|by vm_compute].
  - clear. decide_now.
  - exists 5%positive. clear. split; [by vm_compute|]. split; [eexists; vm_compute; reflexivity|by vm_compute].
Qed.
(** No timer runs, the tick is 148. *)
Definition at_148 : tms kernel := idle_at 148 board.
Lemma at_148_machine : machine at_148 no_trees.
Proof.
  apply board_machine; [done|apply idle_tinv|split; by vm_compute|]. intros a Ha. vm_compute in Ha. by apply elem_of_nil in Ha.
Qed.
(** A timer that wakes [main] was due at the tick 103; the tick is [T]. *)
Definition with_timer (T : Z) : tms kernel := single_at T TICK 103 3 1 fn_wakeup_task board.
Lemma with_timer_machine T : machine (with_timer T) (one_tree TICK).
Proof.
  apply board_machine; [done|by apply single_tinv; [|apply KernelWitness.packed_3|]|split; by vm_compute|].
  intros a Ha. assert (a = 8) as ->.
  { change (a ∈ [8]) in Ha. by apply list_elem_of_singleton in Ha. }
  split; [do 2 eexists; split; [done|]; split; [done|by left]|]. exists 1%positive. split; [done|].
  split; [eexists; vm_compute; reflexivity|]. split; clear; by vm_compute.
Qed.

(** Runs that are checked step by step. *)
Definition after_k (o : kop) (s : tms kernel) : tms kernel :=
  match run_kop o s with Some (_, s') => s' | None => s end.
Definition ends (os : list kop) (s : tms kernel) : tms kernel := foldl (λ s o, after_k o s) s os.
Fixpoint steps_ok (G : kop → tms kernel → Prop) (os : list kop) (s : tms kernel) : Prop :=
  match os with
  | [] => True
  | o :: os => G o s ∧ bool_decide (is_Some (run_kop o s)) = true ∧ steps_ok G os (after_k o s)
  end.
Lemma runs_cons G s o s1 os s2 : G o s → run_kop o s = Some (tt, s1) → runs G s1 os s2 → runs G s (o :: os) s2.
Proof.
  intros Ho Hr. induction 1 as [|os o' s2 s3 _ IH Ho' Hr'].
  - by apply (runs_snoc G s [] o s s1); [constructor|..].
  - exact (runs_snoc G s (o :: os) o' s2 s3 IH Ho' Hr').
Qed.
Lemma steps_runs G os s : steps_ok G os s → runs G s os (ends os s).
Proof.
  revert s. induction os as [|o os IH]; intros s; [constructor|]. intros (Ho&Hr&Hos). apply bool_decide_eq_true in Hr as [[[] s1] Hr].
  assert (after_k o s = s1) as Hs1 by by rewrite /after_k Hr. rewrite /= Hs1. rewrite Hs1 in Hos.
  exact (runs_cons _ _ _ _ _ _ Ho Hr (IH s1 Hos)).
Qed.
Definition is_wanted (s : tms kernel) : bool :=
  match irqs (host s) !! tm_irq (host s) with Some q => irq_status q =? WAKE_UP | None => false end.
Lemma is_wanted_ok s : is_wanted s = false → ¬ wanted s.
Proof. intros Hw (q&Hq&Hs). rewrite /is_wanted Hq Hs in Hw. done. Qed.

(** [main] sleeps for a second at the tick 148 and is ready after two ticks. *)
Definition napping : tms kernel := after_k (K_sleep 1) at_148.
Lemma napping_run : run_kop (K_sleep 1) at_148 = Some (tt, napping).
Proof. vm_compute. reflexivity. Qed.
Lemma nap_allowed : k_allowed (K_sleep 1) at_148.
Proof.
  split; [done|]. split; [by vm_compute|]. split; [by vm_compute|]. split; [intros Hx; by vm_compute|intros a Hx]. clear Hx; subst a.
  split; [by vm_compute|]. split; by vm_compute.
Qed.
Definition nap : list kop := [K_tick; K_tick; K_daemon].
Lemma nap_ok : steps_ok prompt nap napping.
Proof.
  split; [split; [exact I|intros _; apply is_wanted_ok; by vm_compute]|]. split; [by vm_compute|].
  split; [split; [exact I|intros _; apply is_wanted_ok; by vm_compute]|]. split; [by vm_compute|].
  split; [split; [by vm_compute|done]|]. split; [by vm_compute|exact I].
Qed.
Lemma sleep_wakes_on_time_witness :
  ∃ os1 s3 s4, runs prompt napping os1 s3 ∧ run_kop K_daemon s3 = Some (tt, s4) ∧ ready (ksys (host s4)) 1.
Proof.
  cut (∃ os1 os2 s3 s4, nap = os1 ++ K_daemon :: os2 ∧ runs prompt napping os1 s3 ∧ run_kop K_daemon s3 = Some (tt, s4) ∧
    ready (ksys (host s4)) 1 ∧ ticks_in os1 = 50 * 1 - 148 `mod` unit_of (slot (encode_time 0 (50 * 1))).1).
  { intros (os1&os2&s3&s4&_&Hr3&Hr4&Hrd&_). exists os1, s3, s4. exact (conj Hr3 (conj Hr4 Hrd)). }
  apply (sleep_wakes_on_time at_148 no_trees napping nap (ends nap napping) 148 1 1).
  - exact at_148_machine.
  - reflexivity.
  - by vm_compute.
  - by vm_compute.
  - by vm_compute.
  - by vm_compute.
  - exact nap_allowed.
  - intros [Hx|[Hx|[Hx|Hx]]]; vm_compute in Hx; discriminate Hx.
  - exact napping_run.
  - exact (steps_runs _ _ _ nap_ok).
  - apply is_wanted_ok. by vm_compute.
  - by vm_compute.
  - by vm_compute.
Defined.

(** A tick passes while [main] runs, [main] goes to sleep, the daemon has its turn. *)
Definition late : list kop := [K_tick; K_op Op_sleep; K_daemon].
Lemma late_ok : steps_ok k_allowed late (with_timer 104).
Proof.
  split; [exact I|]. split; [by vm_compute|]. split; [by vm_compute|]. split; [by vm_compute|].
  split; [by vm_compute|]. split; [by vm_compute|exact I].
Qed.
Lemma with_timer_state T : at_state (with_timer T) (one_tree TICK) [] 8 (Running TICK 103 3).
Proof. split; [done|]. split; [left|]. by eexists. Qed.
Lemma missed_timer_stays_witness :
  ∃ tr', machine (ends late (with_timer 104)) tr' ∧ at_state (ends late (with_timer 104)) tr' [] 8 (Running TICK 103 3).
Proof.
  apply (missed_timer_stays (with_timer 104) (one_tree TICK) 104 8 TICK 103 3 late).
  - exact (with_timer_machine 104).
  - reflexivity.
  - by vm_compute.
  - exact (with_timer_state 104).
  - by vm_compute.
  - exact (steps_runs _ _ _ late_ok).
  - by vm_compute.
Defined.
(** How the daemon comes to be late: its priority is not better than that of [main], which
    keeps the processor over the ticks 103 and 104. *)
Lemma main_keeps_daemon_waiting :
  let s := ends [K_tick; K_tick] (with_timer 102) in
  clk s = clock_at 104 ∧ is_wanted s = true ∧ current (ksys (host s)) = Some 1%positive ∧
  at_state s (one_tree TICK) [] 8 (Running TICK 103 3).
Proof.
  cbv zeta. split; [by vm_compute|]. split; [by vm_compute|]. split; [by vm_compute|].
  split; [done|]. split; [left|]. eexists. split; [vm_compute; reflexivity|by split].
Qed.

Lemma machine_never_crashes_witness : ∃ s2, run_kop K_tick (ends late (with_timer 102)) = Some (tt, s2).
Proof.
  destruct (machine_never_crashes (with_timer 102) (one_tree TICK) late (ends late (with_timer 102)) K_tick) as (s2&tr2&Hr&Hrest).
  - exact (with_timer_machine 102).
  - apply steps_runs. split; [exact I|]. split; [by vm_compute|]. split; [by vm_compute|]. split; [by vm_compute|].
    split; [by vm_compute|]. split; [by vm_compute|exact I].
  - exact I.
  - exists s2. exact Hr.
Defined.

(** The host has no memory left. *)
Definition no_memory : KEnv := {|
  kenv_talloc _ := 0;
  kenv_tsizeof _ := 64;
  kenv_handler _ _ := mret tt;
  kenv_action _ := mret tt
|}.
Lemma sleep_without_timer_witness :
  ∃ s', @run_kop demo_env no_memory (K_sleep 1) at_148 = Some (tt, s') ∧ ¬ ready (ksys (host s')) 1.
Proof.
  destruct (@sleep_without_timer demo_env no_memory at_148 no_trees 1 1) as (s'&Hr&Hn&Hrest).
  - exact at_148_machine.
  - by vm_compute.
  - eexists. split; [vm_compute; reflexivity|by vm_compute].
  - by vm_compute.
  - split; [done|]. split; [by vm_compute|]. split; [by vm_compute|]. by split.
  - right. right. by left.
  - exists s'. exact (conj Hr Hn).
Defined.
End MachineWitness.
