(* ===== verification/Dump.v ===== *)
(** * What the library prints about its tasks

    [dump_task_info], [stack_trace] and the functions they call (src/core/sched.c),
    [seg_fault] (src/core/interrupt.c) and [show_uptime], [tm_test_timers_latency]
    (src/TIMERS/src/tmr_init.c).

    A call of [printf] is an event of the trace with its format, its strings and its
    numbers.  Both listings walk over the same queues; the walk is [each_task], over the
    walks of OsThreads.v.  A quotient of two [double]s is recorded as its two numbers. *)

From S2P Require Import Prelude ListHead Timers TimerInv Task Signal Sched SchedInv SchedProps ThreadLib SchedSpec SchedFrame SchedSafe.
From S2P Require Import OsThreads Kernel KernelInv KernelSpec KernelRuns.
#[local] Open Scope Z_scope.

Section Dump.
Context `{E : Env} `{KE : KEnv}.

Definition printf (fmt : string) (words : list string) (nums : list Z) : M sys unit := emit (Ev_printf fmt words nums).

(** The array [tsk_state] has six entries. *)
Definition state_name (st : tsk_state) : option string :=
  match st with
  | TASK_INIT => Some "INIT"
  | TASK_RUNNING => Some "R"
  | TASK_RUNNABLE => Some "R+"
  | TASK_STOPPED => Some "T"
  | TASK_INTERRUPTIBLE => Some "S"
  | TASK_UNINTERRUPTIBLE => Some "S+"
  | TASK_DEBUG => None
  end.
Definition task_fmt : string := "%10s   %4d     %d    %6d    %3s  %5d   %5d.%-5d   %5d     %5d".
Definition print_task_info (p : positive) : M sys unit :=
  t ← tsk_ld p;
  let r := s32 (trt t + currt t) in
  w ← liftO (state_name (state t));
  printf task_fmt [taskname t; w]
    [tid t; event t; stksize t; prio t; Z.quot r 1000; Z.rem r 1000; swct t; cpuusage t].
Definition print_task_count : M sys unit :=
  r ← gets nrp;
  w ← gets nwp;
  printf "TASK in RUN Q : %d TASK in WAIT Q : %d" [] [r; w].

(** [for (i = 1; i < p->size; i++)]; [n] bounds the turns. *)
Fixpoint print_frames (n : nat) (i size : Z) (syms : list string) : M sys unit :=
  if size <=? i then mret tt else
  match n with
  | 0%nat => ub
  | S n =>
      w ← liftO (syms !! Z.to_nat i);
      if String.eqb w "[(nil)]" then mret tt else
      printf "%s" [w] [];;
      print_frames n (i + 1) size syms
  end.
Definition print_task_stack_trace (p : positive) : M sys unit :=
  t ← tsk_ld p;
  match stk_trc_sym t with
  | Some syms =>
      if negb (truthy (bt_size t)) then mret tt else
      printf "Task : %s" [taskname t] [];;
      printf "-------------" [] [];;
      print_frames (Z.to_nat (bt_size t)) 1 (bt_size t) syms;;
      printf "" [] []
  | None => mret tt
  end.

Definition unless_current (f : positive → M sys unit) (p : positive) : M sys unit :=
  c ← gets current; when (bool_decide (Some p ≠ c)) (f p).
(** The walk of [dump_task_info] and of [stack_trace]. *)
Definition each_task (f : positive → M sys unit) : M sys unit :=
  i ← gets idle;
  i ← nonnull i;
  f i;;
  nodes ← onl (list_for_each N_wq);
  walk f nodes;;
  n ← gets nrp;
  when (truthy n) (rq_walk (unless_current f) (Z.to_nat MAX_PRIO) 0);;
  io_walk f (Z.to_nat MAX_FDS) (-1);;
  c ← cur;
  f c.

Definition print_heading : M sys unit :=
  printf "" [] [];;
  printf "    task       tid  event   stack    state   prio   time(secs)   switches    cpu" [] [];;
  printf " ----------    ---  -----   -----    -----   ----  -----------   --------    ---" [] [].
(** Of the memory, the time and the cached tasks. *)
Definition print_totals : M (tms kernel) unit :=
  a ← gets (λ s, ulong (t_alloc s + alloc_size (ksys (host s))));
  on_sys (printf "Total Memory Allocated : %d.%d KB" [] [a / 1024; a `mod` 1024]);;
  h ← get_hrs;
  m ← get_mins;
  sc ← get_secs;
  t ← get_ticks;
  on_sys (printf "Time : %-5u:%-2u:%-2u:%-3u" [] [h; m `mod` 60; sc `mod` 60; t `mod` tm_get_ticks_per_second]);;
  im ← on_sys (gets im_count);
  nim ← on_sys (gets not_im_count);
  on_sys (printf "IMM Cache : %d  NOT IMM Cache : %d Cache HIT Percentage : %.2lf" [] [im; nim; s32 (im * 100); s32 (im + nim)]).
Definition dump_task_info : M (tms kernel) unit :=
  on_sys print_heading;;
  on_sys (each_task print_task_info);;
  on_sys print_task_count;;
  print_totals.
Definition stack_trace : M (tms kernel) unit :=
  on_sys (each_task print_task_stack_trace);;
  dump_task_info.
(** It calls [collect_stack_trace] without its argument. *)
Definition seg_fault (sig : Z) : M (tms kernel) unit :=
  on_sys (signals_block SIGALRM);;
  when (sig =? SIGSEGV) ub.

Definition show_uptime : M (tms kernel) unit :=
  h ← get_hrs;
  m ← get_mins;
  sc ← get_secs;
  t ← get_ticks;
  on_sys (printf "Uptime  %d hrs %d mins %d secs %d ticks" []
    [h; m `mod` 60; sc `mod` 60; t `mod` tm_get_ticks_per_second]).
(** [fn] is its own address, the handler of the timer it starts. *)
Definition tm_test_timers_latency (fn : Z) : M (tms kernel) unit :=
  dump_task_info;;
  start_timer (1 * tm_get_ticks_per_second) 0 fn 0;;
  mret tt.
End Dump.

(** ** The walk *)
Definition printed (s0 : sys) (es : list event_t) (s : sys) : Prop := s = set_trace (trace s0 ++ es) s0.
(** The tasks a listing shows, in its order. *)
Definition listing (s : sys) (Q : qmap) : list positive :=
  option_list (idle s) ++ Q N_wq ++
  (if truthy (nrp s) then filter (λ p, Some p ≠ current s) (in_order N_rq Q 0 MAX_PRIO) else []) ++
  in_order N_io Q 0 MAX_FDS ++ option_list (current s).

Section walk.
Context `{E : Env}.
Implicit Types (s : sys) (Q : qmap) (p c i : positive) (es : list event_t).

Lemma printed_refl s : printed s [] s.
Proof. rewrite /printed app_nil_r. by destruct s. Qed.
Lemma printed_emit s0 es s e : printed s0 es s → wp (emit e) (λ _, printed s0 (es ++ [e])) s.
Proof. intros ->. apply wp_modify. by rewrite /printed /= app_assoc. Qed.
Lemma printed_trans s0 es s es' s' : printed s0 es s → printed s es' s' → printed s0 (es ++ es') s'.
Proof. intros -> ->. by rewrite /printed /= app_assoc. Qed.

Context (s0 : sys) (Q : qmap) (f : positive → M sys unit) (ev : positive → list event_t).
Context (Hq : sys_queues s0 Q).
Context (Hf : ∀ es s p, printed s0 es s → is_Some (tasks s0 !! p) → wp (f p) (λ _, printed s0 (es ++ ev p)) s).

Lemma printed_queues es s : printed s0 es s → sys_queues s Q ∧ dom (locks s) = dom (locks s0).
Proof using Hq. by intros ->. Qed.
Lemma printed_task es s p : printed s0 es s → is_Some (tasks s !! p) → wp (f p) (λ _, printed s0 (es ++ ev p)) s.
Proof using Hf. intros Hs Hp. apply Hf; [done|]. by rewrite Hs in Hp. Qed.
Lemma unless_current_run es s p :
  printed s0 es s → is_Some (tasks s !! p) →
  wp (unless_current f p) (λ _, printed s0 (es ++ if bool_decide (Some p ≠ current s0) then ev p else [])) s.
Proof using Hf.
  intros Hs Hp. rewrite /unless_current /wp (bind_run (gets current) _ s (current s0) s); [|by rewrite Hs].
  case_bool_decide; [by apply printed_task|]. by rewrite app_nil_r.
Qed.

Lemma each_task_run c i :
  current s0 = Some c → idle s0 = Some i → is_Some (tasks s0 !! c) → is_Some (tasks s0 !! i) →
  wp (each_task f) (λ _, printed s0 (listing s0 Q ≫= ev)) s0.
Proof using Hf Hq.
  intros Hc Hi Htc Hti. rewrite /each_task. sys_steps. rewrite Hi. sys_steps.
  eapply wp_mono; [by apply (Hf []); [apply printed_refl|]|]. intros [] s1 H1. cbn [app] in H1.
  destruct (printed_queues _ _ H1) as [Hq1 HL]. rewrite /wp (bind_run _ _ _ _ _ (queue_walk_run s1 Q N_wq Hq1 I)).
  apply wp_bind. eapply wp_mono; [apply (walk_run Q _ _ f ev printed_queues printed_task _ s1 N_wq (Q N_wq) H1 I); done|].
  intros [] s2 H2. rewrite /wp (bind_run (gets nrp) _ s2 (nrp s0) s2); [|by rewrite H2]. apply wp_bind.
  set (e3 := if truthy (nrp s0) then filter (λ p, Some p ≠ current s0) (in_order N_rq Q 0 MAX_PRIO) ≫= ev else []).
  eapply (wp_mono _ (λ _, printed s0 ((ev i ++ (Q N_wq ≫= ev)) ++ e3))).
  { rewrite /e3. apply wp_when; intros Hn; rewrite Hn; [|by rewrite app_nil_r].
    eapply wp_mono; [apply (rq_walk_run Q _ _ _ _ printed_queues unless_current_run _ _ 0 (Z.to_nat MAX_PRIO) H2); done|].
    intros [] s3. by rewrite bind_filter. }
  intros [] s3 H3. apply wp_bind.
  eapply wp_mono; [apply (io_walk_run Q _ _ _ _ printed_queues printed_task _ _ (-1) (Z.to_nat MAX_FDS) H3); done|].
  intros [] s4 H4. rewrite /wp (bind_run cur _ s4 c s4); [|rewrite H4; apply cur_run; by rewrite /= Hc].
  eapply wp_mono; [apply (Hf _ _ _ H4 Htc)|]. intros [] s5. rewrite /e3 /listing Hi Hc !bind_app -!app_assoc. cbn.
  rewrite !app_nil_r. by destruct (truthy (nrp s0)).
Qed.
End walk.

(** ** Who is listed *)
Section listed.
Context `{E : Env}.
Implicit Types (s : sys) (Q : qmap) (p c i l : positive).

Lemma NoDup_sides (c i : positive) (W R F : list positive) :
  NoDup W → NoDup R → NoDup F → (∀ p, p ∈ W → p ∉ R) → (∀ p, p ∈ W → p ∉ F) → (∀ p, p ∈ R → p ∉ F) →
  i ∉ W → i ∉ R → i ∉ F → c ∉ W → c ∉ F → i ≠ c → NoDup (i :: W ++ filter (λ p, Some p ≠ Some c) R ++ F ++ [c]).
Proof.
  intros DW DR DF WR WF RF IW IR IF CW CF Hne.
  assert (DFc : NoDup (F ++ [c])).
  { apply NoDup_app. split; [done|]. split; [|apply NoDup_singleton]. intros p Hp ->%list_elem_of_singleton. done. }
  assert (DRF : NoDup (filter (λ p, Some p ≠ Some c) R ++ F ++ [c])).
  { apply NoDup_app. split; [by apply NoDup_filter|]. split; [|done].
    intros p [Hpc Hp]%list_elem_of_filter. rewrite elem_of_app list_elem_of_singleton.
    intros [H| ->]; [by apply (RF p)|done]. }
  apply NoDup_cons. split.
  - rewrite !elem_of_app list_elem_of_filter list_elem_of_singleton. naive_solver.
  - apply NoDup_app. split; [done|]. split; [|done].
    intros p Hp. rewrite !elem_of_app list_elem_of_filter list_elem_of_singleton.
    intros [[_ H]|[H| ->]]; [by apply (WR p)|by apply (WF p)|done].
Qed.

(** Every task, but those that wait for a lock. *)
Lemma listing_spec s Q c i :
  safe_with s Q → current s = Some c → idle s = Some i → is_Some (tasks s !! c) → is_Some (tasks s !! i) →
  (ready s c ∨ c = i) →
  (i ≠ c → NoDup (listing s Q)) ∧
  ∀ p, p ∈ listing s Q ↔ is_Some (tasks s !! p) ∧ ∀ l, l ∈ dom (locks s) → p ∉ Q (N_lock l).
Proof.
  intros Hs Hc Hi Htc Hti Hrd. pose proof (kg_inv _ _ (sf_good _ _ Hs)) as Hk. pose proof (ki_queues _ _ Hk) as Hq.
  set (W := Q N_wq). set (R := in_order N_rq Q 0 MAX_PRIO). set (F := in_order N_io Q 0 MAX_FDS).
  assert (MR : ∀ p, p ∈ R ↔ on_run Q p) by (intros p; apply in_order_elem).
  assert (MF : ∀ p, p ∈ F ↔ ∃ j, 0 ≤ j < MAX_FDS ∧ p ∈ Q (N_io j)) by (intros p; apply in_order_elem).
  assert (HR : (if truthy (nrp s) then filter (λ p, Some p ≠ Some c) R else []) = filter (λ p, Some p ≠ Some c) R).
  { destruct (truthy (nrp s)) eqn:Ht; [done|]. apply truthy_false in Ht.
    rewrite (kg_nrp _ _ (sf_good _ _ Hs)) /run_count in Ht.
    by assert (R = []) as -> by (apply nil_length_inv; change R with (run_order Q 0 MAX_PRIO); lia). }
  rewrite /listing Hi Hc HR. cbn [option_list app]. change (Q N_wq) with W. change (in_order N_io Q 0 MAX_FDS) with F.
  assert (DR : NoDup R) by (apply (in_order_NoDup N_rq _ _ _ _ _ Hq); [by intros ?? [=]|done]).
  assert (DF : NoDup F) by (apply (in_order_NoDup N_io _ _ _ _ _ Hq); [by intros ?? [=]|done]).
  clearbody R F.
  assert (UQ : ∀ h h' p, is_head (dom (locks s)) h → is_head (dom (locks s)) h' → p ∈ Q h → p ∈ Q h' → h = h')
    by (intros; by eapply (q_uniq _ _ _ _ Hq)).
  destruct (pl_idle _ _ (sf_placed _ _ Hs) i Hi) as [Inr Inw].
  assert (Hcur : c = i ∨ on_run Q c).
  { destruct (decide (c = i)) as [|Hne]; [by left|]. destruct Hrd as [(t&Ht&Hon)|]; [|done]. right.
    apply (pl_on _ _ (sf_placed _ _ Hs) c t); [done|done|]. rewrite Hi. congruence. }
  assert (NW : ∀ p h, is_head (dom (locks s)) h → is_run h = false → p ∈ Q h → p ≠ c ∧ p ≠ i).
  { intros p h Hh Hr Hp. split; intros ->; [|apply Inw; by exists h]. destruct Hcur as [->|Hrun]; [apply Inw; by exists h|].
    eapply run_not_wait; [done|done|]. by exists h. }
  split.
  - intros Hne. apply NoDup_sides; try done.
    + by apply (queues_NoDup _ _ _ _ N_wq Hq).
    + intros p Hw (j&Hj&Hp)%MR. by discriminate (UQ N_wq (N_rq j) p I Hj Hw Hp).
    + intros p Hw (j&Hj&Hp)%MF. by discriminate (UQ N_wq (N_io j) p I Hj Hw Hp).
    + intros p (j&Hj&Hp)%MR (j'&Hj'&Hp')%MF. by discriminate (UQ (N_rq j) (N_io j') p Hj Hj' Hp Hp').
    + intros Hp. by destruct (NW i N_wq I eq_refl Hp).
    + intros Hp%MR. done.
    + intros (j&Hj&Hp)%MF. by destruct (NW i (N_io j) Hj eq_refl Hp).
    + intros Hp. by destruct (NW c N_wq I eq_refl Hp).
    + intros (j&Hj&Hp)%MF. by destruct (NW c (N_io j) Hj eq_refl Hp).
  - intros p. rewrite elem_of_cons !elem_of_app list_elem_of_filter list_elem_of_singleton MR MF. split.
    + intros Hp. assert (Hwhere : p = i ∨ p = c ∨ ∃ h, is_head (dom (locks s)) h ∧ p ∈ Q h ∧ ∀ l, h ≠ N_lock l).
      { destruct Hp as [->|[Hp|[[_ (j&Hj&Hp)]|[(j&Hj&Hp)| ->]]]]; auto; do 2 right.
        - by exists N_wq. - by exists (N_rq j). - by exists (N_io j). }
      split; [destruct Hwhere as [->|[->|(h&Hh&Hp'&_)]]; [done..|]; apply elem_of_dom; by eapply (q_task _ _ _ _ Hq)|].
      intros l Hl Hpl. destruct (NW p (N_lock l) Hl eq_refl Hpl) as [H1 H2].
      destruct Hwhere as [|[|(h&Hh&Hp'&Hn)]]; [done..|]. by apply (Hn l), (UQ _ _ p).
    + intros [[t Ht] Hl]. destruct (decide (p = i)) as [|Hpi]; [by left|]. right.
      destruct (decide (p = c)) as [|Hpc]; [auto|].
      destruct (decide (onrq t = 0)) as [Hon|Hon].
      * destruct (pl_off _ _ (sf_placed _ _ Hs) p t Ht Hon) as (h&Hh&Hr&Hp). destruct h as [j| |fd|l|q]; [|by left|..].
        -- by rewrite run_head in Hr.
        -- right. right. left. by exists fd.
        -- by destruct (Hl l Hh).
        -- done.
      * right. left. split; [congruence|]. apply (pl_on _ _ (sf_placed _ _ Hs) p t Ht Hon). rewrite Hi. congruence.
Qed.
End listed.

(** ** What is printed *)
Definition task_line (t : tsk) (w : string) : event_t :=
  let r := s32 (trt t + currt t) in
  Ev_printf task_fmt [taskname t; w] [tid t; event t; stksize t; prio t; Z.quot r 1000; Z.rem r 1000; swct t; cpuusage t].
Definition task_lines (s : sys) (p : positive) : list event_t :=
  match tasks s !! p with
  | Some t => match state_name (state t) with Some w => [task_line t w] | None => [] end
  | None => []
  end.
Fixpoint upto_nil (l : list string) : list string :=
  match l with [] => [] | w :: l => if String.eqb w "[(nil)]" then [] else w :: upto_nil l end.
Definition frame_line (w : string) : event_t := Ev_printf "%s" [w] [].
Definition frames_from (i : Z) (t : tsk) (syms : list string) : list string :=
  upto_nil (drop (Z.to_nat i) (take (Z.to_nat (bt_size t)) syms)).
Definition trace_lines (s : sys) (p : positive) : list event_t :=
  match tasks s !! p with
  | Some t => match stk_trc_sym t with
      | Some syms => if truthy (bt_size t) then
          [Ev_printf "Task : %s" [taskname t] []; Ev_printf "-------------" [] []] ++
          (frame_line <$> frames_from 1 t syms) ++ [Ev_printf "" [] []] else []
      | None => []
      end
  | None => []
  end.
(** There is a name for every frame. *)
Definition symbols_ok (t : tsk) : Prop :=
  match stk_trc_sym t with Some syms => 0 ≤ bt_size t ≤ Z.of_nat (length syms) | None => True end.

Section lines.
Context `{E : Env} `{KE : KEnv}.
Implicit Types (y : sys) (s : tms kernel) (p : positive) (es : list event_t).

Lemma print_task_info_run y es y' p :
  (∀ p t, tasks y !! p = Some t → state t ≠ TASK_DEBUG) → printed y es y' → is_Some (tasks y !! p) →
  wp (print_task_info p) (λ _, printed y (es ++ task_lines y p)) y'.
Proof.
  intros Hd Hy [t Ht]. assert (Ht' : tasks y' !! p = Some t) by by rewrite Hy. rewrite /print_task_info /task_lines Ht. sys_steps.
  destruct (state_name (state t)) as [w|] eqn:Hw; [|by destruct (Hd p t Ht), (state t)].
  sys_steps. by apply printed_emit.
Qed.

Lemma frames_step i t syms w :
  0 ≤ i < bt_size t → syms !! Z.to_nat i = Some w →
  frames_from i t syms = if String.eqb w "[(nil)]" then [] else w :: frames_from (i + 1) t syms.
Proof.
  intros Hi Hw. assert (Hw' : take (Z.to_nat (bt_size t)) syms !! Z.to_nat i = Some w).
  { rewrite lookup_take_lt; [done|lia]. }
  rewrite /frames_from (drop_S _ _ _ Hw'). replace (Z.to_nat (i + 1)) with (S (Z.to_nat i)) by lia. done.
Qed.
Lemma print_frames_run y es y' t syms n i :
  bt_size t ≤ Z.of_nat (length syms) → 0 ≤ i → bt_size t - i ≤ Z.of_nat n → printed y es y' →
  wp (print_frames n i (bt_size t) syms) (λ _, printed y (es ++ (frame_line <$> frames_from i t syms))) y'.
Proof.
  intros Hlen. revert es y' i. induction n as [|n IH]; intros es y' i Hi Hn Hy; cbn [print_frames].
  all: destruct (Z.leb_spec (bt_size t) i) as [Hle|Hlt]; [|].
  1,3: apply wp_ret; rewrite /frames_from drop_ge ?app_nil_r; [done|rewrite length_take; lia].
  { lia. }
  destruct (lookup_lt_is_Some_2 syms (Z.to_nat i)) as [w Hw]; [lia|].
  rewrite (frames_step i t syms w) //. rewrite Hw /=. apply wp_bind, (wp_liftO _ w); [done|].
  destruct (String.eqb w "[(nil)]"); [apply wp_ret; by rewrite app_nil_r|].
  apply wp_bind. eapply wp_mono; [by apply (printed_emit y es y' (frame_line w))|]. intros [] y2 H2.
  eapply wp_mono; [apply (IH (es ++ [frame_line w]) y2 (i + 1)); [lia|lia|exact H2]|]. intros [] y3. by rewrite -app_assoc.
Qed.
Lemma print_stack_trace_run y es y' p :
  (∀ p t, tasks y !! p = Some t → symbols_ok t) → printed y es y' → is_Some (tasks y !! p) →
  wp (print_task_stack_trace p) (λ _, printed y (es ++ trace_lines y p)) y'.
Proof.
  intros Hs Hy [t Ht]. assert (Ht' : tasks y' !! p = Some t) by by rewrite Hy.
  rewrite /print_task_stack_trace /trace_lines Ht. sys_steps. pose proof (Hs p t Ht) as Hok. rewrite /symbols_ok in Hok.
  destruct (stk_trc_sym t) as [syms|]; [|sys_steps; by rewrite app_nil_r].
  destruct (truthy (bt_size t)); cbn [negb]; [|sys_steps; by rewrite app_nil_r].
  apply wp_bind. eapply wp_mono; [by apply printed_emit|]. intros [] y1 H1.
  apply wp_bind. eapply wp_mono; [by apply printed_emit|]. intros [] y2 H2.
  apply wp_bind. eapply wp_mono; [apply (print_frames_run _ _ _ t syms (Z.to_nat (bt_size t)) 1 ltac:(lia) ltac:(lia) ltac:(lia) H2)|].
  intros [] y3 H3. eapply wp_mono; [apply (printed_emit _ _ _ _ H3)|]. intros [] y4. by rewrite -!app_assoc.
Qed.

Definition heading : list event_t :=
  [Ev_printf "" [] [];
   Ev_printf "    task       tid  event   stack    state   prio   time(secs)   switches    cpu" [] [];
   Ev_printf " ----------    ---  -----   -----    -----   ----  -----------   --------    ---" [] []].
Definition totals s : list event_t :=
  let y := ksys (host s) in
  let a := ulong (t_alloc s + alloc_size y) in
  [Ev_printf "TASK in RUN Q : %d TASK in WAIT Q : %d" [] [nrp y; nwp y];
   Ev_printf "Total Memory Allocated : %d.%d KB" [] [a / 1024; a `mod` 1024];
   Ev_printf "Time : %-5u:%-2u:%-2u:%-3u" []
     [clock (clk s) HRS; clock (clk s) MIN `mod` 60; clock (clk s) SEC `mod` 60; clock (clk s) TICK `mod` 50];
   Ev_printf "IMM Cache : %d  NOT IMM Cache : %d Cache HIT Percentage : %.2lf" []
     [im_count y; not_im_count y; s32 (im_count y * 100); s32 (im_count y + not_im_count y)]].
(** Only lines were added. *)
Definition says s es s' : Prop := ∃ y, s' = with_sys y s ∧ printed (ksys (host s)) es y.

Lemma says_on_sys (m : M sys unit) s es s' es' :
  says s es s' → (∀ y, printed (ksys (host s)) es y → wp m (λ _, printed (ksys (host s)) es') y) →
  wp (on_sys m) (λ _, says s es') s'.
Proof.
  intros (y&->&Hy) Hm. apply wp_on_sys. eapply wp_mono; [by apply Hm|]. intros [] y' Hy'. exists y'. split; [by destruct s as [??????????[]]|done].
Qed.
Lemma says_printf s es s' fmt ws ns : says s es s' → wp (on_sys (printf fmt ws ns)) (λ _, says s (es ++ [Ev_printf fmt ws ns])) s'.
Proof. intros Hs. eapply says_on_sys; [done|]. intros y Hy. by apply printed_emit. Qed.
Lemma says_gets {A} (f : sys → A) (g : A → M (tms kernel) unit) s es s' Φ :
  says s es s' → (∀ y es, f (set_trace es y) = f y) → wp (g (f (ksys (host s)))) Φ s' → wp (a ← on_sys (gets f); g a) Φ s'.
Proof.
  intros (y&->&->) Hf Hg. rewrite /wp (bind_run _ _ _ (f (ksys (host s))) (with_sys (set_trace (trace (ksys (host s)) ++ es) (ksys (host s))) s)); [done|].
  rewrite -(Hf _ (trace (ksys (host s)) ++ es)). by destruct s as [??????????[]].
Qed.
End lines.

(** ** The listings *)
Section listings.
Context `{E : Env} `{KE : KEnv}.
Implicit Types (y : sys) (s : tms kernel) (p c i : positive) (es : list event_t) (Q : qmap).

Lemma says_listing f (ev : sys → positive → list event_t) s es s' Q c i :
  (∀ y tr p, ev (set_trace tr y) p = ev y p) →
  (∀ y es y' p, tasks y = tasks (ksys (host s)) → printed y es y' → is_Some (tasks y !! p) → wp (f p) (λ _, printed y (es ++ ev y p)) y') →
  sys_queues (ksys (host s)) Q → current (ksys (host s)) = Some c → idle (ksys (host s)) = Some i →
  is_Some (tasks (ksys (host s)) !! c) → is_Some (tasks (ksys (host s)) !! i) → says s es s' →
  wp (on_sys (each_task f)) (λ _, says s (es ++ (listing (ksys (host s)) Q ≫= ev (ksys (host s))))) s'.
Proof.
  intros Hev Hf Hq Hc Hi Htc Hti Hs. eapply says_on_sys; [exact Hs|]. intros y ->. set (y0 := ksys (host s)) in *.
  set (y := set_trace (trace y0 ++ es) y0).
  eapply wp_mono; [apply (each_task_run y Q f (ev y) Hq (λ es' z p Hz Hp, Hf y es' z p eq_refl Hz Hp) c i Hc Hi Htc Hti)|].
  intros [] z Hz. change (listing y Q) with (listing y0 Q) in Hz.
  replace (listing y0 Q ≫= ev y) with (listing y0 Q ≫= ev y0) in Hz by (apply list_bind_ext; [intros p; exact (eq_sym (Hev y0 _ p))|done]).
  by eapply (printed_trans y0 es y).
Qed.

Lemma says_refl s : says s [] s.
Proof. exists (ksys (host s)). split; [by destruct s as [??????????[]]|apply printed_refl]. Qed.
Lemma says_clk s es s' : says s es s' → clk s' = clk s ∧ t_alloc s' = t_alloc s.
Proof. by intros (y&->&_). Qed.

Lemma clk_read s es s' w (g : Z → M (tms kernel) unit) Φ :
  says s es s' → length (clk s) = 4%nat → 0 ≤ w < 4 → wp (g (clock (clk s) w)) Φ s' → wp (v ← clk_ld w; g v) Φ s'.
Proof.
  intros Hs Hl Hw Hg. destruct (lookup_lt_is_Some_2 (clk s) (Z.to_nat w)) as [v Hv]; [lia|].
  rewrite /wp (bind_run _ _ _ v s').
  - by rewrite /clock (list_lookup_total_correct _ _ _ Hv) in Hg.
  - rewrite /clk_ld decide_True; [|lia]. rewrite (bind_run (gets clk) _ s' (clk s) s'); [|by rewrite /gets (proj1 (says_clk _ _ _ Hs))].
    by rewrite Hv.
Qed.

Lemma print_totals_says s es s' :
  length (clk s) = 4%nat → says s es s' →
  wp (on_sys print_task_count;; print_totals) (λ _, says s (es ++ totals s)) s'.
Proof.
  intros Hl Hs. set (y := ksys (host s)). apply wp_bind.
  eapply (wp_mono _ (λ _, says s (es ++ [Ev_printf "TASK in RUN Q : %d TASK in WAIT Q : %d" [] [nrp y; nwp y]]))).
  { eapply says_on_sys; [exact Hs|]. intros z ->. rewrite /print_task_count. sys_steps. by apply printed_emit. }
  intros [] s1 H1. rewrite /print_totals. set (a := ulong (t_alloc s + alloc_size y)).
  rewrite /wp (bind_run (gets _) _ s1 a s1); [|by destruct H1 as (z&->&->)].
  apply wp_bind. eapply wp_mono; [by apply says_printf|]. intros [] s2 H2.
  eapply clk_read; [exact H2|done|done|]. eapply clk_read; [exact H2|done|done|].
  eapply clk_read; [exact H2|done|done|]. eapply clk_read; [exact H2|done|done|].
  apply wp_bind. eapply wp_mono; [by apply says_printf|]. intros [] s3 H3.
  eapply (says_gets im_count); [exact H3|done|]. eapply (says_gets not_im_count); [exact H3|done|].
  eapply wp_mono; [by apply says_printf|]. intros [] s4. by rewrite -!app_assoc.
Qed.

Definition listable s Q c i : Prop :=
  sys_queues (ksys (host s)) Q ∧ current (ksys (host s)) = Some c ∧ idle (ksys (host s)) = Some i ∧
  is_Some (tasks (ksys (host s)) !! c) ∧ is_Some (tasks (ksys (host s)) !! i) ∧ length (clk s) = 4%nat ∧
  ∀ p t, tasks (ksys (host s)) !! p = Some t → state t ≠ TASK_DEBUG.
Lemma dump_says s es s' Q c i :
  listable s Q c i → says s es s' →
  wp dump_task_info (λ _, says s (es ++ heading ++ (listing (ksys (host s)) Q ≫= task_lines (ksys (host s))) ++ totals s)) s'.
Proof.
  intros (Hq&Hc&Hi&Htc&Hti&Hl&Hd) Hs. rewrite /dump_task_info. apply wp_bind.
  eapply (wp_mono _ (λ _, says s (es ++ heading))).
  { eapply says_on_sys; [exact Hs|]. intros z Hz. rewrite /print_heading. 
    apply wp_bind. eapply wp_mono; [by apply printed_emit|]. intros [] z1 H1.
    apply wp_bind. eapply wp_mono; [by apply printed_emit|]. intros [] z2 H2.
    eapply wp_mono; [by apply printed_emit|]. intros [] z3. by rewrite -!app_assoc. }
  intros [] s1 H1. apply wp_bind. eapply wp_mono; [apply (says_listing print_task_info task_lines s (es ++ heading) s1 Q c i); try done|].
  { intros y es' y' p Hy. apply print_task_info_run. by rewrite Hy. }
  intros [] s2 H2. eapply wp_mono; [by apply print_totals_says|]. intros [] s3. by rewrite -!app_assoc.
Qed.
Lemma stack_trace_says s Q c i :
  listable s Q c i → (∀ p t, tasks (ksys (host s)) !! p = Some t → symbols_ok t) →
  wp stack_trace (λ _, says s ((listing (ksys (host s)) Q ≫= trace_lines (ksys (host s))) ++ heading ++
    (listing (ksys (host s)) Q ≫= task_lines (ksys (host s))) ++ totals s)) s.
Proof.
  intros Hls Hsy. pose proof Hls as (Hq&Hc&Hi&Htc&Hti&Hl&Hd). rewrite /stack_trace. apply wp_bind.
  eapply wp_mono; [apply (says_listing print_task_stack_trace trace_lines s [] s Q c i); try done; [|apply says_refl]|].
  - intros y es' y' p Hy. apply print_stack_trace_run. by rewrite Hy.
  - intros [] s1 H1. by apply (dump_says s _ s1 Q c i).
Qed.

(** C28: in every state a run reaches, [stack_trace] and the listing of [dump_task_info] that
    it ends with run to completion and change nothing but what was printed; every task that
    does not wait for a lock has its line, and it has one line only unless it is the idle task that
    is current, which is listed at both ends. *)
Theorem listing_shows_every_task s c i :
  let y := ksys (host s) in
  safe y → current y = Some c → idle y = Some i → ready y c ∨ c = i → length (clk s) = 4%nat →
  (∀ p t, tasks y !! p = Some t → state t ≠ TASK_DEBUG ∧ symbols_ok t) →
  ∃ Q s', sys_queues y Q ∧ stack_trace s = Some (tt, s') ∧
    says s ((listing y Q ≫= trace_lines y) ++ heading ++ (listing y Q ≫= task_lines y) ++ totals s) s' ∧
    (∀ p, p ∈ listing y Q ↔ is_Some (tasks y !! p) ∧ ∀ l, l ∈ dom (locks y) → p ∉ Q (N_lock l)) ∧
    (i ≠ c → NoDup (listing y Q)).
Proof.
  cbn zeta. intros [Q Hs] Hc Hi Hrd Hl Ht. pose proof (kg_inv _ _ (sf_good _ _ Hs)) as Hk.
  assert (Htc : is_Some (tasks (ksys (host s)) !! c)).
  { destruct (ki_cur _ _ Hk) as (c'&tc&Hc'&Htc). rewrite Hc in Hc'. injection Hc' as <-. by exists tc. }
  assert (Hti : is_Some (tasks (ksys (host s)) !! i)).
  { destruct (ki_idle _ _ Hk) as (i'&ti&Hi'&Hti). rewrite Hi in Hi'. injection Hi' as <-. by exists ti. }
  destruct (listing_spec _ Q c i Hs Hc Hi Htc Hti Hrd) as [Hnd Hin].
  destruct (wp_unit_inv _ _ _ (stack_trace_says s Q c i ltac:(split_and!; try done; [apply Hk|naive_solver]) ltac:(naive_solver))) as (s'&Hr&Hsay).
  exists Q, s'. split; [apply Hk|]. split; [exact Hr|]. split; [exact Hsay|]. by split.
Qed.
End listings.

Lemma idle_listed_twice y Q (i : positive) : idle y = Some i → current y = Some i → ¬ NoDup (listing y Q).
Proof.
  rewrite /listing. intros -> ->. cbn [option_list app]. rewrite NoDup_cons !elem_of_app list_elem_of_singleton. tauto.
Qed.
(** [seg_fault] hands no task to [collect_stack_trace]. *)
Lemma seg_fault_crashes `{E : Env} s : seg_fault SIGSEGV s = None.
Proof. by destruct s as [??????????[]]. Qed.

Module DumpWitness.
Import Run States MachineWitness.
#[local] Existing Instance KernelWitness.demo_kernel.

#[local] Instance state_dec : EqDecision tsk_state.
Proof. solve_decision. Defined.
#[local] Instance symbols_ok_dec t : Decision (symbols_ok t).
Proof. rewrite /symbols_ok. destruct (stk_trc_sym t); apply _. Defined.
Lemma listable_tasks : map_Forall (λ _ t, state t ≠ TASK_DEBUG ∧ symbols_ok t) (tasks (ksys (host at_148))).
Proof. decide_now. Qed.
(** [main] is current, the daemon sleeps. *)
Lemma listing_witness :
  ∃ Q s' es, stack_trace at_148 = Some (tt, s') ∧ says at_148 es s' ∧ 1%positive ∈ listing (ksys (host at_148)) Q.
Proof.
  cut (∃ Q s', sys_queues (ksys (host at_148)) Q ∧ stack_trace at_148 = Some (tt, s') ∧
    says at_148 ((listing (ksys (host at_148)) Q ≫= trace_lines (ksys (host at_148))) ++ heading ++
      (listing (ksys (host at_148)) Q ≫= task_lines (ksys (host at_148))) ++ totals at_148) s' ∧
    (∀ p, p ∈ listing (ksys (host at_148)) Q ↔ is_Some (tasks (ksys (host at_148)) !! p) ∧
      ∀ l, l ∈ dom (locks (ksys (host at_148))) → p ∉ Q (N_lock l)) ∧
    (3%positive ≠ 1%positive → NoDup (listing (ksys (host at_148)) Q))).
  { intros (Q&s'&_&Hr&Hs&Hin&_). exists Q, s'. eexists. split; [exact Hr|]. split; [exact Hs|]. apply Hin.
    split; [eexists; vm_compute; reflexivity|]. intros l Hl. exfalso. revert Hl. apply not_elem_of_dom. by vm_compute. }
  apply (listing_shows_every_task at_148 1 3).
  - exact resting_safe.
  - by vm_compute.
  - by vm_compute.
  - left. eexists. split; [vm_compute; reflexivity|by vm_compute].
  - by vm_compute.
  - intros p t Ht. exact (listable_tasks p t Ht).
Defined.
End DumpWitness.
