(* ===== verification/Host.v ===== *)
(** * Calls of the host

    What the library asks the host for, and does with the answers: signals and timers of
    src/core/interrupt.c, descriptors and message queues of src/core/iostream.c and of the SFS half of
    msg_queue.c, the locks of the wheels (src/core/lock.c, SFS_WANTED), and the whole of
    [tmlib_init] (src/core/tmlibinit.c).

    A call of the host is an event of the trace; [HostEnv] answers it from the trace so
    far. *)

From S2P Require Import Prelude ListHead MemPool RbTree Timers Task Signal Sched ThreadLib Kernel.
#[local] Open Scope Z_scope.

Class HostEnv := { host_answer : list event_t → string → list string → list Z → Z }.

Definition F_GETFL : Z := 3.
Definition F_SETFL : Z := 4.
Definition F_SETOWN : Z := 8.
Definition F_SETSIG : Z := 10.
Definition O_NONBLOCK : Z := 2048.
Definition O_ASYNC : Z := 8192.
Definition O_RDWR : Z := 2.
Definition O_CREAT : Z := 64.
Definition MQ_MODE : Z := 420.
Definition ITIMER_REAL : Z := 0.
Definition SA_RESTART : Z := 268435456.

Section Host.
Context `{E : Env} `{HE : HostEnv}.

Definition host_call (call : string) (words : list string) (nums : list Z) : M sys Z :=
  tr ← gets trace;
  emit (Ev_host call words nums);;
  mret (host_answer tr call words nums).
Definition perror (msg : string) : M sys unit := emit (Ev_print msg).

(** ** Signals and the tick (src/core/interrupt.c) *)
Definition setup_io_interrupt (fd : Z) : M sys Z :=
  flags ← host_call "fcntl" [] [fd; F_GETFL];
  if (flags <? 0) || (16 <=? fd) then mret (-1) else
  r ← host_call "fcntl" [] [fd; F_SETFL; Z.lor flags (Z.lor O_ASYNC O_NONBLOCK)];
  if r <? 0 then mret (-1) else
  r ← host_call "fcntl" [] [fd; F_SETSIG; SIGIO];
  if r <? 0 then mret (-1) else
  pid ← host_call "getpid" [] [];
  host_call "fcntl" [] [fd; F_SETOWN; pid];;
  os_register_signal_handler SIGIO;;
  mret 0.
Definition tick_timer : M sys Z :=
  let usec := TICK_TIMER_GRANULARITY * 1000 in
  host_call "setitimer" [] [ITIMER_REAL; 0; usec; 0; usec];;
  mret 0.
Definition init_tick_timer : M sys Z :=
  host_call "sigaction" [] [SIGALRM; SA_RESTART];;
  modify (λ s, set_os_handlers ({[SIGALRM]} ∪ os_handlers s) s);;
  mret 0.
(** [fileno (stdin)] is 0. *)
Definition setup_interrupt : M sys unit :=
  setup_io_interrupt 0;;
  init_tick_timer;;
  tick_timer;;
  mret tt.

(** ** Descriptors and message queues (src/core/iostream.c) *)
Definition tm_socket (domain type protocol : Z) : M sys Z :=
  fd ← host_call "socket" [] [domain; type; protocol];
  if fd =? -1 then mret (-1) else
  setup_io_interrupt fd;;
  mret fd.
Definition tm_write (fd : Z) : M sys Z := mret (-1).
Definition tm_open (pathname : string) : M sys Z := mret (-1).
Definition tm_getline : M sys Z := mret (-1).
Definition tm_close (fd : Z) : M sys Z := mret (-1).

Definition setup_mq_notify (mqid : Z) : M sys Z :=
  r ← host_call "mq_notify" [] [mqid; SIGIO];
  if r <? 0 then perror "mq_notify";; mret (-1) else mret 0.
Definition tm_mq_open (name : string) (oflag mode maxmsg msgsize : Z) : M sys Z :=
  mqid ← host_call "mq_open" [name] [Z.lor oflag O_NONBLOCK; mode; maxmsg; msgsize];
  if mqid =? -1 then perror "mq_open: ";; mret (-1) else
  setup_mq_notify mqid;;
  mret mqid.

(** The handler of SIGIO.  [siginfo_t]: a descriptor, or a message queue ([SI_MESGQ]), whose notification has
    to be asked for again. *)
Definition io_interrupt (si_signo : Z) (si : Z + Z) : M sys unit :=
  signals_block SIGIO;;
  when (si_signo =? SIGIO)
    (match si with inl fd => wake_io_task fd | inr mqid => setup_mq_notify mqid;; wake_io_task mqid end);;
  signals_unblock SIGIO.

(** [t] is the caller's time-out, seconds and microseconds; the descriptors that
    [select] finds are in local sets.  A set the caller leaves out is passed on without a value.  [n]
    bounds the turns of [while (1)]; [None] as the result: not done yet. *)
Fixpoint select_loop (n : nat) (nfds usec : Z) (rfd wfd efd : list Z) (t : Z * Z) : M sys (option Z * (Z * Z)) :=
  match n with
  | 0%nat => mret (None, t)
  | S n =>
      rval ← host_call "select" [] ([nfds; usec] ++ rfd ++ wfd ++ efd);
      if rval <=? 0 then
        let t := (slong (t.1 - usec), t.2) in
        if negb (truthy t.1) && negb (truthy t.2) then mret (Some rval, t)
        else select_loop n nfds usec rfd wfd efd t
      else mret (Some rval, t)
  end.
Definition tm_select (n : nat) (nfds : Z) (rfd wfd efd : option (list Z)) (t : Z * Z) : M sys (option Z * (Z * Z)) :=
  sl ← get_current_task_tslice;
  let usec := s32 (sl * 1000) in
  r ← liftO rfd;
  w ← liftO wfd;
  e ← liftO efd;
  select_loop n nfds usec r w e t.

(** ** Message queues of the SFS build (src/core/msg_queue.c) *)
Definition MAX_MQ_NAME : Z := 12.
(** [sprintf (mq_name, "/%s", name)] writes the slash, the name and the final zero. *)
Definition msg_create_Q (name : string) (maxmsg size : Z) : M sys Z :=
  (if MAX_MQ_NAME <? Z.of_nat (String.length name) + 2 then ub else mret tt);;
  let mq_name := String.append "/" name in
  host_call "mq_unlink" [mq_name] [];;
  qid ← tm_mq_open mq_name (Z.lor O_RDWR O_CREAT) MQ_MODE maxmsg size;
  if qid =? -1 then perror "mq_open: ";; mret (-1) else mret qid.
Definition msg_send (qid : Z) (msg : string) (size : Z) : M sys Z :=
  r ← host_call "mq_send" [msg] [qid; size; 0];
  when (r <? 0) (perror "-ERR- MQ_SEND ");;
  mret 0.
(** One turn: what [mq_receive] answers is handled by [tm_mq_receive]. *)
Definition msg_rcv_turn (qid size : Z) : M sys (option Z) :=
  r ← host_call "mq_receive" [] [qid; size];
  tm_mq_receive_turn qid r.
Definition msg_Q_init : M sys Z := mret 0.
End Host.

(** ** The locks of the wheels: they do nothing *)
Record sync_lock_t := MkSync { sl_lock : Z; sl_prio : Z }.
Section SyncLock.
Context {A : Type} `{Countable A}.
(** [wq] is the node in the lock.  The result, the lock and the links. *)
Definition create_sync_lock (wq : A) (m : gmap A (list_head A)) : option (Z * (sync_lock_t * gmap A (list_head A))) :=
  match INIT_LIST_HEAD wq m with Some (_, m') => Some (0, (MkSync 0 0, m')) | None => None end.
Definition sync_lock (k : sync_lock_t) : Z * sync_lock_t := (0, k).
Definition sync_unlock (k : sync_lock_t) : Z * sync_lock_t := (0, k).
End SyncLock.

(** ** The start of the library *)
Section StartUp.
Context `{E : Env} `{KE : KEnv} `{HE : HostEnv} `{ME : MemEnv}.

(** The two stores: timers and tasks, and the memory pools. *)
Definition lib : Type := tms kernel * mem_sys.
Definition in_kernel {A} (m : M (tms kernel) A) : M lib A := zoom fst (λ k l, (k, l.2)) m.
Definition in_pools {A} (m : M mem_sys A) : M lib A := zoom snd (λ p l, (l.1, p)) m.

Definition init_soft_irq : M (tms kernel) unit :=
  on_ilst (INIT_LIST_HEAD I_hd);;
  on_sys ThreadLib.init_soft_irq.
Definition tmlib_init : M lib Z :=
  init_ticks ← in_kernel (on_sys times);
  in_kernel (on_sys init_scheduler);;
  in_kernel (on_sys (create_parent_task init_ticks));;
  in_kernel (on_sys create_idle_task);;
  in_kernel init_soft_irq;;
  in_kernel (on_sys init_io);;
  in_pools mem_init;;
  in_kernel (on_sys msg_Q_init);;
  in_kernel init_timer_mgr;;
  in_kernel (on_sys setup_interrupt);;
  mret 0.
Definition tmlib_deinit : M lib Z := mret 0.
End StartUp.
