(* ===== verification/HostSpec.v ===== *)
(** * What the calls of the host promise

    [tm_select] and its time-out, descriptors that are set up for signals, the queues' names, and the start of
    the library up to the first [sleep] of [main], with enough memory and with too little. *)

From S2P Require Import Prelude ListHead MemPool RbTree RbRep Timers TimerFormat TimerTree TimerInv TimerSpec TimerLive TimerPending.
From S2P Require Import Task Signal Sched SchedInv SchedProps ThreadLib SchedSpec SchedFrame SchedSafe.
From S2P Require Import Kernel KernelInv KernelSpec KernelSafe KernelRuns Host.
#[local] Open Scope Z_scope.

Section calls.
Context `{E : Env} `{HE : HostEnv}.
Implicit Types (s : sys) (tr : list event_t).

Lemma host_call_run call ws ns s :
  host_call call ws ns s = Some (host_answer (trace s) call ws ns, set_trace (trace s ++ [Ev_host call ws ns]) s).
Proof. done. Qed.

(** ** [tm_select] *)

(** No descriptor is ever ready. *)
Definition nothing_ready : Prop := ∀ tr ns, host_answer tr "select" [] ns ≤ 0.
Lemma select_loop_run n nfds u r w e sec us s :
  nothing_ready → 0 < u → - 2 ^ 31 ≤ sec - Z.of_nat n * u → sec < 2 ^ 31 →
  ∃ res t s', select_loop n nfds u r w e (sec, us) s = Some ((res, t), s') ∧
    (is_Some res ↔ us = 0 ∧ ∃ k, 0 < k ≤ Z.of_nat n ∧ sec = k * u).
Proof.
  intros Hno Hu. revert sec s. induction n as [|n IH]; intros sec s Hlo Hhi; cbn [select_loop].
  { do 3 eexists. split; [done|]. split; [by intros []|]. intros (_&k&Hk&_). lia. }
  rewrite (bind_run _ _ _ _ _ (host_call_run _ _ _ s)). rewrite (proj2 (Z.leb_le _ _) (Hno _ _)). cbn [fst snd].
  assert (Hsl : slong (sec - u) = sec - u) by (apply s32_small; nia). rewrite Hsl.
  set (s1 := set_trace _ s). destruct (decide (sec = u)) as [->|Hne].
  - replace (u - u) with 0 by lia. destruct (decide (us = 0)) as [->|Hus].
    + change (negb (truthy 0) && negb (truthy 0)) with true. cbv iota. do 3 eexists. split; [done|].
      split; [|by eexists]. intros _. split; [done|]. exists 1. lia.
    + rewrite (proj2 (truthy_true us)) //. change (negb (truthy 0) && negb true) with false. cbv iota.
      destruct (IH 0 s1) as (res&t&s'&Hr&Hres); [nia|lia|]. exists res, t, s'. split; [done|]. rewrite Hres.
      split; intros []; naive_solver.
  - rewrite (proj2 (truthy_true (sec - u))) /=; [|lia].
    destruct (IH (sec - u) s1) as (res&t&s'&Hr&Hres); [nia|lia|]. exists res, t, s'. split; [done|]. rewrite Hres.
    split; intros (->&k&Hk&Hks); (split; [done|]).
    + exists (k + 1). lia.
    + exists (k - 1). nia.
Qed.
(** C29: while no descriptor is ready, with the three sets given, [tm_select] times out within [n] turns exactly when
    the caller's time-out has no microseconds and its seconds are a multiple, at most the [n]-fold, of the microseconds of
    a time slice (with a slice of 60 ms, after one turn for a time-out of 60000 s, and not at all for one of a
    second). *)
Theorem tm_select_time_out n nfds r w e sec us s c t :
  nothing_ready → current s = Some c → tasks s !! c = Some t → 0 < tslice t < 2 ^ 21 →
  0 ≤ sec < 2 ^ 31 → Z.of_nat n * (tslice t * 1000) < 2 ^ 31 →
  ∃ res t' s', tm_select n nfds (Some r) (Some w) (Some e) (sec, us) s = Some ((res, t'), s') ∧
    (is_Some res ↔ us = 0 ∧ ∃ k, 0 < k ≤ Z.of_nat n ∧ sec = k * (tslice t * 1000)).
Proof.
  intros Hno Hc Ht Hsl Hsec Hn. rewrite /tm_select.
  rewrite (bind_run get_current_task_tslice _ s (s32 (tslice t)) s).
  - rewrite (s32_small (tslice t)); [|lia]. rewrite s32_small; [|lia]. apply select_loop_run; [done|lia|nia|lia].
  - rewrite /get_current_task_tslice (bind_run cur _ s c s (cur_run s c Hc)).
    by rewrite (bind_run (tsk_ld c) _ s t s) //; rewrite /tsk_ld Ht.
Qed.
(** A set that the caller leaves out has no value. *)
Lemma tm_select_needs_sets n nfds w e t s : tm_select n nfds None w e t s = None.
Proof. rewrite /tm_select /mbind /M_bind. by destruct (get_current_task_tslice s) as [[]|]. Qed.

(** ** Descriptors *)
Lemma setup_io_interrupt_run fd s :
  ∃ res s', setup_io_interrupt fd s = Some (res, s') ∧ (res = 0 ∨ res = -1) ∧
    (res = 0 → fd < 16 ∧ SIGIO ∈ os_handlers s') ∧ (res = -1 → os_handlers s' = os_handlers s) ∧
    s' = set_os_handlers (os_handlers s') (set_trace (trace s') s).
Proof.
  rewrite /setup_io_interrupt (bind_run _ _ _ _ _ (host_call_run _ _ _ s)). set (s1 := set_trace _ s).
  case_match eqn:H1.
  { do 2 eexists. split; [done|]. split; [by right|]. split; [done|]. split; [done|]. by destruct s. }
  apply orb_false_elim in H1 as [_ H1%Z.leb_gt].
  rewrite (bind_run _ _ _ _ _ (host_call_run _ _ _ s1)). set (s2 := set_trace _ s1). case_match.
  { do 2 eexists. split; [done|]. split; [by right|]. split; [done|]. split; [done|]. by destruct s. }
  rewrite (bind_run _ _ _ _ _ (host_call_run _ _ _ s2)). set (s3 := set_trace _ s2). case_match.
  { do 2 eexists. split; [done|]. split; [by right|]. split; [done|]. split; [done|]. by destruct s. }
  rewrite (bind_run _ _ _ _ _ (host_call_run _ _ _ s3)). rewrite (bind_run _ _ _ _ _ (host_call_run _ _ _ _)).
  do 2 eexists. split; [done|]. split; [by left|]. split; [intros _; split; [lia|set_solver]|]. split; [done|]. by destruct s.
Qed.

(** ** Queues *)

(** A name of more than ten characters overruns the buffer. *)
Lemma long_queue_name_crashes name maxmsg size s : (10 < String.length name)%nat → msg_create_Q name maxmsg size s = None.
Proof. intros Hn. rewrite /msg_create_Q (proj2 (Z.ltb_lt _ _)) //. rewrite /MAX_MQ_NAME. lia. Qed.
(** The queue is removed, created anew and asked for a signal. *)
Lemma msg_create_Q_run name maxmsg size s :
  (String.length name ≤ 10)%nat →
  ∃ res s' es, msg_create_Q name maxmsg size s = Some (res, s') ∧ s' = set_trace (trace s ++ es) s ∧
    res = host_answer (trace s ++ [Ev_host "mq_unlink" [String.append "/" name] []]) "mq_open" [String.append "/" name]
      [Z.lor (Z.lor O_RDWR O_CREAT) O_NONBLOCK; MQ_MODE; maxmsg; size] ∧
    (res ≠ -1 → Ev_host "mq_notify" [] [res; SIGIO] ∈ es).
Proof.
  intros Hn. rewrite /msg_create_Q (proj2 (Z.ltb_ge _ _)); [|rewrite /MAX_MQ_NAME; lia].
  rewrite (bind_run (mret tt) _ s tt s) // (bind_run _ _ _ _ _ (host_call_run _ _ _ s)). set (s1 := set_trace _ s).
  rewrite /tm_mq_open -bind_assoc2 (bind_run _ _ _ _ _ (host_call_run _ _ _ s1)). set (s2 := set_trace _ s1).
  change (trace s1) with (trace s ++ [Ev_host "mq_unlink" [String.append "/" name] []]). set (q := host_answer _ "mq_open" _ _).
  destruct (Z.eqb_spec q (-1)) as [Hq|Hq].
  - rewrite Hq. eexists _, _, [_; _; _; _]. split; [done|]. split; [|split; [done|done]].
    by destruct s; cbn; rewrite -!app_assoc.
  - rewrite -bind_assoc2 /setup_mq_notify -bind_assoc2 (bind_run _ _ _ _ _ (host_call_run _ _ _ s2)). set (s3 := set_trace _ s2).
    assert (Hq' : (q =? -1) = false) by by apply Z.eqb_neq.
    case_match.
    + rewrite -bind_assoc2 (bind_run (perror _) _ s3 tt (set_trace (trace s3 ++ [Ev_print "mq_notify"]) s3)) //.
      eexists _, _, [_; _; _; _]. rewrite /mbind /M_bind /= Hq'. split; [done|]. split; [by destruct s; cbn; rewrite -!app_assoc|].
      split; [done|]. intros _. set_solver.
    + eexists _, _, [_; _; _]. rewrite /mbind /M_bind /= Hq'. split; [done|]. split; [by rewrite /s3 /s2 /s1; destruct s; cbn; rewrite -!app_assoc|].
      split; [done|]. intros _. set_solver.
Qed.
End calls.

(** ** From the start of the library to the first sleep of [main]

    Memory is handed out at fresh addresses until there is no more: the first [blocks] allocations of the
    scheduler and the first [tblocks] of the timers succeed.  The clock of the host, its answers and the sizes of the
    structures are arbitrary. *)
Section start.
Context (times_of : nat → Z) (frames : sys → Z) (names : sys → option (list string)) (sizes tsizes : string → Z).
Context (handlers : Z → Z → M (tms kernel) unit) (actions : Z → M (tms kernel) unit).
Context (answers : list event_t → string → list string → list Z → Z).

Definition any_host (blocks : nat) : Env := {|
  env_times := times_of;
  env_calloc := λ k, if (k <? blocks)%nat then Some (Pos.of_succ_nat k) else None;
  env_backtrace := frames;
  env_backtrace_symbols := names;
  env_sizeof := sizes
|}.
Definition any_kernel (tblocks : nat) : KEnv := {|
  kenv_talloc k := if (k <? tblocks)%nat then 4 * (Z.of_nat k + 1) else 0;
  kenv_tsizeof := tsizes;
  kenv_handler := handlers;
  kenv_action := actions
|}.
#[local] Instance any_answers : HostEnv := {| host_answer := answers |}.

(** Zero-initialised globals. *)
Definition lib_zero : lib :=
  (MkTms _ ∅ ∅ ∅ [0; 0; 0; 0] ∅ [0; 0; 0; 0] 0 0 0 0 (MkKernel sys_zero ∅ ∅ 0), mem_sys_zero).
Section boot.
Context (blocks tmore : nat).
#[local] Instance boot_host : Env := any_host blocks.
#[local] Instance boot_kernel : KEnv := any_kernel (S tmore).

Lemma in_kernel_sys {A} (m : M sys A) (k : tms kernel) p a y :
  m (ksys (host k)) = Some (a, y) → in_kernel (on_sys m) (k, p) = Some (a, (with_sys y k, p)).
Proof. intros Hm. by rewrite /in_kernel /zoom /= (on_sys_run _ _ _ _ Hm). Qed.
Lemma setup_interrupt_run y : ∃ tr os, setup_interrupt y = Some (tt, set_os_handlers os (set_trace tr y)).
Proof.
  rewrite /setup_interrupt. destruct (setup_io_interrupt_run 0 y) as (res&y1&Hr&_&_&_&Hy). rewrite (bind_run _ _ _ _ _ Hr).
  revert Hy. generalize (os_handlers y1), (trace y1). intros os tr ->. do 2 eexists. reflexivity.
Qed.

(** The timers before and after [init_timer_mgr]. *)
Definition no_timers (l : gmap inode (list_head inode)) (y : sys) : tms kernel :=
  MkTms _ ∅ ∅ ∅ [0; 0; 0; 0] ∅ [0; 0; 0; 0] 0 0 0 0 (MkKernel y ∅ l 0).
Definition fresh_timers (y : sys) : tms kernel :=
  MkTms _ ∅ ∅ ∅ [0; 0; 0; 0] {[E_hd := LH E_hd E_hd]} [0; 0; 0; 0] 0 0 (u32 (0 + tsizes "soft_irq")) 1
    (MkKernel y {[4 := MkIrq 4 fn_btm_hlf SLEEPING]} {[I_hd := LH (I_irq 4) (I_irq 4); I_irq 4 := LH I_hd I_hd]} 4).
Lemma no_timers_run {A} (m : M sys A) l y p a y' :
  m y = Some (a, y') → in_kernel (on_sys m) (no_timers l y, p) = Some (a, (no_timers l y', p)).
Proof. exact (in_kernel_sys m (no_timers l y) p a y'). Qed.
Definition one_irq_list : gmap inode (list_head inode) := {[I_hd := LH I_hd I_hd]}.
Lemma init_soft_irq_run y p y' :
  ThreadLib.init_soft_irq y = Some (tt, y') → in_kernel init_soft_irq (no_timers ∅ y, p) = Some (tt, (no_timers one_irq_list y', p)).
Proof.
  intros Hr. rewrite /in_kernel /zoom /init_soft_irq /=.
  rewrite (bind_run (on_ilst (INIT_LIST_HEAD I_hd)) _ (no_timers ∅ y) tt (no_timers one_irq_list y)) //.
  by rewrite (on_sys_run ThreadLib.init_soft_irq (no_timers one_irq_list y) tt y' Hr).
Qed.
Lemma init_timer_mgr_run y p : in_kernel init_timer_mgr (no_timers one_irq_list y, p) = Some (0, (fresh_timers y, p)).
Proof. reflexivity. Qed.
Definition no_pools : mem_sys := default mem_sys_zero (snd <$> mem_init mem_sys_zero).
Lemma tmlib_init_run y6 : tmlib_init_tasks sys_zero = Some (tt, y6) → ∃ tr os,
  tmlib_init lib_zero = Some (0, (fresh_timers (set_os_handlers os (set_trace tr y6)), no_pools)).
Proof.
  rewrite /tmlib_init_tasks. intros Hr.
  apply bind_inv in Hr as (t&y1&H1&Hr). apply bind_inv in Hr as ([]&y2&H2&Hr). apply bind_inv in Hr as ([]&y3&H3&Hr).
  apply bind_inv in Hr as ([]&y4&H4&Hr). apply bind_inv in Hr as ([]&y5&H5&H6).
  destruct (setup_interrupt_run y6) as (tr&os&H7). exists tr, os.
  rewrite /tmlib_init. change lib_zero with (no_timers ∅ sys_zero, mem_sys_zero).
  rewrite (bind_run _ _ _ _ _ (no_timers_run _ _ _ _ _ _ H1)) (bind_run _ _ _ _ _ (no_timers_run _ _ _ _ _ _ H2)).
  rewrite (bind_run _ _ _ _ _ (no_timers_run _ _ _ _ _ _ H3)) (bind_run _ _ _ _ _ (no_timers_run _ _ _ _ _ _ H4)).
  rewrite (bind_run _ _ _ _ _ (init_soft_irq_run _ _ _ H5)) (bind_run _ _ _ _ _ (no_timers_run _ _ _ _ _ _ H6)).
  rewrite (bind_run (in_pools mem_init) _ _ 0 (no_timers one_irq_list y6, no_pools)); [|reflexivity].
  rewrite (bind_run _ _ _ _ _ (no_timers_run msg_Q_init _ _ _ 0 y6 eq_refl)) (bind_run _ _ _ _ _ (init_timer_mgr_run _ _)).
  by rewrite (bind_run _ _ _ _ _ (in_kernel_sys _ (fresh_timers y6) _ _ _ H7)).
Qed.

(** The state between the two halves of the first switch. *)
Lemma fresh_machine y : safe y → (∃ d, softirq_d y = Some d ∧ alive y d ∧ idle y ≠ Some d) → machine (fresh_timers y) TimerWitness.no_trees.
Proof.
  intros Hs Hd. split; [..|exact Hs| | |exact Hd|].
  - destruct (TimerWitness.idle_tinv 0 tt) as [H1 H2 H3 H4 H5 H6]. split; [|exact H2|..|done].
    + intros w Hw. by apply TimerWitness.no_wheels.
    + intros w a _ Ha. by apply elem_of_nil in Ha.
    + exact H4.
    + intros a Ha. by apply elem_of_nil in Ha.
  - split; by vm_compute.
  - eexists. split; [vm_compute; reflexivity|done].
  - split; [apply (bool_decide_unpack _); vm_compute; exact I|by vm_compute].
  - intros a Ha. vm_compute in Ha. by apply elem_of_nil in Ha.
Qed.

Lemma fresh_memory y : timer_memory (fresh_timers y).
Proof.
  split; [done|]. set (a := env_talloc _). assert (Hv : a = 0 ∨ a = 12).
  { change a with (if (2 <? S tmore)%nat then 12 else 0). destruct (_ <? _)%nat; auto. }
  intros Ha. split; [|done]. destruct Hv as [->| ->]; [done|]. split; by vm_compute.
Qed.
(** The scheduler's part of a [sleep] of the current task leads to [y']: so does the whole of it. *)
Lemma first_sleep y z y' c secs :
  current y = Some c → (c ← cur; add_task_to_wait_Q c) y = Some (tt, z) → schedule z = Some (tt, y') →
  machine (fresh_timers y') TimerWitness.no_trees → sleeper y' c → 0 < secs < 1024 * 3600 →
  ∃ k' tr, run_kop (K_sleep secs) (fresh_timers y) = Some (tt, k') ∧ ksys (host k') = y' ∧ machine k' tr ∧
    alarm_set (fresh_timers y) k' tr c (50 * secs).
Proof.
  intros Hc Hp Hs Hm Hsl Hsec. cbn [run_kop]. rewrite /sleep. assert (Hz : secs ≠ 0) by lia.
  rewrite (proj2 (truthy_true _) Hz). cbn [negb]. rewrite /sleep_on_timer.
  replace (u32 (secs * tm_get_ticks_per_second)) with (50 * secs)
    by (change tm_get_ticks_per_second with 50; rewrite u32_small; lia).
  rewrite (bind_run _ _ _ _ _ (current_ptr_run (fresh_timers y) c Hc)).
  assert (Hn : 0 < 50 * secs < max_ticks) by (rewrite sfs_max; lia).
  destruct (wp_inv _ _ _ (start_machine (fresh_timers y) TimerWitness.no_trees y' c (50 * secs) Hm Hsl Hn (fresh_memory y)))
    as (res&s1&Hr&tr&Hm1&_&Hho&Hal).
  assert (Hy : ksys (host s1) = y) by by rewrite Hho.
  rewrite (bind_run _ _ _ _ _ Hr). rewrite -Hy in Hp.
  rewrite (bind_run _ _ s1 tt (with_sys z s1)); [|exact (on_sys_run _ s1 tt z Hp)].
  exists (with_sys y' s1), tr. split; [exact (on_sys_run schedule (with_sys z s1) tt y' Hs)|]. split; [done|]. split; [done|].
  destruct Hal as [?|(a&Ha&Hw)]; [by left|right]. exists a. split; [|done]. by destruct (TimerInv.placed _ _).
Qed.
End boot.

(** *** With enough memory *)
Section enough.
Context (more tmore : nat).
#[local] Instance full_host : Env := any_host (6 + more).
#[local] Instance full_kernel : KEnv := any_kernel (S tmore).

(** The scheduler's state before the signals of the host are set up. *)
Definition started_sys : sys := States.after tmlib_init_tasks sys_zero.

Definition runs_ok (m : M sys unit) (s : sys) : bool := match m s with Some _ => true | None => false end.
Lemma runs_after m s : runs_ok m s = true → m s = Some (tt, States.after m s).
Proof. rewrite /runs_ok /States.after. by destruct (m s) as [[[] ?]|]. Qed.
Lemma started_run : tmlib_init_tasks sys_zero = Some (tt, started_sys).
Proof.
  assert (Hr : runs_ok tmlib_init_tasks sys_zero = true) by (vm_compute; reflexivity). exact (runs_after _ _ Hr).
Qed.
(** [main] is on the wait queue, its switch is still to come. *)
Definition parked (tr : list event_t) (os : gset Z) : sys :=
  States.after (c ← cur; add_task_to_wait_Q c) (set_os_handlers os (set_trace tr started_sys)).
Lemma parked_run tr os : (c ← cur; add_task_to_wait_Q c) (set_os_handlers os (set_trace tr started_sys)) = Some (tt, parked tr os).
Proof.
  assert (Hr : runs_ok (c ← cur; add_task_to_wait_Q c) (set_os_handlers os (set_trace tr started_sys)) = true) by (vm_compute; reflexivity).
  exact (runs_after _ _ Hr).
Qed.
Lemma parked_safe tr os : safe (parked tr os).
Proof.
  exists (States.queues_of (parked tr os)). split.
  - apply States.kgood_ok_kgood. States.decide_now.
  - apply SafeWitness.placed_ok_placed. States.decide_now.
  - by vm_compute.
  - by vm_compute.
  - intros l k Hl. exfalso. revert Hl. vm_compute. discriminate.
Qed.

Lemma parked_tasks tr os :
  softirq_d (parked tr os) = Some 5%positive ∧ alive (parked tr os) 5 ∧ alive (parked tr os) 1 ∧
  bool_decide (idle (parked tr os) ≠ Some 5%positive ∧ idle (parked tr os) ≠ Some 1%positive) = true.
Proof.
  split; [vm_compute; reflexivity|]. split; [apply (bool_decide_unpack _); vm_compute; exact I|].
  split; [apply (bool_decide_unpack _); vm_compute; exact I|vm_compute; reflexivity].
Qed.
Lemma main_is_current tr os :
  parent (set_os_handlers os (set_trace tr started_sys)) = Some 1%positive ∧
  current (set_os_handlers os (set_trace tr started_sys)) = Some 1%positive.
Proof. split; vm_compute; reflexivity. Qed.
Lemma no_pools_ok : pools no_pools [].
Proof. split; [|set_solver..]. split; [apply NoDup_singleton|]. by vm_compute. Qed.
Lemma enough_memory secs : 0 < secs < 1024 * 3600 →
  ∃ k p k' tr, tmlib_init lib_zero = Some (0, (k, p)) ∧ parent (ksys (host k)) = Some 1%positive ∧
    current (ksys (host k)) = Some 1%positive ∧ pools p [] ∧
    run_kop (K_sleep secs) k = Some (tt, k') ∧ machine k' tr ∧ alarm_set k k' tr 1 (50 * secs).
Proof.
  intros Hsec. destruct (tmlib_init_run (6 + more) tmore _ started_run) as (tr&os&Hr). destruct (parked_safe tr os) as [Q HQ].
  destruct (wp_unit_inv _ _ _ (safe_schedule _ Q HQ)) as (y'&Hy'&Hs'). destruct (main_is_current tr os) as [Hp Hc].
  destruct (parked_tasks tr os) as (H1&H2&H3&[H4 H5]%bool_decide_eq_true_1).
  destruct (grows_schedule any_task no_task _ _ _ Hy') as (Hi&Hd&Ht&_).
  assert (Hm : machine (fresh_timers y') TimerWitness.no_trees).
  { apply fresh_machine; [exact Hs'|]. exists 5%positive. rewrite Hi Hd. split; [exact H1|]. split; [exact (Ht 5%positive I H2)|exact H4]. }
  assert (Hsl : sleeper y' 1).
  { split; [exact (Ht 1%positive I H3)|]. rewrite Hi Hd H1. split; [exact H5|done]. }
  destruct (first_sleep (6 + more) tmore _ _ _ 1 secs Hc (parked_run tr os) Hy' Hm Hsl Hsec) as (k'&tr'&Hr'&_&Hm'&Hal).
  do 4 eexists. split; [exact Hr|]. split; [exact Hp|]. split; [exact Hc|]. split; [exact no_pools_ok|].
  split; [exact Hr'|]. split; [exact Hm'|exact Hal].
Qed.
End enough.

(** *** With too little memory *)
Lemma no_memory_crash blocks tmore : (blocks < 4)%nat →
  tmlib_init (E := any_host blocks) (KE := any_kernel (S tmore)) lib_zero = None.
Proof. intros Hb. do 4 (destruct blocks as [|blocks]; [vm_compute; reflexivity|]). lia. Qed.
Lemma daemon_missing blocks : (4 ≤ blocks < 6)%nat →
  ∃ y, tmlib_init_tasks (E := any_host blocks) sys_zero = Some (tt, y) ∧ softirq_d y = None.
Proof.
  intros Hb. exists (States.after (tmlib_init_tasks (E := any_host blocks)) sys_zero).
  assert (Hd : blocks = 4%nat ∨ blocks = 5%nat) by lia.
  split; [apply runs_after|]; destruct Hd as [->| ->]; vm_compute; reflexivity.
Qed.

(** C5: When the host hands out the six blocks that [tmlib_init] asks the scheduler's memory for, and the one of the timers,
    [tmlib_init] runs to completion and reports success, with no memory pool; [main] is current.  When
    [main] then calls [sleep] for the first time, the call runs to completion, the library is in a state
    from which [machine_never_crashes] holds, and a timer that wakes [main] is set unless none can be
    started.  With fewer than four blocks [tmlib_init] writes through a null pointer; with four or five it reports
    success without a daemon. *)
Theorem start_up_reaches_machine blocks tblocks secs :
  (1 ≤ tblocks)%nat → 0 < secs < 1024 * 3600 →
  let E := any_host blocks in let KE := any_kernel tblocks in
  ((6 ≤ blocks)%nat → ∃ k p k' tr, tmlib_init lib_zero = Some (0, (k, p)) ∧ parent (ksys (host k)) = Some 1%positive ∧
     current (ksys (host k)) = Some 1%positive ∧ pools p [] ∧
     run_kop (K_sleep secs) k = Some (tt, k') ∧ machine k' tr ∧ alarm_set k k' tr 1 (50 * secs)) ∧
  ((4 ≤ blocks < 6)%nat → ∃ k p, tmlib_init lib_zero = Some (0, (k, p)) ∧ softirq_d (ksys (host k)) = None) ∧
  ((blocks < 4)%nat → tmlib_init lib_zero = None).
Proof.
  cbn zeta. intros Ht Hsec. destruct tblocks as [|tmore]; [lia|]. split; [|split].
  - intros Hb. replace blocks with (6 + (blocks - 6))%nat by lia. by apply enough_memory.
  - intros Hb. destruct (daemon_missing blocks Hb) as (y&Hr&Hd). destruct (tmlib_init_run blocks tmore _ Hr) as (tr&os&Hi).
    do 2 eexists. split; [exact Hi|exact Hd].
  - apply no_memory_crash.
Qed.
End start.

Module HostWitness.
Import Run MachineWitness.
#[local] Instance quiet : HostEnv := {| host_answer _ _ _ _ := 0 |}.

(** The slice of [main] is 310 ms: 310000 seconds are over after one turn, a second is not. *)
Definition main_tsk : tsk := default tsk_zero (tasks resting !! 1%positive).
Lemma tm_select_witness :
  ∃ res t' s', tm_select 5 0 (Some []) (Some []) (Some []) (1, 0) resting = Some ((res, t'), s') ∧
    (is_Some res ↔ 0 = 0 ∧ ∃ k, 0 < k ≤ Z.of_nat 5 ∧ 1 = k * (tslice main_tsk * 1000)).
Proof.
  apply (tm_select_time_out 5 0 [] [] [] 1 0 resting 1 main_tsk).
  - by intros tr ns.
  - by vm_compute.
  - by vm_compute.
  - split; by vm_compute.
  - split; by vm_compute.
  - by vm_compute.
Defined.
Example second_is_not_over : fst <$> tm_select 5 0 (Some []) (Some []) (Some []) (1, 0) resting = Some (None, (-1549999, 0)).
Proof. vm_compute. reflexivity. Qed.
Example three_hundred_thousand_are : (fst <$> tm_select 5 0 (Some []) (Some []) (Some []) (tslice main_tsk * 1000, 0) resting) = Some (Some 0, (0, 0)).
Proof. vm_compute. reflexivity. Qed.

(** A host with room for six blocks, and [main] sleeps for two seconds; with five there is no daemon. *)
Definition small_host (blocks : nat) : Env := any_host (λ _, 0) (λ _, 0) (λ _, None) (λ _, 64) blocks.
Definition small_kernel : KEnv := any_kernel (λ _, 64) (λ _ _, mret tt) (λ _, mret tt) 3.
#[local] Instance silent : HostEnv := any_answers (λ _ _ _ _, 0).
Lemma start_up_witness :
  (∃ k p k' tr, tmlib_init (E := small_host 6) (KE := small_kernel) lib_zero = Some (0, (k, p)) ∧
     run_kop (E := small_host 6) (KE := small_kernel) (K_sleep 2) k = Some (tt, k') ∧ machine k' tr) ∧
  ∃ k p, tmlib_init (E := small_host 5) (KE := small_kernel) lib_zero = Some (0, (k, p)) ∧ softirq_d (ksys (host k)) = None.
Proof.
  split.
  - destruct (start_up_reaches_machine (λ _, 0) (λ _, 0) (λ _, None) (λ _, 64) (λ _, 64) (λ _ _, mret tt) (λ _, mret tt)
      (λ _ _ _ _, 0) 6 3 2) as [H _]; [lia|lia|].
    destruct H as (k&p&k'&tr&Hi&_&_&_&Hr&Hm&_); [lia|]. exists k, p, k', tr. exact (conj Hi (conj Hr Hm)).
  - destruct (start_up_reaches_machine (λ _, 0) (λ _, 0) (λ _, None) (λ _, 64) (λ _, 64) (λ _ _, mret tt) (λ _, mret tt)
      (λ _ _ _ _, 0) 5 3 2) as (_&H&_); [lia|lia|]. apply H. lia.
Defined.
End HostWitness.
