(* ===== verification/PthHost.v ===== *)
(** * The calls of the host in the pthread build (src/core/common.c)

    A call is an event of the trace, which is the whole state here; [HostEnv] answers it as in Host.v. *)

From S2P Require Import Prelude Task Host.
#[local] Open Scope Z_scope.

Section PthHost.
Context `{HE : HostEnv}.

Definition pcall (call : string) (words : list string) (nums : list Z) : M (list event_t) Z := λ tr,
  Some (host_answer tr call words nums, tr ++ [Ev_host call words nums]).

Definition tm_read (fd size : Z) : M (list event_t) Z := pcall "read" [] [fd; size].
(** [n] bounds the calls of [do ... while (1)]; [None]: not done yet.  A result of at most 40 leads to
    another call whether or not errno is EINTR. *)
Fixpoint tm_recvfrom (n : nat) (fd size flags : Z) : M (list event_t) (option Z) :=
  match n with
  | 0%nat => mret None
  | S n =>
      rval ← pcall "recvfrom" [] [fd; size; flags];
      if rval <=? 40 then tm_recvfrom n fd size flags
      else if 40 <? rval then mret (Some rval) else tm_recvfrom n fd size flags
  end.
Definition tm_socket (domain type protocol : Z) : M (list event_t) Z := pcall "socket" [] [domain; type; protocol].
Definition tm_write (fd : Z) : M (list event_t) Z := mret (-1).
Definition tm_open (pathname : string) : M (list event_t) Z := mret (-1).
Definition tm_getline : M (list event_t) Z := mret (-1).
Definition tm_close (fd : Z) : M (list event_t) Z := mret (-1).
(** The sets and the time-out are those of the caller. *)
Definition tm_select (nfds : Z) (rfd wfd efd t : list Z) : M (list event_t) Z :=
  pcall "select" [] ([nfds] ++ rfd ++ wfd ++ efd ++ t).
Definition tm_mq_receive (mqid len : Z) : M (list event_t) Z := pcall "mq_receive" [] [mqid; len].
Definition tm_mq_open (name : string) (oflag mode maxmsg msgsize : Z) : M (list event_t) Z :=
  mqid ← pcall "mq_open" [name] [oflag; mode; maxmsg; msgsize];
  if mqid =? -1 then modify (λ tr, tr ++ [Ev_print "mq_open: "]);; mret (-1) else mret mqid.
Definition sleep_forever : M (list event_t) unit := pcall "sleep" [] [u32 (-1)];; mret tt.

(** ** A socket that fails *)

(** The calls so far. *)
Definition after_calls (n : nat) (fd size flags : Z) (tr : list event_t) : list event_t :=
  tr ++ replicate n (Ev_host "recvfrom" [] [fd; size; flags]).
(** [tm_recvfrom] returns what the first call with a result above 40 returns, after exactly that many calls; a datagram of at most
    40 bytes, the end of the stream or an error of the socket makes it call again, and if nothing else comes it never returns. *)
Theorem recvfrom_returns_first n fd size flags tr :
  let answer k := host_answer (after_calls k fd size flags tr) "recvfrom" [] [fd; size; flags] in
  (∀ k, (k < n)%nat → (∀ j, (j < k)%nat → answer j ≤ 40) → 40 < answer k →
     tm_recvfrom n fd size flags tr = Some (Some (answer k), after_calls (S k) fd size flags tr)) ∧
  ((∀ k, (k < n)%nat → answer k ≤ 40) → tm_recvfrom n fd size flags tr = Some (None, after_calls n fd size flags tr)).
Proof.
  cbn zeta. revert tr. induction n as [|n IH]; intros tr.
  { split; [lia|]. intros _. by rewrite /after_calls app_nil_r. }
  set (c := Ev_host "recvfrom" [] [fd; size; flags]).
  assert (Hsh : ∀ k, after_calls k fd size flags (tr ++ [c]) = after_calls (S k) fd size flags tr).
  { intros k. by rewrite /after_calls -app_assoc. }
  assert (H0 : after_calls 0 fd size flags tr = tr) by by rewrite /after_calls app_nil_r.
  destruct (IH (tr ++ [c])) as [IH1 IH2]. setoid_rewrite Hsh in IH1. setoid_rewrite Hsh in IH2.
  cbn [tm_recvfrom]. rewrite (bind_run _ _ tr (host_answer tr "recvfrom" [] [fd; size; flags]) (tr ++ [c]) eq_refl). split.
  - intros [|k] Hk Hlow Hhi; [rewrite H0 in Hhi; rewrite H0|].
    + rewrite (proj2 (Z.leb_gt _ _) Hhi) (proj2 (Z.ltb_lt _ _) Hhi). by rewrite /after_calls.
    + pose proof (Hlow 0%nat ltac:(lia)) as Hl0. rewrite H0 in Hl0. rewrite (proj2 (Z.leb_le _ _) Hl0).
      apply IH1; [lia| |done]. intros j Hj. apply Hlow. lia.
  - intros Hlow. pose proof (Hlow 0%nat ltac:(lia)) as Hl0. rewrite H0 in Hl0. rewrite (proj2 (Z.leb_le _ _) Hl0).
    apply IH2. intros k Hk. apply Hlow. lia.
Qed.
End PthHost.
