(* ===== verification/PthTimers.v ===== *)
(** * The timers of the pthread build

    The halves of src/TIMERS/src/thr_spec.c and of src/core/lock.c without SFS_WANTED: 100 ticks a second, a
    thread that counts the ticks and passes the wheels (tick_clock), a thread that calls the handlers
    (tick_service), an event that the first sends to the second, and a semaphore for each wheel.

    The wheels are those of Timers.v with the semaphores for their locks ([sem_locks]): timer_add, timer_del,
    timer_tree_walk and rb_first take and give back the semaphore of the wheel where the code does.  The task library
    is TaskLib.v on pthreads.  A turn of a thread is atomic: a tick, a pass over the expired timers.  A thread that finds
    a semaphore taken in its turn does not complete it, so the theorems that turns complete also show that every semaphore
    was given back. *)

From S2P Require Import Prelude ListHead RbTree Timers Task TaskLib.
#[local] Open Scope Z_scope.

#[local] Instance pth_ticks : TickRate := 100.
Definition TICK_TIMER_GRANULARITY : Z := 10.
Definition MILLISEC_2_NANOSEC (msec : Z) : Z := msec * 1000 * 1000.
Definition TMR_SERVE_TIMERS : Z := 1.
Definition TSK_SCHED_RR : Z := 2.
Definition SUCCESS : Z := 0.
Definition FAILURE : Z := 1.
(** The routines of the two threads. *)
Definition fn_tick_service : positive := 1.
Definition fn_tick_clock : positive := 2.

(** [btmhlftask_id] and [task_id]; the semaphores of the wheels; the calls of time-out handlers. *)
Record pthost := MkPthost {
  plib : tlib pth;
  btmhlftask_id : Z;
  clock_task_id : Z;
  sems : list Z;
  pt_calls : list (Z * Z)
}.
Definition set_plib v h := MkPthost v (btmhlftask_id h) (clock_task_id h) (sems h) (pt_calls h).
Definition set_btmhlf v h := MkPthost (plib h) v (clock_task_id h) (sems h) (pt_calls h).
Definition set_clock_task v h := MkPthost (plib h) (btmhlftask_id h) v (sems h) (pt_calls h).
Definition set_sems v h := MkPthost (plib h) (btmhlftask_id h) (clock_task_id h) v (pt_calls h).
Definition set_pt_calls v h := MkPthost (plib h) (btmhlftask_id h) (clock_task_id h) (sems h) v.

(** Memory, and what the handlers of the application do: any computation on the timers and the tasks. *)
Class PtEnv := {
  ptenv_talloc : nat → Z;
  ptenv_tsizeof : string → Z;
  ptenv_handler : Z → Z → M (tms pthost) unit
}.

Definition on_pthost {A} (m : M pthost A) : M (tms pthost) A := zoom host set_host m.

(** ** Semaphores (src/core/lock.c)

    [slock] is a field of a wheel and never null; [sem_init] with the value 1 and [sem_post] below SEM_VALUE_MAX do not fail. *)
Definition sem_ld (i : nat) : M (tms pthost) Z := h ← gets host; liftO (sems h !! i).
Definition sem_st (i : nat) (v : Z) : M (tms pthost) unit := on_pthost (modify (λ h, set_sems (<[i := v]> (sems h)) h)).
Definition create_sync_lock (i : nat) : M (tms pthost) Z := sem_ld i;; sem_st i 1;; mret 0.
(** [sem_wait]: [None] while the thread waits; an interrupted call is made again. *)
Definition sync_lock (i : nat) : M (tms pthost) (option Z) :=
  v ← sem_ld i;
  if 0 <? v then sem_st i (v - 1);; mret (Some 0) else mret None.
Definition sync_unlock (i : nat) : M (tms pthost) Z := v ← sem_ld i; sem_st i (v + 1);; mret 0.

(** The locks of the wheels.  Nothing else runs during a turn: a wait in it does not end. *)
Definition sem_of (w : Z) : M (tms pthost) nat := if decide (0 ≤ w) then mret (Z.to_nat w) else ub.
Definition sem_lock (w : Z) : M (tms pthost) unit :=
  i ← sem_of w;
  r ← sync_lock i;
  match r with Some _ => mret tt | None => ub end.
Definition sem_unlock (w : Z) : M (tms pthost) unit := i ← sem_of w; sync_unlock i;; mret tt.
#[local] Instance sem_locks : WheelLocks pthost := {| wheel_lock := sem_lock; wheel_unlock := sem_unlock |}.

Section PthTimers.
Context `{PE : PthEnv} `{TE : TlEnv} `{PT : PtEnv}.

Definition on_plib {A} (m : M (tlib pth) A) : M (tms pthost) A := on_pthost (zoom plib set_plib m).

(** ** Memory *)

(** [alloc_size] counts [size], not [nmemb * size]; all calls are for one member. *)
Definition tm_calloc (nmemb size : Z) : M (tms pthost) Z :=
  k ← gets n_alloc;
  modify (λ s, set_alloc (u32 (t_alloc s + size)) (S k) s);;
  mret (ptenv_talloc k).
Definition tm_malloc (size : Z) : M (tms pthost) Z := tm_calloc 1 size.

#[global] Instance pthread_timers : TmEnv pthost := {|
  env_talloc := ptenv_talloc;
  env_tsizeof := ptenv_tsizeof;
  env_handler h d := on_pthost (modify (λ k, set_pt_calls (pt_calls k ++ [(h, d)]) k));; ptenv_handler h d
|}.

(** ** The two threads *)
Definition service_timers : M (tms pthost) unit :=
  n ← tm_process_tick_and_update_timers;
  when (truthy n) (h ← gets host; on_plib (evt_snd (ulong (btmhlftask_id h)) TMR_SERVE_TIMERS)).
Definition update_times : M (tms pthost) unit :=
  advance_clock;;
  n ← timers_pending_for_service;
  when (truthy n) service_timers.
(** [while (tick--) update_times ()]. *)
Fixpoint tick_loop (tick : nat) : M (tms pthost) unit :=
  match tick with 0%nat => mret tt | S tick => update_times;; tick_loop tick end.
(** One turn of [for (;;)]: the clock is read before and after [nanosleep]. *)
Definition tick_clock : M (tms pthost) unit :=
  start ← on_plib (on_thost pth_times);
  on_plib (on_thost (pth_emit (Pth_nanosleep 0 (MILLISEC_2_NANOSEC TICK_TIMER_GRANULARITY))));;
  stop ← on_plib (on_thost pth_times);
  let tick := s32 (stop - start) in
  tick_loop (Z.to_nat (if tick <=? 0 then 1 else tick)).

(** In this build the ticks are not processed here. *)
Definition btm_hlf : M (tms pthost) unit :=
  e ← on_elst (list_empty E_hd);
  when (negb e) process_expd_timers.
(** The rest of a turn of [while (1)] after [evt_rx]; [evt] is the variable of the thread. *)
Definition serve (evt : Z) (r : option (Z * option Z)) : M (tms pthost) (option Z) :=
  match r with
  | None => mret None
  | Some (_, o) =>
      let evt := default evt o in
      when (truthy (Z.land evt TMR_SERVE_TIMERS)) btm_hlf;;
      mret (Some evt)
  end.
(** One turn; [None]: the thread waits in [evt_rx]. *)
Definition tick_service (evt : Z) : M (tms pthost) (option Z) :=
  h ← gets host;
  r ← on_plib (evt_rx (ulong (btmhlftask_id h)) TMR_SERVE_TIMERS);
  serve evt r.

Fixpoint create_locks (i : nat) : M (tms pthost) unit :=
  match i with 0%nat => mret tt | S i => create_sync_lock i;; create_locks i end.
(** [task_create] writes the id of the thread through a pointer to [int]. *)
Definition init_timer_mgr : M (tms pthost) Z :=
  timer_rq_init;;
  '(r, id) ← on_plib (task_create "TMRBHF" 99 TSK_SCHED_RR 32000 (Some fn_tick_service) None 0);
  match id with Some i => on_pthost (modify (set_btmhlf (s32 i))) | None => mret tt end;;
  if r =? TSK_FAILURE then mret FAILURE else
  '(r, id) ← on_plib (task_create "TMRTHF" 99 TSK_SCHED_RR 32000 (Some fn_tick_clock) None 0);
  match id with Some i => on_pthost (modify (set_clock_task (s32 i))) | None => mret tt end;;
  if r =? TSK_FAILURE then mret FAILURE else
  create_locks (Z.to_nat TIMER_WHEEL);;
  mret SUCCESS.
End PthTimers.
