(* ===== verification/PthLocks.v ===== *)
(** * The semaphores of the wheels

    Timers.v takes and gives back the lock of a wheel where the code does; with the semaphores of PthTimers.v every operation
    on timers gives back what it takes, on every exit, and then does what it does without locks, so the theorems on the
    timers hold of the pthread build ([agrees], [wp_agrees]). *)

From S2P Require Import Prelude ListHead RbTree RbRep Timers TimerFormat TimerTree TimerLive Task TaskLib PthTimers.
#[local] Open Scope Z_scope.

#[local] Existing Instance pth_ticks.
#[local] Existing Instance sem_locks.

(** The operations without locks, as TimerSpec.v has them. *)
Notation no_locks := (sfs_locks pthost).

(** Every wheel has a semaphore, and it is free. *)
Definition sems_free (s : tms pthost) : Prop := sems (host s) = replicate (length (roots s)) 1.
Definition same_sems (s s' : tms pthost) : Prop := sems (host s') = sems (host s) ∧ length (roots s') = length (roots s).
#[global] Instance same_sems_preorder : PreOrder same_sems.
Proof. split; [done|]. intros s1 s2 s3 [H1 H2] [H3 H4]. split; congruence. Qed.
Lemma same_sems_free s s' : same_sems s s' → sems_free s → sems_free s'.
Proof. rewrite /sems_free. by intros [-> ->]. Qed.

(** ** What leaves the semaphores alone *)
Section keep.
Lemma sems_modify (f : tms pthost → tms pthost) : (∀ s, same_sems s (f s)) → respects same_sems (modify f).
Proof. apply respects_modify. Qed.
Lemma sems_on_root {A} w (m : M rb A) : respects same_sems (on_root w m : M (tms pthost) A).
Proof.
  intros s a s'. rewrite /on_root. case_decide; [|done]. destruct (roots s !! _); [|done].
  destruct (m _) as [[b t]|]; [|done]. intros [= _ <-]. split; [done|]. apply length_insert.
Qed.
Lemma sems_on_elst {A} (m : M _ A) : respects same_sems (on_elst m : M (tms pthost) A).
Proof. by apply respects_zoom. Qed.
Lemma sems_timer_mod f p : respects same_sems (timer_mod f p : M (tms pthost) unit).
Proof. rewrite /timer_mod /timer_ld. respect. by apply respects_modify. Qed.
Lemma sems_app_st a v : respects same_sems (app_st a v : M (tms pthost) unit).
Proof. rewrite /app_st /app_ld. respect. by apply respects_modify. Qed.
End keep.
#[export] Hint Resolve sems_on_root sems_on_elst sems_timer_mod sems_app_st : respects.
#[export] Hint Extern 2 (respects same_sems (modify _)) => apply sems_modify; done : respects.

(** ** A body between [sync_lock] and [sync_unlock]

    A computation that neither looks at the host nor changes it, as the operations on the trees. *)
Definition blind {A} (m : M (tms pthost) A) : Prop := ∀ h s, m (set_host h s) = (λ r, (r.1, set_host h r.2)) <$> m s.
(** It needs the tree of the wheel [w]. *)
Definition on_wheel {A} (w : Z) (m : M (tms pthost) A) : Prop :=
  ∀ s, (if decide (0 ≤ w) then roots s !! Z.to_nat w else None) = None → m s = None.

Section blind.
Implicit Types (s : tms pthost) (w : Z).
Lemma blind_bind {A B} (m : M (tms pthost) A) (k : A → M (tms pthost) B) : blind m → (∀ a, blind (k a)) → blind (m ≫= k).
Proof. intros Hm Hk h s. rewrite /mbind /M_bind Hm. destruct (m s) as [[a s1]|]; [|done]. apply Hk. Qed.
Lemma blind_ret {A} (a : A) : blind (mret a).
Proof. done. Qed.
Lemma blind_ub {A} : blind (ub : M (tms pthost) A).
Proof. done. Qed.
Lemma blind_liftO {A} (o : option A) : blind (liftO o).
Proof. by destruct o. Qed.
Lemma blind_gets {A} (f : tms pthost → A) : (∀ h s, f (set_host h s) = f s) → blind (gets f).
Proof. intros Hf h s. by rewrite /gets Hf. Qed.
Lemma blind_root {A} w (m : M rb A) : blind (on_root w m).
Proof. intros h s. rewrite /on_root. case_decide; [|done]. cbn. destruct (roots s !! _); [|done]. by destruct (m _) as [[]|]. Qed.
Lemma blind_app_ld a : blind (app_ld a).
Proof. apply blind_bind; [by apply blind_gets|intros; apply blind_liftO]. Qed.
Lemma blind_host {A} (m : M (tms pthost) A) s a s' : blind m → m s = Some (a, s') → host s' = host s.
Proof.
  intros Hb Hm. pose proof (Hb (host s) s) as H. replace (set_host (host s) s) with s in H by by destruct s.
  rewrite Hm /= in H. injection H as ->. done.
Qed.
Lemma on_wheel_root {A B} w (m : M rb A) (k : A → M (tms pthost) B) : on_wheel w (on_root w m ≫= k).
Proof. intros s Hw. rewrite /mbind /M_bind /on_root. case_decide; [|done]. by rewrite Hw. Qed.

Lemma sem_ld_run i v s : sems (host s) !! i = Some v → sem_ld i s = Some (v, s).
Proof. intros Hv. by rewrite /sem_ld (bind_run (gets host) _ s (host s) s) // Hv. Qed.
Lemma sem_of_run w s : 0 ≤ w → sem_of w s = Some (Z.to_nat w, s).
Proof. intros Hw. by rewrite /sem_of decide_True. Qed.
Definition with_sem (w v : Z) s : tms pthost := set_host (set_sems (<[Z.to_nat w := v]> (sems (host s))) (host s)) s.
Lemma sem_lock_run w v s :
  0 ≤ w → sems (host s) !! Z.to_nat w = Some v → sem_lock w s = if 0 <? v then Some (tt, with_sem w (v - 1) s) else None.
Proof.
  intros Hw Hv. rewrite /sem_lock (bind_run _ _ _ _ _ (sem_of_run w s Hw)) /sync_lock -bind_assoc2 (bind_run _ _ _ _ _ (sem_ld_run _ _ _ Hv)).
  by destruct (0 <? v).
Qed.
Lemma sem_unlock_run w v s :
  0 ≤ w → sems (host s) !! Z.to_nat w = Some v → sem_unlock w s = Some (tt, with_sem w (v + 1) s).
Proof.
  intros Hw Hv. rewrite /sem_unlock (bind_run _ _ _ _ _ (sem_of_run w s Hw)) /sync_unlock -bind_assoc2.
  by rewrite (bind_run _ _ _ _ _ (sem_ld_run _ _ _ Hv)).
Qed.
Lemma sem_lock_none w s : (if decide (0 ≤ w) then roots s !! Z.to_nat w else None) = None → sems_free s → sem_lock w s = None.
Proof.
  rewrite /sem_lock /sem_of. intros Hw Hf. case_decide; [|done]. rewrite (bind_run (mret _) _ s _ s eq_refl).
  apply lookup_ge_None in Hw. rewrite /sync_lock /sem_ld /mbind /M_bind /gets Hf.
  by rewrite (proj1 (lookup_replicate_None _ _ _) Hw).
Qed.
Lemma bracket_run {A} w (m : M (tms pthost) A) s :
  sems_free s → blind m → on_wheel w m → (sem_lock w;; a ← m; sem_unlock w;; mret a) s = m s.
Proof.
  intros Hf Hb Hw. destruct (if decide (0 ≤ w) then roots s !! Z.to_nat w else None) as [r|] eqn:Hr; last first.
  { rewrite (Hw s Hr) {1}/mbind {1}/M_bind sem_lock_none //. }
  case_decide as Hw0; [|done]. apply lookup_lt_Some in Hr.
  assert (Hv : sems (host s) !! Z.to_nat w = Some 1) by (rewrite Hf lookup_replicate_2; done).
  assert (Hl : (Z.to_nat w < length (sems (host s)))%nat) by (rewrite Hf length_replicate; done).
  rewrite (bind_run _ _ s tt (with_sem w 0 s)); [|by rewrite (sem_lock_run _ _ _ Hw0 Hv)].
  destruct (m s) as [[a s']|] eqn:Hm; last by rewrite {1}/mbind {1}/M_bind /with_sem Hb Hm.
  rewrite (bind_run m _ _ a (set_host (host (with_sem w 0 s)) s')); [|by rewrite /with_sem Hb Hm].
  rewrite (bind_run (sem_unlock w) _ _ tt s'); [done|].
  rewrite (sem_unlock_run w 0) //; [|by rewrite /= list_lookup_insert_eq]. do 2 f_equal. rewrite /with_sem /set_sems /=.
  rewrite list_insert_insert_eq list_insert_id // -(blind_host _ _ _ _ Hb Hm). by destruct s' as [??????????[]].
Qed.
End blind.
#[local] Hint Resolve blind_ret blind_ub blind_liftO blind_root blind_app_ld : blind.
#[local] Ltac blindly := repeat first [progress auto with blind | apply blind_bind; [|intros ?] | apply blind_gets; done | case_match].

(** ** Operations with semaphores and without

    From a state whose semaphores are free [m] does what [m'] does, and leaves them free. *)
Definition agrees {A} (m m' : M (tms pthost) A) : Prop := ∀ s, sems_free s → m s = m' s ∧ wlp m' (λ _ s', same_sems s s') s.

Section agrees.
Lemma agrees_refl {A} (m : M (tms pthost) A) : respects same_sems m → agrees m m.
Proof. intros Hm s _. split; [done|]. intros a s' Hr. by apply (Hm s a s'). Qed.
Lemma agrees_bind {A B} (m m' : M (tms pthost) A) (k k' : A → M (tms pthost) B) :
  agrees m m' → (∀ a, agrees (k a) (k' a)) → agrees (m ≫= k) (m' ≫= k').
Proof.
  intros Hm Hk s Hf. destruct (Hm s Hf) as [Hr Hs]. rewrite /mbind /M_bind /wlp Hr.
  destruct (m' s) as [[a s1]|] eqn:E; [|done]. specialize (Hs a s1 E).
  destruct (Hk a s1 (same_sems_free _ _ Hs Hf)) as [Hr' Hs']. split; [done|]. intros b s2 H2. etrans; [exact Hs|]. by apply (Hs' b).
Qed.
Lemma agrees_when b m m' : agrees m m' → agrees (when b m) (when b m').
Proof. destruct b; [done|]. intros _. apply agrees_refl. cbn. auto with respects. Qed.
(** The result carries over, and the semaphores are free again. *)
Lemma wp_agrees {A} (m m' : M (tms pthost) A) Φ s : agrees m m' → sems_free s → wp m' Φ s → wp m (λ a s', Φ a s' ∧ sems_free s') s.
Proof.
  intros Hm Hf. destruct (Hm s Hf) as [Hr Hs]. rewrite /wp Hr. destruct (m' s) as [[a s']|] eqn:E; [|done]. intros HΦ.
  split; [done|]. eapply same_sems_free; [by apply (Hs a)|done].
Qed.
Lemma bracket_agrees {A} w (m m1 m2 : M (tms pthost) A) :
  blind m → on_wheel w m → respects same_sems m → (∀ s, m1 s = (sem_lock w;; a ← m; sem_unlock w;; mret a) s) →
  (∀ s, m2 s = m s) → agrees m1 m2.
Proof.
  intros Hb Hw Hm H1 H2 s Hf. rewrite /wlp H1 H2 bracket_run //. split; [done|]. intros a s' Hr. by apply (Hm s a s').
Qed.
End agrees.
#[local] Ltac step_by_step :=
  intros ?; rewrite /mbind /M_bind /=; repeat (case_match; simplify_eq/=; try done); repeat match goal with u : unit |- _ => destruct u end; done.

(** *** The wheels *)
Section wheels.
Implicit Types (a w key : Z).
Definition add_body a w (p : app_timer) : M (tms pthost) unit :=
  sz ← gets (λ s, size (Timers.tnodes s));
  '(link, parent) ← add_descend sz w (rt p) L_root 0;
  on_root w (rb_link_node a parent link);;
  on_root w (rb_insert_color a).
Lemma agrees_timer_add a w : agrees (timer_add a w) (timer_add (WL := no_locks) a w).
Proof.
  apply agrees_bind; [apply agrees_refl; rewrite /app_ld; respect|]. intros p. apply (bracket_agrees w (add_body a w p)).
  - rewrite /add_body. apply blind_bind; [by apply blind_gets|]. intros sz. apply blind_bind; [|intros [link par]; blindly].
    generalize L_root 0. induction sz as [|sz IH]; intros l par; cbn [add_descend]; blindly; apply IH.
  - intros s Hs. rewrite /add_body (bind_run (gets _) _ s _ s eq_refl). rewrite /mbind /M_bind.
    destruct (size (Timers.tnodes s)); cbn [add_descend]; by rewrite (on_wheel_root w _ _ s Hs).
  - rewrite /add_body. respect. generalize L_root 0. rename select nat into sz.
    induction sz as [|sz IH]; intros l par; cbn [add_descend]; rewrite /app_ld; respect.
  - rewrite /add_body. step_by_step.
  - rewrite /add_body. step_by_step.
Qed.
Lemma agrees_timer_del a w : agrees (timer_del a w) (timer_del (WL := no_locks) a w).
Proof.
  apply (bracket_agrees w (on_root w (rb_erase a);; on_root w (RB_CLEAR_NODE a))).
  - blindly.
  - apply on_wheel_root.
  - respect.
  - rewrite /timer_del. step_by_step.
  - rewrite /timer_del. step_by_step.
Qed.
Lemma agrees_first w : agrees (wheel_first w) (wheel_first (WL := no_locks) w).
Proof.
  apply (bracket_agrees w (on_root w rb_first)).
  - blindly.
  - intros s Hs. pose proof (on_wheel_root w rb_first mret s Hs) as H. revert H. rewrite /mbind /M_bind. by destruct (on_root _ _ s) as [[]|].
  - respect.
  - done.
  - rewrite /wheel_first. step_by_step.
Qed.
(** Every exit of the loop gives the semaphore back. *)
Lemma walk_loop_unlocks fuel w key l s :
  walk_loop fuel w key l s = (a ← walk_loop (WL := no_locks) fuel w key l; sem_unlock w;; mret a) s.
Proof.
  revert l s. induction fuel as [|fuel IH]; intros l s; cbn [walk_loop]; rewrite /mbind /M_bind;
    destruct (on_root w (link_get l) s) as [[v s1]|]; try done; destruct (negb _); try done.
  destruct (app_ld v s1) as [[x s2]|]; [|done]. destruct (key <? rt x); [apply IH|]. by destruct (rt x <? key); [apply IH|].
Qed.
Lemma agrees_walk w key : agrees (timer_tree_walk w key) (timer_tree_walk (WL := no_locks) w key).
Proof.
  apply (bracket_agrees w (sz ← gets (λ s, size (Timers.tnodes s)); walk_loop (WL := no_locks) sz w key L_root)).
  - apply blind_bind; [by apply blind_gets|]. intros sz. generalize L_root.
    induction sz as [|sz IH]; intros l; cbn [walk_loop]; blindly; apply IH.
  - intros s Hs. rewrite (bind_run (gets _) _ s _ s eq_refl).
    destruct (size (Timers.tnodes s)); cbn [walk_loop]; by rewrite (on_wheel_root w _ _ s Hs).
  - respect. generalize L_root. rename select nat into sz.
    induction sz as [|sz IH]; intros l; cbn [walk_loop]; rewrite /app_ld; respect.
  - intros s. rewrite /timer_tree_walk. apply bind_ext; [done|]. intros [] s1.
    rewrite (bind_run (gets _) _ s1 _ s1 eq_refl). by rewrite walk_loop_unlocks.
  - done.
Qed.
End wheels.
#[local] Hint Resolve agrees_timer_add agrees_timer_del agrees_first agrees_walk : agrees.
#[local] Ltac keeps_sems :=
  cbv beta delta [app_ld timer_ld clk_ld update_wheel clear_wheel_timer calc_time INC_TIMER_COUNT DEC_TIMER_COUNT alloc_timer_id
    alloc_timer alloc_app tm_calloc_t free_timer free_app IS_NXT_SEC_HAPPEND IS_NXT_MIN_HAPPEND IS_NXT_HR_HAPPEND]; respect.
#[local] Ltac agree_step :=
  first [ solve [auto with agrees nocore]
        | lazymatch goal with
          | |- agrees ?m ?m => apply agrees_refl; solve [keeps_sems]
          | |- agrees (when _ _) (when _ _) => apply agrees_when
          | |- agrees (?m ≫= ?k) (?m' ≫= ?k') => refine (agrees_bind m m' k k' _ _); [|intros ?]
          end
        | progress case_match ].
#[local] Ltac agree := repeat agree_step.

(** *** The timers *)
Section timers.
Context `{PT : PtEnv}.
Implicit Types (a p w : Z).

Lemma agrees_place a : agrees (find_tmr_slot_and_place a) (find_tmr_slot_and_place (WL := no_locks) a).
Proof. rewrite /find_tmr_slot_and_place. agree. Qed.
#[local] Hint Resolve agrees_place : agrees.
Lemma agrees_start ticks dat hdl flgs : agrees (start_timer ticks dat hdl flgs) (start_timer (WL := no_locks) ticks dat hdl flgs).
Proof. rewrite /start_timer. agree. Qed.
Lemma agrees_mod p secs : agrees (mod_timer p secs) (mod_timer (WL := no_locks) p secs).
Proof. rewrite /mod_timer. agree. Qed.
Lemma agrees_restart p : agrees (timer_restart p) (timer_restart (WL := no_locks) p).
Proof. rewrite /timer_restart. agree. Qed.
Lemma agrees_stop p : agrees (stop_timer p) (stop_timer (WL := no_locks) p).
Proof. rewrite /stop_timer. agree. Qed.
#[local] Hint Resolve agrees_restart agrees_stop : agrees.
Lemma agrees_del p : agrees (del_timer p) (del_timer (WL := no_locks) p).
Proof. rewrite /del_timer. agree. Qed.
Lemma agrees_action a : agrees (timer_expiry_action a) (timer_expiry_action (WL := no_locks) a).
Proof. rewrite /timer_expiry_action. agree. Qed.
#[local] Hint Resolve agrees_action : agrees.
Lemma agrees_wheel w : agrees (process_wheel w) (process_wheel (WL := no_locks) w).
Proof.
  rewrite /process_wheel /process_timers. agree. rename select nat into sz. generalize 0.
  induction sz as [|sz IH]; intros n; cbn [process_loop]; agree.
Qed.
#[local] Hint Resolve agrees_wheel : agrees.
Lemma agrees_tick : agrees tm_process_tick_and_update_timers (tm_process_tick_and_update_timers (WL := no_locks)).
Proof. rewrite /tm_process_tick_and_update_timers. agree. Qed.
Lemma agrees_pending : agrees timers_pending_for_service (timers_pending_for_service (WL := no_locks)).
Proof. rewrite /timers_pending_for_service. agree. Qed.

(** The handlers, which may take semaphores, too, give them back. *)
Context (Hh : ∀ hdl d, respects same_sems (ptenv_handler hdl d)).
Lemma agrees_expire n : agrees (expire_one n) (expire_one (WL := no_locks) n).
Proof.
  assert (Hc : ∀ h d, respects same_sems (env_handler h d)).
  { intros h d. cbn [env_handler pthread_timers]. respects_seq; [|intros _; apply Hh]. by intros s x s' [= _ <-]. }
  rewrite /expire_one. agree.
Qed.
#[local] Hint Resolve agrees_expire : agrees.
Lemma agrees_expd : agrees process_expd_timers (process_expd_timers (WL := no_locks)).
Proof.
  rewrite /process_expd_timers. agree. rename select nat into sz. do 2 (rename select enode into n; revert n).
  induction sz as [|sz IH]; intros n m; cbn [expd_loop]; agree.
Qed.
End timers.

(** ** What the semaphores do to the operations *)

(** [m], which takes semaphores, does what [m'] does, and has given back what it took. *)
Definition given_back {A} (m m' : M (tms pthost) A) (s : tms pthost) : Prop :=
  m s = m' s ∧ wlp m (λ _ s', sems (host s') = sems (host s)) s.
Lemma agrees_given_back {A} (m m' : M (tms pthost) A) s : agrees m m' → sems_free s → given_back m m' s.
Proof. intros Hm Hf. destruct (Hm s Hf) as [Hr Hs]. split; [done|]. intros a s' Hrun. rewrite Hr in Hrun. by apply (Hs a s'). Qed.
Lemma sem_taken {A} w (k : unit → M (tms pthost) A) s :
  0 ≤ w → sems (host s) !! Z.to_nat w = Some 0 → (sem_lock w ≫= k) s = None.
Proof. intros Hw Hv. by rewrite /mbind /M_bind (sem_lock_run _ _ _ Hw Hv). Qed.

Section semaphores.
Context `{PT : PtEnv}.
(** C26: While the semaphores of the wheels are free, the operations that take one (timer_add, timer_del, timer_tree_walk and
    rb_first, and start_timer, mod_timer, stop_timer, the pass over the wheels and the test for due timers, which call them)
    give it back on every exit and do what they do without semaphores.  While the semaphore of a wheel is taken
    sync_lock makes the caller wait and changes nothing, and none of the four gets past it. *)
Theorem semaphores_given_back s a w key p secs ticks dat hdl flgs :
  (sems_free s →
     given_back (timer_add a w) (timer_add (WL := no_locks) a w) s ∧
     given_back (timer_del a w) (timer_del (WL := no_locks) a w) s ∧
     given_back (timer_tree_walk w key) (timer_tree_walk (WL := no_locks) w key) s ∧
     given_back (wheel_first w) (wheel_first (WL := no_locks) w) s ∧
     given_back (start_timer ticks dat hdl flgs) (start_timer (WL := no_locks) ticks dat hdl flgs) s ∧
     given_back (mod_timer p secs) (mod_timer (WL := no_locks) p secs) s ∧
     given_back (stop_timer p) (stop_timer (WL := no_locks) p) s ∧
     given_back tm_process_tick_and_update_timers (tm_process_tick_and_update_timers (WL := no_locks)) s ∧
     given_back timers_pending_for_service (timers_pending_for_service (WL := no_locks)) s) ∧
  (0 ≤ w → sems (host s) !! Z.to_nat w = Some 0 →
     sync_lock (Z.to_nat w) s = Some (None, s) ∧
     timer_add a w s = None ∧ timer_del a w s = None ∧ timer_tree_walk w key s = None ∧ wheel_first w s = None).
Proof.
  split.
  - intros Hf. split_and!; apply agrees_given_back; auto using agrees_timer_add, agrees_timer_del, agrees_walk, agrees_first,
      agrees_start, agrees_mod, agrees_stop, agrees_tick, agrees_pending.
  - intros Hw Hv. split_and!; try by apply sem_taken.
    + by rewrite /sync_lock (bind_run _ _ _ _ _ (sem_ld_run _ _ _ Hv)).
    + rewrite /timer_add {1}/mbind {1}/M_bind. destruct (app_ld a s) as [[x s1]|] eqn:Ha; [|done].
      apply sem_taken; [done|]. by rewrite (blind_host _ _ _ _ (blind_app_ld a) Ha).
Qed.
End semaphores.
