(* ===== verification/PthSpec.v ===== *)
(** * What the timers of the pthread build promise

    One turn of each thread and a new timer, with the semaphores taken and given back: the invariant [pt_machine] is kept,
    and no timer is missed, however late the service thread is. *)

From S2P Require Import Prelude ListHead RbTree RbRep Timers TimerFormat TimerTree TimerKeep TimerInv TimerPass TimerFire.
From S2P Require Import TimerSpec TimerLive TimerPending Task TaskLib TaskLibSpec PthTimers PthLocks.
#[local] Open Scope Z_scope.

#[local] Existing Instance pth_ticks.
#[local] Existing Instance sem_locks.
#[local] Instance pth_rate_ok : RateOk.
Proof. split; by vm_compute. Qed.

(** ** The event *)
Section event.
Context `{PE : PthEnv} `{TE : TlEnv}.
Implicit Types (L : tlib pth) (b : Z) (p : positive) (ps : list positive) (t : tmtask).

(** The task with the id [b] is in the list; [t] is its block. *)
Definition listens L b t : Prop :=
  ∃ ps p, registered L ps ∧ first_info L (has_id (ulong b)) ps = Some p ∧ infos L !! p = Some t.
Lemma listens_fun L b t t' : listens L b t → listens L b t' → t = t'.
Proof.
  intros (ps&p&Hr&Hf&Ht) (ps'&p'&Hr'&Hf'&Ht'). pose proof (get_tsk_info_frm_id_run L ps (ulong b) Hr) as G.
  rewrite (get_tsk_info_frm_id_run L ps' (ulong b) Hr') in G. rewrite /has_id in Hf Hf'. injection G as G.
  change (λ t, task_id t =? ulong b) with (has_id (ulong b)) in *. rewrite Hf Hf' in G. injection G as ->. congruence.
Qed.
(** The block changes, its id does not. *)
Lemma listens_set L b t ps p t' h :
  registered L ps → first_info L (has_id (ulong b)) ps = Some p → infos L !! p = Some t → task_id t' = task_id t →
  listens (set_infos (<[p := t']> (infos L)) (set_thost h L)) b t'.
Proof.
  intros Hr Hf Ht Hid. exists ps, p. split; [|split; [|by rewrite /= lookup_insert_eq]].
  - apply (registered_same L); [done|done|]. cbn. apply elem_of_dom_2 in Ht. rewrite dom_insert_L. set_solver.
  - rewrite (first_info_ext L) //. intros q _. rewrite /= lookup_insert. case_decide; [|done]. subst q. by rewrite Ht /= /has_id Hid.
Qed.
Lemma evt_snd_run L b t e :
  listens L b t → ∃ L' t', evt_snd (ulong b) e L = Some (tt, L') ∧ listens L' b t' ∧ curr_evt t' = Z.lor (curr_evt t) e.
Proof.
  intros (ps&p&Hr&Hf&Ht). rewrite /evt_snd (bind_run _ _ _ _ _ (get_tsk_info_frm_id_run L ps _ Hr)).
  change (λ t, task_id t =? ulong b) with (has_id (ulong b)). rewrite Hf (bind_run _ _ L p L eq_refl) (evt_body_run L p t e Ht).
  do 2 eexists. split; [done|]. split; [by eapply listens_set|done].
Qed.
Lemma evt_rx_run L b t mask :
  listens L b t →
  ∃ L' t', evt_rx (ulong b) mask L = Some (if truthy (Z.land (curr_evt t) mask) then Some (TSK_SUCCESS, Some (curr_evt t)) else None, L') ∧
    listens L' b t' ∧ curr_evt t' = if truthy (Z.land (curr_evt t) mask) then 0 else curr_evt t.
Proof.
  intros (ps&p&Hr&Hf&Ht). rewrite /evt_rx (bind_run _ _ _ _ _ (get_tsk_info_frm_id_run L ps _ Hr)).
  change (λ t, task_id t =? ulong b) with (has_id (ulong b)). rewrite Hf. pose proof (rx_pass_run L p t mask Ht) as Hx.
  rewrite bind_assoc2. destruct (truthy _).
  - rewrite (bind_run _ _ _ _ _ Hx). do 2 eexists. split; [done|]. split; [by eapply listens_set|done].
  - rewrite (bind_run _ _ _ _ _ Hx). do 2 eexists. split; [done|]. split; [|done]. exists ps, p.
    split; [by apply (registered_same L)|done].
Qed.
End event.

(** ** The state between turns *)
Section machine.
Context `{PE : PthEnv} `{TE : TlEnv} `{PT : PtEnv}.
Implicit Types (s : tms pthost) (tr : Z → tree) (xs : list Z) (a T : Z) (h : pthost) (L : tlib pth).

(** Every expired timer is announced to the service thread. *)
Definition announced h xs : Prop :=
  ∃ t, listens (plib h) (btmhlftask_id h) t ∧ (xs ≠ [] → truthy (Z.land (curr_evt t) TMR_SERVE_TIMERS) = true).
Record pt_machine T s tr xs : Prop := {
  pm_timers : tinv s tr xs;
  pm_count : counted s tr;
  pm_clock : clk s = clock_at T;
  pm_time : 0 ≤ T;
  pm_course : all_on_course T s tr xs;
  pm_once a : a ∈ running tr ++ xs → one_shot s a;
  pm_room : 4 * Z.of_nat (size (apps s)) < 2 ^ 31;
  pm_event : announced (host s) xs;
  pm_sems : sems_free s
}.

(** The two builds count the memory of the timers alike. *)
Lemma tm_malloc_same size s : tm_malloc size s = tm_calloc_t size s.
Proof. done. Qed.

(** The timers of the wheels and of the list have blocks. *)
Lemma live_apps s tr xs a : tinv s tr xs → a ∈ running tr ++ xs → is_Some (apps s !! a).
Proof.
  intros Hi Ha. apply (live_state _ _ _ _ Hi) in Ha as [[w r ct|] Hst].
  - destruct Hst as (_&_&p&Hp&_). by exists p.
  - destruct (ti_done _ _ _ Hi a Hst) as (p&tm&(Hp&_)&_). by exists p.
Qed.
Lemma live_size s tr xs : tinv s tr xs → (length (running tr ++ xs) ≤ size (apps s))%nat.
Proof.
  intros Hi. rewrite -size_dom -(size_list_to_set (running tr ++ xs) (C:=gset Z)); [|by eapply live_NoDup].
  apply subseteq_size. intros a Ha%elem_of_list_to_set. apply elem_of_dom. by eapply live_apps.
Qed.
Lemma config_size s s' : config s' = config s → size (apps s') = size (apps s).
Proof. rewrite /config. intros [= H _]. by rewrite -(map_size_fmap timer (apps s')) H map_size_fmap. Qed.
Lemma live_handler s tr xs a : tinv s tr xs → a ∈ running tr ++ xs → is_Some (handler_of s a).
Proof.
  intros Hi Ha. apply (live_state _ _ _ _ Hi) in Ha as [[w r ct|] Hst].
  - destruct Hst as (Hw&Ha&_). destruct (ti_run _ _ _ Hi w a Hw Ha) as (p&tm&(Hp&Ht&_)&_). rewrite /handler_of Hp /= Ht. by eexists.
  - destruct (ti_done _ _ _ Hi a Hst) as (p&tm&(Hp&Ht&_)&_). rewrite /handler_of Hp /= Ht. by eexists.
Qed.

Lemma on_plib_run {A} (m : M (tlib pth) A) s x L :
  m (plib (host s)) = Some (x, L) → on_plib m s = Some (x, set_host (set_plib L (host s)) s).
Proof. intros Hm. by rewrite /on_plib /on_pthost /zoom Hm. Qed.

(** A timer that fires at [F]: where it is after a step that ends at [T']. *)
Definition moves T s tr xs T' s' tr' xs' : Prop :=
  ∀ a F st, at_state s tr xs a st → state_by T F st →
    ∃ st', at_state s' tr' xs' a st' ∧ state_by T' F st'.

(** ** A tick *)
Lemma at_state_host s tr xs a st h : at_state (set_host h s) tr xs a st ↔ at_state s tr xs a st.
Proof. by destruct st. Qed.
Lemma ticked_machine T s tr xs s' tr' xs' h :
  pt_machine T s tr xs → T + 1 < 2 ^ 32 → tinv s' tr' xs' → counted s' tr' → clk s' = clock_at (T + 1) →
  (∀ a st, at_state s tr xs a st → at_state s' tr' xs' a (tick_pass (clock_at (T + 1)) st)) →
  (∀ a st', at_state s' tr' xs' a st' → ∃ st, at_state s tr xs a st) →
  config s' = config s → announced h xs' → sems_free (set_host h s') →
  pt_machine (T + 1) (set_host h s') tr' xs' ∧ moves T s tr xs (T + 1) (set_host h s') tr' xs'.
Proof.
  intros [Hi Hct Hck HT Hoc Hone Hroom _ _] HT1 Hi' Hct' Hck' Hstep Hback Hcf Hev Hsf.
  destruct (stepped_course s tr xs T s' tr' xs' Hi' HT HT1 Hoc Hstep Hback) as [Hoc' Hmv]. split.
  - split; [by apply tinv_host|exact Hct'|done|lia| | |by rewrite (config_size s (set_host h s') Hcf)|done|done].
    + intros a w r ct Hst. by apply (Hoc' a).
    + intros a Ha%(live_state _ _ _ _ Hi'). destruct Ha as [st' Hst]. apply Hback in Hst as Hst0.
      apply (one_shot_config s); [exact Hcf|]. apply Hone. by apply (live_state _ _ _ _ Hi).
  - intros a F st Hst HF. destruct (Hmv a F st Hst HF) as (st'&Hst'&HF'). exists st'. by rewrite at_state_host.
Qed.
Lemma set_host_id s : set_host (host s) s = s.
Proof. by destruct s. Qed.
(** Sending the event announces the timers. *)
Lemma announce_run h xs xs' :
  announced h xs → ∃ L, evt_snd (ulong (btmhlftask_id h)) TMR_SERVE_TIMERS (plib h) = Some (tt, L) ∧ announced (set_plib L h) xs'.
Proof.
  intros (t&Ht&_). destruct (evt_snd_run _ _ _ TMR_SERVE_TIMERS Ht) as (L&t'&Hr&Hl&Hc). exists L. split; [done|].
  exists t'. split; [done|]. intros _. rewrite Hc. apply truthy_true. rewrite Z.land_comm Z.land_lor_distr_r Z.land_diag.
  intros H%Z.lor_eq_0_iff. by destruct H.
Qed.

Lemma pth_tick_run T s tr xs :
  pt_machine T s tr xs → T + 1 < 2 ^ 32 →
  wp update_times (λ _ s', ∃ tr' xs', pt_machine (T + 1) s' tr' xs' ∧ moves T s tr xs (T + 1) s' tr' xs' ∧
    (∃ ys, xs' = xs ++ ys) ∧ config s' = config s ∧ pt_calls (host s') = pt_calls (host s)) s.
Proof.
  intros Hpm HT1. pose proof Hpm as [Hi Hct Hck HT _ _ Hroom Hev Hsf].
  rewrite /update_times /wp (bind_run _ _ _ _ _ (advance_clock_run _ _ Hck HT HT1)).
  set (s1 := set_clk (clock_at (T + 1)) s). assert (Hi1 : tinv s1 tr xs) by by apply tinv_clk.
  assert (Hct1 : counted s1 tr) by exact Hct.
  assert (Hs : ∀ a st, at_state s1 tr xs a st ↔ at_state s tr xs a st) by by intros a [].
  assert (Hb : 4 * Z.of_nat (length (running tr ++ xs)) < 2 ^ 31) by (pose proof (live_size _ _ _ Hi); lia).
  assert (Hsf1 : sems_free s1) by exact Hsf. pose proof (pending_run s1 tr xs Hi1) as Hp.
  pose proof Hp as Hps. rewrite -(proj1 (agrees_pending s1 Hsf1)) in Hps.
  destruct (truthy (count s1) && _); rewrite (bind_run _ _ _ _ _ Hps).
  - change (truthy (b2z true)) with true. cbn [when]. rewrite /service_timers. apply wp_bind.
    pose proof (respects_wp _ _ _ _ kept_tick (respects_wp _ _ _ _ count_tick (tick_expires s1 tr xs Hi1 Hb))) as Hw.
    eapply wp_mono; [exact (wp_agrees _ _ _ _ agrees_tick Hsf1 Hw)|]. clear Hw.
    intros m s2 [[[(tr2&xs2&P&Hm) Hcok] Hcf] Hsf2]. specialize (Hcok (proj1 Hct1)).
    pose proof (passed_counted _ _ _ _ _ _ _ Hi1 Hct1 Hcok P) as Hct2. destruct P as [Hi2 Hck2 Hh2 Hstep Hback (ys&Hys&_)].
    assert (Hgo : ∀ h, announced h xs2 → pt_calls h = pt_calls (host s) → sems h = sems (host s2) →
      ∃ tr' xs', pt_machine (T + 1) (set_host h s2) tr' xs' ∧ moves T s tr xs (T + 1) (set_host h s2) tr' xs' ∧
      (∃ ys, xs' = xs ++ ys) ∧ config (set_host h s2) = config s ∧ pt_calls (host (set_host h s2)) = pt_calls (host s)).
    { intros h Hh Hcl Hse. exists tr2, xs2. destruct (ticked_machine T s tr xs s2 tr2 xs2 h) as [H1 H2]; [done..|by rewrite /sems_free /= Hse|].
      split; [done|]. split; [done|]. split; [by exists ys|]. by split. }
    destruct (truthy m) eqn:Hmt; cbn [when].
    + apply wp_bind, wp_gets. destruct (announce_run (host s2) xs xs2) as (L&Hr&Hann); [by rewrite Hh2|].
      eapply wp_intro; [exact (on_plib_run _ _ _ _ Hr)|]. apply Hgo; [done| |done]. cbn. by rewrite Hh2.
    + apply truthy_false in Hmt. rewrite -(set_host_id s2). apply wp_ret. apply Hgo; rewrite Hh2 // (Hm Hmt). exact Hev.
  - change (truthy (b2z false)) with false. cbn [when]. rewrite -(set_host_id s1). apply wp_ret. exists tr, xs.
    destruct (ticked_machine T s tr xs s1 tr xs (host s1)) as [H1 H2]; try done.
    + intros a st Hst. apply Hs in Hst. pose proof (not_pending_pass s1 tr xs a st Hi1 Hct1 Hp Hst) as Hx.
      change (clk s1) with (clock_at (T + 1)) in Hx. by rewrite Hx.
    + intros a st' Hst. exists st'. by apply Hs.
    + split; [done|]. split; [done|]. split; [exists []; by rewrite app_nil_r|]. done.
Qed.

(** ** A turn of the service thread *)

(** The handlers complete, leave the timers and the list of tasks alone, and give back a semaphore that they take.  They
    may send events, create threads and the like. *)
Definition handlers_ok : Prop :=
  (∀ hdl d, respects same_sems (ptenv_handler hdl d)) ∧
  ∀ hdl d s b t, listens (plib (host s)) b t →
    wp (ptenv_handler hdl d) (λ _ s', ∃ L t', s' = set_host (set_plib L (host s)) s ∧ listens L b t') s.
(** The calls for the expired timers [xs]. *)
Definition calls_of s xs : list (Z * Z) := filter (λ c, truthy c.1 = true) (omap (handler_of s) xs).
Lemma calls_of_app s xs ys : calls_of s (xs ++ ys) = calls_of s xs ++ calls_of s ys.
Proof. by rewrite /calls_of omap_app filter_app. Qed.

(** While the timers [rest] of [xs] are still to be handled. *)
Definition serving s h0 xs (rest : list Z) h : Prop :=
  btmhlftask_id h = btmhlftask_id h0 ∧ (∃ t, listens (plib h) (btmhlftask_id h) t) ∧
  ∃ done, xs = done ++ rest ∧ pt_calls h = pt_calls h0 ++ calls_of s done.
Lemma serving_call s h0 xs : handlers_ok → all_call (serving s h0 xs) s xs.
Proof.
  intros Hok pre a rest [f d] s1 Hxs Hc (Hb&(t&Ht)&dn&Hdn&Hcl). rewrite Hxs in Hdn. apply app_inv_tail in Hdn as <-.
  rewrite /calls_to /call. cbn [fst snd].
  assert (Hca : calls_of s [a] = if truthy f then [(f, d)] else []).
  { rewrite /calls_of /= Hc /= filter_cons /=. by destruct (truthy f). }
  assert (Hsplit : xs = (pre ++ [a]) ++ rest) by by rewrite -app_assoc.
  apply wp_when=> Hf; rewrite Hf in Hca.
  - set (h1 := set_pt_calls (pt_calls (host s1) ++ [(f, d)]) (host s1)).
    apply wp_bind. apply (wp_intro _ _ _ tt (set_host h1 s1)); [done|].
    destruct (wp_inv _ _ _ (proj2 Hok f d (set_host h1 s1) _ _ Ht)) as ([]&s2&Hr&L'&t'&->&Ht').
    eapply wp_intro; [exact Hr|]. exists (set_plib L' h1). split; [done|]. split; [done|]. split; [by exists t'|]. exists (pre ++ [a]). split; [done|].
    by rewrite /= Hcl calls_of_app Hca app_assoc.
  - exists (host s1). rewrite set_host_id. split; [done|]. split; [done|]. split; [by exists t|]. exists (pre ++ [a]). split; [done|].
    by rewrite Hcl calls_of_app Hca app_nil_r.
Qed.

(** What a turn of the service thread leaves. *)
Record served s tr xs s' : Prop := {
  sd_calls : pt_calls (host s') = pt_calls (host s) ++ calls_of s xs;
  sd_freed a : a ∈ xs → apps s' !! a = None;
  sd_running a st : at_state s tr xs a st → a ∉ xs → at_state s' tr [] a st;
  sd_handler a : a ∈ running tr → handler_of s' a = handler_of s a
}.
Lemma served_machine T s tr xs s1 s' :
  pt_machine T s tr xs → s1 = set_host (host s1) s → pt_calls (host s1) = pt_calls (host s) →
  all_handled (serving s1 (host s1) xs) s1 tr xs s' → sems_free s' → pt_machine T s' tr [] ∧ served s tr xs s'.
Proof.
  intros [Hi Hct Hck HT Hoc Hone Hroom _ _] Hs1 Hcl (Hi'&(Hb&(t&Ht)&dn&Hdn&Hcl')&Happ&Hck'&Hco&Hbl&Hst) Hsf.
  rewrite app_nil_r in Hdn. subst dn.
  assert (Hca : calls_of s1 xs = calls_of s xs) by by rewrite Hs1.
  rewrite Hs1 in Happ Hck' Hco Hbl Hst. cbn [apps clk count set_host] in Happ, Hck', Hco.
  assert (Hkeep : ∀ a, a ∈ running tr → handler_of s' a = handler_of s a ∧ one_shot s' a).
  { intros a Ha. pose proof Ha as (w&Hw&Haw)%elem_of_running.
    destruct (live_handler s tr xs a Hi) as [c Hc]; [apply elem_of_app; by left|].
    destruct (same_blocks s s' a c) as [H1 H2]; [| |done|].
    - rewrite Happ decide_False //. by apply (tinv_exp_wheel _ _ _ _ _ Hi Hw Haw).
    - intros q Hq. destruct (ti_run _ _ _ Hi w a Hw Haw) as (q'&tq&Hbq&_). pose proof Hbq as (Hq'&Htq&_).
      rewrite Hq in Hq'. injection Hq' as <-. by rewrite Htq (Hbl w a q tq Hw Haw Hbq).
    - rewrite H1 Hc. split; [done|]. apply H2, Hone, elem_of_app. by left. }
  split.
  - split; [done| |congruence|done| | | |by exists t|done].
    + destruct Hct as [H1 H2]. split; by rewrite /count_ok Hco.
    + intros a w r ct Ha. apply (Hoc a). by apply Hst.
    + intros a. rewrite app_nil_r. intros Ha. by apply Hkeep.
    + assert (size (apps s') ≤ size (apps s))%nat; [|lia]. rewrite -!size_dom.
      apply subseteq_size. intros a. rewrite !elem_of_dom Happ. case_decide; [by intros []|done].
  - split.
    + by rewrite Hcl' Hcl Hca.
    + intros a Ha. by rewrite Happ decide_True.
    + intros a [w r ct|] Ha Hx; [by apply Hst|done].
    + intros a Ha. by apply Hkeep.
Qed.
Lemma served_nothing T s tr h :
  pt_machine T s tr [] → announced h [] → pt_calls h = pt_calls (host s) → sems h = sems (host s) →
  pt_machine T (set_host h s) tr [] ∧ served s tr [] (set_host h s).
Proof.
  intros [Hi Hct Hck HT Hoc Hone Hroom _ Hsf] Hev Hcl Hse. split.
  - split; [by apply tinv_host|done..|exact Hev|]. by rewrite /sems_free /= Hse.
  - split; [by rewrite Hcl app_nil_r|by intros a Ha%elem_of_nil|by intros a [] Hst _|done].
Qed.
(** The thread handles every expired timer, unless it finds no event; then none has expired. *)
Lemma tick_service_run T s tr xs evt :
  handlers_ok → pt_machine T s tr xs →
  wp (tick_service evt) (λ r s', pt_machine T s' tr [] ∧ served s tr xs s' ∧ (r = None → xs = [])) s.
Proof.
  intros Hok Hpm. destruct (pm_event _ _ _ _ Hpm) as (t&Ht&Hpe). rewrite /tick_service. apply wp_bind, wp_gets, wp_bind.
  destruct (evt_rx_run _ _ _ TMR_SERVE_TIMERS Ht) as (L&t'&Hr&Hl&_). eapply wp_intro; [exact (on_plib_run _ _ _ _ Hr)|].
  set (h1 := set_plib L (host s)). assert (Ha1 : announced h1 []) by by exists t'.
  destruct (truthy (Z.land (curr_evt t) TMR_SERVE_TIMERS)) eqn:Hp; cbn [serve default]; last first.
  { assert (Hx : xs = []) by (destruct (decide (xs = [])) as [|Hne%Hpe]; congruence). subst xs. apply wp_ret.
    destruct (served_nothing T s tr h1 Hpm Ha1 eq_refl eq_refl) as [H1 H2]. by split_and!. }
  rewrite Hp. cbn [when]. set (s1 := set_host h1 s). apply wp_bind. rewrite /btm_hlf.
  pose proof (ti_list _ _ _ (pm_timers _ _ _ _ Hpm)) as Hd.
  assert (He : on_elst (list_empty E_hd) s1 = Some (bool_decide (xs = []), s1)).
  { rewrite /on_elst /zoom (list_empty_spec _ _ _ (Hd : dll (elst s1) _ _)). by destruct xs, s. }
  rewrite /wp (bind_run _ _ _ _ _ He). case_bool_decide as Hx; cbn [negb when].
  { subst xs. destruct (served_nothing T s tr h1 Hpm Ha1 eq_refl eq_refl) as [H1 H2]. apply wp_ret, wp_ret. by split_and!. }
  assert (Hsf1 : sems_free s1) by exact (pm_sems _ _ _ _ Hpm).
  eapply (wp_mono _ _ _ s1); [eapply (wp_agrees _ _ _ _ (agrees_expd (proj1 Hok)) Hsf1), (process_expd_run (serving s1 h1 xs) s1 tr xs)|].
  - by apply tinv_host, Hpm.
  - intros a Ha. destruct (pm_once _ _ _ _ Hpm a) as (p&tm&Hone); [apply elem_of_app; by right|]. by exists p, tm.
  - by apply serving_call.
  - split; [done|]. split; [by exists t'|]. exists []. by rewrite app_nil_r.
  - intros [] s' [Hh Hsf']. destruct (served_machine T s tr xs s1 s' Hpm) as [H1 H2]; [by destruct s|done|exact Hh|done|].
    apply wp_ret. by split_and!.
Qed.

(** ** A new timer *)
Lemma handler_started s s' a new hdl dat : started s s' a new hdl dat 0 → handler_of s' a = Some (hdl, dat) ∧ one_shot s' a.
Proof.
  rewrite /started. intros Hc. destruct (config_back s' a new (hdl, dat, TIMER_ONCE)) as (p&t&Ha&Ht&_&[= -> -> E]).
  - by rewrite Hc lookup_insert_eq.
  - by rewrite Hc /= lookup_insert_eq.
  - split; [by rewrite /handler_of Ha /= Ht|]. exists p, t. split; [done|]. split; [done|]. left. by rewrite -E.
Qed.
Lemma pth_start_run T s tr xs n dat hdl :
  pt_machine T s tr xs → 0 < n < max_ticks → T + n < 2 ^ 32 → timer_memory s → 4 * (Z.of_nat (size (apps s)) + 1) < 2 ^ 31 →
  wp (start_timer n dat hdl 0) (λ _ s', ∃ tr', pt_machine T s' tr' xs ∧ moves T s tr xs T s' tr' xs ∧
    pt_calls (host s') = pt_calls (host s) ∧ (∀ a, a ∈ running tr ++ xs → handler_of s' a = handler_of s a) ∧
    (start_fails s ∨ ∃ a w r, at_state s' tr' xs a (Running w r (encode_time 0 n)) ∧ handler_of s' a = Some (hdl, dat) ∧
       fire_time w r (encode_time 0 n) = T - T `mod` unit_of (slot (encode_time 0 n)).1 + n ∧ T < fire_time w r (encode_time 0 n))) s.
Proof.
  intros Hpm Hn HTn Hmem Hsz. pose proof Hpm as [Hi Hct Hck HT Hoc Hone Hroom Hev Hsf].
  eapply wp_mono; [eapply (wp_agrees _ _ _ _ (agrees_start n dat hdl 0) Hsf); by apply (start_timer_any s tr xs)|].
  intros res s' [[[Hf Hsw]|(a&new&tr'&Hnew&Hna&Hi'&Hct'&Hst&Hso&Hck'&Hho&Hsd)] Hsf'].
  - exists tr. pose proof (config_same _ _ Hsw) as Hcf. split.
    + split; [by eapply tinv_same| |by rewrite (sw_clk _ _ Hsw)|done| | |by rewrite (sw_apps _ _ Hsw)|by rewrite (sw_host _ _ Hsw)|done].
      * destruct Hct. split; by rewrite /count_ok ?(sw_count _ _ Hsw).
      * intros a w r ct Ha. apply (Hoc a). rewrite (same_wheels_eq _ _ Hsw) in Ha. exact Ha.
      * intros a Ha. apply (one_shot_config s); [done|]. by apply Hone.
    + split; [|split; [by rewrite (sw_host _ _ Hsw)|split; [|by left]]].
      * intros a F st Ha HF. exists st. split; [|done]. by eapply at_state_same.
      * intros a Ha. destruct (live_handler _ _ _ _ Hi Ha) as [c Hc]. by rewrite Hc (handler_of_config _ _ _ _ Hcf Hc).
  - exists tr'. destruct (handler_started _ _ _ _ _ _ Hsd) as [Hha Hona].
    pose proof (encode_ticks n (conj (Z.lt_le_incl _ _ (proj1 Hn)) (proj2 Hn))) as Htk.
    assert (H0 : encode_time 0 n ≠ 0) by (intros Hz; rewrite Hz ticks_zero in Htk; lia).
    assert (Hk : packed (encode_time 0 n)).
    { rewrite (encode_pk n); [|lia]. do 4 eexists. exact (conj (encode_ok n ltac:(lia)) eq_refl). }
    destruct (placed_at T (encode_time 0 n) HT Hk H0) as (Hpl&Hoca&Hft); [lia|]. rewrite Htk in Hft. rewrite Hck Hpl in Hst.
    assert (Hlive : ∀ b st, at_state s tr xs b st → b ≠ a).
    { intros b st Hb ->. apply Hna. apply (live_state _ _ _ _ Hi). by eexists. }
    assert (Hkeep : ∀ b, b ∈ running tr ++ xs → handler_of s' b = handler_of s b ∧ one_shot s' b).
    { intros b Hb. assert (Hne : b ≠ a) by by intros ->. destruct (Hone b Hb) as (q&t&Hq&Ht&Ho).
      destruct (started_other _ _ _ _ _ _ _ _ _ Hsd Hnew Hne Hq Ht) as (q'&t'&Hq'&Ht'&[= E1 E2 E3]).
      rewrite /handler_of Hq /= Ht Hq' /= Ht' /= E1 E2. split; [done|]. exists q', t'. by rewrite E3. }
    split; [|split; [|split; [by rewrite Hho|split; [intros b Hb; by apply Hkeep|right]]]].
    + split; [done|done|by rewrite Hck'|done| | | |by rewrite Hho|done].
      * intros b w r ct Hb. destruct (decide (b = a)) as [->|Hne].
        -- change (match Running w r ct with Running w r ct => on_course T w r ct | Expired => True end).
           rewrite (at_state_inj _ _ _ _ _ _ Hi' Hb Hst). exact Hoca.
        -- apply (Hoc b). by apply (Hso b).
      * intros b Hb. destruct (decide (b = a)) as [->|Hne]; [done|]. apply Hkeep. apply (live_state _ _ _ _ Hi') in Hb as [st Hb].
        apply (live_state _ _ _ _ Hi). exists st. by apply (Hso b).
      * assert (size (apps s') ≤ S (size (apps s)))%nat; [|lia].
        rewrite -(map_size_fmap timer (apps s')) -(map_size_fmap timer (apps s)). change (timer <$> apps s') with (config s').1.
        rewrite Hsd. cbn [fst]. rewrite map_size_insert. change (config s).1 with (timer <$> apps s). case_match; unfold id; lia.
    + intros b F st Hb HF. exists st. split; [|done]. apply (Hso b); [by eapply Hlive|done].
    + do 3 eexists. split; [exact Hst|]. split; [done|]. split; [exact Hft|].
      destruct (tick_on_course T _ _ _ HT (ltac:(lia) : T + 1 < 2 ^ 32) Hoca) as [[Hx _]|[Hx _]]; lia.
Qed.
End machine.
