(* ===== verification/PthRuns.v ===== *)
(** * Runs of the timers of the pthread build

    Ticks, turns of the service thread and new timers in any order ([pruns]); the start of the two threads. *)

From S2P Require Import Prelude ListHead RbTree RbRep Timers TimerFormat TimerTree TimerKeep TimerInv TimerPass TimerFire.
From S2P Require Import TimerSpec TimerLive TimerPending Task TaskLib TaskLibSpec PthTimers PthLocks PthSpec.
#[local] Open Scope Z_scope.
#[local] Existing Instance pth_ticks.
#[local] Existing Instance sem_locks.
#[local] Existing Instance pth_rate_ok.

Inductive pt_op :=
  | P_tick
  | P_serve
  | P_start (n dat hdl : Z).
Fixpoint pt_ticks (os : list pt_op) : Z :=
  match os with [] => 0 | P_tick :: os => 1 + pt_ticks os | _ :: os => pt_ticks os end.
Lemma pt_ticks_app os os' : pt_ticks (os ++ os') = pt_ticks os + pt_ticks os'.
Proof. induction os as [|[] os IH]; cbn; lia. Qed.

Section runs.
Context `{PE : PthEnv} `{TE : TlEnv} `{PT : PtEnv}.
Implicit Types (s : tms pthost) (tr : Z → tree) (xs : list Z) (a T : Z) (o : pt_op) (os : list pt_op) (c : Z * Z).

Definition run_pt o : M (tms pthost) unit :=
  match o with
  | P_tick => update_times
  | P_serve => tick_service 0;; mret tt
  | P_start n dat hdl => start_timer n dat hdl 0;; mret tt
  end.
(** The counter of the ticks does not overflow, a new timer fits into the time format, and the memory that
    is handed out is not in use. *)
Definition pt_allowed o s : Prop :=
  match o with
  | P_tick => clock (clk s) TICK + 1 < 2 ^ 32
  | P_serve => True
  | P_start n _ _ => 0 < n < max_ticks ∧ clock (clk s) TICK + n < 2 ^ 32 ∧ timer_memory s ∧ 4 * (Z.of_nat (size (apps s)) + 1) < 2 ^ 31
  end.
Inductive pruns : tms pthost → list pt_op → tms pthost → Prop :=
  | pruns_nil s : pruns s [] s
  | pruns_snoc s os o s2 s3 : pruns s os s2 → pt_allowed o s2 → run_pt o s2 = Some (tt, s3) → pruns s (os ++ [o]) s3.

(** The timer [a] calls [c] at the tick [F]. *)
Definition tracked T F a c s tr xs : Prop := ∃ st, at_state s tr xs a st ∧ state_by T F st ∧ handler_of s a = Some c.

Lemma run_pt_machine T s tr xs o :
  handlers_ok → pt_machine T s tr xs → pt_allowed o s →
  wp (run_pt o) (λ _ s', ∃ tr' xs', pt_machine (T + pt_ticks [o]) s' tr' xs' ∧
    ∀ F a c, tracked T F a c s tr xs → o ≠ P_serve ∨ T < F → tracked (T + pt_ticks [o]) F a c s' tr' xs') s.
Proof.
  intros Hok Hpm Ha. pose proof (pm_timers _ _ _ _ Hpm) as Hi.
  assert (Hclk : clock (clk s) TICK = T) by by rewrite (pm_clock _ _ _ _ Hpm).
  destruct o as [| |n dat hdl]; cbn [run_pt pt_ticks pt_allowed] in *; rewrite ?Hclk in Ha.
  - eapply wp_mono; [by apply pth_tick_run|]. intros [] s' (tr'&xs'&Hpm'&Hmv&_&Hcf&_). rewrite Z.add_0_r. exists tr', xs'. split; [done|].
    intros F a c (st&Hst&HF&Hc) _. destruct (Hmv a F st Hst HF) as (st'&Hst'&HF'). exists st'. split; [done|]. split; [done|].
    by apply (handler_of_config s).
  - apply wp_bind. eapply wp_mono; [by apply tick_service_run|]. intros r s' (Hpm'&[Hcl Hfr Hrn Hhd]&_). apply wp_ret.
    rewrite Z.add_0_r. exists tr, []. split; [done|]. intros F a c (st&Hst&HF&Hc) [Hno|Hlt]; [done|].
    destruct st as [w r' ct|]; [|cbn in HF; lia]. exists (Running w r' ct).
    split; [|split; [done|rewrite Hhd //; by eapply state_running]].
    apply Hrn; [done|]. destruct Hst as (Hw&Haw&_). by eapply tinv_exp_wheel.
  - destruct Ha as (Hn&HTn&Hmem&Hsz). apply wp_bind. eapply wp_mono; [by apply pth_start_run|].
    intros res s' (tr'&Hpm'&Hmv&_&Hhd&_). apply wp_ret. rewrite Z.add_0_r. exists tr', xs. split; [done|].
    intros F a c (st&Hst&HF&Hc) _. destruct (Hmv a F st Hst HF) as (st'&Hst'&HF'). exists st'. split; [done|]. split; [done|].
    rewrite Hhd //. apply (live_state _ _ _ _ Hi). by eexists.
Qed.
Lemma pruns_machine T s tr xs os s' :
  handlers_ok → pt_machine T s tr xs → pruns s os s' → ∃ tr' xs', pt_machine (T + pt_ticks os) s' tr' xs'.
Proof.
  intros Hok Hpm. induction 1 as [|s os o s2 s3 _ IH Ho Hr]; [exists tr, xs; by rewrite Z.add_0_r|].
  destruct (IH Hpm) as (tr2&xs2&Hpm2). pose proof (run_pt_machine _ _ _ _ _ Hok Hpm2 Ho) as Hw. rewrite /wp Hr in Hw.
  destruct Hw as (tr3&xs3&Hpm3&_). exists tr3, xs3. by rewrite pt_ticks_app Z.add_assoc.
Qed.

Lemma pruns_app s os s1 os' s2 : pruns s os s1 → pruns s1 os' s2 → pruns s (os ++ os') s2.
Proof.
  intros H1 H2. revert H1. induction H2 as [|s1 os' o s2 s3 _ IH Ho Hr]; intros H1; [by rewrite app_nil_r|].
  rewrite app_assoc. eapply pruns_snoc; [by apply IH|done|done].
Qed.
(** C8: However many ticks, turns of the service thread and new timers there were, in whatever order, the next step runs to
    completion; the wheels stay sorted red-black trees, every timer is on course, and every expired timer is
    announced to the service thread. *)
Theorem pth_timers_never_crash T s tr xs os s2 o :
  handlers_ok → pt_machine T s tr xs → pruns s os s2 → pt_allowed o s2 →
  ∃ s3 tr3 xs3, run_pt o s2 = Some (tt, s3) ∧ pt_machine (T + pt_ticks (os ++ [o])) s3 tr3 xs3.
Proof.
  intros Hok Hpm Hrs Ho. destruct (pruns_machine _ _ _ _ _ _ Hok Hpm Hrs) as (tr2&xs2&Hpm2).
  destruct (wp_inv _ _ _ (run_pt_machine _ _ _ _ _ Hok Hpm2 Ho)) as ([]&s3&Hr&tr3&xs3&Hpm3&_).
  exists s3, tr3, xs3. split; [done|]. by rewrite pt_ticks_app Z.add_assoc.
Qed.

(** No turn of the service thread since the tick [D]. *)
Definition unserved_since (D : Z) os : Prop := ∀ os1 os2, os = os1 ++ P_serve :: os2 → pt_ticks os1 < D.
Lemma pruns_tracked T s tr xs os s' F a c :
  handlers_ok → pt_machine T s tr xs → tracked T F a c s tr xs → pruns s os s' → unserved_since (F - T) os →
  ∃ tr' xs', pt_machine (T + pt_ticks os) s' tr' xs' ∧ tracked (T + pt_ticks os) F a c s' tr' xs'.
Proof.
  intros Hok Hpm Htk. induction 1 as [|s os o s2 s3 _ IH Ho Hr]; intros Hun; [exists tr, xs; by rewrite Z.add_0_r|].
  destruct (IH Hpm Htk) as (tr2&xs2&Hpm2&Htk2).
  { intros os1 os2 ->. apply (Hun os1 (os2 ++ [o])). by rewrite -app_assoc. }
  pose proof (run_pt_machine _ _ _ _ _ Hok Hpm2 Ho) as Hw. rewrite /wp Hr in Hw. destruct Hw as (tr3&xs3&Hpm3&Hstep).
  exists tr3, xs3. rewrite pt_ticks_app Z.add_assoc. split; [done|]. apply Hstep; [done|].
  destruct o; [by left| |by left]. right. pose proof (Hun os [] eq_refl). lia.
Qed.

(** C4: A timer of [n] ticks that is started at the tick [T0] is in a wheel until the tick [T0 + n - T0 mod U], [U] being the
    ticks of the largest unit that fits into [n], whatever happens in between: the trees [tr2] are those of the wheels then.
    From that tick on the next turn of the service thread, however late, calls its handler: in this build no timer is
    missed. *)
Theorem pth_timer_fires T0 s tr xs n dat hdl s1 os s2 :
  let D := n - T0 `mod` unit_of (slot (encode_time 0 n)).1 in
  handlers_ok → pt_machine T0 s tr xs → pt_allowed (P_start n dat hdl) s → ¬ start_fails s → truthy hdl = true →
  run_pt (P_start n dat hdl) s = Some (tt, s1) → pruns s1 os s2 → unserved_since D os →
  if decide (pt_ticks os < D)
  then ∃ a tr2 xs2 w r ct, pt_machine (T0 + pt_ticks os) s2 tr2 xs2 ∧
    at_state s2 tr2 xs2 a (Running w r ct) ∧ handler_of s2 a = Some (hdl, dat) ∧ fire_time w r ct = T0 + D
  else ∃ s3 cs, run_pt P_serve s2 = Some (tt, s3) ∧ pt_calls (host s3) = pt_calls (host s2) ++ cs ∧ (hdl, dat) ∈ cs.
Proof.
  cbn zeta. set (D := n - _). intros Hok Hpm (Hn&HTn&Hmem&Hsz) Hnf Hh Hr Hrs Hun.
  assert (Hclk : clock (clk s) TICK = T0) by by rewrite (pm_clock _ _ _ _ Hpm). rewrite Hclk in HTn.
  pose proof (pth_start_run T0 s tr xs n dat hdl Hpm Hn HTn Hmem Hsz) as Hw.
  destruct (wp_inv _ _ _ Hw) as (res&s1'&Hr'&tr1&Hpm1&_&_&_&Hst). cbn [run_pt] in Hr. rewrite (bind_run _ _ _ _ _ Hr') in Hr.
  injection Hr as <-. destruct Hst as [Hf|(a&w&r&Hst&Hha&Hft&Hlt)]; [done|].
  assert (HF : fire_time w r (encode_time 0 n) = T0 + D) by (rewrite Hft /D; lia).
  destruct (pruns_tracked T0 s1' tr1 xs os s2 (T0 + D) a (hdl, dat) Hok Hpm1) as (tr2&xs2&Hpm2&st&Hst2&Hby&Hha2); [|done| |].
  { eexists. split; [exact Hst|]. split; [|done]. split; [rewrite -HF|]; done. }
  { replace (T0 + D - T0) with D by lia. done. }
  case_decide as Hd.
  - destruct st as [w2 r2 ct2|]; [|cbn in Hby; lia]. exists a, tr2, xs2, w2, r2, ct2. destruct Hby. by split_and!.
  - destruct st as [w2 r2 ct2|]; [destruct Hby; lia|]. cbn in Hst2.
    destruct (wp_inv _ _ _ (tick_service_run _ _ _ _ 0 Hok Hpm2)) as (r2&s3&Hs3&_&Hsd&_).
    exists s3, (calls_of s2 xs2). split; [by cbn [run_pt]; rewrite (bind_run _ _ _ _ _ Hs3)|].
    split; [apply Hsd|]. apply list_elem_of_filter. split; [done|]. apply list_elem_of_omap. by exists a.
Qed.

(** ** The tick thread *)
Lemma tick_loop_run k T s tr xs :
  pt_machine T s tr xs → T + Z.of_nat k < 2 ^ 32 →
  wp (tick_loop k) (λ _ s', pruns s (replicate k P_tick) s' ∧ ∃ tr' xs', pt_machine (T + Z.of_nat k) s' tr' xs') s.
Proof.
  intros Hpm Hk. assert (Hgo : ∀ s0 os, pruns s0 os s →
    wp (tick_loop k) (λ _ s', pruns s0 (os ++ replicate k P_tick) s' ∧ ∃ tr' xs', pt_machine (T + Z.of_nat k) s' tr' xs') s).
  2: { exact (Hgo s [] (pruns_nil s)). }
  revert T s tr xs Hpm Hk. induction k as [|k IH]; intros T s tr xs Hpm Hk s0 os Hrs; cbn [tick_loop].
  { apply wp_ret. rewrite app_nil_r. split; [done|]. exists tr, xs. by rewrite Z.add_0_r. }
  apply wp_bind. destruct (wp_inv _ _ _ (pth_tick_run T s tr xs Hpm (ltac:(lia) : T + 1 < 2 ^ 32))) as ([]&s1&Hr&tr1&xs1&Hpm1&_).
  eapply wp_intro; [exact Hr|]. replace (os ++ replicate (S k) P_tick) with ((os ++ [P_tick]) ++ replicate k P_tick) by by rewrite -app_assoc.
  replace (T + Z.of_nat (S k)) with (T + 1 + Z.of_nat k) by lia. apply (IH (T + 1) s1 tr1 xs1); [done|lia|].
  eapply pruns_snoc; [exact Hrs| |exact Hr]. rewrite /pt_allowed (pm_clock _ _ _ _ Hpm). change (clock (clock_at T) TICK) with T. lia.
Qed.
(** The clock of the host as the thread reads it, before and after it sleeps. *)
Definition host_times s (k : nat) : Z := penv_times (n_ptimes (thost (plib (host s))) + k)%nat.
Definition read_clock s : tms pthost :=
  let L := plib (host s) in let h := thost L in
  set_host (set_plib (set_thost (MkPth (pth_id h) (n_pcreate h) (S (S (n_ptimes h))) (pth_trace h ++ [Pth_nanosleep 0 10000000])) L) (host s)) s.
(** One turn of the tick thread counts as many ticks as the clock of the host went on while it slept, and at least one:
    it runs to completion and is that many ticks in a row, so that a thread that slept too long makes up for it. *)
Theorem tick_thread_counts T s tr xs :
  let k := Z.to_nat (Z.max 1 (s32 (host_times s 1 - host_times s 0))) in
  pt_machine T s tr xs → T + Z.of_nat k < 2 ^ 32 →
  ∃ s' tr' xs', tick_clock s = Some (tt, s') ∧ pruns (read_clock s) (replicate k P_tick) s' ∧ pt_machine (T + Z.of_nat k) s' tr' xs'.
Proof.
  cbn zeta. set (k := Z.to_nat _). intros Hpm HT.
  assert (Hrc : pt_machine T (read_clock s) tr xs).
  { destruct Hpm as [H1 H2 H3 H4 H5 H6 H7 (t&(ps&p&Hr&Hf&Ht)&He) H9]. split; [by apply tinv_host|done..| |done].
    exists t. split; [|done]. exists ps, p. split; [by apply (registered_same (plib (host s)))|done]. }
  destruct (wp_inv _ _ _ (tick_loop_run k T (read_clock s) tr xs Hrc HT)) as ([]&s'&Hr&Hrs&tr'&xs'&Hpm').
  exists s', tr', xs'. split; [|done].
  assert (Hk : tick_clock s = tick_loop (Z.to_nat (if s32 (host_times s 1 - host_times s 0) <=? 0 then 1 else s32 (host_times s 1 - host_times s 0))) (read_clock s)).
  { rewrite /host_times Nat.add_0_r Nat.add_1_r. done. }
  rewrite Hk -Hr /k. do 2 f_equal. destruct (Z.leb_spec (s32 (host_times s 1 - host_times s 0)) 0); lia.
Qed.
End runs.

(** ** The start of the threads *)
Section init.
Context `{PE : PthEnv} `{TE : TlEnv} `{PT : PtEnv}.
Implicit Types (L : tlib pth) (ps : list positive) (p : positive).

(** The variables of the timers before the start. *)
Definition pt_zero L : tms pthost :=
  MkTms _ ∅ ∅ ∅ [0; 0; 0; 0] ∅ [0; 0; 0; 0] 0 0 0 0 (MkPthost L 0 0 [0; 0; 0; 0] []).
Definition thread_ids (id1 id2 : Z) L : pthost := MkPthost L (s32 id1) (s32 id2) [1; 1; 1; 1] [].
Lemma ulong_s32 i : 0 ≤ i < 2 ^ 32 → ulong (s32 i) = i.
Proof.
  intros Hi. rewrite /ulong /u32 /s32 Zminus_mod Zmod_mod -Zminus_mod. replace (i + 2 ^ 31 - 2 ^ 31) with i by lia.
  by apply Z.mod_small.
Qed.
Lemma pth_init_run L ps p1 p2 id1 id2 :
  registered L ps → tenv_calloc (n_talloc L) = Some p1 → tenv_calloc (S (n_talloc L)) = Some p2 →
  penv_create (n_pcreate (thost L)) = Some id1 → penv_create (S (n_pcreate (thost L))) = Some id2 →
  ∃ L2 t1 t2, init_timer_mgr (pt_zero L) = Some (SUCCESS, TimerSpec.TimerWitness.idle_at 0 (thread_ids id1 id2 L2)) ∧
    infos L2 = <[p2 := t2]> (<[p1 := t1]> (infos L)) ∧
    tnodes L2 = <[T_tsk p2 := LH T_null T_null]> (<[T_tsk p1 := LH T_null T_null]> (tnodes L)) ∧
    task_id t1 = id1 ∧ start_routine t1 = Some fn_tick_service ∧ task_id t2 = id2 ∧ start_routine t2 = Some fn_tick_clock.
Proof.
  intros Hr Hp1 Hp2 Hi1 Hi2. set (nm1 := "TMRBHF"%string). set (nm2 := "TMRTHF"%string).
  destruct (lnx_create_run L nm1 99 TSK_SCHED_RR 32000 (Some fn_tick_service) None 0 p1 id1) as (L1&R1&I1&N1&_&_&A1&_&_&C1);
    [by vm_compute|by apply Nat.leb_le|done|done|].
  destruct (lnx_create_run L1 nm2 99 TSK_SCHED_RR 32000 (Some fn_tick_clock) None 0 p2 id2) as (L2&R2&I2&N2&_&_&A2&_&_&C2);
    [by vm_compute|by apply Nat.leb_le|by rewrite A1|by rewrite C1|].
  eexists L2, _, _. split; [|rewrite I2 N2 I1 N1; by split_and!]. rewrite /init_timer_mgr.
  set (s1 := TimerWitness.idle_at 0 (MkPthost L 0 0 [0; 0; 0; 0] [])). rewrite (bind_run timer_rq_init _ (pt_zero L) tt s1 eq_refl).
  set (s2 := TimerWitness.idle_at 0 (MkPthost L1 0 0 [0; 0; 0; 0] [])).
  rewrite (bind_run _ _ s1 (TSK_SUCCESS, Some id1) s2); [|exact (on_plib_run _ s1 _ _ R1)].
  set (s3 := TimerWitness.idle_at 0 (MkPthost L1 (s32 id1) 0 [0; 0; 0; 0] [])). rewrite (bind_run _ _ s2 tt s3 eq_refl).
  change (TSK_SUCCESS =? TSK_FAILURE) with false. cbv iota.
  set (s4 := TimerWitness.idle_at 0 (MkPthost L2 (s32 id1) 0 [0; 0; 0; 0] [])).
  rewrite (bind_run _ _ s3 (TSK_SUCCESS, Some id2) s4); [|exact (on_plib_run _ s3 _ _ R2)].
  set (s5 := TimerWitness.idle_at 0 (MkPthost L2 (s32 id1) (s32 id2) [0; 0; 0; 0] [])). rewrite (bind_run _ _ s4 tt s5 eq_refl).
  reflexivity.
Qed.
(** A thread that starts enters its block in the list. *)
Lemma thread_starts L ps p t r id :
  registered L ps → p ∉ ps → infos L !! p = Some t → start_routine t = Some r →
  ∃ L' t', tsk_wrap p (as_thread id L) = Some (tt, L') ∧ registered L' (p :: ps) ∧ infos L' = <[p := t']> (infos L) ∧
    task_id t' = task_id t ∧ tl_trace L' = tl_trace L ++ [Tl_start r (tskarg t)].
Proof.
  intros Hr Hp Ht Hs. destruct (tsk_wrap_run L ps p id t r Hr Hp Ht Hs) as (L'&now&Hw&Hr'&Hi&Htr). by exists L', (started_info id now t).
Qed.
Lemma fresh_pt_machine h : announced h [] → sems h = [1; 1; 1; 1] → pt_machine 0 (TimerSpec.TimerWitness.idle_at 0 h) TimerSpec.TimerWitness.no_trees [].
Proof.
  intros Hev Hse. split; [exact (TimerSpec.TimerWitness.idle_tinv 0 h)|by split|done|done| | |done|exact Hev|exact Hse].
  - intros a w r ct (_&Ha&_). by apply elem_of_nil in Ha.
  - intros a Ha. by apply elem_of_nil in Ha.
Qed.
(** [init_timer_mgr] creates the two threads and the semaphores and reports success; once the threads have started, in
    their order, the timers are in a state from which the theorems above hold: no timer, at the tick 0, with the service
    thread listening. *)
Theorem pth_init_starts L ps p1 p2 id1 id2 :
  registered L ps → tenv_calloc (n_talloc L) = Some p1 → tenv_calloc (S (n_talloc L)) = Some p2 → p1 ≠ p2 →
  infos L !! p1 = None → infos L !! p2 = None →
  penv_create (n_pcreate (thost L)) = Some id1 → penv_create (S (n_pcreate (thost L))) = Some id2 →
  id1 ≠ id2 → 0 ≤ id1 < 2 ^ 32 →
  ∃ s1 L1 L2, init_timer_mgr (pt_zero L) = Some (SUCCESS, s1) ∧
    tsk_wrap p1 (as_thread id1 (plib (host s1))) = Some (tt, L1) ∧ tsk_wrap p2 (as_thread id2 L1) = Some (tt, L2) ∧
    sems (host s1) = [1; 1; 1; 1] ∧
    pt_machine 0 (set_host (set_plib L2 (host s1)) s1) TimerSpec.TimerWitness.no_trees [].
Proof.
  intros Hr Hp1 Hp2 Hne Hf1 Hf2 Hi1 Hi2 Hid Hrange.
  destruct (pth_init_run L ps p1 p2 id1 id2 Hr Hp1 Hp2 Hi1 Hi2) as (L0&t1&t2&Hrun&HI&HN&T1&S1&T2&S2).
  set (L' := set_infos (<[p1 := t1]> (infos L)) (set_tnodes (<[T_tsk p1 := LH T_null T_null]> (tnodes L)) L)).
  destruct (registered_new L L' ps p1 t1 Hr Hf1 eq_refl eq_refl) as [Hn1 Hr'].
  destruct (registered_new L' L0 ps p2 t2 Hr') as [Hn2 Hr0]; [by rewrite /= lookup_insert_ne|done|done|].
  destruct (thread_starts L0 ps p1 t1 fn_tick_service id1 Hr0 Hn1) as (L1&t1'&Hw1&Hr1&I1&E1&_).
  { by rewrite HI lookup_insert_ne // lookup_insert_eq. }
  { done. }
  destruct (thread_starts L1 (p1 :: ps) p2 t2 fn_tick_clock id2 Hr1) as (L2&t2'&Hw2&Hr2&I2&E2&_).
  { by apply not_elem_of_cons. }
  { by rewrite I1 lookup_insert_ne // HI lookup_insert_eq. }
  { done. }
  eexists _, L1, L2. split; [exact Hrun|]. split; [exact Hw1|]. split; [exact Hw2|]. split; [done|].
  apply (fresh_pt_machine (set_plib L2 (thread_ids id1 id2 L0))); [|done]. exists t1'. split; [|done]. exists (p2 :: p1 :: ps), p1.
  split; [done|]. split; [|by cbn; rewrite I2 lookup_insert_ne // I1 lookup_insert_eq].
  assert (H2 : ¬ satisfies L2 (has_id (ulong (s32 id1))) p2).
  { rewrite /satisfies I2 lookup_insert_eq /= /has_id E2 T2 ulong_s32 // (proj2 (Z.eqb_neq id2 id1)) //. }
  assert (H1 : satisfies L2 (has_id (ulong (s32 id1))) p1).
  { rewrite /satisfies I2 lookup_insert_ne // I1 lookup_insert_eq /= /has_id E1 T1 ulong_s32 //. by rewrite Z.eqb_refl. }
  cbn. by rewrite /first_info filter_cons_False // filter_cons_True.
Qed.
End init.

(** ** A run *)
Module PthWitness.
#[local] Instance demo_blocks : TlEnv := {| tenv_calloc k := Some (Pos.of_succ_nat (50 + k)) |}.
#[local] Instance demo_threads : PthEnv :=
  {| penv_create k := Some (1000 + Z.of_nat k); penv_gettid i := i + 1; penv_times k := 3 * Z.of_nat k |}.
(** A handler does nothing to the timers and the tasks. *)
#[local] Instance demo_timers : PtEnv :=
  {| ptenv_talloc k := 4 * (Z.of_nat k + 1); ptenv_tsizeof _ := 64; ptenv_handler _ _ := mret tt |}.
Lemma demo_handlers : handlers_ok.
Proof.
  split; [intros hdl d; apply (respects_ret same_sems)|]. intros hdl d s b t Ht. apply wp_ret. exists (plib (host s)), t.
  split; [by destruct s as [??????????[]]|done].
Qed.
Definition no_tasks : tlib pth := TaskLibWitness.on_pthreads.

(** The two threads run. *)
Definition after {S A} (m : M S A) (s : S) : S := match m s with Some (_, s') => s' | None => s end.
Definition begun : tms pthost :=
  let s1 := after init_timer_mgr (pt_zero no_tasks) in
  set_host (set_plib (after (tsk_wrap 52) (as_thread 1001 (after (tsk_wrap 51) (as_thread 1000 (plib (host s1)))))) (host s1)) s1.
Lemma begun_machine : pt_machine 0 begun TimerWitness.no_trees [].
Proof.
  destruct (pth_init_starts no_tasks [] 51 52 1000 1001 (TaskLibWitness.empty_registered _)) as (s1&L1&L2&Hr&Hw1&Hw2&_&Hm);
    [by vm_compute..|]. rewrite /begun /after. rewrite Hr Hw1 Hw2. exact Hm.
Qed.
(** A run without new timers, evaluated. *)
Fixpoint replay (os : list pt_op) (s : tms pthost) : option (tms pthost) :=
  match os with
  | [] => Some s
  | o :: os =>
      if (match o with P_tick => clock (clk s) TICK + 1 <? 2 ^ 32 | P_serve => true | P_start _ _ _ => false end)
      then match run_pt o s with Some (_, s') => replay os s' | None => None end else None
  end.
Lemma replay_pruns os s s' : replay os s = Some s' → pruns s os s'.
Proof.
  assert (Hgo : ∀ s0 pre s, pruns s0 pre s → replay os s = Some s' → pruns s0 (pre ++ os) s'); [|exact (Hgo s [] s (pruns_nil s))].
  induction os as [|o os IH]; intros s0 pre s1 Hp; cbn [replay]; [rewrite app_nil_r; by intros [= <-]|].
  destruct (match o with P_tick => _ | _ => _ end) eqn:Ho; [|done]. destruct (run_pt o s1) as [[[] s2]|] eqn:Hr; [|done].
  intros H. replace (pre ++ o :: os) with ((pre ++ [o]) ++ os) by by rewrite -app_assoc. apply (IH s0 (pre ++ [o]) s2); [|done].
  eapply pruns_snoc; [done| |done]. destruct o; [by apply Z.ltb_lt|done|done].
Qed.
(** A timer of three ticks; the service thread is late by two ticks. *)
Definition set3 : tms pthost := after (run_pt (P_start 3 77 9)) begun.
Definition late_run : list pt_op := [P_tick; P_serve; P_tick; P_tick; P_tick; P_tick].
Definition waiting : tms pthost := default set3 (replay late_run set3).
Lemma late_pruns : pruns set3 late_run waiting.
Proof. apply replay_pruns. rewrite /waiting. destruct (replay late_run set3) as [s|] eqn:H; [done|]. exfalso. revert H. by vm_compute. Qed.
Lemma start_allowed : pt_allowed (P_start 3 77 9) begun.
Proof. split; [split; by vm_compute|]. split; [by vm_compute|]. split; [|by vm_compute]. split; [intros Hx; by vm_compute|]. intros a Hx. split; [split; by vm_compute|]. split; by vm_compute. Qed.
Lemma start_runs : run_pt (P_start 3 77 9) begun = Some (tt, set3).
Proof. rewrite /set3 /after. destruct (run_pt _ begun) as [[[] s]|] eqn:H; [done|]. exfalso. revert H. by vm_compute. Qed.
Lemma start_possible : ¬ start_fails begun.
Proof. intros [H|[H|[H|H]]]; revert H; by vm_compute. Qed.

Lemma pth_timer_fires_witness : ∃ s3 cs,
  run_pt P_serve waiting = Some (tt, s3) ∧ pt_calls (host s3) = pt_calls (host waiting) ++ cs ∧ (9, 77) ∈ cs.
Proof.
  assert (Hun : unserved_since (3 - 0 `mod` unit_of (slot (encode_time 0 3)).1) late_run).
  { intros os1 os2 H. rewrite /late_run in H. do 6 (destruct os1 as [|? os1];
      [first [discriminate H|by vm_compute]|cbn [app] in H; injection H as <- H]). by destruct os1. }
  pose proof (pth_timer_fires 0 begun TimerWitness.no_trees [] 3 77 9 set3 late_run waiting demo_handlers begun_machine start_allowed
    start_possible eq_refl start_runs late_pruns Hun) as H.
  destruct (decide _) as [Hlt|_]; [exfalso; revert Hlt; by vm_compute|exact H].
Defined.
Lemma pth_never_crash_witness : ∃ s3 tr3 xs3, run_pt P_serve waiting = Some (tt, s3) ∧ pt_machine (0 + pt_ticks ((P_start 3 77 9 :: late_run) ++ [P_serve])) s3 tr3 xs3.
Proof.
  apply (pth_timers_never_crash 0 begun TimerWitness.no_trees [] (P_start 3 77 9 :: late_run) waiting P_serve demo_handlers begun_machine); [|done].
  apply (pruns_app _ [P_start 3 77 9] set3); [|exact late_pruns].
  exact (pruns_snoc _ [] _ _ _ (pruns_nil _) start_allowed start_runs).
Defined.
(** The clock of the host went on by three ticks. *)
Lemma tick_thread_witness : ∃ s' tr' xs', tick_clock begun = Some (tt, s') ∧ pt_machine 3 s' tr' xs'.
Proof.
  destruct (tick_thread_counts 0 begun TimerWitness.no_trees [] begun_machine) as (s'&tr'&xs'&Hr&_&Hm); [by vm_compute|].
  exists s', tr', xs'. split; [exact Hr|exact Hm].
Defined.
(** The semaphores of [begun] are free; a walk through the wheel of the seconds gives its semaphore back.  With
    that semaphore taken the walk does not get past it. *)
Lemma semaphores_witness :
  given_back (timer_tree_walk SEC 5) (timer_tree_walk (WL := no_locks) SEC 5) begun ∧
  timer_tree_walk SEC 5 (with_sem SEC 0 begun) = None.
Proof.
  destruct (semaphores_given_back begun 4 SEC 5 4 1 3 77 9 0) as [(_&_&Hw&_) _]; [by vm_compute|].
  destruct (semaphores_given_back (with_sem SEC 0 begun) 4 SEC 5 4 1 3 77 9 0) as [_ (_&_&_&Hh&_)]; [by vm_compute..|].
  by split.
Defined.
End PthWitness.
